(** * File_Sync: one-way folder synchronisation

    A shallow embedding of the synchronisation engine of
    [GUI/file_sync_extended.py] and [Simple/file_sync_simple.py]:
    change detection ([modified_check]), planning ([sync_directory]),
    copy with verification and bounded retry ([copy_validate]),
    stale-entry removal ([cleanup_replica]) and their sequencing
    ([synchronization], [run]).

    The filesystem is the environment of the program.  It is modelled as
    two disjoint trees, the one below the source folder and the one below
    the replica folder; a path is a side together with the list of its
    components below that folder.  Files carry their modification time and
    their bytes, directories their entries in listing order; the [os.stat]
    record of a directory lives in a table on the side and its modification
    time is set from a clock whenever an entry is added to or removed from
    it.  Symbolic links, permissions and concurrent mutation by other
    processes are outside the model.  I/O errors and silent corruption are
    injected by a fault plan that the copy and read primitives consume. *)

From Stdlib Require Import List ZArith Lia Bool String.
From Stdlib Require Import Strings.Byte.
Import ListNotations.
Set Warnings "-register-all".
Open Scope Z_scope.
Open Scope list_scope.

(** ** Data *)

Definition path := list string.

Inductive side := Source | Replica.

Definition fpath := (side * path)%type.

Inductive node :=
| File (mtime : Z) (data : list byte)
| Dir (entries : list (string * node)).

(** The two fields of [os.stat_result] the program reads. *)
Record stat_result := mkStat { st_size : Z; st_mtime : Z }.

(** Python exceptions the modelled calls raise.  [SystemExit] derives from
    [BaseException] only, so [except Exception] does not catch it. *)
Inductive exn :=
| FileNotFoundError
| FileExistsError
| IsADirectoryError
| NotADirectoryError
| SameFileError
| OSError
| ValueError
| SystemExit (code : Z).

Definition is_Exception (e : exn) : bool :=
  match e with
  | SystemExit _ => false
  | _ => true
  end.

(** The texts the program logs or returns, one constructor per f-string. *)
Inductive message :=
| MsgCopied (original_file replica_file : fpath)
    (* "File copied successfully: {..} to {..}" *)
| MsgUpdated (replica_file : fpath)
    (* "File updated successfully: {replica_file}" *)
| MsgFailed (original_file : fpath) (retries : Z)
    (* "Failed to copy {original_file} after {max_retries} attempts" *)
| MsgHashMismatch (original_file replica_file : fpath)
    (* "Hash mismatch detected! Original: .., Replica: ... Retrying..." *)
| MsgCopyError (original_file replica_file : fpath) (error : exn)
    (* "Error copying file: {..} to {..}: {error}" *)
| MsgFileRemoved (replica_file : fpath)
    (* "File removed: {replica_file}" *)
| MsgDirRemoved (replica_dir_path : fpath)
    (* "Directory removed: {replica_dir_path}" *).

(** What the outside world can observe, in the order it happens. *)
Inductive event :=
| EvMakedirs (p : fpath)
| EvCopy2 (src dst : fpath)
| EvXxhash (p : fpath)
| EvRemove (p : fpath)
| EvRmtree (p : fpath)
| EvPool (max_workers : Z)
| EvSchedule (procnum : Z)
| EvInfo (m : message)
| EvError (m : message).

(** One entry of the fault plan, consumed by one call of [shutil.copy2] or
    of [calculate_xxhash]. *)
Inductive fault :=
| Fine
| Fails                          (* the call raises OSError, nothing written *)
| Partial (written : list byte)  (* copy2 leaves these bytes, then raises *)
| Corrupts (noise : list byte)   (* copy2 returns, bytes damaged in place *).

(** A handler on the root logger of the [logging] module. *)
Inductive handler :=
| FileHandler     (* [logging.FileHandler(log_file, encoding='utf-8')] *)
| StreamHandler   (* [logging.StreamHandler()] *).

Record world := mkWorld {
  src : node;
  rep : node;
  dstat : side -> path -> stat_result;
  fresh_dir_size : Z;
  now : Z;
  faults : list fault;
  trace : list event;
  sys_platform : string;     (* [sys.platform] *)
  handlers : list handler    (* [logging.getLogger().handlers] *)
}.

(** The streaming 64-bit hash object of the xxhash library:
    [xxhash.xxh64()], [.update(chunk)], [.hexdigest()]. *)
Class Xxhash := {
  xxh_state : Type;
  xxh64 : xxh_state;
  xxh_update : xxh_state -> list byte -> xxh_state;
  xxh_hexdigest : xxh_state -> string
}.

(** ** Computations: state, exceptions, fuel *)

Inductive outcome (A : Type) :=
| Ok (a : A)
| Raise (e : exn)
| OutOfFuel.
Arguments Ok {A} a.
Arguments Raise {A} e.
Arguments OutOfFuel {A}.

Definition M (A : Type) := world -> outcome A * world.

Definition ret {A} (a : A) : M A := fun w => (Ok a, w).

Definition bind {A B} (m : M A) (k : A -> M B) : M B :=
  fun w =>
    match m w with
    | (Ok a, w') => k a w'
    | (Raise e, w') => (Raise e, w')
    | (OutOfFuel, w') => (OutOfFuel, w')
    end.

Definition raise {A} (e : exn) : M A := fun w => (Raise e, w).

Definition out_of_fuel {A} : M A := fun w => (OutOfFuel, w).

(** [try: body except Exception as error: handler]. *)
Definition try_except {A} (body : M A) (handler : exn -> M A) : M A :=
  fun w =>
    match body w with
    | (Raise e, w') => if is_Exception e then handler e w' else (Raise e, w')
    | r => r
    end.

Notation "x <- m ;; k" := (bind m (fun x => k))
  (at level 61, m at next level, right associativity).
Notation "m ;; k" := (bind m (fun _ => k))
  (at level 61, right associativity).

(** [for x in xs: body x]. *)
Fixpoint for_each {A} (xs : list A) (body : A -> M unit) : M unit :=
  match xs with
  | [] => ret tt
  | x :: xs' => body x ;; for_each xs' body
  end.

(** ** The filesystem trees *)

Definition is_dir (n : node) : bool :=
  match n with Dir _ => true | File _ _ => false end.

Fixpoint assoc (name : string) (es : list (string * node)) : option node :=
  match es with
  | [] => None
  | (k, v) :: es' => if String.eqb k name then Some v else assoc name es'
  end.

(** Drop the entry called [name]. *)
Fixpoint del (name : string) (es : list (string * node))
  : list (string * node) :=
  match es with
  | [] => []
  | (k, v) :: es' =>
      if String.eqb k name then del name es' else (k, v) :: del name es'
  end.

(** Replace the entry called [name] where it stands, or add it at the end. *)
Fixpoint put (name : string) (v : node) (es : list (string * node))
  : list (string * node) :=
  match es with
  | [] => [(name, v)]
  | (k, v') :: es' =>
      if String.eqb k name then (k, v) :: es' else (k, v') :: put name v es'
  end.

(** The node at a path below the root [n], if any. *)
Fixpoint lookup (n : node) (p : path) : option node :=
  match p with
  | [] => Some n
  | name :: q =>
      match n with
      | File _ _ => None
      | Dir es =>
          match assoc name es with
          | Some c => lookup c q
          | None => None
          end
      end
  end.

(** Apply [f] to the entries of the directory at [p]; [None] when [p] is
    not a directory of the tree. *)
Fixpoint alter (p : path)
    (f : list (string * node) -> list (string * node)) (n : node)
  : option node :=
  match n with
  | File _ _ => None
  | Dir es =>
      match p with
      | [] => Some (Dir (f es))
      | name :: q =>
          match assoc name es with
          | Some c =>
              match alter q f c with
              | Some c' => Some (Dir (put name c' es))
              | None => None
              end
          | None => None
          end
      end
  end.

(** The chain of fresh directories [p] names, innermost last. *)
Fixpoint fresh_dirs (p : path) : node :=
  match p with
  | [] => Dir []
  | name :: q => Dir [(name, fresh_dirs q)]
  end.

(** [os.makedirs] on a tree: descend as long as the components exist, then
    create the rest. *)
Fixpoint mkdirs (p : path) (n : node) : exn + node :=
  match n with
  | File _ _ =>
      match p with
      | [] => inl FileExistsError
      | _ :: _ => inl NotADirectoryError
      end
  | Dir es =>
      match p with
      | [] => inl FileExistsError
      | name :: q =>
          match assoc name es with
          | Some c =>
              match mkdirs q c with
              | inr c' => inr (Dir (put name c' es))
              | inl e => inl e
              end
          | None => inr (Dir (put name (fresh_dirs q) es))
          end
      end
  end.

(** The names a directory listing classifies as directories and as files,
    in listing order. *)
Definition dir_names (es : list (string * node)) : list string :=
  map fst (filter (fun e => is_dir (snd e)) es).

Definition file_names (es : list (string * node)) : list string :=
  map fst (filter (fun e => negb (is_dir (snd e))) es).

(** A path is split into its directory and its last component. *)
Fixpoint split_last (p : path) : option (path * string) :=
  match p with
  | [] => None
  | [name] => Some ([], name)
  | d :: q =>
      match split_last q with
      | Some (q', name) => Some (d :: q', name)
      | None => None
      end
  end.

(** In-place damage: the first bytes are replaced by the noise, the length
    stays. *)
Definition damage (data noise : list byte) : list byte :=
  firstn (List.length data) noise ++ skipn (List.length noise) data.

(** ** [os.walk]

    The triples [(root, dirs, files)] the generator yields for the tree
    below [root].  A directory is listed before the walk descends into it,
    and the loops of this program only ever change entries of the directory
    just yielded (bottom-up) or of another tree (top-down), so every listing
    is the one of the tree at the start of the walk. *)

Definition yielded := (path * list string * list string)%type.

Fixpoint walk_topdown (root : path) (n : node) : list yielded :=
  match n with
  | File _ _ => []
  | Dir es =>
      (root, dir_names es, file_names es)
      :: (fix children (l : list (string * node)) : list yielded :=
            match l with
            | [] => []
            | (name, c) :: l' =>
                walk_topdown (root ++ [name]) c ++ children l'
            end) es
  end.

Fixpoint walk_bottomup (root : path) (n : node) : list yielded :=
  match n with
  | File _ _ => []
  | Dir es =>
      (fix children (l : list (string * node)) : list yielded :=
         match l with
         | [] => []
         | (name, c) :: l' =>
             walk_bottomup (root ++ [name]) c ++ children l'
         end) es
      ++ [(root, dir_names es, file_names es)]
  end.

(** ** The calls into [os], [shutil] and [logging] *)

Definition side_eqb (a b : side) : bool :=
  match a, b with
  | Source, Source | Replica, Replica => true
  | _, _ => false
  end.

Fixpoint path_eqb (p q : path) : bool :=
  match p, q with
  | [], [] => true
  | a :: p', b :: q' => String.eqb a b && path_eqb p' q'
  | _, _ => false
  end.

Definition fpath_eqb (a b : fpath) : bool :=
  side_eqb (fst a) (fst b) && path_eqb (snd a) (snd b).

Fixpoint is_prefix (p q : path) : bool :=
  match p, q with
  | [], _ => true
  | a :: p', b :: q' => String.eqb a b && is_prefix p' q'
  | _ :: _, [] => false
  end.

Definition tree (sd : side) (w : world) : node :=
  match sd with Source => src w | Replica => rep w end.

Definition set_tree (sd : side) (t : node) (w : world) : world :=
  match sd with
  | Source => mkWorld t (rep w) (dstat w) (fresh_dir_size w) (now w)
                (faults w) (trace w) (sys_platform w) (handlers w)
  | Replica => mkWorld (src w) t (dstat w) (fresh_dir_size w) (now w)
                 (faults w) (trace w) (sys_platform w) (handlers w)
  end.

Definition set_dstat (tbl : side -> path -> stat_result) (w : world) : world :=
  mkWorld (src w) (rep w) tbl (fresh_dir_size w) (now w) (faults w) (trace w)
    (sys_platform w) (handlers w).

Definition set_now (t : Z) (w : world) : world :=
  mkWorld (src w) (rep w) (dstat w) (fresh_dir_size w) t (faults w) (trace w)
    (sys_platform w) (handlers w).

Definition set_faults (fs : list fault) (w : world) : world :=
  mkWorld (src w) (rep w) (dstat w) (fresh_dir_size w) (now w) fs (trace w)
    (sys_platform w) (handlers w).

Definition set_trace (tr : list event) (w : world) : world :=
  mkWorld (src w) (rep w) (dstat w) (fresh_dir_size w) (now w) (faults w) tr
    (sys_platform w) (handlers w).

Definition set_handlers (hs : list handler) (w : world) : world :=
  mkWorld (src w) (rep w) (dstat w) (fresh_dir_size w) (now w) (faults w)
    (trace w) (sys_platform w) hs.

Definition get : M world := fun w => (Ok w, w).

Definition emit (e : event) : M unit :=
  fun w => (Ok tt, set_trace (trace w ++ [e]) w).

Definition next_fault : M fault :=
  fun w =>
    match faults w with
    | [] => (Ok Fine, w)
    | f :: fs => (Ok f, set_faults fs w)
    end.

(** [log.info(..)] and [log.error(..)].  The trace holds one event for the
    call; [Logger.callHandlers] then passes the record to every handler
    on the root logger, so the log file gets one line for each of its file
    handlers. *)
Definition log_info (m : message) : M unit := emit (EvInfo m).
Definition log_error (m : message) : M unit := emit (EvError m).

(** [setup_logger(log_file)], the same in the two scripts: a new file
    handler and a new stream handler are added to the root logger, after
    the handlers it has; none is ever removed.  The log file lies outside
    the two trees; opening it is taken to succeed. *)
Definition setup_logger : M unit :=
  fun w => (Ok tt, set_handlers (handlers w ++ [FileHandler; StreamHandler]) w).

(** An entry was added to or removed from the directory [d]: its
    modification time becomes the current time, and time passes. *)
Definition touch (d : fpath) : M unit :=
  fun w =>
    let tbl := fun sd q =>
      if fpath_eqb (sd, q) d
      then mkStat (st_size (dstat w sd q)) (now w)
      else dstat w sd q in
    (Ok tt, set_now (now w + 1) (set_dstat tbl w)).

Definition os_path_join (root : fpath) (name : string) : fpath :=
  (fst root, snd root ++ [name]).

Definition os_path_basename (p : fpath) : string :=
  match split_last (snd p) with
  | Some (_, name) => name
  | None => EmptyString
  end.

Definition os_path_exists (p : fpath) : M bool :=
  fun w =>
    match lookup (tree (fst p) w) (snd p) with
    | Some _ => (Ok true, w)
    | None => (Ok false, w)
    end.

Definition os_stat (p : fpath) : M stat_result :=
  fun w =>
    match lookup (tree (fst p) w) (snd p) with
    | Some (File m data) => (Ok (mkStat (Z.of_nat (List.length data)) m), w)
    | Some (Dir _) => (Ok (dstat w (fst p) (snd p)), w)
    | None => (Raise FileNotFoundError, w)
    end.

Definition put_tree (sd : side) (t : node) : M unit :=
  fun w => (Ok tt, set_tree sd t w).

(** The longest prefix of [p] that exists in the tree. *)
Fixpoint deepest (n : node) (p : path) : path :=
  match p with
  | [] => []
  | name :: q =>
      match n with
      | File _ _ => []
      | Dir es =>
          match assoc name es with
          | Some c => name :: deepest c q
          | None => []
          end
      end
  end.

(** [os.makedirs(p)]: the directory and every missing parent are created;
    the last existing parent gets a new entry, every new directory the
    stat record of a fresh one. *)
Definition os_makedirs (p : fpath) : M unit :=
  emit (EvMakedirs p) ;;
  w <- get ;;
  match mkdirs (snd p) (tree (fst p) w) with
  | inl e => raise e
  | inr t =>
      let old := deepest (tree (fst p) w) (snd p) in
      let tbl := fun sd q =>
        if side_eqb sd (fst p) && is_prefix old q && is_prefix q (snd p)
        then if path_eqb q old
             then mkStat (st_size (dstat w sd q)) (now w)
             else mkStat (fresh_dir_size w) (now w)
        else dstat w sd q in
      fun w0 => (Ok tt, set_now (now w0 + 1) (set_dstat tbl (set_tree (fst p) t w0)))
  end.

(** The file [dirp/name] on the side of [p] gets the content [f]; a new
    entry changes its directory. *)
Definition write_file (sd : side) (dirp : path) (name : string)
    (existed : bool) (f : node) : M unit :=
  w <- get ;;
  match alter dirp (put name f) (tree sd w) with
  | None => raise OSError
  | Some t =>
      put_tree sd t ;;
      if existed then ret tt else touch (sd, dirp)
  end.

(** [shutil.copy2(original, replica)]: a directory as destination means the
    file of the same name inside it; the bytes are copied, then the
    modification time ([copystat]).  An injected fault makes the call raise
    (with or without bytes left behind) or damages the bytes written. *)
Definition shutil_copy2 (original replica : fpath) : M unit :=
  emit (EvCopy2 original replica) ;;
  w <- get ;;
  let dst :=
    match lookup (tree (fst replica) w) (snd replica) with
    | Some (Dir _) => os_path_join replica (os_path_basename original)
    | _ => replica
    end in
  if fpath_eqb original dst then raise SameFileError else
  match lookup (tree (fst original) w) (snd original) with
  | None => raise FileNotFoundError
  | Some (Dir _) => raise IsADirectoryError
  | Some (File m data) =>
      match split_last (snd dst) with
      | None => raise OSError
      | Some (dirp, name) =>
          match lookup (tree (fst dst) w) dirp with
          | None => raise FileNotFoundError
          | Some (File _ _) => raise NotADirectoryError
          | Some (Dir es) =>
              match assoc name es with
              | Some (Dir _) => raise IsADirectoryError
              | old =>
                  let existed := match old with Some _ => true | None => false end in
                  flt <- next_fault ;;
                  match flt with
                  | Fails => raise OSError
                  | Partial written =>
                      write_file (fst dst) dirp name existed (File (now w) written) ;;
                      raise OSError
                  | Corrupts noise =>
                      write_file (fst dst) dirp name existed
                        (File m (damage data noise))
                  | Fine =>
                      write_file (fst dst) dirp name existed (File m data)
                  end
              end
          end
      end
  end.

(** [os.remove(p)] deletes a file. *)
Definition os_remove (p : fpath) : M unit :=
  emit (EvRemove p) ;;
  w <- get ;;
  match lookup (tree (fst p) w) (snd p), split_last (snd p) with
  | None, _ => raise FileNotFoundError
  | Some (Dir _), _ => raise IsADirectoryError
  | Some (File _ _), None => raise OSError
  | Some (File _ _), Some (dirp, name) =>
      match alter dirp (del name) (tree (fst p) w) with
      | None => raise OSError
      | Some t => put_tree (fst p) t ;; touch (fst p, dirp)
      end
  end.

(** [shutil.rmtree(p)] deletes a directory with everything below it.  The
    folder a tree hangs from cannot be removed in this model; the program
    never asks for it. *)
Definition shutil_rmtree (p : fpath) : M unit :=
  emit (EvRmtree p) ;;
  w <- get ;;
  match lookup (tree (fst p) w) (snd p), split_last (snd p) with
  | None, _ => raise FileNotFoundError
  | Some (File _ _), _ => raise NotADirectoryError
  | Some (Dir _), None => raise OSError
  | Some (Dir _), Some (dirp, name) =>
      match alter dirp (del name) (tree (fst p) w) with
      | None => raise OSError
      | Some t => put_tree (fst p) t ;; touch (fst p, dirp)
      end
  end.

(** [multiprocessing.cpu_count()] is a constant of the host. *)
Class Host := { cpu_count : Z }.

(** [for x in xs: acc = body acc x], returning the accumulator. *)
Fixpoint for_fold {A S} (xs : list A) (acc : S) (body : S -> A -> M S) : M S :=
  match xs with
  | [] => ret acc
  | x :: xs' => acc' <- body acc x ;; for_fold xs' acc' body
  end.

(** [[f(x) for x in xs]]. *)
Fixpoint for_map {A B} (xs : list A) (f : A -> M B) : M (list B) :=
  match xs with
  | [] => ret []
  | x :: xs' => y <- f x ;; ys <- for_map xs' f ;; ret (y :: ys)
  end.

(** ** Code shared by the two scripts *)

(** [f.read(chunk_size)] until the empty read. *)
Fixpoint read_chunks (fuel : nat) (chunk_size : nat) (data : list byte)
  : list (list byte) :=
  match fuel with
  | O => []
  | S fuel' =>
      match data with
      | [] => []
      | _ :: _ =>
          firstn chunk_size data
          :: read_chunks fuel' chunk_size (skipn chunk_size data)
      end
  end.

Section Hashing.
Context {H : Xxhash}.

(** The digest [calculate_xxhash] returns for a file with these bytes. *)
Definition digest_of (chunk_size : nat) (data : list byte) : string :=
  xxh_hexdigest
    (fold_left xxh_update (read_chunks (List.length data) chunk_size data) xxh64).

Definition calculate_xxhash (file_path : fpath) : M string :=
  emit (EvXxhash file_path) ;;
  w <- get ;;
  match lookup (tree (fst file_path) w) (snd file_path) with
  | None => raise FileNotFoundError
  | Some (Dir _) => raise IsADirectoryError
  | Some (File _ data) =>
      flt <- next_fault ;;
      match flt with
      | Fails | Partial _ => raise OSError
      | Fine | Corrupts _ => ret (digest_of 4096 data)
      end
  end.

End Hashing.

Definition max_retries : Z := 3.

(** [_MAX_WINDOWS_WORKERS] of [concurrent.futures.process]. *)
Definition max_windows_workers : Z := 61.

(** Iterations granted to a [while] loop of the model; the loops of
    [copy_validate] are shown never to use them up. *)
Definition while_fuel : nat := 64.

(** ** [GUI/file_sync_extended.py] *)

Module Extended.
Section Code.
Context {H : Xxhash} {host : Host}.

(** [True] means unchanged. *)
Definition modified_check (source_file replica_file : fpath) : M bool :=
  e <- os_path_exists replica_file ;;
  if negb e then ret false else
  source_stat <- os_stat source_file ;;
  replica_stat <- os_stat replica_file ;;
  if negb (st_size source_stat =? st_size replica_stat)
     || negb (st_mtime source_stat =? st_mtime replica_stat)
  then ret false
  else ret true.

(** The body of [for file in files]. *)
Definition sync_file (strict : bool) (source_file replica_file : fpath)
    (file_tasks : list (fpath * fpath)) : M (list (fpath * fpath)) :=
  if strict then
    unchanged <- modified_check source_file replica_file ;;
    if negb unchanged then
      ret (file_tasks ++ [(source_file, replica_file)])
    else
      sh <- calculate_xxhash source_file ;;
      rh <- calculate_xxhash replica_file ;;
      if negb (String.eqb sh rh) then
        ret (file_tasks ++ [(source_file, replica_file)])
      else ret file_tasks
  else
    unchanged <- modified_check source_file replica_file ;;
    if negb unchanged then
      ret (file_tasks ++ [(source_file, replica_file)])
    else ret file_tasks.

(** The body of [for root, _, files in os.walk(source_dir)]. *)
Definition sync_root (source_dir replica_dir : side) (strict : bool)
    (file_tasks : list (fpath * fpath)) (y : yielded)
  : M (list (fpath * fpath)) :=
  let '(root, _, files) := y in
  let relative_path := root in
  let replica_root := (replica_dir, relative_path) in
  e <- os_path_exists replica_root ;;
  (if negb e then os_makedirs replica_root else ret tt) ;;
  for_fold files file_tasks
    (fun file_tasks file =>
       let source_file := os_path_join (source_dir, root) file in
       let replica_file := os_path_join replica_root file in
       sync_file strict source_file replica_file file_tasks).

Definition sync_directory (source_dir replica_dir : side) (strict : bool)
  : M (list (fpath * fpath)) :=
  w <- get ;;
  for_fold (walk_topdown [] (tree source_dir w)) []
    (sync_root source_dir replica_dir strict).

(** One turn of the [while] loop: [inl] is the value returned, [inr] the
    new [retry_count]. *)
Definition copy_validate_body (original_file replica_file : fpath)
    (retry_count : Z) : M (message + Z) :=
  try_except
    (shutil_copy2 original_file replica_file ;;
     source_hash <- calculate_xxhash original_file ;;
     replica_hash <- calculate_xxhash replica_file ;;
     if String.eqb source_hash replica_hash then
       ret (inl (MsgCopied original_file replica_file))
     else
       log_error (MsgHashMismatch original_file replica_file) ;;
       ret (inr (retry_count + 1)))
    (fun error =>
       log_error (MsgCopyError original_file replica_file error) ;;
       ret (inr (retry_count + 1))).

Fixpoint copy_validate_while (fuel : nat) (original_file replica_file : fpath)
    (retry_count : Z) : M message :=
  if retry_count <=? max_retries then
    match fuel with
    | O => out_of_fuel
    | S fuel' =>
        r <- copy_validate_body original_file replica_file retry_count ;;
        match r with
        | inl result => ret result
        | inr retry_count' =>
            copy_validate_while fuel' original_file replica_file retry_count'
        end
    end
  else ret (MsgFailed original_file max_retries).

Definition copy_validate (original_file replica_file : fpath) : M message :=
  let retry_count := 0 in
  copy_validate_while while_fuel original_file replica_file retry_count.

(** [dirs.remove(currdir)] only edits a list the finished bottom-up walk no
    longer reads; it is left out. *)

(** The body of [for file in files]. *)
Definition cleanup_file (source_root replica_root : fpath) (file : string)
  : M unit :=
  let source_file := os_path_join source_root file in
  let replica_file := os_path_join replica_root file in
  e <- os_path_exists source_file ;;
  if negb e then
    os_remove replica_file ;;
    log_info (MsgFileRemoved replica_file)
  else ret tt.

(** The body of [for currdir in dirs[:]]. *)
Definition cleanup_dir (source_root replica_root : fpath) (currdir : string)
  : M unit :=
  let source_dir_path := os_path_join source_root currdir in
  let replica_dir_path := os_path_join replica_root currdir in
  e <- os_path_exists source_dir_path ;;
  if negb e then
    shutil_rmtree replica_dir_path ;;
    log_info (MsgDirRemoved replica_dir_path)
  else ret tt.

(** The body of [for root, dirs, files in os.walk(.., topdown=False)]. *)
Definition cleanup_root (source_dir replica_dir : side) (y : yielded)
  : M unit :=
  let '(root, dirs, files) := y in
  let relative_path := root in
  let source_root := (source_dir, relative_path) in
  for_each files (cleanup_file source_root (replica_dir, root)) ;;
  for_each dirs (cleanup_dir source_root (replica_dir, root)).

Definition cleanup_replica (source_dir replica_dir : side) : M unit :=
  w <- get ;;
  for_each (walk_bottomup [] (tree replica_dir w))
    (cleanup_root source_dir replica_dir).

(** [ProcessPoolExecutor(max_workers=procnum)] refuses a size below one
    and, on Windows, a size above [_MAX_WINDOWS_WORKERS].  The workers run
    independent tasks; they are modelled one after the other in submission
    order, the order in which the results are read. *)
Definition process_pool (max_workers : Z) : M unit :=
  if max_workers <=? 0 then raise ValueError else
  w <- get ;;
  if String.eqb (sys_platform w) "win32" && (max_windows_workers <? max_workers)
  then raise ValueError
  else emit (EvPool max_workers).

(** The [if multi: ... else: ...] of [synchronization]. *)
Definition copy_tasks (multi : bool) (procnum : Z)
    (file_tasks : list (fpath * fpath)) : M unit :=
  if multi then
    process_pool procnum ;;
    futures <- for_map file_tasks (fun '(s, d) => copy_validate s d) ;;
    for_each futures (fun result => log_info result)
  else
    for_each file_tasks
      (fun '(s, d) => result <- copy_validate s d ;; log_info result).

Definition synchronization (source replica : side) (multi : bool)
    (procnum : Z) (strict : bool) : M unit :=
  setup_logger ;;
  file_tasks <- sync_directory source replica strict ;;
  copy_tasks multi procnum file_tasks ;;
  cleanup_replica source replica.

(** [schtasks /Create ... --procnum {procnum}]. *)
Definition schedule_task (procnum : Z) : M unit := emit (EvSchedule procnum).

Definition sys_exit {A} (code : Z) : M A := raise (SystemExit code).

(** [while True: synchronization(...); time.sleep(...)], watched for
    [rounds] rounds. *)
Fixpoint run_forever (rounds : nat) (pass : M unit) : M unit :=
  match rounds with
  | O => out_of_fuel
  | S rounds' => pass ;; run_forever rounds' pass
  end.

(** The interval and its unit only set the length of the sleep. *)
Definition run (rounds : nat) (source replica : side) (multi : bool)
    (procnum : Z) (strict sched : bool) (now : string) : M unit :=
  (if String.eqb now "1" then synchronization source replica multi procnum strict
   else ret tt) ;;
  (if String.eqb now "2" then
     synchronization source replica multi procnum strict ;; sys_exit 0
   else ret tt) ;;
  let procnum := Z.min procnum cpu_count in
  (if sched then schedule_task procnum ;; sys_exit 0 else ret tt) ;;
  run_forever rounds (synchronization source replica multi procnum strict).

End Code.
End Extended.

(** ** [Simple/file_sync_simple.py] *)

Module Simple.
Section Code.
Context {H : Xxhash}.

(** [[unchanged, existed]]. *)
Definition modified_check (source_file replica_file : fpath) : M (bool * Z) :=
  e <- os_path_exists replica_file ;;
  if negb e then ret (false, 0) else
  source_stat <- os_stat source_file ;;
  replica_stat <- os_stat replica_file ;;
  if negb (st_size source_stat =? st_size replica_stat)
     || negb (st_mtime source_stat =? st_mtime replica_stat)
  then ret (false, 1)
  else ret (true, 1).

Definition copy_validate_body (original_file replica_file : fpath)
    (check : Z) (retry_count : Z) : M (message + Z) :=
  try_except
    (shutil_copy2 original_file replica_file ;;
     source_hash <- calculate_xxhash original_file ;;
     replica_hash <- calculate_xxhash replica_file ;;
     if String.eqb source_hash replica_hash then
       if negb (check =? 0) then ret (inl (MsgUpdated replica_file))
       else ret (inl (MsgCopied replica_file replica_file))
     else
       log_error (MsgHashMismatch original_file replica_file) ;;
       ret (inr (retry_count + 1)))
    (fun error =>
       log_error (MsgCopyError original_file replica_file error) ;;
       ret (inr (retry_count + 1))).

Fixpoint copy_validate_while (fuel : nat) (original_file replica_file : fpath)
    (check : Z) (retry_count : Z) : M message :=
  if retry_count <=? max_retries then
    match fuel with
    | O => out_of_fuel
    | S fuel' =>
        r <- copy_validate_body original_file replica_file check retry_count ;;
        match r with
        | inl result => ret result
        | inr retry_count' =>
            copy_validate_while fuel' original_file replica_file check
              retry_count'
        end
    end
  else ret (MsgFailed original_file max_retries).

Definition copy_validate (original_file replica_file : fpath) (check : Z)
  : M message :=
  let retry_count := 0 in
  copy_validate_while while_fuel original_file replica_file check retry_count.

(** The body of [for file in files]: every file that needs it is copied
    on the spot. *)
Definition sync_file (strict : bool) (source_file replica_file : fpath)
  : M unit :=
  check <- modified_check source_file replica_file ;;
  if strict then
    if negb (fst check) then
      result <- copy_validate source_file replica_file (snd check) ;;
      log_info result
    else
      sh <- calculate_xxhash source_file ;;
      rh <- calculate_xxhash replica_file ;;
      if negb (String.eqb sh rh) then
        result <- copy_validate source_file replica_file (snd check) ;;
        log_info result
      else ret tt
  else if negb (fst check) then
    result <- copy_validate source_file replica_file (snd check) ;;
    log_info result
  else ret tt.

(** The body of [for root, _, files in os.walk(source_dir)]. *)
Definition sync_root (source_dir replica_dir : side) (strict : bool)
    (y : yielded) : M unit :=
  let '(root, _, files) := y in
  let relative_path := root in
  let replica_root := (replica_dir, relative_path) in
  e <- os_path_exists replica_root ;;
  (if negb e then os_makedirs replica_root else ret tt) ;;
  for_each files
    (fun file =>
       let source_file := os_path_join (source_dir, root) file in
       let replica_file := os_path_join replica_root file in
       sync_file strict source_file replica_file).

(** The list [file_tasks] of the script is never filled. *)
Definition sync_directory (source_dir replica_dir : side) (strict : bool)
  : M unit :=
  w <- get ;;
  for_each (walk_topdown [] (tree source_dir w))
    (sync_root source_dir replica_dir strict).

(** The body of [for file in files]. *)
Definition cleanup_file (source_root replica_root : fpath) (file : string)
  : M unit :=
  let source_file := os_path_join source_root file in
  let replica_file := os_path_join replica_root file in
  e <- os_path_exists source_file ;;
  if negb e then
    os_remove replica_file ;;
    log_info (MsgFileRemoved replica_file)
  else ret tt.

(** The body of [for currdir in dirs[:]]. *)
Definition cleanup_dir (source_root replica_root : fpath) (currdir : string)
  : M unit :=
  let source_dir_path := os_path_join source_root currdir in
  let replica_dir_path := os_path_join replica_root currdir in
  e <- os_path_exists source_dir_path ;;
  if negb e then
    shutil_rmtree replica_dir_path ;;
    log_info (MsgDirRemoved replica_dir_path)
  else ret tt.

(** The body of [for root, dirs, files in os.walk(.., topdown=False)]. *)
Definition cleanup_root (source_dir replica_dir : side) (y : yielded)
  : M unit :=
  let '(root, dirs, files) := y in
  let relative_path := root in
  let source_root := (source_dir, relative_path) in
  for_each files (cleanup_file source_root (replica_dir, root)) ;;
  for_each dirs (cleanup_dir source_root (replica_dir, root)).

Definition cleanup_replica (source_dir replica_dir : side) : M unit :=
  w <- get ;;
  for_each (walk_bottomup [] (tree replica_dir w))
    (cleanup_root source_dir replica_dir).

Definition synchronization (source replica : side) (strict : bool) : M unit :=
  setup_logger ;;
  sync_directory source replica strict ;;
  cleanup_replica source replica.

End Code.
End Simple.

(** ** Notions the properties are stated with *)

(** The [os.stat] record of the entry [n] found at [p]. *)
Definition entry_stat (w : world) (p : fpath) (n : node) : stat_result :=
  match n with
  | File m data => mkStat (Z.of_nat (List.length data)) m
  | Dir _ => dstat w (fst p) (snd p)
  end.

Definition node_at (w : world) (p : fpath) : option node :=
  lookup (tree (fst p) w) (snd p).

(** The [try] block of [copy_validate] up to the comparison: copy, then the
    digest of the original and of the replica file. *)
Definition copy_and_hash {H : Xxhash} (original_file replica_file : fpath)
  : M (string * string) :=
  shutil_copy2 original_file replica_file ;;
  source_hash <- calculate_xxhash original_file ;;
  replica_hash <- calculate_xxhash replica_file ;;
  ret (source_hash, replica_hash).

(** An attempt started in [w] verifies: the copy and both digests succeed
    and the digests are equal. *)
Definition verifies {H : Xxhash} (original_file replica_file : fpath)
    (w : world) : Prop :=
  exists h w', copy_and_hash original_file replica_file w = (Ok (h, h), w').

(** One attempt with its logging, and whether it verified. *)
Definition attempt {H : Xxhash} (original_file replica_file : fpath) : M bool :=
  try_except
    (hs <- copy_and_hash original_file replica_file ;;
     if String.eqb (fst hs) (snd hs) then ret true
     else log_error (MsgHashMismatch original_file replica_file) ;; ret false)
    (fun error =>
       log_error (MsgCopyError original_file replica_file error) ;; ret false).

(** The world an attempt leaves behind. *)
Definition after_attempt {H : Xxhash} (original_file replica_file : fpath)
    (w : world) : world :=
  snd (attempt original_file replica_file w).

Definition is_copy2 (e : event) : bool :=
  match e with EvCopy2 _ _ => true | _ => false end.

(** The number of calls of [shutil.copy2] a trace records. *)
Definition attempts_made (tr : list event) : nat :=
  List.length (filter is_copy2 tr).

(** The message [Simple.copy_validate] returns on success. *)
Definition simple_success (replica_file : fpath) (check : Z) : message :=
  if negb (check =? 0) then MsgUpdated replica_file
  else MsgCopied replica_file replica_file.

(** A fault entry that lets a read of [calculate_xxhash] through. *)
Definition lets_read (f : fault) : bool :=
  match f with
  | Fine | Corrupts _ => true
  | Fails | Partial _ => false
  end.

(** What a path shows: nothing, a directory, or a file with its
    modification time and bytes. *)
Inductive shape :=
| Absent
| IsDir
| IsFile (mtime : Z) (data : list byte).

Definition shape_of (o : option node) : shape :=
  match o with
  | None => Absent
  | Some (Dir _) => IsDir
  | Some (File m data) => IsFile m data
  end.

(** The shape at path [q] of the tree [n]. *)
Definition at_ (n : node) (q : path) : shape := shape_of (lookup n q).

(** No name occurs twice in a listing. *)
Fixpoint fresh_names (names : list string) : bool :=
  match names with
  | [] => true
  | a :: l => negb (existsb (String.eqb a) l) && fresh_names l
  end.

(** A tree is well formed when no directory lists a name twice. *)
Fixpoint wf (n : node) : bool :=
  match n with
  | File _ _ => true
  | Dir es =>
      fresh_names (map fst es)
      && (fix all (l : list (string * node)) : bool :=
            match l with
            | [] => true
            | (_, c) :: l' => wf c && all l'
            end) es
  end.

Definition is_pool (e : event) : bool :=
  match e with EvPool _ => true | _ => false end.

(** *** What reconciliation amounts to, tree against tree *)

(** The entry called [name] of the source directory [s], if [s] is one. *)
Definition sub (s : option node) (name : string) : option node :=
  match s with
  | Some (Dir ses) => assoc name ses
  | _ => None
  end.

(** Nothing in the source stands where the replica has [name]. *)
Definition stale (s : option node) (name : string) : bool :=
  match sub s name with
  | None => true
  | Some _ => false
  end.

(** The listing once the stale ones among [names] are deleted. *)
Definition sweep (s : option node) (names : list string)
    (es : list (string * node)) : list (string * node) :=
  fold_left (fun cur name => if stale s name then del name cur else cur)
    names es.

(** The replica subtree [r] after reconciliation against the source
    subtree [s] found at the same path: subdirectories first, then the
    stale files of the directory, then its stale subdirectories. *)
Fixpoint prune (s : option node) (r : node) : node :=
  match r with
  | File m data => File m data
  | Dir es =>
      Dir (sweep s (dir_names es)
             (sweep s (file_names es)
                ((fix children (l : list (string * node)) :=
                    match l with
                    | [] => []
                    | (name, c) :: l' =>
                        (name, prune (sub s name) c) :: children l'
                    end) es)))
  end.

Definition removed_file (p : path) (name : string) : list event :=
  [EvRemove (Replica, p ++ [name]);
   EvInfo (MsgFileRemoved (Replica, p ++ [name]))].

Definition removed_dir (p : path) (name : string) : list event :=
  [EvRmtree (Replica, p ++ [name]);
   EvInfo (MsgDirRemoved (Replica, p ++ [name]))].

(** The deletions and log records of reconciling the replica subtree [r]
    at path [p], in order. *)
Fixpoint removal_events (s : option node) (p : path) (r : node)
  : list event :=
  match r with
  | File _ _ => []
  | Dir es =>
      (fix children (l : list (string * node)) :=
         match l with
         | [] => []
         | (name, c) :: l' =>
             removal_events (sub s name) (p ++ [name]) c ++ children l'
         end) es
      ++ flat_map (fun name => if stale s name then removed_file p name else [])
           (file_names es)
      ++ flat_map (fun name => if stale s name then removed_dir p name else [])
           (dir_names es)
  end.

(** The source subtree [s] has an entry along [q]. *)
Definition source_has (s : option node) (q : path) : bool :=
  match s with
  | Some n => match lookup n q with Some _ => true | None => false end
  | None => false
  end.

(** The paths reconciliation deletes, in order. *)
Fixpoint removal_order (s : option node) (p : path) (r : node) : list path :=
  match r with
  | File _ _ => []
  | Dir es =>
      (fix children (l : list (string * node)) :=
         match l with
         | [] => []
         | (name, c) :: l' =>
             removal_order (sub s name) (p ++ [name]) c ++ children l'
         end) es
      ++ flat_map (fun name => if stale s name then [p ++ [name]] else [])
           (file_names es)
      ++ flat_map (fun name => if stale s name then [p ++ [name]] else [])
           (dir_names es)
  end.

(** The paths a trace deletes, and the paths whose removal it reports. *)
Definition deletions (t : list event) : list path :=
  flat_map (fun e => match e with
                     | EvRemove (_, q) | EvRmtree (_, q) => [q]
                     | _ => []
                     end) t.

Definition reports (t : list event) : list path :=
  flat_map (fun e => match e with
                     | EvInfo (MsgFileRemoved (_, q))
                     | EvInfo (MsgDirRemoved (_, q)) => [q]
                     | _ => []
                     end) t.

(** [a] stands before [b] in [l]. *)
Definition before {A} (a b : A) (l : list A) : Prop :=
  exists l1 l2 l3, l = l1 ++ a :: l2 ++ b :: l3.

(** A deletion, or the log record of one. *)
Inductive removal_step :=
| Deleted (q : path)
| Reported (q : path).

Definition removal_steps (t : list event) : list removal_step :=
  flat_map (fun e => match e with
                     | EvRemove (_, q) | EvRmtree (_, q) => [Deleted q]
                     | EvInfo (MsgFileRemoved (_, q))
                     | EvInfo (MsgDirRemoved (_, q)) => [Reported q]
                     | _ => []
                     end) t.

(** Where [shutil.copy2] writes when asked for [replica]. *)
Definition copy_target (w : world) (original replica : fpath) : fpath :=
  match lookup (tree (fst replica) w) (snd replica) with
  | Some (Dir _) => os_path_join replica (os_path_basename original)
  | _ => replica
  end.

(** ** Sample environment

    A small hash object and a few trees, to run the definitions on. *)

Definition sample_update (s : Z) (chunk : list byte) : Z :=
  fold_left
    (fun a b => (a * 31 + Z.of_N (Byte.to_N b)) mod 18446744073709551616)
    chunk s.

Fixpoint sample_digits (fuel : nat) (z : Z) : string :=
  match fuel with
  | O => EmptyString
  | S fuel' =>
      String (Ascii.ascii_of_N (Z.to_N (48 + z mod 10)))
        (sample_digits fuel' (z / 10))
  end.

Definition sample_xxhash : Xxhash := {|
  xxh_state := Z;
  xxh64 := 7;
  xxh_update := sample_update;
  xxh_hexdigest := sample_digits 20
|}.

Definition sample_host : Host := {| cpu_count := 4 |}.

#[local] Existing Instance sample_xxhash.
#[local] Existing Instance sample_host.

Definition a_txt : path := ["a.txt"%string].

(** Two trees whose entries [x] and [y] changed kind. *)
Definition kinds_source : node :=
  Dir [("x"%string, Dir []); ("y"%string, File 3 [x01])].

Definition kinds_replica : node :=
  Dir [("x"%string, File 1 []);
       ("y"%string, Dir [("z"%string, File 2 [])])].

(** A plan under which four attempts in a row fail, each in its own way:
    the copy raises; the copy damages the bytes; the copy raises half-way;
    the digest of the replica cannot be read. *)
Definition four_failures : list fault :=
  [Fails; Corrupts [x00]; Fine; Fine; Partial [x01]; Fine; Fine; Fails].

(** A plan under which the third attempt is the first to verify. *)
Definition two_failures : list fault :=
  [Fails; Corrupts [x00]; Fine; Fine].

Definition sample_world (s r : node) (plan : list fault) : world :=
  mkWorld s r (fun _ _ => mkStat 0 0) 0 1000 plan [] "win32" [].

Definition sample_source : node :=
  Dir [("docs"%string, Dir [("readme.txt"%string, File 5 [x61; x62])]);
       ("a.txt"%string, File 7 [x63])].

Definition sample_replica : node :=
  Dir [("A"%string, Dir [("B"%string, Dir [("c.txt"%string, File 1 [])])]);
       ("a.txt"%string, File 7 [x63])].

(** * Properties *)

(** ** Change detection *)

Lemma os_stat_entry (w : world) (p : fpath) (n : node) :
  node_at w p = Some n -> os_stat p w = (Ok (entry_stat w p n), w).
Proof.
  unfold node_at, os_stat. intros ->. destruct n; reflexivity.
Qed.

Lemma os_path_exists_spec (w : world) (p : fpath) :
  os_path_exists p w
  = (Ok (match node_at w p with Some _ => true | None => false end), w).
Proof.
  unfold os_path_exists, node_at. destruct (lookup _ _); reflexivity.
Qed.

(** What the comparison of the two stat records decides. *)
Lemma stat_differs_iff (a b : stat_result) :
  negb (st_size a =? st_size b) || negb (st_mtime a =? st_mtime b) = true
  <-> st_size a <> st_size b \/ st_mtime a <> st_mtime b.
Proof.
  rewrite orb_true_iff, !negb_true_iff, !Z.eqb_neq. reflexivity.
Qed.

(** C4.  [modified_check] reports "needs copy" (unchanged = [False])
    whenever nothing exists at the replica path, and otherwise exactly when
    the sizes differ or the modification times differ, compared with exact
    equality; the check changes nothing.  Both scripts. *)
Theorem modified_check_metadata (w : world) (source_file replica_file : fpath)
    (m : Z) (data : list byte) :
  node_at w source_file = Some (File m data) ->
  (node_at w replica_file = None ->
     Extended.modified_check source_file replica_file w = (Ok false, w)
     /\ Simple.modified_check source_file replica_file w = (Ok (false, 0), w))
  /\ (forall n, node_at w replica_file = Some n ->
       exists unchanged : bool,
         Extended.modified_check source_file replica_file w
         = (Ok unchanged, w)
         /\ Simple.modified_check source_file replica_file w
            = (Ok (unchanged, 1), w)
         /\ (unchanged = false <->
               Z.of_nat (List.length data)
               <> st_size (entry_stat w replica_file n)
               \/ m <> st_mtime (entry_stat w replica_file n))).
Proof.
  intros Hs. split.
  - intros Hr.
    unfold Extended.modified_check, Simple.modified_check, bind.
    rewrite os_path_exists_spec, Hr. split; reflexivity.
  - intros n Hr.
    pose (ss := entry_stat w source_file (File m data)).
    pose (rs := entry_stat w replica_file n).
    exists (negb (negb (st_size ss =? st_size rs)
                  || negb (st_mtime ss =? st_mtime rs))).
    unfold Extended.modified_check, Simple.modified_check, bind.
    rewrite os_path_exists_spec, Hr. cbn [negb].
    rewrite (os_stat_entry _ _ _ Hs), (os_stat_entry _ _ _ Hr).
    fold ss rs.
    destruct (negb (st_size ss =? st_size rs)
              || negb (st_mtime ss =? st_mtime rs)) eqn:E.
    + repeat split; try reflexivity.
      intros _. apply stat_differs_iff in E. exact E.
    + repeat split; try reflexivity.
      * intros Hf. discriminate Hf.
      * intros Hd. pose proof (proj2 (stat_differs_iff ss rs) Hd). congruence.
Qed.

(** ** Computations that cannot escape a [try] and that stay quiet *)

(** [m] never runs out of fuel and raises nothing but subclasses of
    [Exception]. *)
Definition safe {A} (m : M A) : Prop :=
  forall w,
    match fst (m w) with
    | Ok _ => True
    | Raise e => is_Exception e = true
    | OutOfFuel => False
    end.

(** [m] adds nothing to the trace. *)
Definition silent {A} (m : M A) : Prop :=
  forall w, trace (snd (m w)) = trace w.

Lemma safe_ret {A} (a : A) : safe (ret a).
Proof. intros w. exact I. Qed.

Lemma safe_raise {A} (e : exn) : is_Exception e = true -> safe (@raise A e).
Proof. intros He w. exact He. Qed.

Lemma safe_bind {A B} (m : M A) (k : A -> M B) :
  safe m -> (forall a, safe (k a)) -> safe (bind m k).
Proof.
  intros Hm Hk w. unfold bind. specialize (Hm w).
  destruct (m w) as [[a | e | ] w']; cbn in *; auto.
  apply Hk.
Qed.

Lemma silent_ret {A} (a : A) : silent (ret a).
Proof. intros w. reflexivity. Qed.

Lemma silent_raise {A} (e : exn) : silent (@raise A e).
Proof. intros w. reflexivity. Qed.

Lemma silent_bind {A B} (m : M A) (k : A -> M B) :
  silent m -> (forall a, silent (k a)) -> silent (bind m k).
Proof.
  intros Hm Hk w. unfold bind. specialize (Hm w).
  destruct (m w) as [[a | e | ] w']; cbn in *; auto.
  rewrite Hk. exact Hm.
Qed.

Lemma safe_get : safe get.
Proof. intros w. exact I. Qed.

Lemma silent_get : silent get.
Proof. intros w. reflexivity. Qed.

Lemma safe_emit (e : event) : safe (emit e).
Proof. intros w. exact I. Qed.

Lemma safe_next_fault : safe next_fault.
Proof. intros w. unfold next_fault. destruct (faults w); exact I. Qed.

Lemma silent_next_fault : silent next_fault.
Proof. intros w. unfold next_fault. destruct (faults w); reflexivity. Qed.

Lemma safe_touch (d : fpath) : safe (touch d).
Proof. intros w. exact I. Qed.

Lemma silent_touch (d : fpath) : silent (touch d).
Proof. intros w. reflexivity. Qed.

Lemma safe_put_tree (sd : side) (t : node) : safe (put_tree sd t).
Proof. intros w. exact I. Qed.

Lemma silent_put_tree (sd : side) (t : node) : silent (put_tree sd t).
Proof. intros w. destruct sd; reflexivity. Qed.

Create HintDb safe_db.
Create HintDb silent_db.

#[export] Hint Resolve safe_ret safe_get safe_emit safe_next_fault safe_touch
  safe_put_tree : safe_db.
#[export] Hint Resolve silent_ret silent_raise silent_get silent_next_fault
  silent_touch silent_put_tree : silent_db.

(** Walk through a computation built from [bind], [match] and [if]. *)
Ltac walk_safe :=
  repeat first
    [ progress auto with safe_db
    | apply safe_raise; reflexivity
    | apply safe_bind; [ | intros ? ]
    | progress cbv zeta
    | match goal with
      | |- safe (match ?x with _ => _ end) => destruct x
      | |- safe (if ?x then _ else _) => destruct x
      end ].

Ltac walk_silent :=
  repeat first
    [ progress auto with silent_db
    | apply silent_bind; [ | intros ? ]
    | progress cbv zeta
    | match goal with
      | |- silent (match ?x with _ => _ end) => destruct x
      | |- silent (if ?x then _ else _) => destruct x
      end ].

Lemma safe_write_file sd dirp name existed f :
  safe (write_file sd dirp name existed f).
Proof. unfold write_file. walk_safe. Qed.

Lemma silent_write_file sd dirp name existed f :
  silent (write_file sd dirp name existed f).
Proof. unfold write_file. walk_silent. Qed.

#[export] Hint Resolve safe_write_file : safe_db.
#[export] Hint Resolve silent_write_file : silent_db.

(** A call that announces itself and then works quietly leaves exactly its
    announcement in the trace. *)
Lemma trace_emit_then {A} (e : event) (m : M A) (w : world) :
  silent m -> trace (snd ((emit e ;; m) w)) = trace w ++ [e].
Proof.
  intros Hm. unfold bind, emit. cbn. rewrite Hm. reflexivity.
Qed.

Ltac run_m :=
  unfold log_error, log_info in *;
  unfold ret, raise, bind, get, emit, try_except in *;
  cbn [fst snd] in *.

Section Attempts.
Context {H : Xxhash}.

Lemma safe_shutil_copy2 o r : safe (shutil_copy2 o r).
Proof. unfold shutil_copy2. walk_safe. Qed.

Lemma safe_calculate_xxhash f : safe (calculate_xxhash f).
Proof. unfold calculate_xxhash. walk_safe. Qed.

Lemma trace_shutil_copy2 o r w :
  trace (snd (shutil_copy2 o r w)) = trace w ++ [EvCopy2 o r].
Proof. unfold shutil_copy2. apply trace_emit_then. walk_silent. Qed.

Lemma trace_calculate_xxhash f w :
  trace (snd (calculate_xxhash f w)) = trace w ++ [EvXxhash f].
Proof. unfold calculate_xxhash. apply trace_emit_then. walk_silent. Qed.

Lemma safe_copy_and_hash o r : safe (copy_and_hash o r).
Proof.
  unfold copy_and_hash.
  apply safe_bind; [apply safe_shutil_copy2 | intros _].
  apply safe_bind; [apply safe_calculate_xxhash | intros sh].
  apply safe_bind; [apply safe_calculate_xxhash | intros rh].
  apply safe_ret.
Qed.

(** The copy is the first thing an attempt does, and it does it once. *)
Lemma attempts_copy_and_hash o r w :
  attempts_made (trace (snd (copy_and_hash o r w)))
  = S (attempts_made (trace w)).
Proof.
  unfold copy_and_hash, bind.
  pose proof (trace_shutil_copy2 o r w) as T1.
  destruct (shutil_copy2 o r w) as [[[] | e | ] w1]; cbn [snd] in *;
    try (rewrite T1; unfold attempts_made; rewrite filter_app, length_app;
         cbn; lia).
  pose proof (trace_calculate_xxhash o w1) as T2.
  destruct (calculate_xxhash o w1) as [[sh | e | ] w2]; cbn [snd] in *;
    try (rewrite T2, T1; unfold attempts_made;
         rewrite !filter_app, !length_app; cbn; lia).
  pose proof (trace_calculate_xxhash r w2) as T3.
  destruct (calculate_xxhash r w2) as [[rh | e | ] w3];
    unfold ret; cbn [snd] in *; rewrite T3, T2, T1; unfold attempts_made;
    rewrite !filter_app, !length_app; cbn; lia.
Qed.

Lemma attempts_made_snoc_error tr m :
  attempts_made (tr ++ [EvError m]) = attempts_made tr.
Proof.
  unfold attempts_made. rewrite filter_app, length_app. cbn. lia.
Qed.

(** An attempt always comes back with an answer. *)
Lemma attempt_total o r w : exists b w', attempt o r w = (Ok b, w').
Proof.
  unfold attempt, try_except, bind.
  pose proof (safe_copy_and_hash o r w) as S.
  destruct (copy_and_hash o r w) as [[[sh rh] | e | ] w1]; cbn in S.
  - cbn [fst snd]. destruct (String.eqb sh rh); run_m; eauto.
  - rewrite S. run_m. eauto.
  - contradiction.
Qed.

Lemma attempt_true_iff o r w :
  fst (attempt o r w) = Ok true <-> verifies o r w.
Proof.
  unfold attempt, verifies, try_except, bind.
  pose proof (safe_copy_and_hash o r w) as S.
  destruct (copy_and_hash o r w) as [[[sh rh] | e | ] w1]; cbn in S.
  - cbn [fst snd]. destruct (String.eqb sh rh) eqn:E; run_m.
    + apply String.eqb_eq in E. subst rh. split; eauto.
    + split; [discriminate | ].
      intros (h & w' & Heq). injection Heq as -> -> _.
      rewrite String.eqb_refl in E. discriminate.
  - rewrite S. run_m. split; [discriminate | ].
    intros (h & w' & Heq). discriminate.
  - contradiction.
Qed.

Lemma attempts_after_attempt o r w :
  attempts_made (trace (after_attempt o r w)) = S (attempts_made (trace w)).
Proof.
  unfold after_attempt, attempt, try_except, bind.
  pose proof (attempts_copy_and_hash o r w) as C.
  destruct (copy_and_hash o r w) as [[[sh rh] | e | ] w1]; cbn [snd] in C.
  - cbn [fst snd]. destruct (String.eqb sh rh); run_m; [exact C | ].
    cbn [trace set_trace]. rewrite attempts_made_snoc_error. exact C.
  - destruct (is_Exception e); run_m; [ | exact C].
    cbn [trace set_trace]. rewrite attempts_made_snoc_error. exact C.
  - exact C.
Qed.

End Attempts.

(** ** The retry loop *)

Section Retry.
Context {H : Xxhash}.
Variables (o r : fpath) (succeeded failed : message).

(** What a loop with [n] attempts left returns, and the world it leaves. *)
Fixpoint retry_model (n : nat) (w : world) : message * world :=
  match n with
  | O => (failed, w)
  | S n' =>
      match attempt o r w with
      | (Ok true, w') => (succeeded, w')
      | (_, w') => retry_model n' w'
      end
  end.

Lemma iter_after_attempt_succ (k : nat) (w : world) :
  Nat.iter (S k) (after_attempt o r) w
  = Nat.iter k (after_attempt o r) (after_attempt o r w).
Proof.
  induction k as [ | k IH]; [reflexivity | ].
  change (Nat.iter (S (S k)) (after_attempt o r) w)
    with (after_attempt o r (Nat.iter (S k) (after_attempt o r) w)).
  rewrite IH. reflexivity.
Qed.

Lemma attempt_false_not_verifies w w' :
  attempt o r w = (Ok false, w') -> ~ verifies o r w.
Proof.
  intros E V. apply attempt_true_iff in V. rewrite E in V. discriminate.
Qed.

Lemma attempt_not_verifies w :
  ~ verifies o r w -> attempt o r w = (Ok false, after_attempt o r w).
Proof.
  intros V. unfold after_attempt.
  destruct (attempt_total o r w) as (b & w' & E). rewrite E. cbn.
  destruct b; [ | reflexivity].
  exfalso. apply V, attempt_true_iff. rewrite E. reflexivity.
Qed.

Lemma attempt_verifies w :
  verifies o r w -> attempt o r w = (Ok true, after_attempt o r w).
Proof.
  intros V. apply attempt_true_iff in V. unfold after_attempt.
  destruct (attempt o r w) as [x w']. cbn in *. subst x. reflexivity.
Qed.

Lemma retry_model_failed (n : nat) (w : world) :
  (forall k, (k < n)%nat -> ~ verifies o r (Nat.iter k (after_attempt o r) w)) ->
  retry_model n w = (failed, Nat.iter n (after_attempt o r) w).
Proof.
  revert w. induction n as [ | n IH]; intros w Hall; [reflexivity | ].
  cbn [retry_model].
  rewrite (attempt_not_verifies w (Hall 0%nat (Nat.lt_0_succ n))).
  rewrite iter_after_attempt_succ. apply IH.
  intros k Hk. rewrite <- iter_after_attempt_succ. apply Hall. lia.
Qed.

Lemma retry_model_succeeded (n k : nat) (w : world) :
  (k < n)%nat ->
  (forall j, (j < k)%nat -> ~ verifies o r (Nat.iter j (after_attempt o r) w)) ->
  verifies o r (Nat.iter k (after_attempt o r) w) ->
  retry_model n w
  = (succeeded, after_attempt o r (Nat.iter k (after_attempt o r) w)).
Proof.
  revert k w. induction n as [ | n IH]; intros k w Hk Hbefore Hv; [lia | ].
  cbn [retry_model]. destruct k as [ | k].
  - cbn in Hv. rewrite (attempt_verifies w Hv). reflexivity.
  - rewrite (attempt_not_verifies w (Hbefore 0%nat (Nat.lt_0_succ k))).
    rewrite iter_after_attempt_succ. apply IH; [lia | | ].
    + intros j Hj. rewrite <- iter_after_attempt_succ. apply Hbefore. lia.
    + rewrite <- iter_after_attempt_succ. exact Hv.
Qed.

(** Either some attempt is the first to verify, or none does. *)
Lemma first_verifying_attempt (n : nat) (w : world) :
  (exists k, (k < n)%nat
     /\ verifies o r (Nat.iter k (after_attempt o r) w)
     /\ forall j, (j < k)%nat ->
          ~ verifies o r (Nat.iter j (after_attempt o r) w))
  \/ (forall k, (k < n)%nat ->
        ~ verifies o r (Nat.iter k (after_attempt o r) w)).
Proof.
  revert w. induction n as [ | n IH]; intros w; [right; intros; lia | ].
  destruct (attempt_total o r w) as ([ | ] & w' & E).
  - left. exists 0%nat. split; [lia | ]. split; [ | intros; lia].
    apply attempt_true_iff. cbn [Nat.iter nat_rect]. rewrite E. reflexivity.
  - pose proof (attempt_false_not_verifies _ _ E) as V0.
    destruct (IH (after_attempt o r w)) as [(k & Hk & Hv & Hb) | Hnone].
    + left. exists (S k). split; [lia | ].
      rewrite iter_after_attempt_succ. split; [exact Hv | ].
      intros [ | j] Hj; [exact V0 | ].
      rewrite iter_after_attempt_succ. apply Hb. lia.
    + right. intros [ | k] Hk; [exact V0 | ].
      rewrite iter_after_attempt_succ. apply Hnone. lia.
Qed.

Lemma attempts_iter_after_attempt (k : nat) (w : world) :
  attempts_made (trace (Nat.iter k (after_attempt o r) w))
  = (attempts_made (trace w) + k)%nat.
Proof.
  induction k as [ | k IH]; [cbn; lia | ].
  cbn [Nat.iter nat_rect]. change (nat_rect _ _ _ k) with
    (Nat.iter k (after_attempt o r) w).
  rewrite attempts_after_attempt, IH. lia.
Qed.

End Retry.

Section Loops.
Context {H : Xxhash}.

Lemma extended_body_attempt o r rc w :
  Extended.copy_validate_body o r rc w
  = match attempt o r w with
    | (Ok true, w') => (Ok (inl (MsgCopied o r)), w')
    | (Ok false, w') => (Ok (inr (rc + 1)), w')
    | (Raise e, w') => (Raise e, w')
    | (OutOfFuel, w') => (OutOfFuel, w')
    end.
Proof.
  unfold Extended.copy_validate_body, attempt, copy_and_hash. run_m.
  destruct (shutil_copy2 o r w) as [[[] | e | ] w1];
    [ destruct (calculate_xxhash o w1) as [[sh | e | ] w2];
      [ destruct (calculate_xxhash r w2) as [[rh | e | ] w3];
        [ cbn [fst snd]; destruct (String.eqb sh rh) | | ] | | ] | | ];
    try destruct (is_Exception e); reflexivity.
Qed.

Lemma simple_body_attempt o r check rc w :
  Simple.copy_validate_body o r check rc w
  = match attempt o r w with
    | (Ok true, w') => (Ok (inl (simple_success r check)), w')
    | (Ok false, w') => (Ok (inr (rc + 1)), w')
    | (Raise e, w') => (Raise e, w')
    | (OutOfFuel, w') => (OutOfFuel, w')
    end.
Proof.
  unfold Simple.copy_validate_body, attempt, copy_and_hash, simple_success.
  run_m.
  destruct (shutil_copy2 o r w) as [[[] | e | ] w1];
    [ destruct (calculate_xxhash o w1) as [[sh | e | ] w2];
      [ destruct (calculate_xxhash r w2) as [[rh | e | ] w3];
        [ cbn [fst snd]; destruct (String.eqb sh rh);
          [destruct (negb (check =? 0)) | ] | | ] | | ] | | ];
    try destruct (is_Exception e); reflexivity.
Qed.

(** The attempts a loop at [retry_count] still has. *)
Definition attempts_left (retry_count : Z) : nat :=
  Z.to_nat (max_retries + 1 - retry_count).

Lemma attempts_left_step rc :
  (rc <=? max_retries) = true ->
  attempts_left rc = S (attempts_left (rc + 1)).
Proof.
  unfold attempts_left, max_retries. intros Hle%Z.leb_le. lia.
Qed.

Lemma attempts_left_done rc :
  (rc <=? max_retries) = false -> attempts_left rc = 0%nat.
Proof.
  unfold attempts_left, max_retries. intros Hle%Z.leb_gt. lia.
Qed.

Lemma extended_while_model fuel o r rc w :
  (attempts_left rc <= fuel)%nat ->
  Extended.copy_validate_while fuel o r rc w
  = (Ok (fst (retry_model o r (MsgCopied o r) (MsgFailed o max_retries)
                (attempts_left rc) w)),
     snd (retry_model o r (MsgCopied o r) (MsgFailed o max_retries)
            (attempts_left rc) w)).
Proof.
  revert rc w. induction fuel as [ | fuel IH]; intros rc w Hfuel;
    cbn [Extended.copy_validate_while];
    destruct (rc <=? max_retries) eqn:G.
  - rewrite (attempts_left_step _ G) in Hfuel. lia.
  - rewrite (attempts_left_done _ G). reflexivity.
  - rewrite (attempts_left_step _ G) in *. cbn [retry_model].
    unfold bind at 1. rewrite extended_body_attempt.
    destruct (attempt_total o r w) as ([ | ] & w' & E); rewrite E;
      [reflexivity | ].
    apply IH. lia.
  - rewrite (attempts_left_done _ G). reflexivity.
Qed.

Lemma simple_while_model fuel o r check rc w :
  (attempts_left rc <= fuel)%nat ->
  Simple.copy_validate_while fuel o r check rc w
  = (Ok (fst (retry_model o r (simple_success r check)
                (MsgFailed o max_retries) (attempts_left rc) w)),
     snd (retry_model o r (simple_success r check)
            (MsgFailed o max_retries) (attempts_left rc) w)).
Proof.
  revert rc w. induction fuel as [ | fuel IH]; intros rc w Hfuel;
    cbn [Simple.copy_validate_while];
    destruct (rc <=? max_retries) eqn:G.
  - rewrite (attempts_left_step _ G) in Hfuel. lia.
  - rewrite (attempts_left_done _ G). reflexivity.
  - rewrite (attempts_left_step _ G) in *. cbn [retry_model].
    unfold bind at 1. rewrite simple_body_attempt.
    destruct (attempt_total o r w) as ([ | ] & w' & E); rewrite E;
      [reflexivity | ].
    apply IH. lia.
  - rewrite (attempts_left_done _ G). reflexivity.
Qed.

Lemma extended_copy_validate_model o r w :
  Extended.copy_validate o r w
  = (Ok (fst (retry_model o r (MsgCopied o r) (MsgFailed o max_retries) 4 w)),
     snd (retry_model o r (MsgCopied o r) (MsgFailed o max_retries) 4 w)).
Proof.
  unfold Extended.copy_validate.
  rewrite extended_while_model; [reflexivity | ].
  unfold attempts_left, max_retries, while_fuel. cbn. lia.
Qed.

Lemma simple_copy_validate_model o r check w :
  Simple.copy_validate o r check w
  = (Ok (fst (retry_model o r (simple_success r check)
                (MsgFailed o max_retries) 4 w)),
     snd (retry_model o r (simple_success r check)
            (MsgFailed o max_retries) 4 w)).
Proof.
  unfold Simple.copy_validate.
  rewrite simple_while_model; [reflexivity | ].
  unfold attempts_left, max_retries, while_fuel. cbn. lia.
Qed.

End Loops.

(** C10.  [copy_validate] always returns a message and never lets an
    exception through, in both scripts: whatever the copy or a digest
    raises is caught in the loop, logged, and answered with
    [retry_count + 1]. *)
Theorem copy_validate_always_returns {H : Xxhash} (o r : fpath) (check : Z)
    (w : world) :
  (exists result w', Extended.copy_validate o r w = (Ok result, w'))
  /\ (exists result w', Simple.copy_validate o r check w = (Ok result, w'))
  /\ (forall e w1 rc,
        copy_and_hash o r w = (Raise e, w1) ->
        let logged :=
          set_trace (trace w1 ++ [EvError (MsgCopyError o r e)]) w1 in
        Extended.copy_validate_body o r rc w = (Ok (inr (rc + 1)), logged)
        /\ Simple.copy_validate_body o r check rc w
           = (Ok (inr (rc + 1)), logged)).
Proof.
  split; [ | split].
  - rewrite extended_copy_validate_model. eauto.
  - rewrite simple_copy_validate_model. eauto.
  - intros e w1 rc E logged.
    pose proof (safe_copy_and_hash o r w) as S. rewrite E in S. cbn in S.
    rewrite extended_body_attempt, simple_body_attempt.
    unfold attempt. run_m. rewrite E, S. split; reflexivity.
Qed.

(** C2.  When none of the four attempts verifies, [copy_validate] makes
    exactly four calls of the copy step (the first and three retries) and
    returns the failure message; there is no fifth.  Both scripts. *)
Theorem copy_validate_retry_bound {H : Xxhash} (o r : fpath) (check : Z)
    (w : world) :
  (forall k, (k < 4)%nat ->
     ~ verifies o r (Nat.iter k (after_attempt o r) w)) ->
  let w' := Nat.iter 4 (after_attempt o r) w in
  Extended.copy_validate o r w = (Ok (MsgFailed o 3), w')
  /\ Simple.copy_validate o r check w = (Ok (MsgFailed o 3), w')
  /\ attempts_made (trace w') = (attempts_made (trace w) + 4)%nat.
Proof.
  intros Hall w'.
  rewrite extended_copy_validate_model, simple_copy_validate_model.
  rewrite !(retry_model_failed _ _ _ _ 4 w Hall).
  repeat split. apply attempts_iter_after_attempt.
Qed.

(** C8.  Success is reported exactly when one of the four attempts
    verifies, that is, when the digest of the destination read back after
    the copy equals the digest of the source.  It is reported at the first
    such attempt, after which nothing more is done; a task none of whose
    attempts verifies gets the failure message.  Both scripts. *)
Theorem copy_validate_success_iff_verified {H : Xxhash} (o r : fpath)
    (check : Z) (w : world) :
  let st := fun k => Nat.iter k (after_attempt o r) w in
  (forall k,
     (k < 4)%nat ->
     (forall j, (j < k)%nat -> ~ verifies o r (st j)) ->
     verifies o r (st k) ->
     let w' := after_attempt o r (st k) in
     Extended.copy_validate o r w = (Ok (MsgCopied o r), w')
     /\ Simple.copy_validate o r check w = (Ok (simple_success r check), w')
     /\ attempts_made (trace w') = (attempts_made (trace w) + S k)%nat)
  /\ ((forall k, (k < 4)%nat -> ~ verifies o r (st k)) ->
      fst (Extended.copy_validate o r w) = Ok (MsgFailed o 3)
      /\ fst (Simple.copy_validate o r check w) = Ok (MsgFailed o 3))
  /\ (fst (Extended.copy_validate o r w) = Ok (MsgCopied o r) <->
      exists k, (k < 4)%nat /\ verifies o r (st k))
  /\ (fst (Simple.copy_validate o r check w) = Ok (simple_success r check) <->
      exists k, (k < 4)%nat /\ verifies o r (st k)).
Proof.
  intros st.
  rewrite extended_copy_validate_model, simple_copy_validate_model.
  split; [ | split; [ | split]].
  - intros k Hk Hbefore Hv w'.
    rewrite !(retry_model_succeeded _ _ _ _ 4 k w Hk Hbefore Hv).
    repeat split. unfold w'.
    rewrite attempts_after_attempt. unfold st.
    rewrite attempts_iter_after_attempt. lia.
  - intros Hall. rewrite !(retry_model_failed _ _ _ _ 4 w Hall).
    split; reflexivity.
  - cbn [fst]. split.
    + intros E.
      destruct (first_verifying_attempt o r 4 w)
        as [(k & Hk & Hv & _) | Hnone]; [eauto | ].
      rewrite (retry_model_failed _ _ _ _ 4 w Hnone) in E. discriminate E.
    + intros (k & Hk & Hv).
      destruct (first_verifying_attempt o r 4 w)
        as [(k' & Hk' & Hv' & Hb') | Hnone].
      * rewrite (retry_model_succeeded _ _ _ _ 4 k' w Hk' Hb' Hv').
        reflexivity.
      * exfalso. exact (Hnone k Hk Hv).
  - cbn [fst]. split.
    + intros E.
      destruct (first_verifying_attempt o r 4 w)
        as [(k & Hk & Hv & _) | Hnone]; [eauto | ].
      rewrite (retry_model_failed _ _ _ _ 4 w Hnone) in E.
      unfold simple_success in E. destruct (negb (check =? 0)); discriminate E.
    + intros (k & Hk & Hv).
      destruct (first_verifying_attempt o r 4 w)
        as [(k' & Hk' & Hv' & Hb') | Hnone].
      * rewrite (retry_model_succeeded _ _ _ _ 4 k' w Hk' Hb' Hv').
        reflexivity.
      * exfalso. exact (Hnone k Hk Hv).
Qed.

Lemma modified_check_metadata_witness :
  let w := sample_world sample_source sample_replica [] in
  node_at w (Source, a_txt) = Some (File 7 [x63])
  /\ exists unchanged : bool,
       Extended.modified_check (Source, a_txt) (Replica, a_txt) w
       = (Ok unchanged, w)
       /\ Simple.modified_check (Source, a_txt) (Replica, a_txt) w
          = (Ok (unchanged, 1), w)
       /\ (unchanged = false <->
             Z.of_nat (List.length [x63])
             <> st_size (entry_stat w (Replica, a_txt) (File 7 [x63]))
             \/ 7 <> st_mtime (entry_stat w (Replica, a_txt) (File 7 [x63]))).
Proof.
  split; [reflexivity | ].
  exact (proj2 (modified_check_metadata
                  (sample_world sample_source sample_replica [])
                  (Source, a_txt) (Replica, a_txt) 7 [x63] eq_refl)
               (File 7 [x63]) eq_refl).
Defined.

Lemma copy_validate_retry_bound_witness :
  let w := sample_world sample_source sample_replica four_failures in
  let o := (Source, a_txt) in
  let r := (Replica, a_txt) in
  (forall k, (k < 4)%nat ->
     ~ verifies o r (Nat.iter k (after_attempt o r) w))
  /\ Extended.copy_validate o r w
     = (Ok (MsgFailed o 3), Nat.iter 4 (after_attempt o r) w)
  /\ Simple.copy_validate o r 1 w
     = (Ok (MsgFailed o 3), Nat.iter 4 (after_attempt o r) w)
  /\ attempts_made (trace (Nat.iter 4 (after_attempt o r) w)) = 4%nat.
Proof.
  intros w o r.
  assert (Hall : forall k, (k < 4)%nat ->
            ~ verifies o r (Nat.iter k (after_attempt o r) w)).
  { intros k Hk V. apply attempt_true_iff in V.
    do 4 (destruct k as [ | k]; [vm_compute in V; discriminate V | ]).
    lia. }
  split; [exact Hall | ].
  exact (copy_validate_retry_bound o r 1 w Hall).
Defined.

Lemma copy_validate_success_iff_verified_witness :
  let w := sample_world sample_source sample_replica two_failures in
  let o := (Source, a_txt) in
  let r := (Replica, a_txt) in
  let st := fun k => Nat.iter k (after_attempt o r) w in
  (forall j, (j < 2)%nat -> ~ verifies o r (st j))
  /\ verifies o r (st 2%nat)
  /\ Extended.copy_validate o r w
     = (Ok (MsgCopied o r), after_attempt o r (st 2%nat))
  /\ Simple.copy_validate o r 0 w
     = (Ok (MsgCopied r r), after_attempt o r (st 2%nat))
  /\ attempts_made (trace (after_attempt o r (st 2%nat))) = 3%nat.
Proof.
  intros w o r st.
  assert (Hbefore : forall j, (j < 2)%nat -> ~ verifies o r (st j)).
  { intros j Hj V. apply attempt_true_iff in V.
    do 2 (destruct j as [ | j]; [vm_compute in V; discriminate V | ]).
    lia. }
  assert (Hv : verifies o r (st 2%nat)).
  { apply attempt_true_iff. vm_compute. reflexivity. }
  split; [exact Hbefore | ]. split; [exact Hv | ].
  exact (proj1 (copy_validate_success_iff_verified o r 0 w)
           2%nat ltac:(lia) Hbefore Hv).
Defined.

(** ** Strict mode *)

Section Strict.
Context {H : Xxhash}.

(** Reading the digest of a file the fault plan lets through. *)
Lemma calculate_xxhash_file (w : world) (f : fpath) (m : Z) (data : list byte) :
  node_at w f = Some (File m data) ->
  forallb lets_read (firstn 1 (faults w)) = true ->
  calculate_xxhash f w
  = (Ok (digest_of 4096 data),
     set_faults (skipn 1 (faults w)) (set_trace (trace w ++ [EvXxhash f]) w)).
Proof.
  unfold node_at, calculate_xxhash. intros Hf Hr. run_m.
  cbn [tree set_trace src rep]. 
  assert (Ht : forall sd, tree sd (set_trace (trace w ++ [EvXxhash f]) w)
                          = tree sd w) by (intros []; reflexivity).
  rewrite Ht, Hf. unfold next_fault. cbn [faults set_trace].
  destruct (faults w) as [ | flt fs] eqn:F; cbn in Hr |- *.
  - destruct w; cbn in *. subst. reflexivity.
  - destruct flt; cbn in Hr; try discriminate Hr; reflexivity.
Qed.


End Strict.


(** ** The worker pool of [run] *)

(** C7 (the code at the failing input).  Called with [now = "2"], eight
    processes requested on a host with four: [run] synchronises with a pool
    of eight and exits before it reaches [min(procnum, cpu_count())].
    With [now = "1"] the first pass has a pool of eight as well, and only
    the passes of the loop a pool of four. *)
Theorem run_now_pool_exceeds_cpu_count :
  let w := sample_world sample_source (Dir []) [] in
  let now2 := Extended.run 0 Source Replica true 8 false false "2" w in
  let now1 := Extended.run 1 Source Replica true 8 false false "1" w in
  cpu_count = 4
  /\ fst now2 = Raise (SystemExit 0)
  /\ filter is_pool (trace (snd now2)) = [EvPool 8]
  /\ fst now1 = OutOfFuel
  /\ filter is_pool (trace (snd now1)) = [EvPool 8; EvPool 4].
Proof.
  vm_compute. repeat split; reflexivity.
Qed.

(** Whatever the arguments, [now = "2"] means one pass with the pool size
    as requested, then [sys.exit(0)]. *)
Lemma run_now_2 {H : Xxhash} {host : Host} rounds source replica multi
    procnum strict sched (w : world) :
  Extended.run rounds source replica multi procnum strict sched "2" w
  = (Extended.synchronization source replica multi procnum strict ;;
     Extended.sys_exit 0) w.
Proof.
  unfold Extended.run. cbn [String.eqb Ascii.eqb Bool.eqb].
  unfold bind, ret, Extended.sys_exit, raise.
  destruct (Extended.synchronization source replica multi procnum strict w)
    as [[[] | e | ] w']; reflexivity.
Qed.

(** ** Trees: entries, lookups, shapes *)

Lemma assoc_put (name name' : string) (v : node) es :
  assoc name' (put name v es)
  = if String.eqb name name' then Some v else assoc name' es.
Proof.
  induction es as [ | [k c] es IH]; cbn.
  - destruct (String.eqb name name'); reflexivity.
  - destruct (String.eqb k name) eqn:E; cbn.
    + apply String.eqb_eq in E. subst k.
      destruct (String.eqb name name'); reflexivity.
    + destruct (String.eqb k name') eqn:E'.
      * apply String.eqb_eq in E'. subst k.
        rewrite String.eqb_sym, E. reflexivity.
      * exact IH.
Qed.

Lemma assoc_del (name name' : string) es :
  assoc name' (del name es)
  = if String.eqb name name' then None else assoc name' es.
Proof.
  induction es as [ | [k c] es IH]; cbn.
  - destruct (String.eqb name name'); reflexivity.
  - destruct (String.eqb k name) eqn:E; cbn.
    + apply String.eqb_eq in E. subst k. rewrite IH.
      destruct (String.eqb name name'); reflexivity.
    + destruct (String.eqb k name') eqn:E'.
      * apply String.eqb_eq in E'. subst k.
        rewrite String.eqb_sym, E. reflexivity.
      * exact IH.
Qed.

Lemma lookup_app (n : node) (p q : path) :
  lookup n (p ++ q)
  = match lookup n p with Some c => lookup c q | None => None end.
Proof.
  revert n. induction p as [ | name p IH]; intros n; cbn; [reflexivity | ].
  destruct n as [m d | es]; [reflexivity | ].
  destruct (assoc name es); [apply IH | reflexivity].
Qed.

Lemma lookup_file_below m d (q : path) :
  q <> [] -> lookup (File m d) q = None.
Proof. destruct q; [congruence | reflexivity]. Qed.

Lemma is_prefix_refl (p : path) : is_prefix p p = true.
Proof.
  induction p as [ | a p IH]; cbn; [reflexivity | ].
  rewrite String.eqb_refl. exact IH.
Qed.

Lemma is_prefix_app (p q : path) : is_prefix p (p ++ q) = true.
Proof.
  induction p as [ | a p IH]; cbn; [reflexivity | ].
  rewrite String.eqb_refl. exact IH.
Qed.

Lemma is_prefix_spec (p q : path) :
  is_prefix p q = true <-> exists r, q = p ++ r.
Proof.
  split.
  - revert q. induction p as [ | a p IH]; intros q Hq; cbn in *.
    + exists q. reflexivity.
    + destruct q as [ | b q]; [discriminate | ].
      apply andb_prop in Hq. destruct Hq as [Hab Hq].
      apply String.eqb_eq in Hab. subst b.
      destruct (IH q Hq) as (r & ->). exists r. reflexivity.
  - intros (r & ->). apply is_prefix_app.
Qed.

Lemma path_eqb_eq (p q : path) : path_eqb p q = true <-> p = q.
Proof.
  revert q. induction p as [ | a p IH]; intros [ | b q]; cbn;
    try (split; [discriminate | congruence]); [tauto | ].
  rewrite andb_true_iff, String.eqb_eq, IH. split.
  - intros [-> ->]. reflexivity.
  - intros E. injection E as -> ->. tauto.
Qed.

Lemma is_prefix_skipn (p q : path) :
  is_prefix p q = true -> q = p ++ skipn (List.length p) q.
Proof.
  revert q. induction p as [ | a p IH]; intros q Hq; cbn in *; [reflexivity | ].
  destruct q as [ | b q]; [discriminate | ].
  apply andb_prop in Hq. destruct Hq as [Hab Hq].
  apply String.eqb_eq in Hab. subst b. cbn. f_equal. apply IH, Hq.
Qed.

Lemma is_prefix_app_l (p q r : path) :
  is_prefix (p ++ q) (p ++ r) = is_prefix q r.
Proof.
  induction p as [ | a p IH]; cbn; [reflexivity | ].
  rewrite String.eqb_refl. exact IH.
Qed.

Lemma is_prefix_app_false (p q r : path) :
  is_prefix p r = false -> is_prefix (p ++ q) r = false.
Proof.
  revert r. induction p as [ | a p IH]; intros r Hr; cbn in *;
    [discriminate | ].
  destruct r as [ | b r]; [reflexivity | ].
  destruct (String.eqb a b); cbn in *; [apply IH, Hr | reflexivity].
Qed.

Lemma skipn_length_app {A} (p r : list A) : skipn (List.length p) (p ++ r) = r.
Proof. induction p as [ | a p IH]; cbn; [reflexivity | exact IH]. Qed.

Lemma at_app (n : node) (p q : path) :
  at_ n (p ++ q)
  = match lookup n p with Some c => at_ c q | None => Absent end.
Proof.
  unfold at_. rewrite lookup_app. destruct (lookup n p); reflexivity.
Qed.

(** What the tree shows after the entries of the directory at [p] have
    been changed by [f]. *)
Lemma at_alter (p : path) f (R R' : node) :
  alter p f R = Some R' ->
  exists es,
    lookup R p = Some (Dir es)
    /\ forall q,
         at_ R' q
         = if is_prefix p q
           then at_ (Dir (f es)) (skipn (List.length p) q)
           else at_ R q.
Proof.
  revert R R'. induction p as [ | name p IH]; intros R R' HA.
  - destruct R as [m d | es]; cbn in HA; [discriminate | ].
    injection HA as <-. exists es. split; [reflexivity | ].
    intros q. reflexivity.
  - destruct R as [m d | es0]; cbn in HA; [discriminate | ].
    destruct (assoc name es0) as [c | ] eqn:Ec; [ | discriminate].
    destruct (alter p f c) as [c' | ] eqn:Ea; [ | discriminate].
    injection HA as <-.
    destruct (IH c c' Ea) as (es & Hl & Hat).
    exists es. split; [cbn; rewrite Ec; exact Hl | ].
    intros [ | b q]; [reflexivity | ].
    unfold at_ at 1 3. cbn [lookup is_prefix skipn List.length].
    rewrite assoc_put.
    destruct (String.eqb name b) eqn:E; cbn [andb].
    + apply String.eqb_eq in E. subst b. rewrite Ec.
      exact (Hat q).
    + reflexivity.
Qed.

Lemma at_dir_put name v es (q : path) :
  at_ (Dir (put name v es)) q
  = match q with
    | [] => IsDir
    | b :: r => if String.eqb name b then at_ v r else at_ (Dir es) q
    end.
Proof.
  destruct q as [ | b r]; [reflexivity | ].
  unfold at_. cbn [lookup]. rewrite assoc_put.
  destruct (String.eqb name b); reflexivity.
Qed.

Lemma at_dir_del name es (q : path) :
  at_ (Dir (del name es)) q
  = match q with
    | [] => IsDir
    | b :: r => if String.eqb name b then Absent else at_ (Dir es) q
    end.
Proof.
  destruct q as [ | b r]; [reflexivity | ].
  unfold at_. cbn [lookup]. rewrite assoc_del.
  destruct (String.eqb name b); reflexivity.
Qed.

(** After the entry [dirp/name] has been written. *)
Lemma at_write dirp name v (R R' : node) :
  alter dirp (put name v) R = Some R' ->
  forall q,
    at_ R' q
    = if is_prefix (dirp ++ [name]) q
      then at_ v (skipn (List.length dirp + 1) q)
      else at_ R q.
Proof.
  intros HA q. destruct (at_alter _ _ _ _ HA) as (es & Hl & Hat).
  rewrite Hat. destruct (is_prefix dirp q) eqn:Ep.
  - pose proof (is_prefix_skipn _ _ Ep) as Eq.
    set (q' := skipn (List.length dirp) q) in *. clearbody q'. subst q.
    rewrite is_prefix_app_l, at_app, Hl.
    rewrite Nat.add_comm, <- skipn_skipn, skipn_length_app.
    rewrite at_dir_put.
    destruct q' as [ | b r]; [reflexivity | ].
    cbn [is_prefix skipn]. rewrite andb_true_r.
    destruct (String.eqb name b); reflexivity.
  - rewrite (is_prefix_app_false _ _ _ Ep). reflexivity.
Qed.

(** After the entry [dirp/name] has been deleted. *)
Lemma at_delete dirp name (R R' : node) :
  alter dirp (del name) R = Some R' ->
  forall q,
    at_ R' q = if is_prefix (dirp ++ [name]) q then Absent else at_ R q.
Proof.
  intros HA q. destruct (at_alter _ _ _ _ HA) as (es & Hl & Hat).
  rewrite Hat. destruct (is_prefix dirp q) eqn:Ep.
  - pose proof (is_prefix_skipn _ _ Ep) as Eq.
    set (q' := skipn (List.length dirp) q) in *. clearbody q'. subst q.
    rewrite is_prefix_app_l, at_app, Hl.
    rewrite at_dir_del.
    destruct q' as [ | b r]; [reflexivity | ].
    cbn [is_prefix]. rewrite andb_true_r.
    destruct (String.eqb name b); reflexivity.
  - rewrite (is_prefix_app_false _ _ _ Ep). reflexivity.
Qed.

Lemma at_fresh_dirs (p q : path) :
  at_ (fresh_dirs p) q = if is_prefix q p then IsDir else Absent.
Proof.
  revert q. induction p as [ | name p IH]; intros [ | b q]; cbn;
    try reflexivity.
  unfold at_. cbn. rewrite (String.eqb_sym b name).
  destruct (String.eqb name b); cbn; [apply IH | reflexivity].
Qed.

(** After [os.makedirs(p)]: [p] and its parents are directories, the rest
    is as before. *)
Lemma at_mkdirs (p : path) (R R' : node) :
  mkdirs p R = inr R' ->
  forall q, at_ R' q = if is_prefix q p then IsDir else at_ R q.
Proof.
  revert R R'. induction p as [ | name p IH]; intros R R' HM.
  - destruct R; discriminate HM.
  - destruct R as [m d | es]; cbn in HM; [discriminate | ].
    destruct (assoc name es) as [c | ] eqn:Ec.
    + destruct (mkdirs p c) as [e | c'] eqn:Em; [discriminate | ].
      injection HM as <-. intros [ | b q]; [reflexivity | ].
      rewrite at_dir_put. cbn [is_prefix]. rewrite (String.eqb_sym b name).
      destruct (String.eqb name b) eqn:E; cbn [andb]; [ | reflexivity].
      apply String.eqb_eq in E. subst b. rewrite (IH c c' Em).
      unfold at_ at 2. cbn [lookup]. rewrite Ec. reflexivity.
    + injection HM as <-. intros [ | b q]; [reflexivity | ].
      rewrite at_dir_put. cbn [is_prefix]. rewrite (String.eqb_sym b name).
      destruct (String.eqb name b) eqn:E; cbn [andb]; [ | reflexivity].
      apply String.eqb_eq in E. subst b. rewrite at_fresh_dirs.
      unfold at_. cbn [lookup]. rewrite Ec.
      destruct (is_prefix q p); reflexivity.
Qed.

Lemma mkdirs_is_Exception (p : path) (R : node) (e : exn) :
  mkdirs p R = inl e -> is_Exception e = true.
Proof.
  revert R. induction p as [ | name p IH]; intros R HM.
  - destruct R; injection HM as <-; reflexivity.
  - destruct R as [m d | es]; cbn in HM; [injection HM as <-; reflexivity | ].
    destruct (assoc name es) as [c | ]; [ | discriminate].
    destruct (mkdirs p c) as [e' | c'] eqn:Em; [ | discriminate].
    injection HM as <-. exact (IH c Em).
Qed.

(** ** Induction on trees *)

Lemma node_induction (P : node -> Prop) :
  (forall m d, P (File m d)) ->
  (forall es, Forall (fun e => P (snd e)) es -> P (Dir es)) ->
  forall n, P n.
Proof.
  intros HF HD.
  fix IH 1. intros [m d | es]; [apply HF | ].
  apply HD. induction es as [ | [name c] es IHes]; constructor.
  - cbn. apply IH.
  - exact IHes.
Qed.

(** ** Well-formed trees *)

Definition all_wf (es : list (string * node)) : bool :=
  forallb (fun e => wf (snd e)) es.

Lemma wf_dir es :
  wf (Dir es) = fresh_names (map fst es) && all_wf es.
Proof.
  cbn [wf]. f_equal. unfold all_wf.
  induction es as [ | [name c] es IH]; cbn; [reflexivity | ].
  rewrite IH. reflexivity.
Qed.

Lemma existsb_eqb_In (a : string) (l : list string) :
  existsb (String.eqb a) l = true <-> In a l.
Proof.
  rewrite existsb_exists. split.
  - intros (x & Hx & E). apply String.eqb_eq in E. subst x. exact Hx.
  - intros Ha. exists a. split; [exact Ha | apply String.eqb_refl].
Qed.

Lemma fresh_names_NoDup (l : list string) :
  fresh_names l = true <-> NoDup l.
Proof.
  induction l as [ | a l IH]; cbn.
  - split; [constructor | reflexivity].
  - rewrite andb_true_iff, negb_true_iff, IH. split.
    + intros [Hn Hd]. constructor; [ | exact Hd].
      intros Ha. apply existsb_eqb_In in Ha. congruence.
    + intros Hd. inversion Hd as [ | ? ? Hn Hd']; subst. split; [ | exact Hd'].
      destruct (existsb (String.eqb a) l) eqn:E; [ | reflexivity].
      apply existsb_eqb_In in E. contradiction.
Qed.

Lemma assoc_In name c es : assoc name es = Some c -> In (name, c) es.
Proof.
  induction es as [ | [k v] es IH]; cbn; [discriminate | ].
  destruct (String.eqb k name) eqn:E.
  - apply String.eqb_eq in E. intros [= ->]. subst k. left. reflexivity.
  - intros HA. right. exact (IH HA).
Qed.

Lemma assoc_None name es : assoc name es = None <-> ~ In name (map fst es).
Proof.
  induction es as [ | [k v] es IH]; cbn; [tauto | ].
  destruct (String.eqb k name) eqn:E.
  - apply String.eqb_eq in E. split; [discriminate | ]. tauto.
  - apply String.eqb_neq in E. rewrite IH. tauto.
Qed.

Lemma In_assoc name c es :
  NoDup (map fst es) -> In (name, c) es -> assoc name es = Some c.
Proof.
  induction es as [ | [k v] es IH]; cbn; [tauto | ].
  intros Hd [E | Hin]; inversion Hd as [ | ? ? Hn Hd']; subst.
  - injection E as -> ->. rewrite String.eqb_refl. reflexivity.
  - destruct (String.eqb k name) eqn:E.
    + apply String.eqb_eq in E. subst k. exfalso. apply Hn.
      apply (in_map fst) in Hin. exact Hin.
    + apply IH; assumption.
Qed.

Lemma wf_lookup (n c : node) (p : path) :
  wf n = true -> lookup n p = Some c -> wf c = true.
Proof.
  revert n. induction p as [ | name p IH]; intros n Hw Hl; cbn in Hl.
  - injection Hl as <-. exact Hw.
  - destruct n as [m d | es]; [discriminate | ].
    destruct (assoc name es) as [c0 | ] eqn:Ec; [ | discriminate].
    apply (IH c0); [ | exact Hl].
    rewrite wf_dir in Hw. apply andb_prop in Hw. destruct Hw as [_ Hall].
    unfold all_wf in Hall. rewrite forallb_forall in Hall.
    exact (Hall _ (assoc_In _ _ _ Ec)).
Qed.

Lemma In_names_put name v es (a : string) :
  In a (map fst (put name v es)) <-> a = name \/ In a (map fst es).
Proof.
  induction es as [ | [k c] es IH]; cbn.
  - intuition congruence.
  - destruct (String.eqb k name) eqn:E; cbn.
    + apply String.eqb_eq in E. subst k. intuition congruence.
    + rewrite IH. intuition congruence.
Qed.

Lemma NoDup_names_put name v es :
  NoDup (map fst es) -> NoDup (map fst (put name v es)).
Proof.
  induction es as [ | [k c] es IH]; cbn; intros Hd.
  - constructor; [intros [] | constructor].
  - inversion Hd as [ | ? ? Hn Hd']; subst.
    destruct (String.eqb k name) eqn:E; cbn.
    + constructor; assumption.
    + constructor; [ | apply IH, Hd'].
      rewrite In_names_put. intros [-> | Hin]; [ | contradiction].
      rewrite String.eqb_refl in E. discriminate.
Qed.

Lemma all_wf_put name v es :
  wf v = true -> all_wf es = true -> all_wf (put name v es) = true.
Proof.
  unfold all_wf. intros Hv. induction es as [ | [k c] es IH]; cbn.
  - intros _. rewrite Hv. reflexivity.
  - intros Hall. apply andb_prop in Hall. destruct Hall as [Hc Hall].
    destruct (String.eqb k name); cbn.
    + rewrite Hv, Hall. reflexivity.
    + rewrite Hc, (IH Hall). reflexivity.
Qed.

Lemma In_names_del name es (a : string) :
  In a (map fst (del name es)) <-> a <> name /\ In a (map fst es).
Proof.
  induction es as [ | [k c] es IH]; cbn.
  - tauto.
  - destruct (String.eqb k name) eqn:E; cbn.
    + apply String.eqb_eq in E. subst k. rewrite IH. intuition congruence.
    + apply String.eqb_neq in E. rewrite IH. intuition congruence.
Qed.

Lemma NoDup_names_del name es :
  NoDup (map fst es) -> NoDup (map fst (del name es)).
Proof.
  induction es as [ | [k c] es IH]; cbn; intros Hd; [constructor | ].
  inversion Hd as [ | ? ? Hn Hd']; subst.
  destruct (String.eqb k name); cbn; [apply IH, Hd' | ].
  constructor; [ | apply IH, Hd'].
  rewrite In_names_del. tauto.
Qed.

Lemma all_wf_del name es : all_wf es = true -> all_wf (del name es) = true.
Proof.
  unfold all_wf. induction es as [ | [k c] es IH]; cbn; [reflexivity | ].
  intros Hall. apply andb_prop in Hall. destruct Hall as [Hc Hall].
  destruct (String.eqb k name); cbn; [apply IH, Hall | ].
  rewrite Hc, (IH Hall). reflexivity.
Qed.

Lemma wf_dir_intro es :
  NoDup (map fst es) -> all_wf es = true -> wf (Dir es) = true.
Proof.
  intros Hd Hall. rewrite wf_dir, Hall, andb_true_r.
  apply fresh_names_NoDup, Hd.
Qed.

Lemma wf_dir_elim es :
  wf (Dir es) = true -> NoDup (map fst es) /\ all_wf es = true.
Proof.
  rewrite wf_dir. intros Hw. apply andb_prop in Hw. destruct Hw as [Hf Hall].
  split; [apply fresh_names_NoDup, Hf | exact Hall].
Qed.

Lemma all_wf_assoc name c es :
  all_wf es = true -> assoc name es = Some c -> wf c = true.
Proof.
  unfold all_wf. rewrite forallb_forall. intros Hall Hc.
  exact (Hall _ (assoc_In _ _ _ Hc)).
Qed.

(** A change of the entries of one directory that keeps names distinct and
    entries well formed keeps the tree well formed. *)
Lemma wf_alter (p : path) f (R R' : node) :
  (forall es, NoDup (map fst es) -> all_wf es = true ->
              NoDup (map fst (f es)) /\ all_wf (f es) = true) ->
  wf R = true -> alter p f R = Some R' -> wf R' = true.
Proof.
  intros Hf. revert R R'. induction p as [ | name p IH]; intros R R' Hw HA.
  - destruct R as [m d | es]; cbn in HA; [discriminate | ].
    injection HA as <-. apply wf_dir_elim in Hw. destruct Hw as [Hd Hall].
    destruct (Hf es Hd Hall). apply wf_dir_intro; assumption.
  - destruct R as [m d | es]; cbn in HA; [discriminate | ].
    destruct (assoc name es) as [c | ] eqn:Ec; [ | discriminate].
    destruct (alter p f c) as [c' | ] eqn:Ea; [ | discriminate].
    injection HA as <-. apply wf_dir_elim in Hw. destruct Hw as [Hd Hall].
    apply wf_dir_intro; [apply NoDup_names_put, Hd | ].
    apply all_wf_put; [ | exact Hall].
    apply (IH c c'); [ | exact Ea]. exact (all_wf_assoc _ _ _ Hall Ec).
Qed.

Lemma wf_fresh_dirs (p : path) : wf (fresh_dirs p) = true.
Proof.
  induction p as [ | name p IH]; [reflexivity | ].
  cbn [fresh_dirs]. apply wf_dir_intro.
  - cbn. constructor; [intros [] | constructor].
  - unfold all_wf. cbn. rewrite IH. reflexivity.
Qed.

Lemma wf_mkdirs (p : path) (R R' : node) :
  wf R = true -> mkdirs p R = inr R' -> wf R' = true.
Proof.
  revert R R'. induction p as [ | name p IH]; intros R R' Hw HM.
  - destruct R; discriminate HM.
  - destruct R as [m d | es]; cbn in HM; [discriminate | ].
    apply wf_dir_elim in Hw. destruct Hw as [Hd Hall].
    destruct (assoc name es) as [c | ] eqn:Ec.
    + destruct (mkdirs p c) as [e | c'] eqn:Em; [discriminate | ].
      injection HM as <-.
      apply wf_dir_intro; [apply NoDup_names_put, Hd | ].
      apply all_wf_put; [ | exact Hall].
      apply (IH c c'); [ | exact Em]. exact (all_wf_assoc _ _ _ Hall Ec).
    + injection HM as <-.
      apply wf_dir_intro; [apply NoDup_names_put, Hd | ].
      apply all_wf_put; [apply wf_fresh_dirs | exact Hall].
Qed.

Lemma alter_defined (p : path) f (R : node) es :
  lookup R p = Some (Dir es) -> exists R', alter p f R = Some R'.
Proof.
  revert R. induction p as [ | name p IH]; intros R Hl; cbn in Hl.
  - injection Hl as ->. cbn. eauto.
  - destruct R as [m d | es0]; [discriminate | ]. cbn.
    destruct (assoc name es0) as [c | ]; [ | discriminate].
    destruct (IH c Hl) as (c' & ->). eauto.
Qed.

Lemma split_last_snoc (p : path) (name : string) :
  split_last (p ++ [name]) = Some (p, name).
Proof.
  induction p as [ | a p IH]; [reflexivity | ].
  cbn [app split_last]. rewrite IH.
  destruct (p ++ [name]) eqn:E; [destruct p; discriminate | reflexivity].
Qed.

Lemma at_IsFile (R : node) (q : path) m d :
  at_ R q = IsFile m d <-> lookup R q = Some (File m d).
Proof.
  unfold at_. destruct (lookup R q) as [[m' d' | es] | ]; cbn;
    split; congruence.
Qed.

Lemma at_IsDir (R : node) (q : path) :
  at_ R q = IsDir <-> exists es, lookup R q = Some (Dir es).
Proof.
  unfold at_. destruct (lookup R q) as [[m' d' | es] | ]; cbn; split;
    try discriminate; try (intros (es' & E); discriminate E); eauto.
Qed.

Lemma at_Absent (R : node) (q : path) :
  at_ R q = Absent <-> lookup R q = None.
Proof.
  unfold at_. destruct (lookup R q) as [[m' d' | es] | ]; cbn;
    split; congruence.
Qed.

Lemma lookup_snoc (R : node) (p : path) (name : string) (x : node) :
  lookup R (p ++ [name]) = Some x ->
  exists es, lookup R p = Some (Dir es) /\ assoc name es = Some x.
Proof.
  rewrite lookup_app. destruct (lookup R p) as [[m d | es] | ]; cbn;
    try discriminate.
  destruct (assoc name es) as [c | ] eqn:E; [ | discriminate].
  intros [= ->]. eauto.
Qed.

(** ** What the deleting calls do to the replica *)

(** The part of the world the deleting calls leave alone. *)
Definition replica_step (w w' : world) (t : list event) : Prop :=
  src w' = src w /\ faults w' = faults w /\ trace w' = trace w ++ t.

Lemma delete_entry_spec (w : world) (p : path) (name : string) (ev : event)
    (R' : node) :
  alter p (del name) (rep w) = Some R' ->
  exists w',
    (put_tree Replica R' ;; touch (Replica, p))
      (set_trace (trace w ++ [ev]) w) = (Ok tt, w')
    /\ replica_step w w' [ev]
    /\ rep w' = R'.
Proof.
  intros HA. eexists. split; [reflexivity | ].
  unfold replica_step. cbn. repeat split; reflexivity.
Qed.

Lemma os_remove_spec (w : world) (p : path) (name : string) m d :
  at_ (rep w) (p ++ [name]) = IsFile m d ->
  exists w',
    os_remove (Replica, p ++ [name]) w = (Ok tt, w')
    /\ replica_step w w' [EvRemove (Replica, p ++ [name])]
    /\ (forall q, at_ (rep w') q
                  = if is_prefix (p ++ [name]) q then Absent
                    else at_ (rep w) q)
    /\ (wf (rep w) = true -> wf (rep w') = true).
Proof.
  intros Hat. apply at_IsFile in Hat.
  destruct (lookup_snoc _ _ _ _ Hat) as (es & Hp & _).
  destruct (alter_defined p (del name) _ _ Hp) as (R' & HA).
  destruct (delete_entry_spec w p name (EvRemove (Replica, p ++ [name])) R' HA)
    as (w' & Hrun & Hstep & Hrep).
  exists w'. split; [ | split; [exact Hstep | split]].
  - unfold os_remove. run_m. cbn [tree set_trace rep fst snd].
    rewrite Hat, split_last_snoc, HA. exact Hrun.
  - rewrite Hrep. exact (at_delete _ _ _ _ HA).
  - rewrite Hrep. intros Hw. refine (wf_alter _ _ _ _ _ Hw HA).
    intros es0 Hd Hall. split; [apply NoDup_names_del, Hd | ].
    apply all_wf_del, Hall.
Qed.

Lemma shutil_rmtree_spec (w : world) (p : path) (name : string) :
  at_ (rep w) (p ++ [name]) = IsDir ->
  exists w',
    shutil_rmtree (Replica, p ++ [name]) w = (Ok tt, w')
    /\ replica_step w w' [EvRmtree (Replica, p ++ [name])]
    /\ (forall q, at_ (rep w') q
                  = if is_prefix (p ++ [name]) q then Absent
                    else at_ (rep w) q)
    /\ (wf (rep w) = true -> wf (rep w') = true).
Proof.
  intros Hat. apply at_IsDir in Hat. destruct Hat as (es1 & Hat).
  destruct (lookup_snoc _ _ _ _ Hat) as (es & Hp & _).
  destruct (alter_defined p (del name) _ _ Hp) as (R' & HA).
  destruct (delete_entry_spec w p name (EvRmtree (Replica, p ++ [name])) R' HA)
    as (w' & Hrun & Hstep & Hrep).
  exists w'. split; [ | split; [exact Hstep | split]].
  - unfold shutil_rmtree. run_m. cbn [tree set_trace rep fst snd].
    rewrite Hat, split_last_snoc, HA. exact Hrun.
  - rewrite Hrep. exact (at_delete _ _ _ _ HA).
  - rewrite Hrep. intros Hw. refine (wf_alter _ _ _ _ _ Hw HA).
    intros es0 Hd Hall. split; [apply NoDup_names_del, Hd | ].
    apply all_wf_del, Hall.
Qed.

(** ** Reconciliation, loop by loop *)

Definition prune_children (s : option node) (l : list (string * node))
  : list (string * node) :=
  map (fun e => (fst e, prune (sub s (fst e)) (snd e))) l.

Definition children_events (s : option node) (p : path)
    (l : list (string * node)) : list event :=
  flat_map (fun e => removal_events (sub s (fst e)) (p ++ [fst e]) (snd e)) l.

Lemma prune_dir s es :
  prune s (Dir es)
  = Dir (sweep s (dir_names es) (sweep s (file_names es) (prune_children s es))).
Proof.
  cbn [prune]. do 3 f_equal.
  induction es as [ | [name c] es IH]; cbn; [reflexivity | ].
  rewrite IH. reflexivity.
Qed.

Lemma removal_events_dir s p es :
  removal_events s p (Dir es)
  = children_events s p es
    ++ flat_map (fun name => if stale s name then removed_file p name else [])
         (file_names es)
    ++ flat_map (fun name => if stale s name then removed_dir p name else [])
         (dir_names es).
Proof.
  cbn [removal_events]. f_equal.
  induction es as [ | [name c] es IH]; cbn; [reflexivity | ].
  rewrite IH. reflexivity.
Qed.

Lemma walk_bottomup_dir p es :
  walk_bottomup p (Dir es)
  = flat_map (fun e => walk_bottomup (p ++ [fst e]) (snd e)) es
    ++ [(p, dir_names es, file_names es)].
Proof.
  cbn [walk_bottomup]. f_equal.
  induction es as [ | [name c] es IH]; cbn; [reflexivity | ].
  rewrite IH. reflexivity.
Qed.

Lemma walk_topdown_dir p es :
  walk_topdown p (Dir es)
  = (p, dir_names es, file_names es)
    :: flat_map (fun e => walk_topdown (p ++ [fst e]) (snd e)) es.
Proof.
  cbn [walk_topdown]. f_equal.
  induction es as [ | [name c] es IH]; cbn; [reflexivity | ].
  rewrite IH. reflexivity.
Qed.

Lemma for_each_app {A} (xs ys : list A) (body : A -> M unit) (w : world) :
  for_each (xs ++ ys) body w = (for_each xs body ;; for_each ys body) w.
Proof.
  revert w. induction xs as [ | x xs IH]; intros w; cbn [app for_each].
  - reflexivity.
  - unfold bind in *. destruct (body x w) as [[[] | e | ] w1];
      try reflexivity.
    apply IH.
Qed.

Lemma replica_step_refl (w : world) : replica_step w w [].
Proof. unfold replica_step. rewrite app_nil_r. repeat split. Qed.

Lemma replica_step_trans (w1 w2 w3 : world) (t1 t2 : list event) :
  replica_step w1 w2 t1 -> replica_step w2 w3 t2 ->
  replica_step w1 w3 (t1 ++ t2).
Proof.
  unfold replica_step. intros (S1 & F1 & T1) (S2 & F2 & T2).
  rewrite S2, F2, T2, T1, app_assoc. repeat split; assumption.
Qed.

Lemma lookup_sub (S : node) (p : path) (name : string) :
  lookup S (p ++ [name]) = sub (lookup S p) name.
Proof.
  rewrite lookup_app. destruct (lookup S p) as [[m d | ses] | ]; cbn;
    try reflexivity.
  destruct (assoc name ses); reflexivity.
Qed.

Lemma source_exists_stale (w : world) (p : path) (name : string) :
  os_path_exists (Source, p ++ [name]) w
  = (Ok (negb (stale (lookup (src w) p) name)), w).
Proof.
  rewrite os_path_exists_spec. unfold node_at, stale. cbn [fst snd tree].
  rewrite lookup_sub. destruct (sub (lookup (src w) p) name); reflexivity.
Qed.

Lemma is_prefix_sibling (p : path) (a b : string) :
  a <> b -> is_prefix (p ++ [a]) (p ++ [b]) = false.
Proof.
  intros Hab. rewrite is_prefix_app_l. cbn.
  apply String.eqb_neq in Hab. rewrite Hab. reflexivity.
Qed.

(** A loop over the names of one directory whose turns delete the stale
    entries they are given. *)
Section SweepLoop.
Variables (p : path) (body : string -> M unit) (evs : string -> list event).
Variable good : shape -> Prop.

Hypothesis body_spec :
  forall w name,
    good (at_ (rep w) (p ++ [name])) ->
    exists w',
      body name w = (Ok tt, w')
      /\ replica_step w w'
           (if stale (lookup (src w) p) name then evs name else [])
      /\ (forall q,
            at_ (rep w') q
            = if stale (lookup (src w) p) name && is_prefix (p ++ [name]) q
              then Absent else at_ (rep w) q)
      /\ (wf (rep w) = true -> wf (rep w') = true).

Lemma sweep_loop (names : list string) (w : world) :
  NoDup names ->
  (forall name, In name names -> good (at_ (rep w) (p ++ [name]))) ->
  exists w',
    for_each names body w = (Ok tt, w')
    /\ replica_step w w'
         (flat_map (fun name =>
                      if stale (lookup (src w) p) name then evs name else [])
            names)
    /\ (forall q,
          at_ (rep w') q
          = if existsb (fun name => stale (lookup (src w) p) name
                                    && is_prefix (p ++ [name]) q) names
            then Absent else at_ (rep w) q)
    /\ (wf (rep w) = true -> wf (rep w') = true).
Proof.
  revert w. induction names as [ | a names IH]; intros w Hd Hgood.
  - exists w. cbn. repeat split; auto. apply replica_step_refl.
  - inversion Hd as [ | ? ? Hna Hd']; subst.
    destruct (body_spec w a (Hgood a (or_introl eq_refl)))
      as (w1 & Hrun & Hstep & Hat & Hwf).
    assert (Hsrc : src w1 = src w) by apply Hstep.
    destruct (IH w1 Hd') as (w2 & Hrun2 & Hstep2 & Hat2 & Hwf2).
    { intros name Hin. rewrite Hat.
      assert (Hne : a <> name) by (intros ->; contradiction).
      rewrite (is_prefix_sibling p a name Hne), andb_false_r.
      apply Hgood. right. exact Hin. }
    rewrite Hsrc in *.
    exists w2. split; [ | split; [ | split]].
    + cbn [for_each]. unfold bind. rewrite Hrun. exact Hrun2.
    + cbn [flat_map]. exact (replica_step_trans _ _ _ _ _ Hstep Hstep2).
    + intros q. rewrite Hat2, Hat. cbn [existsb].
      destruct (existsb _ names); [rewrite orb_true_r; reflexivity | ].
      rewrite orb_false_r. reflexivity.
    + auto.
Qed.

End SweepLoop.

Lemma cleanup_file_spec (p : path) (w : world) (file : string) :
  (exists m d, at_ (rep w) (p ++ [file]) = IsFile m d) ->
  exists w',
    Extended.cleanup_file (Source, p) (Replica, p) file w = (Ok tt, w')
    /\ replica_step w w'
         (if stale (lookup (src w) p) file then removed_file p file else [])
    /\ (forall q,
          at_ (rep w') q
          = if stale (lookup (src w) p) file && is_prefix (p ++ [file]) q
            then Absent else at_ (rep w) q)
    /\ (wf (rep w) = true -> wf (rep w') = true).
Proof.
  intros (m & d & Hat).
  unfold Extended.cleanup_file, os_path_join. cbn [fst snd]. unfold bind at 1.
  rewrite source_exists_stale.
  destruct (stale (lookup (src w) p) file); cbn [negb andb].
  - destruct (os_remove_spec w p file m d Hat) as (w1 & Hrun & Hstep & Hs & Hw).
    eexists. split; [unfold bind; rewrite Hrun; reflexivity | ].
    split; [ | split; [exact Hs | exact Hw]].
    destruct Hstep as (S1 & F1 & T1). unfold replica_step, removed_file.
    cbn. rewrite T1, <- app_assoc. repeat split; assumption.
  - exists w. repeat split; auto. apply replica_step_refl.
Qed.

Lemma cleanup_dir_spec (p : path) (w : world) (currdir : string) :
  at_ (rep w) (p ++ [currdir]) = IsDir ->
  exists w',
    Extended.cleanup_dir (Source, p) (Replica, p) currdir w = (Ok tt, w')
    /\ replica_step w w'
         (if stale (lookup (src w) p) currdir
          then removed_dir p currdir else [])
    /\ (forall q,
          at_ (rep w') q
          = if stale (lookup (src w) p) currdir
               && is_prefix (p ++ [currdir]) q
            then Absent else at_ (rep w) q)
    /\ (wf (rep w) = true -> wf (rep w') = true).
Proof.
  intros Hat.
  unfold Extended.cleanup_dir, os_path_join. cbn [fst snd]. unfold bind at 1.
  rewrite source_exists_stale.
  destruct (stale (lookup (src w) p) currdir); cbn [negb andb].
  - destruct (shutil_rmtree_spec w p currdir Hat)
      as (w1 & Hrun & Hstep & Hs & Hw).
    eexists. split; [unfold bind; rewrite Hrun; reflexivity | ].
    split; [ | split; [exact Hs | exact Hw]].
    destruct Hstep as (S1 & F1 & T1). unfold replica_step, removed_dir.
    cbn. rewrite T1, <- app_assoc. repeat split; assumption.
  - exists w. repeat split; auto. apply replica_step_refl.
Qed.

Lemma assoc_app name (a b : list (string * node)) :
  assoc name (a ++ b)
  = match assoc name a with Some v => Some v | None => assoc name b end.
Proof.
  induction a as [ | [k v] a IH]; cbn; [reflexivity | ].
  destruct (String.eqb k name); [reflexivity | exact IH].
Qed.

Lemma assoc_prune_children s name es :
  assoc name (prune_children s es)
  = option_map (prune (sub s name)) (assoc name es).
Proof.
  induction es as [ | [k c] es IH]; cbn; [reflexivity | ].
  destruct (String.eqb k name) eqn:E; [ | exact IH].
  apply String.eqb_eq in E. subst k. reflexivity.
Qed.

Lemma names_prune_children s es :
  map fst (prune_children s es) = map fst es.
Proof.
  unfold prune_children. rewrite map_map. reflexivity.
Qed.

Lemma at_dir_cons (es : list (string * node)) (b : string) (r : path) :
  at_ (Dir es) (b :: r)
  = match assoc b es with Some c => at_ c r | None => Absent end.
Proof.
  unfold at_. cbn [lookup]. destruct (assoc b es); reflexivity.
Qed.

Lemma at_sweep s names es (q : path) :
  at_ (Dir (sweep s names es)) q
  = if existsb (fun name => stale s name && is_prefix [name] q) names
    then Absent else at_ (Dir es) q.
Proof.
  revert es. induction names as [ | a names IH]; intros es; [reflexivity | ].
  cbn [sweep fold_left existsb]. fold (sweep s names).
  change (fold_left _ names ?x) with (sweep s names x).
  rewrite IH. destruct (existsb _ names); [rewrite orb_true_r; reflexivity | ].
  rewrite orb_false_r. destruct (stale s a); cbn [andb]; [ | reflexivity].
  rewrite at_dir_del. destruct q as [ | b r]; [reflexivity | ].
  cbn [is_prefix]. rewrite andb_true_r.
  destruct (String.eqb a b); reflexivity.
Qed.

Lemma NoDup_names_filter (f : string * node -> bool) es :
  NoDup (map fst es) -> NoDup (map fst (filter f es)).
Proof.
  induction es as [ | [k c] es IH]; cbn; intros Hd; [constructor | ].
  inversion Hd as [ | ? ? Hn Hd']; subst.
  destruct (f (k, c)); cbn; [ | apply IH, Hd'].
  constructor; [ | apply IH, Hd'].
  intros Hin. apply Hn. apply in_map_iff in Hin.
  destruct Hin as ([k' c'] & E & Hin). cbn in E. subst k'.
  apply filter_In in Hin. destruct Hin as [Hin _].
  apply (in_map fst) in Hin. exact Hin.
Qed.

Lemma file_names_assoc es name :
  NoDup (map fst es) -> In name (file_names es) ->
  exists m d, assoc name es = Some (File m d).
Proof.
  intros Hd Hin. unfold file_names in Hin. apply in_map_iff in Hin.
  destruct Hin as ([k c] & E & Hin). cbn in E. subst k.
  apply filter_In in Hin. destruct Hin as [Hin Hk]. cbn in Hk.
  destruct c as [m d | es']; [ | discriminate].
  exists m, d. apply In_assoc; assumption.
Qed.

Lemma dir_names_assoc es name :
  NoDup (map fst es) -> In name (dir_names es) ->
  exists es', assoc name es = Some (Dir es').
Proof.
  intros Hd Hin. unfold dir_names in Hin. apply in_map_iff in Hin.
  destruct Hin as ([k c] & E & Hin). cbn in E. subst k.
  apply filter_In in Hin. destruct Hin as [Hin Hk]. cbn in Hk.
  destruct c as [m d | es']; [discriminate | ].
  exists es'. apply In_assoc; assumption.
Qed.

Lemma file_dir_names_disjoint es f d :
  NoDup (map fst es) -> In f (file_names es) -> In d (dir_names es) -> f <> d.
Proof.
  intros Hd Hf Hdn ->.
  destruct (file_names_assoc _ _ Hd Hf) as (m & dt & E1).
  destruct (dir_names_assoc _ _ Hd Hdn) as (es' & E2). congruence.
Qed.

Lemma prune_kind s c : is_dir (prune s c) = is_dir c.
Proof. destruct c; reflexivity. Qed.

Lemma existsb_false_all {A} (f : A -> bool) (l : list A) :
  (forall x, In x l -> f x = false) -> existsb f l = false.
Proof.
  induction l as [ | a l IH]; cbn; intros Hall; [reflexivity | ].
  rewrite (Hall a (or_introl eq_refl)). apply IH. intros x Hx.
  apply Hall. right. exact Hx.
Qed.

Lemma existsb_ext_in {A} (f g : A -> bool) (l : list A) :
  (forall x, In x l -> f x = g x) -> existsb f l = existsb g l.
Proof.
  induction l as [ | a l IH]; cbn; intros Hall; [reflexivity | ].
  rewrite (Hall a (or_introl eq_refl)). f_equal. apply IH. intros x Hx.
  apply Hall. right. exact Hx.
Qed.

(** Reconciling the subtree [c] found at [p] of the replica: the loop ends
    normally, changes nothing but the replica below [p], leaves there the
    shapes of [prune], and records [removal_events]. *)
Definition cleans (c : node) : Prop :=
  forall (p : path) (w : world),
    wf c = true ->
    (forall q, at_ (rep w) (p ++ q) = at_ c q) ->
    exists w',
      for_each (walk_bottomup p c) (Extended.cleanup_root Source Replica) w
      = (Ok tt, w')
      /\ replica_step w w' (removal_events (lookup (src w) p) p c)
      /\ (forall q,
            at_ (rep w') q
            = if is_prefix p q
              then at_ (prune (lookup (src w) p) c) (skipn (List.length p) q)
              else at_ (rep w) q)
      /\ (wf (rep w) = true -> wf (rep w') = true).

Lemma at_below (R c : node) (p q : path) :
  (forall r, at_ R (p ++ r) = at_ c r) ->
  is_prefix p q = true ->
  at_ R q = at_ c (skipn (List.length p) q).
Proof.
  intros Hsub Hp. rewrite (is_prefix_skipn _ _ Hp) at 1. apply Hsub.
Qed.

Lemma cleans_children (p : path) (l : list (string * node)) :
  Forall (fun e => cleans (snd e)) l ->
  forall pre w,
    NoDup (map fst (pre ++ l)) ->
    all_wf l = true ->
    (forall q, at_ (rep w) (p ++ q) = at_ (Dir (pre ++ l)) q) ->
    exists w',
      for_each (flat_map (fun e => walk_bottomup (p ++ [fst e]) (snd e)) l)
        (Extended.cleanup_root Source Replica) w
      = (Ok tt, w')
      /\ replica_step w w' (children_events (lookup (src w) p) p l)
      /\ (forall q,
            at_ (rep w') q
            = if is_prefix p q
              then at_ (Dir (pre ++ prune_children (lookup (src w) p) l))
                     (skipn (List.length p) q)
              else at_ (rep w) q)
      /\ (wf (rep w) = true -> wf (rep w') = true).
Proof.
  induction 1 as [ | [name c] l Hc Hl IH]; intros pre w Hd Hall Hsub.
  - exists w. cbn. repeat split; auto; [apply replica_step_refl | ].
    intros q. destruct (is_prefix p q) eqn:Ep; [ | reflexivity].
    exact (at_below _ _ _ _ Hsub Ep).
  - cbn in Hc. cbn [all_wf forallb snd] in Hall.
    apply andb_prop in Hall. destruct Hall as [Hwc Hall].
    assert (Hpre : assoc name pre = None).
    { apply assoc_None. intros Hin. rewrite map_app in Hd.
      apply NoDup_remove_2 in Hd. apply Hd, in_or_app. left. exact Hin. }
    destruct (Hc (p ++ [name]) w Hwc) as (w1 & Hrun1 & Hstep1 & Hat1 & Hwf1).
    { intros q. rewrite <- app_assoc. cbn [app]. rewrite Hsub, at_dir_cons.
      rewrite assoc_app, Hpre. cbn. rewrite String.eqb_refl. reflexivity. }
    rewrite lookup_sub in Hstep1, Hat1.
    set (s := lookup (src w) p) in *.
    assert (Hsrc : src w1 = src w) by apply Hstep1.
    destruct (IH (pre ++ [(name, prune (sub s name) c)]) w1)
      as (w2 & Hrun2 & Hstep2 & Hat2 & Hwf2).
    { rewrite <- app_assoc. cbn [app]. rewrite map_app in *. exact Hd. }
    { exact Hall. }
    { intros q. rewrite Hat1, <- app_assoc. cbn [app].
      rewrite is_prefix_app_l. destruct q as [ | b r].
      - cbn [is_prefix]. rewrite Hsub. reflexivity.
      - cbn [is_prefix]. rewrite andb_true_r, Hsub, !at_dir_cons, !assoc_app.
        cbn [assoc].
        destruct (String.eqb name b) eqn:E.
        + apply String.eqb_eq in E. subst b. rewrite Hpre.
          change (p ++ name :: r) with (p ++ [name] ++ r).
          rewrite app_assoc, skipn_length_app. reflexivity.
        + reflexivity. }
    rewrite Hsrc in *. fold s in Hstep2, Hat2.
    exists w2. split; [ | split; [ | split]].
    + cbn [flat_map fst snd]. rewrite for_each_app. unfold bind.
      rewrite Hrun1. exact Hrun2.
    + cbn [children_events flat_map fst snd].
      exact (replica_step_trans _ _ _ _ _ Hstep1 Hstep2).
    + intros q. rewrite Hat2. destruct (is_prefix p q) eqn:Ep.
      * rewrite <- app_assoc. reflexivity.
      * rewrite Hat1, (is_prefix_app_false _ _ _ Ep). reflexivity.
    + auto.
Qed.

Lemma at_child_of_listing (R : node) (p : path) es (name : string) :
  (forall q, at_ R (p ++ q) = at_ (Dir es) q) ->
  at_ R (p ++ [name]) = shape_of (assoc name es).
Proof.
  intros Hsub. rewrite Hsub, at_dir_cons.
  destruct (assoc name es) as [[m d | es'] | ]; reflexivity.
Qed.

Lemma cleans_all (c : node) : cleans c.
Proof.
  induction c as [m d | es IH] using node_induction; intros p w Hw Hsub.
  - exists w. cbn [walk_bottomup for_each removal_events prune].
    repeat split; auto; [apply replica_step_refl | ].
    intros q. destruct (is_prefix p q) eqn:Ep; [ | reflexivity].
    exact (at_below _ _ _ _ Hsub Ep).
  - apply wf_dir_elim in Hw. destruct Hw as [Hd Hall].
    set (s := lookup (src w) p).
    (* the subdirectories *)
    destruct (cleans_children p es IH [] w Hd Hall Hsub)
      as (w1 & Hrun1 & Hstep1 & Hat1 & Hwf1).
    cbn [app] in Hat1. fold s in Hstep1, Hat1.
    assert (Hsrc1 : src w1 = src w) by apply Hstep1.
    assert (Hsub1 : forall q,
               at_ (rep w1) (p ++ q) = at_ (Dir (prune_children s es)) q).
    { intros q. rewrite Hat1, is_prefix_app, skipn_length_app. reflexivity. }
    (* the stale files of this directory *)
    destruct (sweep_loop p (Extended.cleanup_file (Source, p) (Replica, p))
                (removed_file p) (fun sh => exists m d, sh = IsFile m d)
                (cleanup_file_spec p) (file_names es) w1)
      as (w2 & Hrun2 & Hstep2 & Hat2 & Hwf2).
    { apply NoDup_names_filter, Hd. }
    { intros f Hf. destruct (file_names_assoc _ _ Hd Hf) as (m & d & Ef).
      exists m, d. rewrite (at_child_of_listing _ _ _ _ Hsub1).
      rewrite assoc_prune_children, Ef. reflexivity. }
    rewrite Hsrc1 in Hstep2, Hat2. fold s in Hstep2, Hat2.
    assert (Hsrc2 : src w2 = src w) by (destruct Hstep2 as [-> _]; exact Hsrc1).
    (* its stale subdirectories *)
    destruct (sweep_loop p (Extended.cleanup_dir (Source, p) (Replica, p))
                (removed_dir p) (fun sh => sh = IsDir)
                (cleanup_dir_spec p) (dir_names es) w2)
      as (w3 & Hrun3 & Hstep3 & Hat3 & Hwf3).
    { apply NoDup_names_filter, Hd. }
    { intros dn Hdn. destruct (dir_names_assoc _ _ Hd Hdn) as (es' & Ed).
      rewrite Hat2, existsb_false_all.
      - rewrite (at_child_of_listing _ _ _ _ Hsub1).
        rewrite assoc_prune_children, Ed. reflexivity.
      - intros f Hf.
        rewrite (is_prefix_sibling p f dn
                   (file_dir_names_disjoint _ _ _ Hd Hf Hdn)).
        apply andb_false_r. }
    rewrite Hsrc2 in Hstep3, Hat3. fold s in Hstep3, Hat3.
    exists w3. split; [ | split; [ | split]].
    + rewrite walk_bottomup_dir, for_each_app. unfold bind at 1.
      rewrite Hrun1. cbn [for_each]. unfold Extended.cleanup_root.
      cbv beta iota zeta. unfold bind. rewrite Hrun2, Hrun3. reflexivity.
    + rewrite removal_events_dir.
      exact (replica_step_trans _ _ _ _ _ Hstep1
               (replica_step_trans _ _ _ _ _ Hstep2 Hstep3)).
    + intros q. rewrite Hat3, Hat2, Hat1, prune_dir, !at_sweep.
      destruct (is_prefix p q) eqn:Ep.
      * pose proof (is_prefix_skipn _ _ Ep) as Eq.
        set (q' := skipn (List.length p) q) in *. clearbody q'. subst q.
        rewrite (existsb_ext_in
                   (fun name => stale s name && is_prefix (p ++ [name]) (p ++ q'))
                   (fun name => stale s name && is_prefix [name] q')
                   (dir_names es))
          by (intros; rewrite is_prefix_app_l; reflexivity).
        rewrite (existsb_ext_in
                   (fun name => stale s name && is_prefix (p ++ [name]) (p ++ q'))
                   (fun name => stale s name && is_prefix [name] q')
                   (file_names es))
          by (intros; rewrite is_prefix_app_l; reflexivity).
        reflexivity.
      * rewrite !existsb_false_all; [reflexivity | | ];
          intros name _; rewrite (is_prefix_app_false _ _ _ Ep);
          apply andb_false_r.
    + auto.
Qed.

(** The whole of [cleanup_replica]. *)
Lemma cleanup_replica_spec (w : world) :
  wf (rep w) = true ->
  exists w',
    Extended.cleanup_replica Source Replica w = (Ok tt, w')
    /\ replica_step w w' (removal_events (Some (src w)) [] (rep w))
    /\ (forall q, at_ (rep w') q = at_ (prune (Some (src w)) (rep w)) q)
    /\ wf (rep w') = true.
Proof.
  intros Hw.
  destruct (cleans_all (rep w) [] w Hw (fun q => eq_refl))
    as (w' & Hrun & Hstep & Hat & Hwf).
  exists w'. repeat split; try apply Hstep; auto.
Qed.

Lemma simple_cleanup_replica source_dir replica_dir :
  Simple.cleanup_replica source_dir replica_dir
  = Extended.cleanup_replica source_dir replica_dir.
Proof. reflexivity. Qed.

Lemma source_has_cons s (b : string) (q : path) :
  source_has s (b :: q) = source_has (sub s b) q.
Proof.
  destruct s as [[m d | ses] | ]; cbn; try reflexivity.
  destruct (assoc b ses); reflexivity.
Qed.

Lemma source_has_single s (b : string) :
  source_has s [b] = negb (stale s b).
Proof.
  rewrite source_has_cons. unfold stale.
  destruct (sub s b); reflexivity.
Qed.

Lemma stale_source_has s (b : string) (q : path) :
  stale s b = true -> source_has s (b :: q) = false.
Proof.
  rewrite source_has_cons. unfold stale.
  destruct (sub s b); [discriminate | reflexivity].
Qed.

Lemma In_names_kind (es : list (string * node)) (name : string) (c : node) :
  In (name, c) es ->
  if is_dir c then In name (dir_names es) else In name (file_names es).
Proof.
  intros Hin. destruct (is_dir c) eqn:K.
  - unfold dir_names. apply in_map_iff. exists (name, c). split; [reflexivity | ].
    apply filter_In. split; [exact Hin | exact K].
  - unfold file_names. apply in_map_iff. exists (name, c).
    split; [reflexivity | ].
    apply filter_In. split; [exact Hin | cbn; rewrite K; reflexivity].
Qed.

(** The shapes reconciliation leaves: what has a counterpart in the source
    stays as it is, the rest is gone. *)
Lemma at_prune (q : path) : forall s r,
  at_ (prune s r) q
  = match q with
    | [] => at_ r []
    | _ :: _ => if source_has s q then at_ r q else Absent
    end.
Proof.
  induction q as [ | b q IH]; intros s r.
  - destruct r; reflexivity.
  - destruct r as [m d | es].
    + cbn [prune]. unfold at_. cbn. destruct (source_has s (b :: q)); reflexivity.
    + rewrite prune_dir, !at_sweep. rewrite source_has_cons.
      destruct (stale s b) eqn:St.
      * (* nothing in the source where [b] stands *)
        assert (Hs : source_has (sub s b) q = false).
        { rewrite <- source_has_cons. apply stale_source_has, St. }
        rewrite Hs.
        destruct (existsb _ (dir_names es)) eqn:E1; [reflexivity | ].
        destruct (existsb _ (file_names es)) eqn:E2; [reflexivity | ].
        rewrite at_dir_cons, assoc_prune_children.
        destruct (assoc b es) as [c | ] eqn:Ec; [ | reflexivity].
        exfalso. pose proof (In_names_kind _ _ _ (assoc_In _ _ _ Ec)) as Hk.
        destruct (is_dir c).
        -- rewrite <- not_true_iff_false in E1. apply E1.
           apply existsb_exists. exists b. split; [exact Hk | ].
           rewrite St. cbn. rewrite String.eqb_refl. reflexivity.
        -- rewrite <- not_true_iff_false in E2. apply E2.
           apply existsb_exists. exists b. split; [exact Hk | ].
           rewrite St. cbn. rewrite String.eqb_refl. reflexivity.
      * rewrite !existsb_false_all.
        2,3: intros name _; cbn [is_prefix]; rewrite andb_true_r;
             destruct (String.eqb name b) eqn:E;
             [apply String.eqb_eq in E; subst name; rewrite St; reflexivity
             | apply andb_false_r].
        rewrite !at_dir_cons, assoc_prune_children.
        destruct (assoc b es) as [c | ]; cbn [option_map].
        -- rewrite IH. destruct q; [ | reflexivity].
           unfold stale in St. unfold source_has.
           destruct (sub s b); [reflexivity | discriminate].
        -- destruct (source_has (sub s b) q); reflexivity.
Qed.

(** ** The order of the deletions *)

Definition children_order (s : option node) (p : path)
    (l : list (string * node)) : list path :=
  flat_map (fun e => removal_order (sub s (fst e)) (p ++ [fst e]) (snd e)) l.

Definition stale_paths (s : option node) (p : path) (names : list string)
  : list path :=
  flat_map (fun name => if stale s name then [p ++ [name]] else []) names.

Lemma removal_order_dir s p es :
  removal_order s p (Dir es)
  = children_order s p es
    ++ stale_paths s p (file_names es) ++ stale_paths s p (dir_names es).
Proof.
  cbn [removal_order]. f_equal.
  induction es as [ | [name c] es IH]; cbn; [reflexivity | ].
  rewrite IH. reflexivity.
Qed.

Lemma deletions_app t1 t2 : deletions (t1 ++ t2) = deletions t1 ++ deletions t2.
Proof. apply flat_map_app. Qed.

Lemma reports_app t1 t2 : reports (t1 ++ t2) = reports t1 ++ reports t2.
Proof. apply flat_map_app. Qed.

Lemma deletions_stale_files s p names :
  deletions (flat_map (fun name => if stale s name then removed_file p name
                                   else []) names)
  = stale_paths s p names.
Proof.
  induction names as [ | a names IH]; [reflexivity | ].
  cbn [flat_map]. unfold stale_paths in *. cbn [flat_map].
  rewrite deletions_app, IH. destruct (stale s a); reflexivity.
Qed.

Lemma deletions_stale_dirs s p names :
  deletions (flat_map (fun name => if stale s name then removed_dir p name
                                   else []) names)
  = stale_paths s p names.
Proof.
  induction names as [ | a names IH]; [reflexivity | ].
  cbn [flat_map]. unfold stale_paths in *. cbn [flat_map].
  rewrite deletions_app, IH. destruct (stale s a); reflexivity.
Qed.

Lemma reports_stale_files s p names :
  reports (flat_map (fun name => if stale s name then removed_file p name
                                 else []) names)
  = stale_paths s p names.
Proof.
  induction names as [ | a names IH]; [reflexivity | ].
  cbn [flat_map]. unfold stale_paths in *. cbn [flat_map].
  rewrite reports_app, IH. destruct (stale s a); reflexivity.
Qed.

Lemma reports_stale_dirs s p names :
  reports (flat_map (fun name => if stale s name then removed_dir p name
                                 else []) names)
  = stale_paths s p names.
Proof.
  induction names as [ | a names IH]; [reflexivity | ].
  cbn [flat_map]. unfold stale_paths in *. cbn [flat_map].
  rewrite reports_app, IH. destruct (stale s a); reflexivity.
Qed.

(** Every deletion is reported, in the same order, and both follow
    [removal_order]. *)
Lemma deletions_removal_events (r : node) : forall s p,
  deletions (removal_events s p r) = removal_order s p r
  /\ reports (removal_events s p r) = removal_order s p r.
Proof.
  induction r as [m d | es IH] using node_induction; intros s p.
  - split; reflexivity.
  - rewrite removal_events_dir, removal_order_dir.
    rewrite !deletions_app, !reports_app.
    rewrite deletions_stale_files, deletions_stale_dirs.
    rewrite reports_stale_files, reports_stale_dirs.
    assert (Hc : deletions (children_events s p es) = children_order s p es
                 /\ reports (children_events s p es) = children_order s p es).
    { clear - IH. unfold children_events, children_order.
      induction IH as [ | [name c] l Hc Hl IHl]; [split; reflexivity | ].
      cbn [flat_map fst snd] in *.
      rewrite deletions_app, reports_app.
      destruct (Hc (sub s name) (p ++ [name])) as [-> ->].
      destruct IHl as [-> ->]. split; reflexivity. }
    destruct Hc as [-> ->]. split; reflexivity.
Qed.

Lemma In_stale_paths s p names (q : path) :
  In q (stale_paths s p names)
  <-> exists name, In name names /\ stale s name = true /\ q = p ++ [name].
Proof.
  unfold stale_paths. rewrite in_flat_map. split.
  - intros (name & Hin & Hq). exists name.
    destruct (stale s name); [ | destruct Hq].
    destruct Hq as [<- | []]. auto.
  - intros (name & Hin & St & ->). exists name. rewrite St.
    split; [exact Hin | left; reflexivity].
Qed.

(** What is deleted: exactly the entries of the replica with nothing at
    their place in the source. *)
Lemma In_removal_order (r : node) : forall s p q,
  wf r = true ->
  (In q (removal_order s p r)
   <-> exists q', q = p ++ q' /\ q' <> []
                  /\ at_ r q' <> Absent /\ source_has s q' = false).
Proof.
  induction r as [m d | es IH] using node_induction; intros s p q Hw.
  - cbn [removal_order In]. split; [tauto | ].
    intros (q' & _ & Hne & Hat & _). apply Hat.
    unfold at_. rewrite lookup_file_below; [reflexivity | exact Hne].
  - apply wf_dir_elim in Hw. destruct Hw as [Hd Hall].
    rewrite Forall_forall in IH.
    rewrite removal_order_dir, !in_app_iff, !In_stale_paths.
    unfold children_order. rewrite in_flat_map. split.
    + intros [([name c] & Hin & Hq) | [(f & Hf & St & ->) | (dn & Hdn & St & ->)]].
      * cbn [fst snd] in Hq.
        assert (Hwc : wf c = true).
        { unfold all_wf in Hall. rewrite forallb_forall in Hall.
          exact (Hall _ Hin). }
        apply (IH _ Hin) in Hq; [ | exact Hwc].
        destruct Hq as (q'' & -> & Hne & Hat & Hs).
        exists (name :: q''). rewrite <- app_assoc.
        split; [reflexivity | ]. split; [discriminate | ].
        rewrite at_dir_cons, (In_assoc _ _ _ Hd Hin), source_has_cons. auto.
      * exists [f]. split; [reflexivity | ]. split; [discriminate | ].
        destruct (file_names_assoc _ _ Hd Hf) as (m & d & Ef).
        rewrite at_dir_cons, Ef, source_has_single, St.
        split; [discriminate | reflexivity].
      * exists [dn]. split; [reflexivity | ]. split; [discriminate | ].
        destruct (dir_names_assoc _ _ Hd Hdn) as (es' & Ed).
        rewrite at_dir_cons, Ed, source_has_single, St.
        split; [discriminate | reflexivity].
    + intros ([ | b q''] & -> & Hne & Hat & Hs); [congruence | ].
      rewrite at_dir_cons in Hat.
      destruct (assoc b es) as [c | ] eqn:Ec; [ | congruence].
      pose proof (assoc_In _ _ _ Ec) as Hin.
      destruct q'' as [ | b' q''].
      * rewrite source_has_single, negb_false_iff in Hs.
        pose proof (In_names_kind _ _ _ Hin) as Hk.
        destruct (is_dir c); [right; right | right; left]; exists b; auto.
      * left. exists (b, c). split; [exact Hin | ]. cbn [fst snd].
        apply (IH _ Hin); [exact (all_wf_assoc _ _ _ Hall Ec) | ].
        exists (b' :: q''). rewrite <- app_assoc.
        split; [reflexivity | ]. split; [discriminate | ].
        rewrite source_has_cons in Hs. auto.
Qed.

Lemma before_embed {A} (a b : A) (x l y : list A) :
  before a b l -> before a b (x ++ l ++ y).
Proof.
  intros (l1 & l2 & l3 & ->). exists (x ++ l1), l2, (l3 ++ y).
  repeat (rewrite <- app_assoc || rewrite <- app_comm_cons). reflexivity.
Qed.

Lemma before_across {A} (a b : A) (l1 l2 : list A) :
  In a l1 -> In b l2 -> before a b (l1 ++ l2).
Proof.
  intros Ha Hb. apply in_split in Ha. apply in_split in Hb.
  destruct Ha as (x1 & x2 & ->). destruct Hb as (y1 & y2 & ->).
  exists x1, (x2 ++ y1), y2.
  repeat (rewrite <- app_assoc || rewrite <- app_comm_cons). reflexivity.
Qed.

Lemma app_single_inj (p : path) (a b : string) (q : path) :
  p ++ [a] = p ++ b :: q -> a = b /\ q = [].
Proof.
  intros E. apply app_inv_head in E. injection E as -> <-. auto.
Qed.

Lemma In_children_order s p (l : list (string * node)) (q : path) :
  all_wf l = true ->
  In q (children_order s p l) ->
  exists name c q',
    In (name, c) l /\ In q (removal_order (sub s name) (p ++ [name]) c)
    /\ q = p ++ name :: q' /\ q' <> [].
Proof.
  intros Hall Hin. unfold children_order in Hin. apply in_flat_map in Hin.
  destruct Hin as ([name c] & Hin & Hq). cbn [fst snd] in Hq.
  assert (Hwc : wf c = true).
  { unfold all_wf in Hall. rewrite forallb_forall in Hall. exact (Hall _ Hin). }
  pose proof (proj1 (In_removal_order c _ _ _ Hwc) Hq)
    as (q' & E & Hne & _).
  exists name, c, q'. rewrite <- app_assoc in E. auto.
Qed.

Lemma NoDup_stale_paths s p names :
  NoDup names -> NoDup (stale_paths s p names).
Proof.
  induction 1 as [ | a names Hna Hd IH]; [constructor | ].
  unfold stale_paths in *. cbn [flat_map].
  destruct (stale s a); [ | exact IH]. cbn [app]. constructor; [ | exact IH].
  intros Hin. apply In_stale_paths in Hin. destruct Hin as (name & Hn & _ & E).
  apply app_inv_head in E. injection E as ->. contradiction.
Qed.

Lemma NoDup_children_order s p (l : list (string * node)) :
  NoDup (map fst l) ->
  all_wf l = true ->
  Forall (fun e => forall s p, wf (snd e) = true ->
                               NoDup (removal_order s p (snd e))) l ->
  NoDup (children_order s p l).
Proof.
  intros Hd Hall IH. induction IH as [ | [name c] l Hc Hl IHl];
    [constructor | ].
  cbn in Hd. inversion Hd as [ | ? ? Hn Hd']; subst.
  pose proof Hall as Hall0.
  cbn [all_wf forallb snd] in Hall. apply andb_prop in Hall.
  destruct Hall as [Hwc Hall].
  unfold children_order. cbn [flat_map fst snd].
  apply NoDup_app; [apply Hc, Hwc | apply (IHl Hd' Hall) | ].
  intros q Hq1 Hq2.
  pose proof (proj1 (In_removal_order c _ _ _ Hwc) Hq1) as (q1 & E1 & _).
  destruct (In_children_order _ _ _ _ Hall Hq2)
    as (name' & c' & q2 & Hin & _ & E2 & _).
  rewrite <- app_assoc in E1. rewrite E1 in E2. apply app_inv_head in E2.
  injection E2 as -> _. apply Hn. apply (in_map fst) in Hin. exact Hin.
Qed.

(** Nothing is deleted twice. *)
Lemma NoDup_removal_order (r : node) : forall s p,
  wf r = true -> NoDup (removal_order s p r).
Proof.
  induction r as [m d | es IH] using node_induction; intros s p Hw;
    [constructor | ].
  pose proof Hw as Hw0.
  apply wf_dir_elim in Hw. destruct Hw as [Hd Hall].
  rewrite removal_order_dir.
  apply NoDup_app; [ | apply NoDup_app | ].
  - apply NoDup_children_order; assumption.
  - apply NoDup_stale_paths, NoDup_names_filter, Hd.
  - apply NoDup_stale_paths, NoDup_names_filter, Hd.
  - intros q Hf Hdn. apply In_stale_paths in Hf, Hdn.
    destruct Hf as (f & Hf & _ & ->). destruct Hdn as (dn & Hdn & _ & E).
    apply app_inv_head in E. injection E as ->.
    exact (file_dir_names_disjoint _ _ _ Hd Hf Hdn eq_refl).
  - intros q Hc Ht.
    destruct (In_children_order _ _ _ _ Hall Hc)
      as (name & c & q' & _ & _ & -> & Hne).
    apply in_app_iff in Ht.
    destruct Ht as [Ht | Ht]; apply In_stale_paths in Ht;
      destruct Ht as (f & _ & _ & E); symmetry in E;
      apply app_single_inj in E; destruct E as [_ ->]; congruence.
Qed.

Lemma In_stale_tail s p es (q : path) :
  In q (stale_paths s p (file_names es) ++ stale_paths s p (dir_names es)) ->
  exists name, q = p ++ [name].
Proof.
  intros Hin. apply in_app_iff in Hin.
  destruct Hin as [Hin | Hin]; apply In_stale_paths in Hin;
    destruct Hin as (name & _ & _ & ->); eauto.
Qed.

Lemma children_order_split s p (e1 e2 : list (string * node)) name c :
  children_order s p (e1 ++ (name, c) :: e2)
  = children_order s p e1
    ++ removal_order (sub s name) (p ++ [name]) c ++ children_order s p e2.
Proof.
  unfold children_order. rewrite flat_map_app. reflexivity.
Qed.

(** What lies below a deleted directory is deleted before it. *)
Lemma removal_order_bottom_up (r : node) : forall s p q q',
  wf r = true ->
  In q (removal_order s p r) ->
  In q' (removal_order s p r) ->
  is_prefix q q' = true ->
  q <> q' ->
  before q' q (removal_order s p r).
Proof.
  induction r as [m d | es IH] using node_induction;
    intros s p q q' Hw Hq Hq' Hpre Hne; [destruct Hq | ].
  apply wf_dir_elim in Hw. destruct Hw as [Hd Hall].
  rewrite Forall_forall in IH.
  rewrite removal_order_dir in *.
  apply in_app_iff in Hq, Hq'.
  destruct Hq as [Hq | Hq].
  - destruct (In_children_order _ _ _ _ Hall Hq)
      as (name & c & q1 & Hin & Hqc & -> & Hq1).
    destruct Hq' as [Hq' | Hq'].
    + destruct (In_children_order _ _ _ _ Hall Hq')
        as (name' & c' & q1' & Hin' & Hqc' & -> & Hq1').
      rewrite is_prefix_app_l in Hpre. cbn [is_prefix] in Hpre.
      apply andb_prop in Hpre. destruct Hpre as [E Hpre].
      apply String.eqb_eq in E. subst name'.
      assert (c' = c).
      { pose proof (In_assoc _ _ _ Hd Hin). pose proof (In_assoc _ _ _ Hd Hin').
        congruence. }
      subst c'.
      assert (Hwc : wf c = true).
      { unfold all_wf in Hall. rewrite forallb_forall in Hall.
        exact (Hall _ Hin). }
      pose proof (IH _ Hin (sub s name) (p ++ [name]) _ _ Hwc Hqc Hqc') as Hb.
      cbn [snd] in Hb. rewrite is_prefix_app_l in Hb. cbn [is_prefix] in Hb.
      rewrite String.eqb_refl in Hb. specialize (Hb Hpre Hne).
      destruct (in_split _ _ Hin) as (e1 & e2 & ->).
      rewrite children_order_split, <- !app_assoc.
      apply before_embed. exact Hb.
    + exfalso. destruct (In_stale_tail _ _ _ _ Hq') as (f & ->).
      rewrite is_prefix_app_l in Hpre. cbn [is_prefix] in Hpre.
      apply andb_prop in Hpre. destruct Hpre as [_ Hpre].
      destruct q1; [congruence | discriminate].
  - destruct (In_stale_tail _ _ _ _ Hq) as (f & ->).
    destruct Hq' as [Hq' | Hq'].
    + apply before_across; assumption.
    + exfalso. destruct (In_stale_tail _ _ _ _ Hq') as (f' & ->).
      rewrite is_prefix_app_l in Hpre. cbn [is_prefix] in Hpre.
      rewrite andb_true_r in Hpre. apply String.eqb_eq in Hpre. congruence.
Qed.

Lemma removal_steps_app t1 t2 :
  removal_steps (t1 ++ t2) = removal_steps t1 ++ removal_steps t2.
Proof. apply flat_map_app. Qed.

Definition step_pairs (l : list path) : list removal_step :=
  flat_map (fun q => [Deleted q; Reported q]) l.

Lemma removal_steps_stale_files s p names :
  removal_steps (flat_map (fun name => if stale s name then removed_file p name
                                       else []) names)
  = step_pairs (stale_paths s p names).
Proof.
  induction names as [ | a names IH]; [reflexivity | ].
  unfold stale_paths, step_pairs in *. cbn [flat_map].
  rewrite removal_steps_app, flat_map_app, IH.
  destruct (stale s a); reflexivity.
Qed.

Lemma removal_steps_stale_dirs s p names :
  removal_steps (flat_map (fun name => if stale s name then removed_dir p name
                                       else []) names)
  = step_pairs (stale_paths s p names).
Proof.
  induction names as [ | a names IH]; [reflexivity | ].
  unfold stale_paths, step_pairs in *. cbn [flat_map].
  rewrite removal_steps_app, flat_map_app, IH.
  destruct (stale s a); reflexivity.
Qed.

(** Each deletion is followed at once by its log record. *)
Lemma removal_steps_removal_events (r : node) : forall s p,
  removal_steps (removal_events s p r) = step_pairs (removal_order s p r).
Proof.
  induction r as [m d | es IH] using node_induction; intros s p;
    [reflexivity | ].
  rewrite removal_events_dir, removal_order_dir.
  unfold step_pairs. rewrite !removal_steps_app, !flat_map_app.
  rewrite removal_steps_stale_files, removal_steps_stale_dirs.
  f_equal. clear - IH. unfold children_events, children_order.
  induction IH as [ | [name c] l Hc Hl IHl]; [reflexivity | ].
  cbn [flat_map fst snd]. rewrite removal_steps_app, flat_map_app.
  rewrite Hc, IHl. reflexivity.
Qed.

Lemma source_has_at (S : node) (q : path) :
  source_has (Some S) q = true <-> at_ S q <> Absent.
Proof.
  unfold source_has, at_. destruct (lookup S q) as [[m d | es] | ]; cbn;
    split; congruence.
Qed.

(** C6.  [cleanup_replica] works bottom-up.  On a well-formed replica it
    ends normally; every entry of the replica with nothing at its place in
    the source is deleted exactly once, and nothing else is; each deletion
    is followed at once by its log record; and whatever lies below a
    deleted directory is deleted, and reported, before the directory
    itself.  Both scripts. *)
Theorem cleanup_bottom_up (w : world) :
  wf (rep w) = true ->
  exists w' t,
    Extended.cleanup_replica Source Replica w = (Ok tt, w')
    /\ Simple.cleanup_replica Source Replica w = (Ok tt, w')
    /\ trace w' = trace w ++ t
    /\ removal_steps t = step_pairs (deletions t)
    /\ NoDup (deletions t)
    /\ (forall q,
          In q (deletions t)
          <-> q <> [] /\ at_ (rep w) q <> Absent /\ at_ (src w) q = Absent)
    /\ (forall q q',
          In q (deletions t) -> In q' (deletions t) ->
          is_prefix q q' = true -> q <> q' ->
          before q' q (deletions t))
    /\ (forall q, In q (deletions t) -> at_ (rep w') q = Absent).
Proof.
  intros Hw.
  destruct (cleanup_replica_spec w Hw) as (w' & Hrun & Hstep & Hat & Hwf).
  exists w', (removal_events (Some (src w)) [] (rep w)).
  destruct (deletions_removal_events (rep w) (Some (src w)) []) as [Hdel _].
  rewrite Hdel.
  assert (Hin : forall q,
             In q (removal_order (Some (src w)) [] (rep w))
             <-> q <> [] /\ at_ (rep w) q <> Absent /\ at_ (src w) q = Absent).
  { intros q. rewrite (In_removal_order (rep w) _ _ _ Hw). cbn [app]. split.
    - intros (q' & -> & Hne & Ha & Hs). repeat split; try assumption.
      destruct (at_ (src w) q') eqn:E; try reflexivity;
        assert (Hx : source_has (Some (src w)) q' = true)
          by (apply source_has_at; congruence); congruence.
    - intros (Hne & Ha & Hs). exists q. repeat split; try assumption.
      destruct (source_has (Some (src w)) q) eqn:E; [ | reflexivity].
      apply source_has_at in E. contradiction. }
  split; [exact Hrun | ]. split; [exact Hrun | ].
  split; [apply Hstep | ].
  split; [apply removal_steps_removal_events | ].
  split; [apply NoDup_removal_order, Hw | ].
  split; [exact Hin | ].
  split; [intros q q'; apply removal_order_bottom_up, Hw | ].
  intros q Hq. apply Hin in Hq. destruct Hq as (Hne & _ & Hs).
  rewrite Hat, at_prune. destruct q; [congruence | ].
  destruct (source_has (Some (src w)) (s :: q)) eqn:E; [ | reflexivity].
  apply source_has_at in E. contradiction.
Qed.

(** C9.  The staleness test only asks whether anything exists at the
    source path.  A replica entry whose place in the source is taken, by an
    entry of whatever kind, is left as it is by [cleanup_replica], with no
    deletion and no log record; where the kinds differ before, they differ
    after.  Both scripts. *)
Theorem cleanup_type_blind (w : world) (q : path) :
  wf (rep w) = true ->
  q <> [] ->
  at_ (rep w) q <> Absent ->
  at_ (src w) q <> Absent ->
  exists w' t,
    Extended.cleanup_replica Source Replica w = (Ok tt, w')
    /\ Simple.cleanup_replica Source Replica w = (Ok tt, w')
    /\ trace w' = trace w ++ t
    /\ src w' = src w
    /\ at_ (rep w') q = at_ (rep w) q
    /\ ~ In q (deletions t)
    /\ ~ In q (reports t)
    /\ (at_ (rep w) q <> at_ (src w) q -> at_ (rep w') q <> at_ (src w') q).
Proof.
  intros Hw Hne Hr Hs.
  destruct (cleanup_replica_spec w Hw) as (w' & Hrun & Hstep & Hat & Hwf).
  exists w', (removal_events (Some (src w)) [] (rep w)).
  destruct (deletions_removal_events (rep w) (Some (src w)) []) as [Hdel Hrep].
  rewrite Hdel, Hrep.
  assert (Hkeep : at_ (rep w') q = at_ (rep w) q).
  { rewrite Hat, at_prune. destruct q; [congruence | ].
    rewrite (proj2 (source_has_at _ _) Hs). reflexivity. }
  assert (Hno : ~ In q (removal_order (Some (src w)) [] (rep w))).
  { intros Hin. apply (In_removal_order (rep w) _ _ _ Hw) in Hin.
    destruct Hin as (q' & E & _ & _ & Hsh). cbn [app] in E. subst q'.
    rewrite (proj2 (source_has_at _ _) Hs) in Hsh. discriminate. }
  destruct Hstep as (Hsrc & _ & Htr).
  repeat split; try assumption.
  rewrite Hkeep, Hsrc. auto.
Qed.

(** The replica holds [A/B/c.txt], the source has no [A]. *)
Example cleanup_scenario :
  let w := sample_world sample_source sample_replica [] in
  let c_txt := (Replica, ["A"; "B"; "c.txt"]%string) in
  let b := (Replica, ["A"; "B"]%string) in
  let a := (Replica, ["A"%string]) in
  trace (snd (Extended.cleanup_replica Source Replica w))
  = [EvRemove c_txt; EvInfo (MsgFileRemoved c_txt);
     EvRmtree b; EvInfo (MsgDirRemoved b);
     EvRmtree a; EvInfo (MsgDirRemoved a)]
  /\ rep (snd (Extended.cleanup_replica Source Replica w))
     = Dir [("a.txt"%string, File 7 [x63])].
Proof. vm_compute. split; reflexivity. Qed.

Lemma cleanup_bottom_up_witness :
  let w := sample_world sample_source sample_replica [] in
  wf (rep w) = true
  /\ exists w' t,
       Extended.cleanup_replica Source Replica w = (Ok tt, w')
       /\ Simple.cleanup_replica Source Replica w = (Ok tt, w')
       /\ trace w' = trace w ++ t
       /\ removal_steps t = step_pairs (deletions t)
       /\ NoDup (deletions t)
       /\ (forall q,
             In q (deletions t)
             <-> q <> [] /\ at_ (rep w) q <> Absent
                 /\ at_ (src w) q = Absent)
       /\ (forall q q',
             In q (deletions t) -> In q' (deletions t) ->
             is_prefix q q' = true -> q <> q' ->
             before q' q (deletions t))
       /\ (forall q, In q (deletions t) -> at_ (rep w') q = Absent).
Proof.
  split; [reflexivity | ].
  exact (cleanup_bottom_up (sample_world sample_source sample_replica [])
           eq_refl).
Defined.

Lemma cleanup_type_blind_witness :
  let w := sample_world kinds_source kinds_replica [] in
  let q := ["x"%string] in
  (wf (rep w) = true /\ q <> []
   /\ at_ (rep w) q = IsFile 1 [] /\ at_ (src w) q = IsDir)
  /\ exists w' t,
       Extended.cleanup_replica Source Replica w = (Ok tt, w')
       /\ Simple.cleanup_replica Source Replica w = (Ok tt, w')
       /\ trace w' = trace w ++ t
       /\ src w' = src w
       /\ at_ (rep w') q = at_ (rep w) q
       /\ ~ In q (deletions t)
       /\ ~ In q (reports t)
       /\ (at_ (rep w) q <> at_ (src w) q ->
           at_ (rep w') q <> at_ (src w') q).
Proof.
  split; [repeat split; discriminate | ].
  apply (cleanup_type_blind (sample_world kinds_source kinds_replica [])
           ["x"%string] eq_refl); discriminate.
Defined.

(** ** What a computation may change *)

(** Every run of [m] relates the world before to the world after by [R],
    however it ends. *)
Definition steps (R : world -> world -> Prop) {A} (m : M A) : Prop :=
  forall w, R w (snd (m w)).

Section StepRules.
Variable R : world -> world -> Prop.
Hypothesis R_refl : forall w, R w w.
Hypothesis R_trans : forall w1 w2 w3, R w1 w2 -> R w2 w3 -> R w1 w3.

Lemma steps_ret {A} (a : A) : steps R (ret a).
Proof. intros w. apply R_refl. Qed.

Lemma steps_raise {A} (e : exn) : steps R (@raise A e).
Proof. intros w. apply R_refl. Qed.

Lemma steps_out_of_fuel {A} : steps R (@out_of_fuel A).
Proof. intros w. apply R_refl. Qed.

Lemma steps_get : steps R get.
Proof. intros w. apply R_refl. Qed.

Lemma steps_bind {A B} (m : M A) (k : A -> M B) :
  steps R m -> (forall a, steps R (k a)) -> steps R (bind m k).
Proof.
  intros Hm Hk w. unfold bind. specialize (Hm w).
  destruct (m w) as [[a | e | ] w1]; cbn [snd] in *; try exact Hm.
  exact (R_trans _ _ _ Hm (Hk a w1)).
Qed.

Lemma steps_try_except {A} (body : M A) (handler : exn -> M A) :
  steps R body -> (forall e, steps R (handler e)) ->
  steps R (try_except body handler).
Proof.
  intros Hb Hh w. unfold try_except. specialize (Hb w).
  destruct (body w) as [[a | e | ] w1]; cbn [snd] in *; try exact Hb.
  destruct (is_Exception e); [ | exact Hb].
  exact (R_trans _ _ _ Hb (Hh e w1)).
Qed.

Lemma steps_for_each {A} (xs : list A) (body : A -> M unit) :
  (forall x, steps R (body x)) -> steps R (for_each xs body).
Proof.
  intros Hb. induction xs as [ | x xs IH]; cbn [for_each].
  - apply steps_ret.
  - apply steps_bind; [apply Hb | intros _; exact IH].
Qed.

Lemma steps_for_fold {A S} (xs : list A) (acc : S) (body : S -> A -> M S) :
  (forall acc x, steps R (body acc x)) -> steps R (for_fold xs acc body).
Proof.
  intros Hb. revert acc. induction xs as [ | x xs IH]; intros acc;
    cbn [for_fold].
  - apply steps_ret.
  - apply steps_bind; [apply Hb | intros acc'; apply IH].
Qed.

Lemma steps_for_map {A B} (xs : list A) (f : A -> M B) :
  (forall x, steps R (f x)) -> steps R (for_map xs f).
Proof.
  intros Hf. induction xs as [ | x xs IH]; cbn [for_map].
  - apply steps_ret.
  - apply steps_bind; [apply Hf | intros y].
    apply steps_bind; [exact IH | intros ys; apply steps_ret].
Qed.

End StepRules.

Lemma steps_and (R1 R2 : world -> world -> Prop) {A} (m : M A) :
  steps R1 m -> steps R2 m -> steps (fun w w' => R1 w w' /\ R2 w w') m.
Proof. intros H1 H2 w. split; [apply H1 | apply H2]. Qed.

(** The events added are all of the kind [Q]. *)
Definition adds (Q : event -> Prop) (w w' : world) : Prop :=
  exists t, trace w' = trace w ++ t /\ Forall Q t.

Lemma adds_refl Q w : adds Q w w.
Proof. exists []. rewrite app_nil_r. split; [reflexivity | constructor]. Qed.

Lemma adds_trans Q w1 w2 w3 : adds Q w1 w2 -> adds Q w2 w3 -> adds Q w1 w3.
Proof.
  intros (t1 & E1 & F1) (t2 & E2 & F2). exists (t1 ++ t2).
  rewrite E2, E1, app_assoc. split; [reflexivity | ].
  apply Forall_app. split; assumption.
Qed.

Lemma adds_silent Q {A} (m : M A) : silent m -> steps (adds Q) m.
Proof.
  intros Hs w. exists []. rewrite Hs, app_nil_r. split; [reflexivity | constructor].
Qed.

Lemma adds_one Q {A} (m : M A) (e : event) :
  Q e -> (forall w, trace (snd (m w)) = trace w ++ [e]) -> steps (adds Q) m.
Proof.
  intros He Hm w. exists [e]. split; [apply Hm | ].
  constructor; [exact He | constructor].
Qed.

(** The source tree stays as it is. *)
Definition keeps_source (w w' : world) : Prop := src w' = src w.

Lemma keeps_source_refl w : keeps_source w w.
Proof. reflexivity. Qed.

Lemma keeps_source_trans w1 w2 w3 :
  keeps_source w1 w2 -> keeps_source w2 w3 -> keeps_source w1 w3.
Proof. unfold keeps_source. congruence. Qed.

(** The replica keeps every entry, each of its kind: directories stay
    directories and files stay files. *)
Definition keeps_entries (w w' : world) : Prop :=
  (forall q, at_ (rep w) q = IsDir -> at_ (rep w') q = IsDir)
  /\ (forall q m d, at_ (rep w) q = IsFile m d ->
                    exists m' d', at_ (rep w') q = IsFile m' d').

Lemma keeps_entries_refl w : keeps_entries w w.
Proof. split; eauto. Qed.

Lemma keeps_entries_trans w1 w2 w3 :
  keeps_entries w1 w2 -> keeps_entries w2 w3 -> keeps_entries w1 w3.
Proof.
  intros [D1 F1] [D2 F2]. split; [auto | ].
  intros q m d Hq. destruct (F1 q m d Hq) as (m' & d' & Hq'). eauto.
Qed.

(** The replica gains directories at most: its files are the same before
    and after, and no directory goes away. *)
Definition only_new_dirs (w w' : world) : Prop :=
  (forall q m d, at_ (rep w') q = IsFile m d <-> at_ (rep w) q = IsFile m d)
  /\ (forall q, at_ (rep w) q = IsDir -> at_ (rep w') q = IsDir).

Lemma only_new_dirs_refl w : only_new_dirs w w.
Proof. split; [tauto | auto]. Qed.

Lemma only_new_dirs_trans w1 w2 w3 :
  only_new_dirs w1 w2 -> only_new_dirs w2 w3 -> only_new_dirs w1 w3.
Proof.
  intros [F1 D1] [F2 D2]. split; [ | auto].
  intros q m d. rewrite F2, F1. tauto.
Qed.

(** Well-formedness of the replica is kept. *)
Definition keeps_wf (w w' : world) : Prop :=
  wf (rep w) = true -> wf (rep w') = true.

Lemma keeps_wf_refl w : keeps_wf w w.
Proof. intros Hw. exact Hw. Qed.

Lemma keeps_wf_trans w1 w2 w3 :
  keeps_wf w1 w2 -> keeps_wf w2 w3 -> keeps_wf w1 w3.
Proof. unfold keeps_wf. auto. Qed.

(** ** What the copy does to the replica *)

Lemma damage_length (data noise : list byte) :
  List.length (damage data noise) = List.length data.
Proof.
  unfold damage. rewrite length_app, length_firstn, length_skipn. lia.
Qed.

Lemma write_file_ok (w : world) dirp name existed f es :
  lookup (rep w) dirp = Some (Dir es) ->
  exists R' w',
    alter dirp (put name f) (rep w) = Some R'
    /\ write_file Replica dirp name existed f w = (Ok tt, w')
    /\ src w' = src w /\ rep w' = R'
    /\ trace w' = trace w /\ faults w' = faults w.
Proof.
  intros Hl. destruct (alter_defined dirp (put name f) _ _ Hl) as (R' & HA).
  exists R'. unfold write_file. run_m. cbn [tree]. rewrite HA.
  destruct existed; eexists; repeat split; reflexivity.
Qed.

Lemma next_fault_spec (w : world) :
  next_fault w = (Ok (hd Fine (faults w)), set_faults (tl (faults w)) w).
Proof.
  unfold next_fault. destruct (faults w) eqn:E; [ | reflexivity].
  cbn. destruct w; cbn in *. subst. reflexivity.
Qed.

Lemma split_last_app (p dirp : path) (name : string) :
  split_last p = Some (dirp, name) -> p = dirp ++ [name].
Proof.
  revert dirp. induction p as [ | a p IH]; intros dirp E; [discriminate | ].
  cbn in E. destruct p as [ | b p].
  - injection E as <- <-. reflexivity.
  - destruct (split_last (b :: p)) as [[d' n'] | ]; [ | discriminate].
    injection E as <- <-. cbn. f_equal. apply IH. reflexivity.
Qed.

Lemma shutil_copy2_cases (w : world) (o : fpath) (q : path) :
  let res := shutil_copy2 o (Replica, q) w in
  src (snd res) = src w
  /\ ((rep (snd res) = rep w /\ exists e, fst res = Raise e)
      \/ exists dirp name es mo d f,
           node_at w o = Some (File mo d)
           /\ copy_target w o (Replica, q) = (Replica, dirp ++ [name])
           /\ lookup (rep w) dirp = Some (Dir es)
           /\ (forall es', assoc name es <> Some (Dir es'))
           /\ alter dirp (put name f) (rep w) = Some (rep (snd res))
           /\ ((fst res = Ok tt
                /\ exists d', f = File mo d'
                              /\ List.length d' = List.length d
                              /\ (faults w = [] -> d' = d))
               \/ (fst res = Raise OSError /\ exists t wr, f = File t wr))).
Proof.
  intros res. subst res. unfold shutil_copy2, copy_target. run_m.
  set (w0 := set_trace (trace w ++ [EvCopy2 o (Replica, q)]) w).
  assert (Ht : forall sd, tree sd w0 = tree sd w) by (intros []; reflexivity).
  rewrite !Ht. unfold node_at.
  destruct (lookup (tree Replica w) q) as [[m0 d0 | es0] | ] eqn:Eq;
    cbn [fst snd os_path_join].
  all: destruct (fpath_eqb o _);
    [split; [reflexivity | left; split; [reflexivity | eexists; reflexivity]] | ].
  all: destruct (lookup (tree (fst o) w) (snd o)) as [[mo d | eso] | ] eqn:Eo;
    try (split; [reflexivity | left; split; [reflexivity | eexists; reflexivity]]).
  all: match goal with
       | |- context [split_last ?x] =>
           destruct (split_last x) as [[dirp name] | ] eqn:Esp
       end;
    try (split; [reflexivity | left; split; [reflexivity | eexists; reflexivity]]).
  all: destruct (lookup (tree Replica w) dirp) as [[m1 d1 | es] | ] eqn:Ed;
    try (split; [reflexivity | left; split; [reflexivity | eexists; reflexivity]]).
  all: destruct (assoc name es) as [[m2 d2 | es2] | ] eqn:Ea;
    try (split; [reflexivity | left; split; [reflexivity | eexists; reflexivity]]).
  all: rewrite next_fault_spec.
  all: apply split_last_app in Esp.
  all: set (w1 := set_faults (tl (faults w0)) w0).
  all: assert (Hd1 : lookup (rep w1) dirp = Some (Dir es)) by exact Ed.
  all: assert (Hf0 : faults w0 = faults w) by reflexivity.
  all: destruct (hd Fine (faults w0)) as [ | | written | noise] eqn:Ef.
  all: try (split; [reflexivity | left; split; [reflexivity | eexists; reflexivity]]).
  all: match goal with
       | |- context [write_file Replica _ _ ?ex ?f] =>
           destruct (write_file_ok w1 dirp name ex f es Hd1)
             as (R' & w2 & HA & Hrun & Hs2 & Hr2 & _ & _);
           try rewrite Hrun; cbn [fst snd];
           (split; [exact Hs2 | right]);
           exists dirp, name, es, mo, d, f;
           (split; [reflexivity | ]);
           (split; [unfold os_path_join; cbn [fst snd]; rewrite <- Esp; reflexivity | ]);
           (split; [exact Ed | ]);
           (split; [intros es'; rewrite Ea; discriminate | ]);
           (split; [rewrite Hr2; exact HA | ])
       end.
  all: try (right; split; [reflexivity | eauto]).
  all: left; split; [reflexivity | ]; eexists; split; [reflexivity | ].
  all: try (split; [reflexivity | intros _; reflexivity]).
  all: split; [apply damage_length | ].
  all: intros Hnil; rewrite Hf0, Hnil in Ef; discriminate Ef.
Qed.

(** ** The calls, one relation at a time *)

(** Neither tree changes. *)
Definition same_trees (w w' : world) : Prop :=
  src w' = src w /\ rep w' = rep w.

Lemma same_trees_refl w : same_trees w w.
Proof. split; reflexivity. Qed.

Lemma same_trees_trans w1 w2 w3 :
  same_trees w1 w2 -> same_trees w2 w3 -> same_trees w1 w3.
Proof. intros [S1 R1] [S2 R2]. split; congruence. Qed.

Lemma steps_weaken (R R' : world -> world -> Prop) {A} (m : M A) :
  (forall w w', R w w' -> R' w w') -> steps R m -> steps R' m.
Proof. intros HR Hm w. apply HR, Hm. Qed.

Lemma same_trees_keeps_source w w' : same_trees w w' -> keeps_source w w'.
Proof. intros [S _]. exact S. Qed.

Lemma same_trees_keeps_entries w w' : same_trees w w' -> keeps_entries w w'.
Proof. intros [_ R]. unfold keeps_entries. rewrite R. split; eauto. Qed.

Lemma same_trees_only_new_dirs w w' : same_trees w w' -> only_new_dirs w w'.
Proof. intros [_ R]. unfold only_new_dirs. rewrite R. split; [tauto | auto]. Qed.

Lemma same_trees_keeps_wf w w' : same_trees w w' -> keeps_wf w w'.
Proof. intros [_ R]. unfold keeps_wf. rewrite R. auto. Qed.

Lemma only_new_dirs_keeps_entries w w' :
  only_new_dirs w w' -> keeps_entries w w'.
Proof.
  intros [F D]. split; [exact D | ].
  intros q m d Hq. exists m, d. apply F. exact Hq.
Qed.

Lemma same_trees_emit e : steps same_trees (emit e).
Proof. intros w. split; reflexivity. Qed.

Lemma same_trees_next_fault : steps same_trees next_fault.
Proof. intros w. rewrite next_fault_spec. split; reflexivity. Qed.

Lemma same_trees_touch d : steps same_trees (touch d).
Proof. intros w. split; reflexivity. Qed.

Lemma same_trees_os_path_exists p : steps same_trees (os_path_exists p).
Proof. intros w. rewrite os_path_exists_spec. split; reflexivity. Qed.

Lemma same_trees_os_stat p : steps same_trees (os_stat p).
Proof.
  intros w. unfold os_stat.
  destruct (lookup _ _) as [[m d | es] | ]; split; reflexivity.
Qed.

Create HintDb steps_db.

#[export] Hint Resolve same_trees_emit same_trees_next_fault same_trees_touch
  same_trees_os_path_exists same_trees_os_stat : steps_db.

Ltac walk_steps Rrefl Rtrans :=
  repeat first
    [ apply (steps_ret _ Rrefl)
    | apply (steps_raise _ Rrefl)
    | apply (steps_out_of_fuel _ Rrefl)
    | apply (steps_get _ Rrefl)
    | solve [auto with steps_db]
    | apply (steps_bind _ Rtrans); [ | intros ? ]
    | apply (steps_try_except _ Rtrans); [ | intros ? ]
    | apply (steps_for_each _ Rrefl Rtrans); intros ?
    | apply (steps_for_fold _ Rrefl Rtrans); intros ? ?
    | apply (steps_for_map _ Rrefl Rtrans); intros ?
    | progress cbv zeta
    | match goal with
      | |- steps _ (match ?x with _ => _ end) => destruct x
      | |- steps _ (if ?x then _ else _) => destruct x
      end ].

Ltac walk_same := walk_steps same_trees_refl same_trees_trans.

Lemma same_trees_log_info m : steps same_trees (log_info m).
Proof. apply same_trees_emit. Qed.

Lemma same_trees_log_error m : steps same_trees (log_error m).
Proof. apply same_trees_emit. Qed.

Lemma same_trees_calculate_xxhash {H : Xxhash} f :
  steps same_trees (calculate_xxhash f).
Proof. unfold calculate_xxhash. walk_same. Qed.

Lemma same_trees_extended_modified_check s r :
  steps same_trees (Extended.modified_check s r).
Proof. unfold Extended.modified_check. walk_same. Qed.

Lemma same_trees_simple_modified_check s r :
  steps same_trees (Simple.modified_check s r).
Proof. unfold Simple.modified_check. walk_same. Qed.

#[export] Hint Resolve same_trees_log_info same_trees_log_error
  same_trees_calculate_xxhash same_trees_extended_modified_check
  same_trees_simple_modified_check : steps_db.

Lemma same_trees_extended_sync_file {H : Xxhash} strict s r tasks :
  steps same_trees (Extended.sync_file strict s r tasks).
Proof. unfold Extended.sync_file. walk_same. Qed.

Lemma mkdirs_prefix_not_file (p : path) : forall R R' q,
  mkdirs p R = inr R' -> is_prefix q p = true ->
  forall m d, at_ R q <> IsFile m d.
Proof.
  induction p as [ | name p IH]; intros R R' q HM Hq m d.
  - destruct R; discriminate HM.
  - destruct R as [m0 d0 | es]; cbn in HM; [discriminate | ].
    destruct q as [ | b q]; [discriminate | ].
    cbn in Hq. apply andb_prop in Hq. destruct Hq as [E Hq].
    apply String.eqb_eq in E. subst b. rewrite at_dir_cons.
    destruct (assoc name es) as [c | ] eqn:Ec; [ | discriminate].
    destruct (mkdirs p c) as [e | c'] eqn:Em; [discriminate | ].
    exact (IH c c' q Em Hq m d).
Qed.

Lemma os_makedirs_cases (w : world) (p : path) :
  let res := os_makedirs (Replica, p) w in
  src (snd res) = src w
  /\ faults (snd res) = faults w
  /\ trace (snd res) = trace w ++ [EvMakedirs (Replica, p)]
  /\ ((rep (snd res) = rep w
       /\ exists e, fst res = Raise e /\ is_Exception e = true)
      \/ (fst res = Ok tt /\ mkdirs p (rep w) = inr (rep (snd res)))).
Proof.
  intros res. subst res. unfold os_makedirs. run_m. cbn [tree rep set_trace].
  destruct (mkdirs p (rep w)) as [e | R'] eqn:Em.
  - repeat split. left. split; [reflexivity | ]. exists e.
    split; [reflexivity | exact (mkdirs_is_Exception _ _ _ Em)].
  - repeat split. right. split; reflexivity.
Qed.

Lemma keeps_source_os_makedirs p : steps keeps_source (os_makedirs (Replica, p)).
Proof. intros w. apply (os_makedirs_cases w p). Qed.

Lemma only_new_dirs_os_makedirs p :
  steps only_new_dirs (os_makedirs (Replica, p)).
Proof.
  intros w. destruct (os_makedirs_cases w p) as (_ & _ & _ & [[E _] | [_ HM]]).
  - unfold only_new_dirs. rewrite E. split; [tauto | auto].
  - pose proof (at_mkdirs _ _ _ HM) as Hat. split.
    + intros q m d. rewrite Hat. destruct (is_prefix q p) eqn:Ep; [ | tauto].
      split; [discriminate | ].
      intros Hq. exfalso. exact (mkdirs_prefix_not_file _ _ _ _ HM Ep m d Hq).
    + intros q Hq. rewrite Hat. destruct (is_prefix q p); [reflexivity | exact Hq].
Qed.

Lemma keeps_wf_os_makedirs p : steps keeps_wf (os_makedirs (Replica, p)).
Proof.
  intros w Hw. destruct (os_makedirs_cases w p) as (_ & _ & _ & [[E _] | [_ HM]]).
  - rewrite E. exact Hw.
  - exact (wf_mkdirs _ _ _ Hw HM).
Qed.

Lemma at_under_entry (R : node) (dirp : path) es (name : string) (rest : path) :
  lookup R dirp = Some (Dir es) ->
  at_ R (dirp ++ name :: rest)
  = match assoc name es with Some c => at_ c rest | None => Absent end.
Proof. intros Hl. rewrite at_app, Hl. apply at_dir_cons. Qed.

Lemma at_file m d (q : path) :
  at_ (File m d) q = match q with [] => IsFile m d | _ :: _ => Absent end.
Proof. destruct q; reflexivity. Qed.

(** The shapes after a file has been put where no directory stood. *)
Lemma at_put_file (R R' : node) dirp name es m d :
  lookup R dirp = Some (Dir es) ->
  (forall es', assoc name es <> Some (Dir es')) ->
  alter dirp (put name (File m d)) R = Some R' ->
  forall q, at_ R' q = if path_eqb q (dirp ++ [name]) then IsFile m d
                       else at_ R q.
Proof.
  intros Hl Hnd HA q. rewrite (at_write _ _ _ _ _ HA).
  destruct (is_prefix (dirp ++ [name]) q) eqn:Ep.
  - pose proof (is_prefix_skipn _ _ Ep) as Eq.
    rewrite length_app in Eq. cbn [List.length] in Eq.
    set (rest := skipn (List.length dirp + 1) q) in *.
    clearbody rest. subst q. rewrite at_file.
    destruct rest as [ | b rest].
    + rewrite app_nil_r, (proj2 (path_eqb_eq _ _) eq_refl). reflexivity.
    + destruct (path_eqb _ _) eqn:E.
      * apply path_eqb_eq in E. rewrite <- (app_nil_r (dirp ++ [name])) in E at 2.
        apply app_inv_head in E. discriminate.
      * rewrite <- app_assoc. cbn [app]. rewrite (at_under_entry _ _ _ _ _ Hl).
        destruct (assoc name es) as [[m0 d0 | es0] | ] eqn:Ea; try reflexivity.
        exfalso. exact (Hnd es0 eq_refl).
  - destruct (path_eqb _ _) eqn:E; [ | reflexivity].
    apply path_eqb_eq in E. subst q. rewrite is_prefix_refl in Ep. discriminate.
Qed.

Lemma keeps_source_shutil_copy2 o q :
  steps keeps_source (shutil_copy2 o (Replica, q)).
Proof. intros w. apply (shutil_copy2_cases w o q). Qed.

Lemma keeps_entries_shutil_copy2 o q :
  steps keeps_entries (shutil_copy2 o (Replica, q)).
Proof.
  intros w. destruct (shutil_copy2_cases w o q) as (_ & [[E _] | Hw]).
  - unfold keeps_entries. rewrite E. split; eauto.
  - destruct Hw as (dirp & name & es & mo & d & f & _ & _ & Hl & Hnd & HA & Hf).
    assert (exists m' d', f = File m' d') as (m' & d' & ->).
    { destruct Hf as [(_ & d' & -> & _) | (_ & t & wr & ->)]; eauto. }
    pose proof (at_put_file _ _ _ _ _ _ _ Hl Hnd HA) as Hat. split.
    + intros q' Hq. rewrite Hat. destruct (path_eqb _ _) eqn:E; [ | exact Hq].
      apply path_eqb_eq in E. subst q'. exfalso.
      rewrite (at_under_entry _ _ _ _ _ Hl) in Hq.
      destruct (assoc name es) as [[m0 d0 | es0] | ] eqn:Ea; try discriminate.
      exact (Hnd es0 eq_refl).
    + intros q' m d0 Hq. rewrite Hat. destruct (path_eqb _ _); eauto.
Qed.

Lemma keeps_wf_shutil_copy2 o q : steps keeps_wf (shutil_copy2 o (Replica, q)).
Proof.
  intros w Hw. destruct (shutil_copy2_cases w o q) as (_ & [[E _] | Hc]).
  - rewrite E. exact Hw.
  - destruct Hc as (dirp & name & es & mo & d & f & _ & _ & Hl & Hnd & HA & Hf).
    refine (wf_alter _ _ _ _ _ Hw HA).
    intros es0 Hd Hall. split; [apply NoDup_names_put, Hd | ].
    apply all_wf_put; [ | exact Hall].
    destruct Hf as [(_ & d' & -> & _) | (_ & t & wr & ->)]; reflexivity.
Qed.

#[export] Hint Resolve keeps_source_os_makedirs only_new_dirs_os_makedirs
  keeps_wf_os_makedirs keeps_source_shutil_copy2 keeps_entries_shutil_copy2
  keeps_wf_shutil_copy2 : steps_db.

(** The events added all pass the test [f]. *)
Definition adds_b (f : event -> bool) : world -> world -> Prop :=
  adds (fun e => f e = true).

Lemma adds_b_refl f w : adds_b f w w.
Proof. apply adds_refl. Qed.

Lemma adds_b_trans f w1 w2 w3 :
  adds_b f w1 w2 -> adds_b f w2 w3 -> adds_b f w1 w3.
Proof. apply adds_trans. Qed.

Lemma adds_b_emit f e : f e = true -> steps (adds_b f) (emit e).
Proof. intros He. apply (adds_one _ _ e He). reflexivity. Qed.

Lemma adds_b_log_info f m : f (EvInfo m) = true -> steps (adds_b f) (log_info m).
Proof. apply adds_b_emit. Qed.

Lemma adds_b_log_error f m :
  f (EvError m) = true -> steps (adds_b f) (log_error m).
Proof. apply adds_b_emit. Qed.

Lemma adds_b_next_fault f : steps (adds_b f) next_fault.
Proof. apply adds_silent, silent_next_fault. Qed.

Lemma adds_b_touch f d : steps (adds_b f) (touch d).
Proof. apply adds_silent, silent_touch. Qed.

Lemma adds_b_os_path_exists f p : steps (adds_b f) (os_path_exists p).
Proof. apply adds_silent. intros w. rewrite os_path_exists_spec. reflexivity. Qed.

Lemma adds_b_os_stat f p : steps (adds_b f) (os_stat p).
Proof.
  apply adds_silent. intros w. unfold os_stat.
  destruct (lookup _ _) as [[m d | es] | ]; reflexivity.
Qed.

Lemma adds_b_calculate_xxhash {H : Xxhash} f p :
  f (EvXxhash p) = true -> steps (adds_b f) (calculate_xxhash p).
Proof. intros He. apply (adds_one _ _ _ He), trace_calculate_xxhash. Qed.

Lemma adds_b_shutil_copy2 f o r :
  f (EvCopy2 o r) = true -> steps (adds_b f) (shutil_copy2 o r).
Proof. intros He. apply (adds_one _ _ _ He), trace_shutil_copy2. Qed.

Lemma adds_b_os_makedirs f p :
  f (EvMakedirs p) = true -> steps (adds_b f) (os_makedirs p).
Proof.
  intros He. apply (adds_one _ _ _ He). intros w. unfold os_makedirs.
  apply trace_emit_then. walk_silent. intros w0. cbn.
  destruct (fst p); reflexivity.
Qed.

Lemma adds_b_os_remove f p :
  f (EvRemove p) = true -> steps (adds_b f) (os_remove p).
Proof.
  intros He. apply (adds_one _ _ _ He). intros w. unfold os_remove.
  apply trace_emit_then. walk_silent.
Qed.

Lemma adds_b_shutil_rmtree f p :
  f (EvRmtree p) = true -> steps (adds_b f) (shutil_rmtree p).
Proof.
  intros He. apply (adds_one _ _ _ He). intros w. unfold shutil_rmtree.
  apply trace_emit_then. walk_silent.
Qed.

#[export] Hint Resolve adds_b_emit adds_b_log_info adds_b_log_error
  adds_b_next_fault adds_b_touch adds_b_os_path_exists adds_b_os_stat
  adds_b_calculate_xxhash adds_b_shutil_copy2 adds_b_os_makedirs
  adds_b_os_remove adds_b_shutil_rmtree : steps_db.

Ltac walk_adds :=
  walk_steps uconstr:(adds_b_refl _) uconstr:(adds_b_trans _).


(** The retry loops, for any relation the copy, the digests and the error
    log respect. *)
Section LoopSteps.
Context {H : Xxhash}.
Variable R : world -> world -> Prop.
Hypothesis R_refl : forall w, R w w.
Hypothesis R_trans : forall w1 w2 w3, R w1 w2 -> R w2 w3 -> R w1 w3.
Variables o r : fpath.
Hypothesis R_copy : steps R (shutil_copy2 o r).
Hypothesis R_hash : forall f, steps R (calculate_xxhash f).
Hypothesis R_error : forall m, steps R (log_error m).

Lemma steps_extended_copy_validate :
  steps R (Extended.copy_validate o r).
Proof.
  unfold Extended.copy_validate. generalize 0. generalize while_fuel.
  intros fuel. induction fuel as [ | fuel IH]; intros rc;
    cbn [Extended.copy_validate_while]; unfold Extended.copy_validate_body;
    walk_steps R_refl R_trans.
Qed.

Lemma steps_simple_copy_validate check :
  steps R (Simple.copy_validate o r check).
Proof.
  unfold Simple.copy_validate. generalize 0. generalize while_fuel.
  intros fuel. induction fuel as [ | fuel IH]; intros rc;
    cbn [Simple.copy_validate_while]; unfold Simple.copy_validate_body;
    walk_steps R_refl R_trans.
Qed.

End LoopSteps.

(** ** The logger and the platform *)

(** The platform and the handlers of the logger stay as they are. *)
Definition same_host (w w' : world) : Prop :=
  sys_platform w' = sys_platform w /\ handlers w' = handlers w.

Lemma same_host_refl w : same_host w w.
Proof. split; reflexivity. Qed.

Lemma same_host_trans w1 w2 w3 :
  same_host w1 w2 -> same_host w2 w3 -> same_host w1 w3.
Proof. intros [P1 H1] [P2 H2]. split; congruence. Qed.

Ltac walk_host := walk_steps same_host_refl same_host_trans.

Lemma same_host_emit e : steps same_host (emit e).
Proof. intros w. split; reflexivity. Qed.

Lemma same_host_log_info m : steps same_host (log_info m).
Proof. apply same_host_emit. Qed.

Lemma same_host_log_error m : steps same_host (log_error m).
Proof. apply same_host_emit. Qed.

Lemma same_host_next_fault : steps same_host next_fault.
Proof. intros w. rewrite next_fault_spec. split; reflexivity. Qed.

Lemma same_host_touch d : steps same_host (touch d).
Proof. intros w. split; reflexivity. Qed.

Lemma same_host_put_tree sd t : steps same_host (put_tree sd t).
Proof. intros w. destruct sd; split; reflexivity. Qed.

Lemma same_host_os_path_exists p : steps same_host (os_path_exists p).
Proof. intros w. rewrite os_path_exists_spec. split; reflexivity. Qed.

Lemma same_host_os_stat p : steps same_host (os_stat p).
Proof.
  intros w. unfold os_stat.
  destruct (lookup _ _) as [[m d | es] | ]; split; reflexivity.
Qed.

#[export] Hint Resolve same_host_emit same_host_log_info same_host_log_error
  same_host_next_fault same_host_touch same_host_put_tree
  same_host_os_path_exists same_host_os_stat : steps_db.

Lemma same_host_os_makedirs p : steps same_host (os_makedirs p).
Proof.
  unfold os_makedirs. walk_host. intros w. destruct (fst p); split; reflexivity.
Qed.

Lemma same_host_write_file sd dirp name existed f :
  steps same_host (write_file sd dirp name existed f).
Proof. unfold write_file. walk_host. Qed.

#[export] Hint Resolve same_host_os_makedirs same_host_write_file : steps_db.

Lemma same_host_shutil_copy2 o r : steps same_host (shutil_copy2 o r).
Proof. unfold shutil_copy2. walk_host. Qed.

Lemma same_host_os_remove p : steps same_host (os_remove p).
Proof. unfold os_remove. walk_host. Qed.

Lemma same_host_shutil_rmtree p : steps same_host (shutil_rmtree p).
Proof. unfold shutil_rmtree. walk_host. Qed.

Lemma same_host_calculate_xxhash {H : Xxhash} f :
  steps same_host (calculate_xxhash f).
Proof. unfold calculate_xxhash. walk_host. Qed.

#[export] Hint Resolve same_host_shutil_copy2 same_host_os_remove
  same_host_shutil_rmtree same_host_calculate_xxhash : steps_db.

Section HostKept.
Context {H : Xxhash}.

Lemma same_host_extended_sync_directory s r strict :
  steps same_host (Extended.sync_directory s r strict).
Proof.
  unfold Extended.sync_directory, Extended.sync_root, Extended.sync_file,
    Extended.modified_check.
  walk_host.
Qed.

Lemma same_host_extended_copy_validate o r :
  steps same_host (Extended.copy_validate o r).
Proof.
  apply steps_extended_copy_validate;
    [apply same_host_refl | apply same_host_trans | | | ]; auto with steps_db.
Qed.

Lemma same_host_simple_copy_validate o r check :
  steps same_host (Simple.copy_validate o r check).
Proof.
  apply steps_simple_copy_validate;
    [apply same_host_refl | apply same_host_trans | | | ]; auto with steps_db.
Qed.

Lemma same_host_copy_tasks multi procnum tasks :
  steps same_host (Extended.copy_tasks multi procnum tasks).
Proof.
  pose proof same_host_extended_copy_validate.
  unfold Extended.copy_tasks, Extended.process_pool. walk_host.
Qed.

Lemma same_host_extended_cleanup_replica s r :
  steps same_host (Extended.cleanup_replica s r).
Proof.
  unfold Extended.cleanup_replica, Extended.cleanup_root,
    Extended.cleanup_file, Extended.cleanup_dir.
  walk_host.
Qed.

Lemma same_host_simple_sync_directory s r strict :
  steps same_host (Simple.sync_directory s r strict).
Proof.
  pose proof same_host_simple_copy_validate.
  unfold Simple.sync_directory, Simple.sync_root, Simple.sync_file,
    Simple.modified_check.
  walk_host.
Qed.

Lemma same_host_simple_cleanup_replica s r :
  steps same_host (Simple.cleanup_replica s r).
Proof.
  unfold Simple.cleanup_replica, Simple.cleanup_root,
    Simple.cleanup_file, Simple.cleanup_dir.
  walk_host.
Qed.

End HostKept.

(** A computation that neither reads nor changes the handlers of the
    logger: it does the same whatever they are. *)
Definition blind {A} (m : M A) : Prop :=
  forall hs w,
    m (set_handlers hs w) = (fst (m w), set_handlers hs (snd (m w))).

Lemma tree_set_handlers sd hs w : tree sd (set_handlers hs w) = tree sd w.
Proof. destruct sd; reflexivity. Qed.

Lemma blind_ret {A} (a : A) : blind (ret a).
Proof. intros hs w. reflexivity. Qed.

Lemma blind_raise {A} (e : exn) : blind (@raise A e).
Proof. intros hs w. reflexivity. Qed.

Lemma blind_out_of_fuel {A} : blind (@out_of_fuel A).
Proof. intros hs w. reflexivity. Qed.

Lemma blind_bind {A B} (m : M A) (k : A -> M B) :
  blind m -> (forall a, blind (k a)) -> blind (bind m k).
Proof.
  intros Hm Hk hs w. unfold bind. rewrite Hm.
  destruct (m w) as [[a | e | ] w1]; cbn [fst snd]; [apply Hk | | ]; reflexivity.
Qed.

(** The world read by [get] is used for its trees, tables and clock. *)
Lemma blind_get_bind {A} (k : world -> M A) :
  (forall hs w w0, k (set_handlers hs w) w0 = k w w0) ->
  (forall w, blind (k w)) -> blind (bind get k).
Proof.
  intros Hk Hb hs w. unfold bind, get. rewrite Hk. apply Hb.
Qed.

Lemma blind_try_except {A} (body : M A) (handler : exn -> M A) :
  blind body -> (forall e, blind (handler e)) -> blind (try_except body handler).
Proof.
  intros Hb Hh hs w. unfold try_except. rewrite Hb.
  destruct (body w) as [[a | e | ] w1]; cbn [fst snd]; try reflexivity.
  destruct (is_Exception e); [apply Hh | reflexivity].
Qed.

Lemma blind_for_each {A} (xs : list A) (body : A -> M unit) :
  (forall x, blind (body x)) -> blind (for_each xs body).
Proof.
  intros Hb. induction xs as [ | x xs IH]; cbn [for_each].
  - apply blind_ret.
  - apply blind_bind; [apply Hb | intros _; exact IH].
Qed.

Lemma blind_for_fold {A S} (xs : list A) (acc : S) (body : S -> A -> M S) :
  (forall acc x, blind (body acc x)) -> blind (for_fold xs acc body).
Proof.
  intros Hb. revert acc. induction xs as [ | x xs IH]; intros acc;
    cbn [for_fold].
  - apply blind_ret.
  - apply blind_bind; [apply Hb | intros acc'; apply IH].
Qed.

Lemma blind_for_map {A B} (xs : list A) (f : A -> M B) :
  (forall x, blind (f x)) -> blind (for_map xs f).
Proof.
  intros Hf. induction xs as [ | x xs IH]; cbn [for_map].
  - apply blind_ret.
  - apply blind_bind; [apply Hf | intros y].
    apply blind_bind; [exact IH | intros ys; apply blind_ret].
Qed.

Lemma blind_emit e : blind (emit e).
Proof. intros hs w. reflexivity. Qed.

Lemma blind_log_info m : blind (log_info m).
Proof. apply blind_emit. Qed.

Lemma blind_log_error m : blind (log_error m).
Proof. apply blind_emit. Qed.

Lemma blind_next_fault : blind next_fault.
Proof.
  intros hs w. unfold next_fault. cbn [faults set_handlers].
  destruct (faults w); reflexivity.
Qed.

Lemma blind_touch d : blind (touch d).
Proof. intros hs w. reflexivity. Qed.

Lemma blind_put_tree sd t : blind (put_tree sd t).
Proof. intros hs w. destruct sd; reflexivity. Qed.

Lemma blind_os_path_exists p : blind (os_path_exists p).
Proof.
  intros hs w. unfold os_path_exists. rewrite tree_set_handlers.
  destruct (lookup _ _); reflexivity.
Qed.

Lemma blind_os_stat p : blind (os_stat p).
Proof.
  intros hs w. unfold os_stat. rewrite tree_set_handlers.
  destruct (lookup _ _) as [[m d | es] | ]; reflexivity.
Qed.

Create HintDb blind_db.

#[export] Hint Resolve blind_emit blind_log_info blind_log_error
  blind_next_fault blind_touch blind_put_tree blind_os_path_exists
  blind_os_stat : blind_db.

Ltac walk_blind :=
  repeat first
    [ match goal with
      | |- blind (ret _) => apply blind_ret
      | |- blind (raise _) => apply blind_raise
      | |- blind out_of_fuel => apply blind_out_of_fuel
      | |- blind (bind get _) =>
          apply blind_get_bind;
            [ intros ? ? ?; unfold tree, set_handlers;
              cbn [src rep dstat fresh_dir_size now faults trace sys_platform];
              reflexivity
            | intros ? ]
      | |- blind (bind _ _) => apply blind_bind; [ | intros ? ]
      | |- blind (try_except _ _) => apply blind_try_except; [ | intros ? ]
      | |- blind (for_each _ _) => apply blind_for_each; intros ?
      | |- blind (for_fold _ _ _) => apply blind_for_fold; intros ? ?
      | |- blind (for_map _ _) => apply blind_for_map; intros ?
      | |- blind (match ?x with _ => _ end) => destruct x
      | |- blind (if ?x then _ else _) => destruct x
      end
    | progress cbv beta zeta
    | solve [auto with blind_db] ].

Lemma blind_os_makedirs p : blind (os_makedirs p).
Proof.
  unfold os_makedirs.
  apply blind_bind; [apply blind_emit | intros _].
  apply blind_get_bind.
  - intros hs w w0. unfold tree, set_handlers.
    cbn [src rep dstat fresh_dir_size now faults trace sys_platform].
    reflexivity.
  - intros w. destruct (mkdirs (snd p) (tree (fst p) w)); [apply blind_raise | ].
    cbv zeta. intros hs w0. destruct (fst p); reflexivity.
Qed.

Lemma blind_write_file sd dirp name existed f :
  blind (write_file sd dirp name existed f).
Proof. unfold write_file. walk_blind. Qed.

#[export] Hint Resolve blind_os_makedirs blind_write_file : blind_db.

Lemma blind_shutil_copy2 o r : blind (shutil_copy2 o r).
Proof. unfold shutil_copy2. walk_blind. Qed.

Lemma blind_os_remove p : blind (os_remove p).
Proof. unfold os_remove. walk_blind. Qed.

Lemma blind_shutil_rmtree p : blind (shutil_rmtree p).
Proof. unfold shutil_rmtree. walk_blind. Qed.

Lemma blind_calculate_xxhash {H : Xxhash} f : blind (calculate_xxhash f).
Proof. unfold calculate_xxhash. walk_blind. Qed.

#[export] Hint Resolve blind_shutil_copy2 blind_os_remove blind_shutil_rmtree
  blind_calculate_xxhash : blind_db.

Section Blind.
Context {H : Xxhash}.

Lemma blind_extended_sync_directory s r strict :
  blind (Extended.sync_directory s r strict).
Proof.
  unfold Extended.sync_directory, Extended.sync_root, Extended.sync_file,
    Extended.modified_check.
  walk_blind.
Qed.

Lemma blind_extended_copy_validate o r : blind (Extended.copy_validate o r).
Proof.
  unfold Extended.copy_validate. generalize 0. generalize while_fuel.
  intros fuel. induction fuel as [ | fuel IH]; intros rc;
    cbn [Extended.copy_validate_while]; unfold Extended.copy_validate_body;
    walk_blind.
Qed.

Lemma blind_simple_copy_validate o r check :
  blind (Simple.copy_validate o r check).
Proof.
  unfold Simple.copy_validate. generalize 0. generalize while_fuel.
  intros fuel. induction fuel as [ | fuel IH]; intros rc;
    cbn [Simple.copy_validate_while]; unfold Simple.copy_validate_body;
    walk_blind.
Qed.

Lemma blind_copy_tasks multi procnum tasks :
  blind (Extended.copy_tasks multi procnum tasks).
Proof.
  pose proof blind_extended_copy_validate.
  unfold Extended.copy_tasks, Extended.process_pool. walk_blind.
Qed.

Lemma blind_extended_cleanup_replica s r :
  blind (Extended.cleanup_replica s r).
Proof.
  unfold Extended.cleanup_replica, Extended.cleanup_root,
    Extended.cleanup_file, Extended.cleanup_dir.
  walk_blind.
Qed.

Lemma blind_simple_sync_directory s r strict :
  blind (Simple.sync_directory s r strict).
Proof.
  pose proof blind_simple_copy_validate.
  unfold Simple.sync_directory, Simple.sync_root, Simple.sync_file,
    Simple.modified_check.
  walk_blind.
Qed.

Lemma blind_simple_cleanup_replica s r :
  blind (Simple.cleanup_replica s r).
Proof.
  unfold Simple.cleanup_replica, Simple.cleanup_root,
    Simple.cleanup_file, Simple.cleanup_dir.
  walk_blind.
Qed.

End Blind.

(** The three phases of a pass, which [synchronization] runs once the
    logger is set up. *)
Definition extended_phases {H : Xxhash} (source replica : side)
    (multi : bool) (procnum : Z) (strict : bool) : M unit :=
  file_tasks <- Extended.sync_directory source replica strict ;;
  Extended.copy_tasks multi procnum file_tasks ;;
  Extended.cleanup_replica source replica.

Definition simple_phases {H : Xxhash} (source replica : side)
    (strict : bool) : M unit :=
  Simple.sync_directory source replica strict ;;
  Simple.cleanup_replica source replica.

Lemma blind_extended_phases {H : Xxhash} s r multi procnum strict :
  blind (extended_phases s r multi procnum strict).
Proof.
  unfold extended_phases.
  apply blind_bind; [apply blind_extended_sync_directory | intros tasks].
  apply blind_bind; [apply blind_copy_tasks | intros _].
  apply blind_extended_cleanup_replica.
Qed.

Lemma blind_simple_phases {H : Xxhash} s r strict :
  blind (simple_phases s r strict).
Proof.
  unfold simple_phases.
  apply blind_bind; [apply blind_simple_sync_directory | intros _].
  apply blind_simple_cleanup_replica.
Qed.

(** A pass is its three phases, with two more handlers on the logger
    however it ends. *)
Lemma extended_synchronization_phases {H : Xxhash} s r multi procnum strict
    (w : world) :
  Extended.synchronization s r multi procnum strict w
  = (fst (extended_phases s r multi procnum strict w),
     set_handlers (handlers w ++ [FileHandler; StreamHandler])
       (snd (extended_phases s r multi procnum strict w))).
Proof.
  unfold Extended.synchronization, bind at 1. unfold setup_logger.
  exact (blind_extended_phases s r multi procnum strict _ w).
Qed.

Lemma simple_synchronization_phases {H : Xxhash} s r strict (w : world) :
  Simple.synchronization s r strict w
  = (fst (simple_phases s r strict w),
     set_handlers (handlers w ++ [FileHandler; StreamHandler])
       (snd (simple_phases s r strict w))).
Proof.
  unfold Simple.synchronization, bind at 1. unfold setup_logger.
  exact (blind_simple_phases s r strict _ w).
Qed.

(** A pass that returned, read as a run of its phases. *)
Lemma extended_synchronization_Ok {H : Xxhash} s r multi procnum strict
    (w w1 : world) :
  Extended.synchronization s r multi procnum strict w = (Ok tt, w1) ->
  exists v,
    extended_phases s r multi procnum strict w = (Ok tt, v)
    /\ w1 = set_handlers (handlers w ++ [FileHandler; StreamHandler]) v.
Proof.
  rewrite extended_synchronization_phases.
  destruct (extended_phases s r multi procnum strict w) as [o v].
  cbn [fst snd]. intros [= -> <-]. exists v. split; reflexivity.
Qed.

Lemma simple_synchronization_Ok {H : Xxhash} s r strict (w w1 : world) :
  Simple.synchronization s r strict w = (Ok tt, w1) ->
  exists v,
    simple_phases s r strict w = (Ok tt, v)
    /\ w1 = set_handlers (handlers w ++ [FileHandler; StreamHandler]) v.
Proof.
  rewrite simple_synchronization_phases.
  destruct (simple_phases s r strict w) as [o v].
  cbn [fst snd]. intros [= -> <-]. exists v. split; reflexivity.
Qed.

(** The pool is refused below one worker and, on Windows, above 61. *)
Definition pool_accepts (platform : string) (max_workers : Z) : bool :=
  negb (max_workers <=? 0)
  && negb (String.eqb platform "win32" && (max_windows_workers <? max_workers)).

Lemma process_pool_spec (max_workers : Z) (w : world) :
  Extended.process_pool max_workers w
  = if pool_accepts (sys_platform w) max_workers
    then (Ok tt, set_trace (trace w ++ [EvPool max_workers]) w)
    else (Raise ValueError, w).
Proof.
  unfold Extended.process_pool, pool_accepts.
  destruct (max_workers <=? 0); [reflexivity | ].
  unfold bind, get. cbn [negb andb].
  destruct (String.eqb _ _ && _); reflexivity.
Qed.

(** *** The planner of the extended script *)

(** What the planner may leave in the trace: directory creations in the
    replica and digest computations. *)
Definition is_plan_event (e : event) : bool :=
  match e with
  | EvMakedirs (Replica, _) | EvXxhash _ => true
  | _ => false
  end.

Definition is_makedirs (e : event) : bool :=
  match e with EvMakedirs _ => true | _ => false end.

(** What the copy phase and the reconciliation may leave in the trace:
    anything but a directory creation. *)
Definition is_later_event (e : event) : bool := negb (is_makedirs e).

(** What the traversal of the simple script may leave in the trace:
    anything but a deletion. *)
Definition is_no_deletion (e : event) : bool :=
  match e with
  | EvRemove _ | EvRmtree _ => false
  | _ => true
  end.

(** The planner of the extended script: new directories in the replica at
    most. *)
Definition plans_only (w w' : world) : Prop :=
  keeps_source w w' /\ only_new_dirs w w' /\ keeps_wf w w'
  /\ adds_b is_plan_event w w'.

Lemma plans_only_refl w : plans_only w w.
Proof.
  repeat split; try apply only_new_dirs_refl; try apply adds_b_refl; auto.
  intros Hw; exact Hw.
Qed.

Lemma plans_only_trans w1 w2 w3 :
  plans_only w1 w2 -> plans_only w2 w3 -> plans_only w1 w3.
Proof.
  intros (S1 & D1 & W1 & A1) (S2 & D2 & W2 & A2). split; [ | split; [ | split]].
  - exact (keeps_source_trans _ _ _ S1 S2).
  - exact (only_new_dirs_trans _ _ _ D1 D2).
  - exact (keeps_wf_trans _ _ _ W1 W2).
  - exact (adds_b_trans _ _ _ _ A1 A2).
Qed.

Lemma plans_only_same_trees {A} (m : M A) :
  steps same_trees m -> steps (adds_b is_plan_event) m -> steps plans_only m.
Proof.
  intros Hs Ha w. specialize (Hs w). specialize (Ha w).
  split; [exact (same_trees_keeps_source _ _ Hs) | ].
  split; [exact (same_trees_only_new_dirs _ _ Hs) | ].
  split; [exact (same_trees_keeps_wf _ _ Hs) | exact Ha].
Qed.

Section Planner.
Context {H : Xxhash}.

Lemma plans_only_sync_file strict s r tasks :
  steps plans_only (Extended.sync_file strict s r tasks).
Proof.
  apply plans_only_same_trees.
  - apply same_trees_extended_sync_file.
  - unfold Extended.sync_file, Extended.modified_check. walk_adds.
Qed.

Lemma plans_only_os_makedirs p : steps plans_only (os_makedirs (Replica, p)).
Proof.
  intros w. split; [apply keeps_source_os_makedirs | ].
  split; [apply only_new_dirs_os_makedirs | ].
  split; [apply keeps_wf_os_makedirs | ].
  apply adds_b_os_makedirs. reflexivity.
Qed.

Lemma plans_only_os_path_exists p : steps plans_only (os_path_exists p).
Proof.
  apply plans_only_same_trees; [apply same_trees_os_path_exists | ].
  apply adds_b_os_path_exists.
Qed.

Lemma plans_only_sync_root strict tasks y :
  steps plans_only (Extended.sync_root Source Replica strict tasks y).
Proof.
  pose proof plans_only_sync_file. pose proof plans_only_os_makedirs.
  pose proof plans_only_os_path_exists.
  unfold Extended.sync_root. destruct y as [[root dirs] files].
  walk_steps plans_only_refl plans_only_trans.
Qed.

Lemma plans_only_sync_directory strict :
  steps plans_only (Extended.sync_directory Source Replica strict).
Proof.
  pose proof plans_only_sync_root.
  unfold Extended.sync_directory. walk_steps plans_only_refl plans_only_trans.
Qed.

End Planner.

(** *** After the planner *)

Section LaterPhases.
Context {H : Xxhash}.

Lemma later_copy_validate o r :
  steps (adds_b is_later_event) (Extended.copy_validate o r).
Proof.
  apply steps_extended_copy_validate;
    [apply adds_b_refl | apply adds_b_trans | | | ]; auto with steps_db.
Qed.

Lemma later_copy_tasks multi procnum tasks :
  steps (adds_b is_later_event) (Extended.copy_tasks multi procnum tasks).
Proof.
  pose proof later_copy_validate.
  unfold Extended.copy_tasks, Extended.process_pool. walk_adds.
Qed.

Lemma later_cleanup_replica :
  steps (adds_b is_later_event) (Extended.cleanup_replica Source Replica).
Proof.
  unfold Extended.cleanup_replica, Extended.cleanup_root,
    Extended.cleanup_file, Extended.cleanup_dir.
  walk_adds.
Qed.

(** Planning is over before the first copy: the trace of a pass is the
    trace of the planner followed by events of the later phases. *)
Lemma synchronization_after_plan multi procnum strict (w : world) :
  adds_b is_later_event
    (snd (Extended.sync_directory Source Replica strict w))
    (snd (Extended.synchronization Source Replica multi procnum strict w)).
Proof.
  rewrite extended_synchronization_phases. cbn [snd].
  match goal with
  | |- adds_b ?f ?a (set_handlers _ ?b) => change (adds_b f a b)
  end.
  unfold extended_phases. unfold bind at 1.
  destruct (Extended.sync_directory Source Replica strict w)
    as [[tasks | e | ] wp]; cbn [snd]; try apply adds_b_refl.
  apply (steps_bind _ (adds_b_trans _)).
  - apply later_copy_tasks.
  - intros _. apply later_cleanup_replica.
Qed.

End LaterPhases.

(** *** The traversal of the simple script *)

(** It copies, but deletes nothing and leaves the source alone. *)
Definition copies_only (w w' : world) : Prop :=
  keeps_source w w' /\ keeps_entries w w' /\ keeps_wf w w'
  /\ adds_b is_no_deletion w w'.

Lemma copies_only_refl w : copies_only w w.
Proof.
  repeat split; try apply adds_b_refl; eauto. intros Hw; exact Hw.
Qed.

Lemma copies_only_trans w1 w2 w3 :
  copies_only w1 w2 -> copies_only w2 w3 -> copies_only w1 w3.
Proof.
  intros (S1 & D1 & W1 & A1) (S2 & D2 & W2 & A2). split; [ | split; [ | split]].
  - exact (keeps_source_trans _ _ _ S1 S2).
  - exact (keeps_entries_trans _ _ _ D1 D2).
  - exact (keeps_wf_trans _ _ _ W1 W2).
  - exact (adds_b_trans _ _ _ _ A1 A2).
Qed.

Lemma copies_only_same_trees {A} (m : M A) :
  steps same_trees m -> steps (adds_b is_no_deletion) m -> steps copies_only m.
Proof.
  intros Hs Ha w. specialize (Hs w). specialize (Ha w).
  split; [exact (same_trees_keeps_source _ _ Hs) | ].
  split; [exact (same_trees_keeps_entries _ _ Hs) | ].
  split; [exact (same_trees_keeps_wf _ _ Hs) | exact Ha].
Qed.

Lemma copies_only_plans_only {A} (m : M A) :
  steps plans_only m -> steps copies_only m.
Proof.
  intros Hp w. destruct (Hp w) as (S1 & D1 & W1 & (t & Et & Ft)).
  split; [exact S1 | ]. split; [exact (only_new_dirs_keeps_entries _ _ D1) | ].
  split; [exact W1 | ]. exists t. split; [exact Et | ].
  eapply Forall_impl; [ | exact Ft]. intros [] He; try reflexivity;
    try discriminate He.
Qed.

Section SimpleTraversal.
Context {H : Xxhash}.

Lemma copies_only_shutil_copy2 o q :
  steps copies_only (shutil_copy2 o (Replica, q)).
Proof.
  intros w. split; [apply keeps_source_shutil_copy2 | ].
  split; [apply keeps_entries_shutil_copy2 | ].
  split; [apply keeps_wf_shutil_copy2 | ].
  apply adds_b_shutil_copy2. reflexivity.
Qed.

Lemma copies_only_calculate_xxhash f : steps copies_only (calculate_xxhash f).
Proof.
  apply copies_only_same_trees; auto with steps_db.
Qed.

Lemma copies_only_log_error m : steps copies_only (log_error m).
Proof. apply copies_only_same_trees; auto with steps_db. Qed.

Lemma copies_only_log_info m : steps copies_only (log_info m).
Proof. apply copies_only_same_trees; auto with steps_db. Qed.

Lemma copies_only_modified_check s r :
  steps copies_only (Simple.modified_check s r).
Proof.
  apply copies_only_same_trees; [auto with steps_db | ].
  unfold Simple.modified_check. walk_adds.
Qed.

Lemma copies_only_copy_validate o q check :
  steps copies_only (Simple.copy_validate o (Replica, q) check).
Proof.
  apply steps_simple_copy_validate;
    [apply copies_only_refl | apply copies_only_trans | | | ].
  - apply copies_only_shutil_copy2.
  - apply copies_only_calculate_xxhash.
  - apply copies_only_log_error.
Qed.

Lemma copies_only_os_makedirs p : steps copies_only (os_makedirs (Replica, p)).
Proof. apply copies_only_plans_only, plans_only_os_makedirs. Qed.

Lemma copies_only_os_path_exists p : steps copies_only (os_path_exists p).
Proof. apply copies_only_plans_only, plans_only_os_path_exists. Qed.

Lemma copies_only_sync_file strict s q :
  steps copies_only (Simple.sync_file strict s (Replica, q)).
Proof.
  pose proof copies_only_modified_check. pose proof copies_only_copy_validate.
  pose proof copies_only_calculate_xxhash. pose proof copies_only_log_info.
  unfold Simple.sync_file. walk_steps copies_only_refl copies_only_trans.
Qed.

Lemma copies_only_sync_root strict y :
  steps copies_only (Simple.sync_root Source Replica strict y).
Proof.
  pose proof copies_only_sync_file. pose proof copies_only_os_makedirs.
  pose proof copies_only_os_path_exists.
  unfold Simple.sync_root. destruct y as [[root dirs] files].
  unfold os_path_join. cbn [fst snd].
  walk_steps copies_only_refl copies_only_trans.
Qed.

Lemma copies_only_sync_directory strict :
  steps copies_only (Simple.sync_directory Source Replica strict).
Proof.
  pose proof copies_only_sync_root.
  unfold Simple.sync_directory. walk_steps copies_only_refl copies_only_trans.
Qed.

End SimpleTraversal.

(** C1, as far as it holds.  In the extended script the planner
    ([sync_directory]) leaves the source as it is and changes the replica by
    new directories at most: the files of the replica are the same before
    and after, no directory goes away, and the trace gains directory
    creations and digest computations only.  Everything else of a pass
    (copies, log records, deletions) comes after the planner has returned,
    and no directory is created then.  In the simple script the traversal
    copies as it goes; it still leaves the source as it is and deletes
    nothing of the replica. *)
Theorem planner_frame {H : Xxhash} (w : world) (strict multi : bool)
    (procnum : Z) :
  let planned := snd (Extended.sync_directory Source Replica strict w) in
  let done :=
    snd (Extended.synchronization Source Replica multi procnum strict w) in
  let traversed := snd (Simple.sync_directory Source Replica strict w) in
  (src planned = src w
   /\ (forall q m d,
         at_ (rep planned) q = IsFile m d <-> at_ (rep w) q = IsFile m d)
   /\ (forall q, at_ (rep w) q = IsDir -> at_ (rep planned) q = IsDir)
   /\ (exists t, trace planned = trace w ++ t
                 /\ Forall (fun e => is_plan_event e = true) t)
   /\ (exists t, trace done = trace planned ++ t
                 /\ Forall (fun e => is_later_event e = true) t))
  /\ (src traversed = src w
      /\ (forall q, at_ (rep w) q = IsDir -> at_ (rep traversed) q = IsDir)
      /\ (forall q m d,
            at_ (rep w) q = IsFile m d ->
            exists m' d', at_ (rep traversed) q = IsFile m' d')
      /\ (exists t, trace traversed = trace w ++ t
                    /\ Forall (fun e => is_no_deletion e = true) t)).
Proof.
  intros planned done traversed. split.
  - destruct (plans_only_sync_directory strict w) as (S1 & [F1 D1] & _ & A1).
    split; [exact S1 | ]. split; [exact F1 | ]. split; [exact D1 | ].
    split; [exact A1 | ].
    exact (synchronization_after_plan multi procnum strict w).
  - destruct (copies_only_sync_directory strict w) as (S1 & [D1 F1] & _ & A1).
    split; [exact S1 | ]. split; [exact D1 | ]. split; [exact F1 | exact A1].
Qed.

(** C1 fails for the simple script: with an empty replica its traversal
    writes [a.txt] into the replica, and it does so before it creates the
    directory [docs]. *)
Lemma simple_sync_directory_copies :
  let w := sample_world sample_source (Dir []) [] in
  let traversed := snd (Simple.sync_directory Source Replica false w) in
  let a := ["a.txt"%string] in
  let readme := ["docs"%string; "readme.txt"%string] in
  at_ (rep w) a = Absent
  /\ at_ (rep traversed) a = IsFile 7 [x63]
  /\ forallb is_plan_event (trace traversed) = false
  /\ trace traversed
     = [EvCopy2 (Source, a) (Replica, a);
        EvXxhash (Source, a); EvXxhash (Replica, a);
        EvInfo (MsgCopied (Replica, a) (Replica, a));
        EvMakedirs (Replica, ["docs"%string]);
        EvCopy2 (Source, readme) (Replica, readme);
        EvXxhash (Source, readme); EvXxhash (Replica, readme);
        EvInfo (MsgCopied (Replica, readme) (Replica, readme))].
Proof. vm_compute. repeat split; reflexivity. Qed.

(** ** Two passes in a row *)

(** *** Runs that return *)

Lemma bind_Ok {A B} (m : M A) (k : A -> M B) (w : world) (b : B) (w' : world) :
  bind m k w = (Ok b, w') ->
  exists a w1, m w = (Ok a, w1) /\ k a w1 = (Ok b, w').
Proof.
  unfold bind. destruct (m w) as [[a | e | ] w1]; try discriminate.
  intros Hk. exists a, w1. split; [reflexivity | exact Hk].
Qed.

Lemma ret_Ok {A} (a b : A) (w w' : world) :
  ret a w = (Ok b, w') -> b = a /\ w' = w.
Proof. unfold ret. intros [= <- <-]. split; reflexivity. Qed.

(** A loop that returns keeps an invariant its body keeps; the invariant
    may speak of the elements already handled. *)
Lemma for_fold_inv {A S} (body : S -> A -> M S)
    (I : list A -> S -> world -> Prop) :
  forall xs done acc w acc' w',
    (forall done x acc w acc' w',
        In x xs -> I done acc w -> body acc x w = (Ok acc', w') ->
        I (done ++ [x]) acc' w') ->
    I done acc w -> for_fold xs acc body w = (Ok acc', w') ->
    I (done ++ xs) acc' w'.
Proof.
  induction xs as [ | x xs IH]; intros done acc w acc' w' Hstep HI Hrun.
  - apply ret_Ok in Hrun. destruct Hrun as [-> ->]. rewrite app_nil_r. exact HI.
  - cbn [for_fold] in Hrun. apply bind_Ok in Hrun.
    destruct Hrun as (acc1 & w1 & Hx & Hrest).
    change (x :: xs) with ([x] ++ xs). rewrite app_assoc.
    apply (IH _ acc1 w1); [ | | exact Hrest].
    + intros d y a v a' v' Hy. apply Hstep. right. exact Hy.
    + apply (Hstep done x acc w); [left; reflexivity | exact HI | exact Hx].
Qed.

Lemma for_each_inv {A} (body : A -> M unit) (I : list A -> world -> Prop) :
  forall xs done w w',
    (forall done x w w',
        In x xs -> I done w -> body x w = (Ok tt, w') -> I (done ++ [x]) w') ->
    I done w -> for_each xs body w = (Ok tt, w') ->
    I (done ++ xs) w'.
Proof.
  induction xs as [ | x xs IH]; intros done w w' Hstep HI Hrun.
  - apply ret_Ok in Hrun. destruct Hrun as [_ ->]. rewrite app_nil_r. exact HI.
  - cbn [for_each] in Hrun. apply bind_Ok in Hrun.
    destruct Hrun as ([] & w1 & Hx & Hrest).
    change (x :: xs) with ([x] ++ xs). rewrite app_assoc.
    apply (IH _ w1); [ | | exact Hrest].
    + intros d y v v' Hy. apply Hstep. right. exact Hy.
    + apply (Hstep done x w); [left; reflexivity | exact HI | exact Hx].
Qed.

Lemma for_map_inv {A B} (f : A -> M B)
    (I : list A -> list B -> world -> Prop) :
  forall xs done ys w ys' w',
    (forall done ys x w y w',
        In x xs -> I done ys w -> f x w = (Ok y, w') ->
        I (done ++ [x]) (ys ++ [y]) w') ->
    I done ys w -> for_map xs f w = (Ok ys', w') ->
    I (done ++ xs) (ys ++ ys') w'.
Proof.
  induction xs as [ | x xs IH]; intros done ys w ys' w' Hstep HI Hrun.
  - apply ret_Ok in Hrun. destruct Hrun as [-> ->]. rewrite !app_nil_r. exact HI.
  - cbn [for_map] in Hrun. apply bind_Ok in Hrun.
    destruct Hrun as (y & w1 & Hx & Hrest).
    apply bind_Ok in Hrest. destruct Hrest as (ys1 & w2 & Hxs & Hret).
    apply ret_Ok in Hret. destruct Hret as [-> ->].
    change (x :: xs) with ([x] ++ xs). change (y :: ys1) with ([y] ++ ys1).
    rewrite !app_assoc.
    apply (IH _ _ w1); [ | | exact Hxs].
    + intros d zs z v z' v' Hz. apply Hstep. right. exact Hz.
    + apply (Hstep done ys x w); [left; reflexivity | exact HI | exact Hx].
Qed.

(** *** What the walk of the source yields *)

Lemma at_prefix_dir (S : node) (p rest : path) :
  at_ S (p ++ rest) <> Absent -> rest <> [] -> at_ S p = IsDir.
Proof.
  rewrite at_app. unfold at_ at 2.
  destruct (lookup S p) as [[m d | es] | ]; cbn; intros Hq Hr.
  - destruct rest; [contradiction | ]. exfalso. apply Hq. reflexivity.
  - reflexivity.
  - contradiction.
Qed.

(** Every triple the walk yields names a directory of the tree, and the
    files it lists are files of that directory. *)
Lemma walk_topdown_sound (S : node) : forall (root : path) (y : yielded),
  wf S = true -> In y (walk_topdown root S) ->
  exists rest,
    fst (fst y) = root ++ rest
    /\ at_ S rest = IsDir
    /\ forall file, In file (snd y) ->
         exists m d, at_ S (rest ++ [file]) = IsFile m d.
Proof.
  induction S as [m d | es IH] using node_induction; intros root y Hw Hin.
  - contradiction.
  - rewrite walk_topdown_dir in Hin. rewrite wf_dir in Hw.
    apply andb_prop in Hw. destruct Hw as [Hfresh Hall].
    apply fresh_names_NoDup in Hfresh. destruct Hin as [<- | Hin].
    + exists []. cbn [fst snd]. rewrite app_nil_r. split; [reflexivity | ].
      split; [reflexivity | ]. intros file Hf.
      destruct (file_names_assoc _ _ Hfresh Hf) as (m & d & Ea).
      exists m, d. cbn [app]. rewrite at_dir_cons, Ea. reflexivity.
    + apply in_flat_map in Hin. destruct Hin as ([name c] & Hc & Hin).
      cbn [fst snd] in Hin. rewrite Forall_forall in IH.
      unfold all_wf in Hall. rewrite forallb_forall in Hall.
      destruct (IH _ Hc (root ++ [name]) y (Hall _ Hc) Hin)
        as (rest & Ey & Hd & Hfiles).
      exists (name :: rest). rewrite Ey, <- app_assoc. split; [reflexivity | ].
      rewrite at_dir_cons, (In_assoc _ _ _ Hfresh Hc).
      split; [exact Hd | ]. intros file Hf. cbn [app].
      rewrite at_dir_cons, (In_assoc _ _ _ Hfresh Hc). exact (Hfiles file Hf).
Qed.

(** *** The planner, file by file *)

Definition task_of (q : path) : fpath * fpath := ((Source, q), (Replica, q)).

(** The replica has the source file at [q]: a file of the same
    modification time and size and, where the pass compares digests, of the
    same digest. *)
Definition in_sync {H : Xxhash} (strict : bool) (w : world) (q : path)
  : Prop :=
  exists m d d',
    at_ (src w) q = IsFile m d
    /\ at_ (rep w) q = IsFile m d'
    /\ List.length d' = List.length d
    /\ (strict = true -> digest_of 4096 d' = digest_of 4096 d).

Definition unchanged_stat (a b : stat_result) : bool :=
  negb (negb (st_size a =? st_size b) || negb (st_mtime a =? st_mtime b)).

Lemma modified_check_file (w : world) (q : path) m d :
  at_ (src w) q = IsFile m d ->
  Extended.modified_check (Source, q) (Replica, q) w
  = (Ok match lookup (rep w) q with
        | None => false
        | Some n =>
            unchanged_stat (mkStat (Z.of_nat (List.length d)) m)
              (entry_stat w (Replica, q) n)
        end, w).
Proof.
  intros Hs. apply at_IsFile in Hs.
  unfold Extended.modified_check, os_path_exists, os_stat, bind, ret,
    unchanged_stat.
  cbn [fst snd tree].
  destruct (lookup (rep w) q) as [[m' d' | es] | ] eqn:Hr;
    cbn [negb entry_stat fst snd]; try reflexivity;
    rewrite Hs, Hr; cbn [st_size st_mtime];
    destruct (negb _ || negb _); reflexivity.
Qed.

Lemma unchanged_stat_file m (d : list byte) m' (d' : list byte) :
  unchanged_stat (mkStat (Z.of_nat (List.length d)) m)
    (mkStat (Z.of_nat (List.length d')) m') = true ->
  m' = m /\ List.length d' = List.length d.
Proof.
  unfold unchanged_stat. cbn. rewrite negb_true_iff, orb_false_iff,
    !negb_false_iff, !Z.eqb_eq. lia.
Qed.

Lemma calculate_xxhash_Ok {H : Xxhash} (f : fpath) (w : world) h w' :
  calculate_xxhash f w = (Ok h, w') ->
  src w' = src w /\ rep w' = rep w
  /\ exists m d, node_at w f = Some (File m d) /\ h = digest_of 4096 d.
Proof.
  intros Hrun. pose proof (same_trees_calculate_xxhash f w) as [Es Er].
  rewrite Hrun in Es, Er. cbn [snd] in Es, Er. split; [exact Es | ].
  split; [exact Er | ]. revert Hrun.
  unfold calculate_xxhash, node_at. run_m.
  assert (Ht : tree (fst f) (set_trace (trace w ++ [EvXxhash f]) w)
               = tree (fst f) w) by (destruct (fst f); reflexivity).
  rewrite Ht. destruct (lookup _ _) as [[m d | es] | ]; try discriminate.
  destruct (next_fault _) as [[flt | e | ] w1]; try discriminate.
  destruct flt; intros [= <- <-]; eauto.
Qed.

(** A source file the planner has looked at is either queued or already in
    the replica. *)
Lemma sync_file_settles {H : Xxhash} (strict : bool) (w : world) (q : path)
    m d tasks tasks' w' :
  at_ (src w) q = IsFile m d ->
  at_ (rep w) q <> IsDir ->
  Extended.sync_file strict (Source, q) (Replica, q) tasks w = (Ok tasks', w') ->
  src w' = src w /\ rep w' = rep w
  /\ ((tasks' = tasks /\ in_sync strict w q)
      \/ tasks' = tasks ++ [task_of q]).
Proof.
  intros Hs Hnd Hrun.
  pose proof (same_trees_extended_sync_file strict (Source, q) (Replica, q)
                tasks w) as [Es Er].
  rewrite Hrun in Es, Er. cbn [snd] in Es, Er.
  split; [exact Es | ]. split; [exact Er | ].
  assert (Hmeta : forall n, lookup (rep w) q = Some n ->
            unchanged_stat (mkStat (Z.of_nat (List.length d)) m)
              (entry_stat w (Replica, q) n) = true ->
            exists d', at_ (rep w) q = IsFile m d'
                       /\ List.length d' = List.length d).
  { intros [m' d' | es] Hl Hu.
    - cbn [entry_stat] in Hu. apply unchanged_stat_file in Hu.
      destruct Hu as [-> Hlen]. exists d'. split; [ | exact Hlen].
      apply at_IsFile. exact Hl.
    - exfalso. apply Hnd. apply at_IsDir. eauto. }
  unfold Extended.sync_file in Hrun. destruct strict.
  - apply bind_Ok in Hrun. destruct Hrun as (u & w1 & Hm & Hrun).
    rewrite (modified_check_file w q m d Hs) in Hm. injection Hm as <- <-.
    destruct (lookup (rep w) q) as [n | ] eqn:Hl; cbn [negb] in Hrun.
    2:{ apply ret_Ok in Hrun. right. apply Hrun. }
    destruct (unchanged_stat _ _) eqn:Hu; cbn [negb] in Hrun.
    2:{ apply ret_Ok in Hrun. right. apply Hrun. }
    destruct (Hmeta n eq_refl Hu) as (d' & Hr & Hlen).
    apply bind_Ok in Hrun. destruct Hrun as (sh & w1 & Hsh & Hrun).
    apply bind_Ok in Hrun. destruct Hrun as (rh & w2 & Hrh & Hrun).
    apply calculate_xxhash_Ok in Hsh.
    destruct Hsh as (Es1 & Er1 & ms & ds & Hns & ->).
    apply calculate_xxhash_Ok in Hrh.
    destruct Hrh as (Es2 & Er2 & mr & dr & Hnr & ->).
    unfold node_at in Hns, Hnr. cbn [fst snd tree] in Hns, Hnr.
    rewrite Er1 in Hnr. apply at_IsFile in Hs, Hr.
    rewrite Hs in Hns. rewrite Hr in Hnr.
    injection Hns as <- <-. injection Hnr as <- <-.
    destruct (String.eqb _ _) eqn:E; cbn [negb] in Hrun;
      apply ret_Ok in Hrun; destruct Hrun as [-> _]; [ | right; reflexivity].
    left. split; [reflexivity | ]. exists m, d, d'.
    apply String.eqb_eq in E. rewrite <- !at_IsFile in *. auto.
  - apply bind_Ok in Hrun. destruct Hrun as (u & w1 & Hm & Hrun).
    rewrite (modified_check_file w q m d Hs) in Hm. injection Hm as <- <-.
    destruct (lookup (rep w) q) as [n | ] eqn:Hl; cbn [negb] in Hrun.
    2:{ apply ret_Ok in Hrun. right. apply Hrun. }
    destruct (unchanged_stat _ _) eqn:Hu; cbn [negb] in Hrun;
      apply ret_Ok in Hrun; destruct Hrun as [-> _]; [ | right; reflexivity].
    destruct (Hmeta n eq_refl Hu) as (d' & Hr & Hlen).
    left. split; [reflexivity | ]. exists m, d, d'.
    repeat split; try assumption. discriminate.
Qed.

(** *** The first pass: planning *)

Section FirstPass.
Context {H : Xxhash}.
Variable strict : bool.
Variable w0 : world.
Hypothesis wf_source : wf (src w0) = true.
Hypothesis kinds :
  forall q m d, at_ (src w0) q = IsFile m d -> at_ (rep w0) q <> IsDir.

(** The file [name] of the yielded directory [root] is in the replica or
    queued. *)
Definition file_settled (tasks : list (fpath * fpath)) (w : world)
    (root : path) (name : string) : Prop :=
  in_sync strict w (root ++ [name]) \/ In (task_of (root ++ [name])) tasks.

Definition settled (tasks : list (fpath * fpath)) (w : world) (y : yielded)
  : Prop :=
  at_ (rep w) (fst (fst y)) <> Absent
  /\ Forall (file_settled tasks w (fst (fst y))) (snd y).

(** What holds once the planner has handled the yielded triples [done]. *)
Definition planned (done : list yielded) (tasks : list (fpath * fpath))
    (w : world) : Prop :=
  src w = src w0
  /\ only_new_dirs w0 w
  /\ (forall q, at_ (rep w) q = IsDir ->
                at_ (rep w0) q = IsDir \/ at_ (src w0) q = IsDir)
  /\ (wf (rep w0) = true -> wf (rep w) = true)
  /\ Forall (settled tasks w) done
  /\ Forall (fun t => exists q m d,
                        t = task_of q /\ at_ (src w0) q = IsFile m d) tasks.

Lemma planned_start : planned [] [] w0.
Proof.
  split; [reflexivity | ]. split; [apply only_new_dirs_refl | ].
  split; [auto | ]. split; [auto | ]. split; constructor.
Qed.

Lemma in_sync_same (w w' : world) (q : path) :
  src w' = src w -> rep w' = rep w ->
  in_sync strict w q -> in_sync strict w' q.
Proof. unfold in_sync. intros -> ->. auto. Qed.

Lemma file_settled_same tasks (w w' : world) root name :
  src w' = src w -> rep w' = rep w ->
  file_settled tasks w root name -> file_settled tasks w' root name.
Proof.
  intros Es Er [Hs | Hq]; [left | right; exact Hq].
  exact (in_sync_same _ _ _ Es Er Hs).
Qed.

Lemma file_settled_more tasks t (w : world) root name :
  file_settled tasks w root name -> file_settled (tasks ++ [t]) w root name.
Proof.
  intros [Hs | Hq]; [left; exact Hs | right].
  apply in_or_app. left. exact Hq.
Qed.

Lemma settled_same tasks (w w' : world) y :
  src w' = src w -> rep w' = rep w -> settled tasks w y -> settled tasks w' y.
Proof.
  intros Es Er [Hr Hf]. split; [rewrite Er; exact Hr | ].
  eapply Forall_impl; [ | exact Hf].
  intros name. apply file_settled_same; assumption.
Qed.

Lemma settled_more tasks t (w : world) y :
  settled tasks w y -> settled (tasks ++ [t]) w y.
Proof.
  intros [Hr Hf]. split; [exact Hr | ].
  eapply Forall_impl; [ | exact Hf]. intros name. apply file_settled_more.
Qed.

Lemma planned_same done tasks (w w' : world) :
  src w' = src w -> rep w' = rep w ->
  planned done tasks w -> planned done tasks w'.
Proof.
  intros Es Er (P1 & P2 & P3 & P4 & P5 & P6).
  unfold planned, only_new_dirs in *. rewrite Es, Er.
  repeat split; try apply P2; auto.
  eapply Forall_impl; [ | exact P5]. intros y. apply settled_same; assumption.
Qed.

Lemma planned_more done tasks (w : world) (q : path) m d :
  at_ (src w0) q = IsFile m d ->
  planned done tasks w -> planned done (tasks ++ [task_of q]) w.
Proof.
  intros Hq (P1 & P2 & P3 & P4 & P5 & P6).
  repeat split; try apply P2; auto.
  - eapply Forall_impl; [ | exact P5]. intros y. apply settled_more.
  - apply Forall_app. split; [exact P6 | ].
    constructor; [ | constructor]. exists q, m, d. auto.
Qed.

(** New directories do not unsettle anything. *)
Lemma in_sync_grown (w w' : world) (q : path) :
  src w' = src w -> only_new_dirs w w' ->
  in_sync strict w q -> in_sync strict w' q.
Proof.
  intros Es [F _] (m & d & d' & Hs & Hr & Hlen & Hd).
  exists m, d, d'. rewrite Es. repeat split; try assumption.
  apply F. exact Hr.
Qed.

Lemma present_grown (w w' : world) (q : path) :
  only_new_dirs w w' -> at_ (rep w) q <> Absent -> at_ (rep w') q <> Absent.
Proof.
  intros [F D] Hq. destruct (at_ (rep w) q) as [ | | m d] eqn:E.
  - contradiction.
  - rewrite (D q E). discriminate.
  - apply F in E. rewrite E. discriminate.
Qed.

Lemma settled_grown tasks (w w' : world) y :
  src w' = src w -> only_new_dirs w w' ->
  settled tasks w y -> settled tasks w' y.
Proof.
  intros Es Hn [Hr Hf]. split; [exact (present_grown _ _ _ Hn Hr) | ].
  eapply Forall_impl; [ | exact Hf].
  intros name [Hs | Hq]; [left | right; exact Hq].
  exact (in_sync_grown _ _ _ Es Hn Hs).
Qed.

Lemma at_prefix_of_dir (S : node) (q p : path) :
  is_prefix q p = true -> at_ S p = IsDir -> at_ S q = IsDir.
Proof.
  intros Hp Hd. apply is_prefix_spec in Hp. destruct Hp as (r & ->).
  destruct r as [ | b r]; [rewrite app_nil_r in Hd; exact Hd | ].
  apply (at_prefix_dir S q (b :: r)); [rewrite Hd | ]; discriminate.
Qed.

(** Creating the directory of a yielded triple. *)
Lemma planned_makedirs done tasks (w w' : world) (root : path) :
  at_ (src w0) root = IsDir ->
  planned done tasks w ->
  os_makedirs (Replica, root) w = (Ok tt, w') ->
  planned done tasks w' /\ at_ (rep w') root = IsDir.
Proof.
  intros Hroot (P1 & P2 & P3 & P4 & P5 & P6) Hrun.
  destruct (os_makedirs_cases w root) as (Es & _ & _ & [[_ (e & E & _)] | [_ HM]]);
    rewrite Hrun in *; cbn [fst snd] in *; [discriminate | ].
  pose proof (at_mkdirs _ _ _ HM) as Hat.
  pose proof (only_new_dirs_os_makedirs root w) as Hn.
  rewrite Hrun in Hn. cbn [snd] in Hn.
  split.
  - split; [congruence | ].
    split; [exact (only_new_dirs_trans _ _ _ P2 Hn) | ].
    split.
    { intros q Hq. rewrite Hat in Hq. destruct (is_prefix q root) eqn:Ep.
      - right. exact (at_prefix_of_dir _ _ _ Ep Hroot).
      - apply P3. exact Hq. }
    split.
    { intros Hw. exact (wf_mkdirs _ _ _ (P4 Hw) HM). }
    split; [ | exact P6].
    eapply Forall_impl; [ | exact P5]. intros y.
    apply settled_grown; assumption.
  - rewrite Hat, is_prefix_refl. reflexivity.
Qed.

(** One turn of the planner's outer loop. *)
Lemma planned_sync_root done tasks (w : world) (y : yielded) tasks' w' :
  In y (walk_topdown [] (src w0)) ->
  planned done tasks w ->
  Extended.sync_root Source Replica strict tasks y w = (Ok tasks', w') ->
  planned (done ++ [y]) tasks' w'.
Proof.
  intros Hy HP Hrun.
  destruct (walk_topdown_sound _ [] y wf_source Hy) as (rest & Ey & Hroot & Hfiles).
  destruct y as [[root dirs] files]. cbn [fst snd app] in *. subst rest.
  unfold Extended.sync_root in Hrun.
  apply bind_Ok in Hrun. destruct Hrun as (e & w1 & He & Hrun).
  rewrite os_path_exists_spec in He. injection He as <- <-.
  apply bind_Ok in Hrun. destruct Hrun as ([] & w1 & Hmk & Hrun).
  assert (HP1 : planned done tasks w1 /\ at_ (rep w1) root <> Absent).
  { unfold node_at in Hmk. cbn [fst snd tree] in Hmk.
    destruct (lookup (rep w) root) as [n | ] eqn:Hl; cbn [negb] in Hmk.
    - apply ret_Ok in Hmk. destruct Hmk as [_ ->]. split; [exact HP | ].
      unfold at_. rewrite Hl. destruct n; discriminate.
    - destruct (planned_makedirs _ _ _ _ _ Hroot HP Hmk) as [HP1 Hd].
      split; [exact HP1 | rewrite Hd; discriminate]. }
  clear Hmk HP. destruct HP1 as [HP1 Hpresent].
  pose (I := fun (seen : list string) (ts : list (fpath * fpath)) (v : world) =>
               planned done ts v /\ at_ (rep v) root <> Absent
               /\ Forall (file_settled ts v root) seen).
  assert (HI : I ([] ++ files) tasks' w').
  { refine (for_fold_inv _ I files [] tasks w1 tasks' w' _ _ Hrun).
    - intros seen file ts v ts' v' Hfile (Q1 & Q2 & Q3) Hstep.
      unfold os_path_join in Hstep. cbn [fst snd] in Hstep.
      destruct (Hfiles file Hfile) as (m & d & Hsrc).
      assert (Hsv : src v = src w0) by apply Q1.
      assert (Hnd : at_ (rep v) (root ++ [file]) <> IsDir).
      { intros Hd. destruct Q1 as (_ & _ & Q13 & _).
        destruct (Q13 _ Hd) as [Hd0 | Hd0].
        - exact (kinds _ _ _ Hsrc Hd0).
        - rewrite Hsrc in Hd0. discriminate. }
      rewrite <- Hsv in Hsrc.
      destruct (sync_file_settles strict v _ m d ts ts' v' Hsrc Hnd Hstep)
        as (Es & Er & Hcase).
      rewrite Hsv in Hsrc.
      destruct Hcase as [[-> Hsync] | ->].
      + split; [exact (planned_same _ _ _ _ Es Er Q1) | ].
        split; [rewrite Er; exact Q2 | ].
        apply Forall_app. split.
        * eapply Forall_impl; [ | exact Q3]. intros name.
          apply file_settled_same; assumption.
        * constructor; [ | constructor]. left.
          exact (in_sync_same _ _ _ Es Er Hsync).
      + split.
        { apply (planned_more _ _ _ _ m d Hsrc).
          exact (planned_same _ _ _ _ Es Er Q1). }
        split; [rewrite Er; exact Q2 | ].
        apply Forall_app. split.
        * eapply Forall_impl; [ | exact Q3]. intros name Hn.
          apply file_settled_more. revert Hn.
          apply file_settled_same; assumption.
        * constructor; [ | constructor]. right.
          apply in_or_app. right. left. reflexivity.
    - split; [exact HP1 | ]. split; [exact Hpresent | constructor]. }
  destruct HI as ((P1 & P2 & P3 & P4 & P5 & P6) & Hr & Hf).
  repeat split; try apply P2; auto.
  apply Forall_app. split; [exact P5 | ].
  constructor; [ | constructor]. split; assumption.
Qed.

Lemma planned_sync_directory tasks (wp : world) :
  Extended.sync_directory Source Replica strict w0 = (Ok tasks, wp) ->
  planned (walk_topdown [] (src w0)) tasks wp.
Proof.
  unfold Extended.sync_directory. intros Hrun.
  apply bind_Ok in Hrun. destruct Hrun as (v & w1 & Hg & Hrun).
  injection Hg as <- <-. cbn [tree] in Hrun.
  refine (for_fold_inv _ planned _ [] [] w0 tasks wp _ _ Hrun).
  - intros done y ts v ts' v' Hy. apply planned_sync_root. exact Hy.
  - exact planned_start.
Qed.

End FirstPass.

(** *** The first pass: copying *)

Section CopyOne.
Context {H : Xxhash}.
Variable q : path.

(** A copy to the replica path [q], which is no directory, touches the
    replica at [q] only and leaves no directory there. *)
Definition copy_post (w w' : world) : Prop :=
  src w' = src w
  /\ (forall q', q' <> q -> at_ (rep w') q' = at_ (rep w) q')
  /\ at_ (rep w') q <> IsDir
  /\ (wf (rep w) = true -> wf (rep w') = true).

Lemma copy_post_same (w w' : world) :
  at_ (rep w) q <> IsDir -> src w' = src w -> rep w' = rep w ->
  copy_post w w'.
Proof. intros Hq Es Er. unfold copy_post. rewrite Es, Er. auto. Qed.

Lemma copy_post_trans (w1 w2 w3 : world) :
  copy_post w1 w2 -> copy_post w2 w3 -> copy_post w1 w3.
Proof.
  intros (S1 & O1 & D1 & W1) (S2 & O2 & D2 & W2).
  split; [congruence | ]. split; [ | auto].
  intros q' Hq'. rewrite (O2 q' Hq'). exact (O1 q' Hq').
Qed.

Lemma copy_post_then_same (w1 w2 w3 : world) :
  copy_post w1 w2 -> same_trees w2 w3 -> copy_post w1 w3.
Proof.
  intros HP [Es Er]. apply (copy_post_trans _ _ _ HP).
  apply copy_post_same; [apply HP | exact Es | exact Er].
Qed.

Lemma shutil_copy2_post (w : world) :
  at_ (rep w) q <> IsDir ->
  let res := shutil_copy2 (Source, q) (Replica, q) w in
  copy_post w (snd res)
  /\ (fst res = Ok tt ->
      forall m d, at_ (src w) q = IsFile m d ->
        exists d', at_ (rep (snd res)) q = IsFile m d'
                   /\ List.length d' = List.length d).
Proof.
  intros Hq res. subst res.
  pose proof (keeps_wf_shutil_copy2 (Source, q) q w) as Hwf.
  destruct (shutil_copy2_cases w (Source, q) q) as (Es & [[Er (e & E)] | Hc]).
  - split; [ | rewrite E; discriminate].
    split; [exact Es | ]. rewrite Er. auto.
  - destruct Hc as (dirp & name & es & mo & d & f & Ho & Ht & Hl & Hnd & HA & Hf).
    assert (Eq : q = dirp ++ [name]).
    { unfold copy_target in Ht. cbn [fst snd tree] in Ht.
      unfold at_ in Hq. destruct (lookup (rep w) q) as [[m0 d0 | es0] | ];
        try (injection Ht as <-; reflexivity).
      exfalso. apply Hq. reflexivity. }
    assert (exists m' d', f = File m' d') as (m' & d' & Ef).
    { destruct Hf as [(_ & d' & -> & _) | (_ & t & wr & ->)]; eauto. }
    subst f. pose proof (at_put_file _ _ _ _ _ _ _ Hl Hnd HA) as Hat.
    rewrite <- Eq in Hat. split.
    + split; [exact Es | ]. split.
      * intros q' Hq'. rewrite Hat. destruct (path_eqb q' q) eqn:E;
          [ | reflexivity].
        apply path_eqb_eq in E. contradiction.
      * split; [ | exact Hwf]. rewrite Hat.
        rewrite (proj2 (path_eqb_eq q q) eq_refl). discriminate.
    + intros Hok m d0 Hs. destruct Hf as [(_ & d'' & Ef & Hlen & _) | (E & _)];
        [ | rewrite E in Hok; discriminate].
      injection Ef as -> ->. apply at_IsFile in Hs. unfold node_at in Ho.
      cbn [fst snd tree] in Ho. rewrite Hs in Ho. injection Ho as <- <-.
      exists d''. split; [ | exact Hlen].
      rewrite Hat, (proj2 (path_eqb_eq q q) eq_refl). reflexivity.
Qed.

Lemma copy_and_hash_post (w : world) m d :
  at_ (rep w) q <> IsDir ->
  at_ (src w) q = IsFile m d ->
  let res := copy_and_hash (Source, q) (Replica, q) w in
  copy_post w (snd res)
  /\ forall sh rh, fst res = Ok (sh, rh) ->
       exists d', at_ (rep (snd res)) q = IsFile m d'
                  /\ List.length d' = List.length d
                  /\ sh = digest_of 4096 d /\ rh = digest_of 4096 d'.
Proof.
  intros Hq Hs res. subst res. unfold copy_and_hash, bind.
  destruct (shutil_copy2_post w Hq) as [HP Hok].
  destruct (shutil_copy2 (Source, q) (Replica, q) w) as [[[] | e | ] w1];
    cbn [fst snd] in *; try (split; [exact HP | discriminate]).
  destruct (Hok eq_refl m d Hs) as (d' & Hr & Hlen).
  pose proof (same_trees_calculate_xxhash (Source, q) w1) as T1.
  destruct (calculate_xxhash (Source, q) w1) as [[sh | e | ] w2] eqn:Hh1;
    cbn [fst snd] in *;
    try (split; [exact (copy_post_then_same _ _ _ HP T1) | discriminate]).
  pose proof (same_trees_calculate_xxhash (Replica, q) w2) as T2.
  pose proof (same_trees_trans _ _ _ T1 T2) as T12.
  destruct (calculate_xxhash (Replica, q) w2) as [[rh | e | ] w3] eqn:Hh2;
    cbn [fst snd] in *;
    try (split; [exact (copy_post_then_same _ _ _ HP T12) | discriminate]).
  unfold ret. cbn [fst snd].
  split; [exact (copy_post_then_same _ _ _ HP T12) | ].
  intros sh' rh' [= <- <-].
  apply calculate_xxhash_Ok in Hh1. destruct Hh1 as (Es1 & Er1 & ms & ds & Hn1 & ->).
  apply calculate_xxhash_Ok in Hh2. destruct Hh2 as (Es2 & Er2 & mr & dr & Hn2 & ->).
  unfold node_at in Hn1, Hn2. cbn [fst snd tree] in Hn1, Hn2.
  destruct HP as (Es & _). rewrite Es in Hn1. rewrite Er1 in Hn2.
  apply at_IsFile in Hs, Hr. rewrite Hs in Hn1. rewrite Hr in Hn2.
  injection Hn1 as <- <-. injection Hn2 as <- <-.
  exists d'. destruct T12 as [_ Er12]. rewrite Er12.
  split; [apply at_IsFile; exact Hr | auto].
Qed.

Lemma attempt_post (w : world) m d :
  at_ (rep w) q <> IsDir ->
  at_ (src w) q = IsFile m d ->
  let res := attempt (Source, q) (Replica, q) w in
  copy_post w (snd res)
  /\ (fst res = Ok true -> in_sync true (snd res) q).
Proof.
  intros Hq Hs res. subst res. unfold attempt, try_except, bind.
  destruct (copy_and_hash_post w m d Hq Hs) as [HP Hok].
  destruct (copy_and_hash (Source, q) (Replica, q) w) as [[[sh rh] | e | ] w1];
    cbn [fst snd] in *.
  - destruct (Hok sh rh eq_refl) as (d' & Hr & Hlen & -> & ->).
    destruct (String.eqb _ _) eqn:E.
    + unfold ret. cbn [fst snd]. split; [exact HP | ]. intros _.
      apply String.eqb_eq in E. exists m, d, d'.
      destruct HP as (Es & _). rewrite Es. auto.
    + run_m. split; [ | discriminate].
      apply (copy_post_then_same _ _ _ HP). split; reflexivity.
  - destruct (is_Exception e); run_m; (split; [ | discriminate]);
      [apply (copy_post_then_same _ _ _ HP); split; reflexivity | exact HP].
  - split; [exact HP | discriminate].
Qed.

Lemma retry_model_post (ok failed : message) (n : nat) : forall (w : world) m d,
  at_ (rep w) q <> IsDir ->
  at_ (src w) q = IsFile m d ->
  let res := retry_model (Source, q) (Replica, q) ok failed n w in
  copy_post w (snd res)
  /\ (fst res = failed \/ in_sync true (snd res) q).
Proof.
  induction n as [ | n IH]; intros w m d Hq Hs; cbn [retry_model].
  - cbn [fst snd]. split; [ | left; reflexivity].
    apply copy_post_same; auto.
  - destruct (attempt_post w m d Hq Hs) as [HP Hok].
    destruct (attempt (Source, q) (Replica, q) w) as [[[ | ] | e | ] w1];
      cbn [fst snd] in *.
    + split; [exact HP | right; exact (Hok eq_refl)].
    + assert (Hs1 : at_ (src w1) q = IsFile m d)
        by (destruct HP as (-> & _); exact Hs).
      destruct (IH w1 m d (proj1 (proj2 (proj2 HP))) Hs1) as [HP1 Hout].
      split; [exact (copy_post_trans _ _ _ HP HP1) | exact Hout].
    + assert (Hs1 : at_ (src w1) q = IsFile m d)
        by (destruct HP as (-> & _); exact Hs).
      destruct (IH w1 m d (proj1 (proj2 (proj2 HP))) Hs1) as [HP1 Hout].
      split; [exact (copy_post_trans _ _ _ HP HP1) | exact Hout].
    + assert (Hs1 : at_ (src w1) q = IsFile m d)
        by (destruct HP as (-> & _); exact Hs).
      destruct (IH w1 m d (proj1 (proj2 (proj2 HP))) Hs1) as [HP1 Hout].
      split; [exact (copy_post_trans _ _ _ HP HP1) | exact Hout].
Qed.

Definition copy_failed (e : event) : bool :=
  match e with
  | EvInfo (MsgFailed _ _) => true
  | _ => false
  end.

(** One task of the copy phase: the replica changes at [q] only, and unless
    the task reports failure the file is there and verified. *)
Lemma copy_validate_post (w : world) m d msg w' :
  at_ (rep w) q <> IsDir ->
  at_ (src w) q = IsFile m d ->
  Extended.copy_validate (Source, q) (Replica, q) w = (Ok msg, w') ->
  copy_post w w'
  /\ (copy_failed (EvInfo msg) = false -> in_sync true w' q).
Proof.
  intros Hq Hs. rewrite extended_copy_validate_model.
  destruct (retry_model_post (MsgCopied (Source, q) (Replica, q))
              (MsgFailed (Source, q) max_retries) 4 w m d Hq Hs) as [HP Hout].
  destruct (retry_model _ _ _ _ _ _) as [msg0 w0]. cbn [fst snd] in *.
  intros [= <- <-]. split; [exact HP | ].
  intros Hnf. destruct Hout as [E | Hsync]; [ | exact Hsync].
  rewrite E in Hnf. discriminate.
Qed.

End CopyOne.

Lemma in_sync_strict {H : Xxhash} (strict : bool) (w : world) (q : path) :
  in_sync true w q -> in_sync strict w q.
Proof.
  intros (m & d & d' & Hs & Hr & Hlen & Hd). exists m, d, d'.
  repeat split; try assumption. intros _. apply Hd. reflexivity.
Qed.

Lemma task_of_inj (q q' : path) : task_of q = task_of q' -> q = q'.
Proof. intros [= ->]. reflexivity. Qed.

Lemma for_each_log_info (msgs : list message) : forall (w : world),
  for_each msgs (fun result => log_info result) w
  = (Ok tt, set_trace (trace w ++ map EvInfo msgs) w).
Proof.
  induction msgs as [ | msg msgs IH]; intros w; cbn [for_each map].
  - rewrite app_nil_r. destruct w; reflexivity.
  - unfold bind, log_info at 1, emit. rewrite IH. cbn [trace set_trace].
    rewrite <- app_assoc. reflexivity.
Qed.

Section CopyPhase.
Context {H : Xxhash} {host : Host}.
Variable strict : bool.
Variable wp : world.
Variable tasks : list (fpath * fpath).
Hypothesis tasks_form :
  Forall (fun t => exists q m d,
                     t = task_of q /\ at_ (src wp) q = IsFile m d) tasks.
Hypothesis kinds :
  forall q m d, at_ (src wp) q = IsFile m d -> at_ (rep wp) q <> IsDir.

(** What holds once the tasks [done] have returned the messages [msgs]. *)
Definition copied (done : list (fpath * fpath)) (msgs : list message)
    (w : world) : Prop :=
  src w = src wp
  /\ (wf (rep wp) = true -> wf (rep w) = true)
  /\ (forall q, (forall m d, at_ (src wp) q <> IsFile m d) ->
                at_ (rep w) q = at_ (rep wp) q)
  /\ (forall q m d, at_ (src wp) q = IsFile m d -> at_ (rep w) q <> IsDir)
  /\ (Forall (fun msg => copy_failed (EvInfo msg) = false) msgs ->
      forall q, in_sync strict wp q \/ In (task_of q) done ->
                in_sync strict w q).

Lemma copied_start : copied [] [] wp.
Proof.
  repeat split; auto. intros _ q [Hq | []]. exact Hq.
Qed.

Lemma copied_same done msgs (w w' : world) :
  src w' = src w -> rep w' = rep w ->
  copied done msgs w -> copied done msgs w'.
Proof.
  intros Es Er (C1 & C2 & C3 & C4 & C5). unfold copied.
  rewrite Es, Er. repeat split; auto.
  intros Hm q Hq. apply (in_sync_same strict w w' q Es Er). auto.
Qed.

Lemma copied_step done msgs (w : world) t msg w' :
  In t tasks ->
  copied done msgs w ->
  Extended.copy_validate (fst t) (snd t) w = (Ok msg, w') ->
  copied (done ++ [t]) (msgs ++ [msg]) w'.
Proof.
  intros Ht (C1 & C2 & C3 & C4 & C5) Hrun.
  rewrite Forall_forall in tasks_form.
  destruct (tasks_form t Ht) as (q & m & d & -> & Hs). cbn [fst snd task_of] in Hrun.
  assert (Hsw : at_ (src w) q = IsFile m d) by (rewrite C1; exact Hs).
  destruct (copy_validate_post q w m d msg w' (C4 q m d Hs) Hsw Hrun)
    as ((Es & Ho & Hd & Hw) & Hok).
  split; [congruence | ]. split; [auto | ]. split.
  { intros q' Hq'. rewrite Ho; [apply C3, Hq' | ].
    intros ->. exact (Hq' m d Hs). }
  split.
  { intros q' m' d' Hs'. destruct (list_eq_dec string_dec q' q) as [-> | Hne];
      [exact Hd | ].
    rewrite (Ho q' Hne). exact (C4 q' m' d' Hs'). }
  intros Hm q' Hq'. apply Forall_app in Hm. destruct Hm as [Hm Hmsg].
  inversion Hmsg as [ | ? ? Hmsg1 _]; subst.
  destruct (list_eq_dec string_dec q' q) as [-> | Hne].
  - apply in_sync_strict. exact (Hok Hmsg1).
  - assert (Hbefore : in_sync strict w q').
    { apply (C5 Hm). destruct Hq' as [Hq' | Hq']; [left; exact Hq' | right].
      apply in_app_or in Hq'. destruct Hq' as [Hq' | [E | []]]; [exact Hq' | ].
      apply task_of_inj in E. congruence. }
    destruct Hbefore as (m' & d' & d'' & B1 & B2 & B3 & B4).
    exists m', d', d''. rewrite Es, (Ho q' Hne). auto.
Qed.

(** The copy phase as a whole: every message it got back is in the log. *)
Lemma copy_tasks_post (multi : bool) (procnum : Z) (wc : world) :
  Extended.copy_tasks multi procnum tasks wp = (Ok tt, wc) ->
  exists msgs t,
    copied tasks msgs wc
    /\ trace wc = trace wp ++ t
    /\ Forall (fun msg => In (EvInfo msg) t) msgs
    /\ (multi = true -> pool_accepts (sys_platform wp) procnum = true).
Proof.
  unfold Extended.copy_tasks. destruct multi.
  - intros Hrun. apply bind_Ok in Hrun. destruct Hrun as ([] & wa & Hpool & Hrun).
    rewrite process_pool_spec in Hpool.
    destruct (pool_accepts (sys_platform wp) procnum) eqn:Epos;
      [ | discriminate].
    injection Hpool as <-.
    apply bind_Ok in Hrun. destruct Hrun as (futures & wb & Hmap & Hlog).
    rewrite for_each_log_info in Hlog. injection Hlog as <-.
    pose (I := fun (done : list (fpath * fpath)) (msgs : list message)
                   (w : world) =>
                 copied done msgs w /\ exists t, trace w = trace wp ++ t).
    assert (HI : I ([] ++ tasks) ([] ++ futures) wb).
    { refine (for_map_inv _ I tasks [] [] _ futures wb _ _ Hmap).
      - intros done msgs [s d] w msg w' Ht [HC (t & Et)] Hone.
        split; [exact (copied_step _ _ _ (s, d) _ _ Ht HC Hone) | ].
        destruct (later_copy_validate s d w) as (ta & Eta & _).
        rewrite Hone in Eta. cbn [snd] in Eta. exists (t ++ ta).
        rewrite Eta, Et, app_assoc. reflexivity.
      - split.
        + apply (copied_same _ _ wp); [reflexivity | reflexivity | ].
          exact copied_start.
        + exists [EvPool procnum]. reflexivity. }
    destruct HI as [HC (t & Et)]. cbn [app] in HC.
    exists futures, (t ++ map EvInfo futures). split.
    { apply (copied_same _ _ wb); [reflexivity | reflexivity | exact HC]. }
    split; [cbn [trace set_trace]; rewrite Et, app_assoc; reflexivity | ].
    split; [ | intros _; reflexivity].
    apply Forall_forall. intros msg Hmsg. apply in_or_app. right.
    apply in_map. exact Hmsg.
  - intros Hrun.
    pose (J := fun (done : list (fpath * fpath)) (w : world) =>
                 exists msgs t,
                   copied done msgs w /\ trace w = trace wp ++ t
                   /\ Forall (fun msg => In (EvInfo msg) t) msgs).
    assert (HJ : J ([] ++ tasks) wc).
    { refine (for_each_inv _ J tasks [] wp wc _ _ Hrun).
      - intros done [s d] w w' Ht (msgs & t & HC & Et & Hin) Hone.
        apply bind_Ok in Hone. destruct Hone as (msg & w1 & Hone & Hlog).
        unfold log_info, emit in Hlog. injection Hlog as <-.
        destruct (later_copy_validate s d w) as (ta & Eta & _).
        rewrite Hone in Eta. cbn [snd] in Eta.
        exists (msgs ++ [msg]), (t ++ ta ++ [EvInfo msg]). split.
        { apply (copied_same _ _ w1); [reflexivity | reflexivity | ].
          exact (copied_step _ _ _ (s, d) _ _ Ht HC Hone). }
        split.
        { cbn [trace set_trace]. rewrite Eta, Et, <- !app_assoc. reflexivity. }
        apply Forall_app. split.
        * eapply Forall_impl; [ | exact Hin]. intros a Ha.
          apply in_or_app. left. exact Ha.
        * constructor; [ | constructor]. apply in_or_app. right.
          apply in_or_app. right. left. reflexivity.
      - exists [], []. split; [exact copied_start | ].
        rewrite app_nil_r. split; [reflexivity | constructor]. }
    destruct HJ as (msgs & t & HC & Et & Hin). exists msgs, t.
    split; [exact HC | ]. split; [exact Et | ]. split; [exact Hin | discriminate].
Qed.

End CopyPhase.

(** *** A pass over a replica that mirrors the source *)

(** The events of a pass that neither copies nor deletes. *)
Definition is_idle_event (e : event) : bool :=
  match e with
  | EvXxhash _ | EvPool _ => true
  | _ => false
  end.

(** No pending fault makes a digest read fail. *)
Definition reads_ok (w : world) : bool := forallb lets_read (faults w).

(** Running [m] in [w] changes no tree and records no copy and no deletion;
    it returns [a], unless, comparing digests, it is stopped by a read that
    fails. *)
Definition idles (strict : bool) {A} (m : M A) (a : A) (w : world) : Prop :=
  same_trees w (snd (m w))
  /\ adds_b is_idle_event w (snd (m w))
  /\ (reads_ok w = true -> reads_ok (snd (m w)) = true)
  /\ (fst (m w) = Ok a
      \/ (strict = true /\ reads_ok w = false /\ fst (m w) = Raise OSError)).

Section Idle.
Context {H : Xxhash}.
Variable strict : bool.

Lemma idles_ret {A} (a : A) (w : world) : idles strict (ret a) a w.
Proof.
  split; [apply same_trees_refl | ]. split; [apply adds_b_refl | ].
  split; [auto | left; reflexivity].
Qed.

Lemma idles_bind {A B} (m : M A) (k : A -> M B) (a : A) (b : B) (w : world) :
  idles strict m a w ->
  (forall w', m w = (Ok a, w') -> idles strict (k a) b w') ->
  idles strict (bind m k) b w.
Proof.
  intros (T & E & F & Hout) Hk. unfold idles, bind in *.
  destruct (m w) as [[a' | e | ] w1]; cbn [fst snd] in *.
  - destruct Hout as [[= ->] | (_ & _ & Hx)]; [ | discriminate].
    destruct (Hk w1 eq_refl) as (T' & E' & F' & Hout').
    split; [exact (same_trees_trans _ _ _ T T') | ].
    split; [exact (adds_b_trans _ _ _ _ E E') | ].
    split; [auto | ].
    destruct Hout' as [Hok | (Hs & Hr & Hx)]; [left; exact Hok | right].
    split; [exact Hs | ]. split; [ | exact Hx].
    destruct (reads_ok w); [ | reflexivity]. rewrite (F eq_refl) in Hr.
    discriminate.
  - split; [exact T | ]. split; [exact E | ]. split; [exact F | ].
    destruct Hout as [Hx | (Hs & Hr & [= ->])]; [discriminate | right; auto].
  - split; [exact T | ]. split; [exact E | ]. split; [exact F | ].
    destruct Hout as [Hx | (_ & _ & Hx)]; discriminate.
Qed.

Lemma idles_if (b : bool) {A} (m1 m2 : M A) (a : A) (w : world) :
  (b = true -> idles strict m1 a w) ->
  (b = false -> idles strict m2 a w) ->
  idles strict (if b then m1 else m2) a w.
Proof. destruct b; auto. Qed.

(** A loop whose body returns its accumulator unchanged. *)
Lemma idles_for_fold {A S} (body : S -> A -> M S) (acc : S)
    (P : world -> Prop) :
  (forall w w', P w -> same_trees w w' -> P w') ->
  forall xs w,
    P w ->
    (forall x w', In x xs -> P w' -> idles strict (body acc x) acc w') ->
    idles strict (for_fold xs acc body) acc w.
Proof.
  intros HP xs. induction xs as [ | x xs IH]; intros w Hw Hbody;
    cbn [for_fold].
  - apply idles_ret.
  - apply (idles_bind _ _ acc).
    + apply Hbody; [left; reflexivity | exact Hw].
    + intros w' Hrun. apply IH.
      * apply (HP w); [exact Hw | ].
        destruct (Hbody x w (or_introl eq_refl) Hw) as (T & _).
        rewrite Hrun in T. exact T.
      * intros y v Hy. apply Hbody. right. exact Hy.
Qed.

Lemma idles_calculate_xxhash (f : fpath) (w : world) m d :
  strict = true ->
  node_at w f = Some (File m d) ->
  idles strict (calculate_xxhash f) (digest_of 4096 d) w.
Proof.
  intros Hst Hf. unfold idles.
  split; [apply same_trees_calculate_xxhash | ].
  split; [apply adds_b_calculate_xxhash; reflexivity | ].
  unfold calculate_xxhash, node_at, reads_ok in *. run_m.
  assert (Ht : tree (fst f) (set_trace (trace w ++ [EvXxhash f]) w)
               = tree (fst f) w) by (destruct (fst f); reflexivity).
  rewrite Ht, Hf. unfold next_fault. cbn [faults set_trace].
  destruct (faults w) as [ | flt fs] eqn:F;
    cbn [fst snd faults set_trace forallb]; rewrite ?F.
  - split; [auto | left; reflexivity].
  - destruct flt; cbn [fst snd faults set_faults set_trace lets_read andb forallb];
      (split; [auto | ]); try (left; reflexivity);
      try (intros; discriminate); right; auto.
Qed.

(** The planner finds a file that is in the replica unchanged. *)
Lemma idles_sync_file (w : world) (q : path) tasks :
  in_sync strict w q ->
  idles strict (Extended.sync_file strict (Source, q) (Replica, q) tasks)
    tasks w.
Proof.
  intros (m & d & d' & Hs & Hr & Hlen & Hd).
  assert (Hm : Extended.modified_check (Source, q) (Replica, q) w = (Ok true, w)).
  { rewrite (modified_check_file w q m d Hs). apply at_IsFile in Hr.
    rewrite Hr. cbn [entry_stat]. unfold unchanged_stat. cbn [st_size st_mtime].
    rewrite Hlen, !Z.eqb_refl. reflexivity. }
  assert (Hmi : idles strict (Extended.modified_check (Source, q) (Replica, q))
                  true w).
  { unfold idles. rewrite Hm. cbn [fst snd].
    split; [apply same_trees_refl | ]. split; [apply adds_b_refl | ].
    split; [auto | left; reflexivity]. }
  unfold Extended.sync_file.
  apply idles_if; intros Hst.
  - apply (idles_bind _ _ true); [exact Hmi | ].
    intros w' Hrun. rewrite Hm in Hrun. injection Hrun as <-. cbn [negb].
    apply at_IsFile in Hs, Hr.
    apply (idles_bind _ _ (digest_of 4096 d)).
    { apply (idles_calculate_xxhash _ _ m d Hst). exact Hs. }
    intros w1 Hh1. apply calculate_xxhash_Ok in Hh1.
    destruct Hh1 as (_ & Er1 & _).
    apply (idles_bind _ _ (digest_of 4096 d')).
    { apply (idles_calculate_xxhash _ _ m d' Hst).
      unfold node_at. cbn [fst snd tree]. rewrite Er1. exact Hr. }
    intros w2 _. rewrite (Hd Hst), String.eqb_refl. cbn [negb].
    apply idles_ret.
  - apply (idles_bind _ _ true); [exact Hmi | ].
    intros w' _. cbn [negb]. apply idles_ret.
Qed.

Lemma settled_nil_same (w w' : world) y :
  same_trees w w' -> settled strict [] w y -> settled strict [] w' y.
Proof. intros [Es Er]. apply settled_same; assumption. Qed.

(** One turn of the planner's outer loop, for a directory that is there
    with all its files. *)
Lemma idles_sync_root (w : world) (y : yielded) tasks :
  settled strict [] w y ->
  idles strict (Extended.sync_root Source Replica strict tasks y) tasks w.
Proof.
  destruct y as [[root dirs] files]. intros [Hroot Hfiles].
  cbn [fst snd] in *. unfold Extended.sync_root.
  apply (idles_bind _ _ true).
  { unfold idles. rewrite os_path_exists_spec. unfold node_at.
    cbn [fst snd tree]. unfold at_ in Hroot.
    destruct (lookup (rep w) root); [ | contradiction].
    split; [apply same_trees_refl | ]. split; [apply adds_b_refl | ].
    split; [auto | left; reflexivity]. }
  intros w' Hex. rewrite os_path_exists_spec in Hex. injection Hex as _ <-.
  cbn [negb]. apply (idles_bind _ _ tt); [apply idles_ret | ].
  intros w' Hret. injection Hret as <-.
  apply (idles_for_fold _ _
           (fun v => Forall (file_settled strict [] v root) files)).
  - intros v v' Hv [Es Er]. eapply Forall_impl; [ | exact Hv].
    intros name. apply file_settled_same; assumption.
  - exact Hfiles.
  - intros file v Hfile Hv. rewrite Forall_forall in Hv.
    destruct (Hv file Hfile) as [Hsync | []].
    unfold os_path_join. cbn [fst snd]. apply idles_sync_file. exact Hsync.
Qed.

Lemma idles_sync_directory (w : world) :
  Forall (settled strict [] w) (walk_topdown [] (src w)) ->
  idles strict (Extended.sync_directory Source Replica strict) [] w.
Proof.
  intros Hall. unfold Extended.sync_directory.
  apply (idles_bind _ _ w).
  { unfold idles, get. cbn [fst snd].
    split; [apply same_trees_refl | ]. split; [apply adds_b_refl | ].
    split; [auto | left; reflexivity]. }
  intros w' Hg. injection Hg as <-. cbn [tree].
  apply (idles_for_fold _ _
           (fun v => Forall (settled strict [] v) (walk_topdown [] (src w)))).
  - intros v v' Hv T. eapply Forall_impl; [ | exact Hv].
    intros y. apply settled_nil_same. exact T.
  - exact Hall.
  - intros y v Hy Hv. rewrite Forall_forall in Hv.
    apply idles_sync_root. exact (Hv y Hy).
Qed.

End Idle.

(** *** Reconciliation with nothing stale *)

Lemma flat_map_nil {A B} (f : A -> list B) (l : list A) :
  (forall x, In x l -> f x = []) -> flat_map f l = [].
Proof.
  induction l as [ | a l IH]; intros Hall; cbn [flat_map]; [reflexivity | ].
  rewrite (Hall a (or_introl eq_refl)), IH; [reflexivity | ].
  intros x Hx. apply Hall. right. exact Hx.
Qed.

(** Where every entry of the replica has its counterpart in the source,
    reconciliation has nothing to delete. *)
Lemma removal_events_none (r : node) : forall s p,
  wf r = true ->
  (forall q, q <> [] -> at_ r q <> Absent -> source_has s q = true) ->
  removal_events s p r = [].
Proof.
  induction r as [m d | es IH] using node_induction; intros s p Hw Hall.
  - reflexivity.
  - rewrite removal_events_dir. rewrite wf_dir in Hw.
    apply andb_prop in Hw. destruct Hw as [Hfresh Hwf].
    apply fresh_names_NoDup in Hfresh.
    assert (Hnames : forall name c, assoc name es = Some c -> stale s name = false).
    { intros name c Ha.
      assert (Hs : source_has s [name] = true).
      { apply Hall; [discriminate | ]. rewrite at_dir_cons, Ha.
        destruct c; discriminate. }
      rewrite source_has_single in Hs. apply negb_true_iff in Hs. exact Hs. }
    unfold children_events. rewrite !flat_map_nil; [reflexivity | | | ].
    + intros name Hn. destruct (dir_names_assoc _ _ Hfresh Hn) as (es' & Ha).
      rewrite (Hnames _ _ Ha). reflexivity.
    + intros name Hn. destruct (file_names_assoc _ _ Hfresh Hn) as (m & d & Ha).
      rewrite (Hnames _ _ Ha). reflexivity.
    + intros [name c] Hc. cbn [fst snd]. rewrite Forall_forall in IH.
      unfold all_wf in Hwf. rewrite forallb_forall in Hwf.
      apply (IH _ Hc); [exact (Hwf _ Hc) | ].
      intros q Hq Hat. rewrite <- source_has_cons. apply Hall; [discriminate | ].
      rewrite at_dir_cons, (In_assoc _ _ _ Hfresh Hc). exact Hat.
Qed.

(** The replica mirrors the source: every directory of the source has its
    place in the replica, every file of the source is in the replica, and
    the replica has nothing else. *)
Definition mirrored {H : Xxhash} (strict : bool) (w : world) : Prop :=
  Forall (settled strict [] w) (walk_topdown [] (src w))
  /\ (forall q, q <> [] -> at_ (rep w) q <> Absent -> at_ (src w) q <> Absent)
  /\ wf (rep w) = true.

Lemma mirrored_same {H : Xxhash} (strict : bool) (w w' : world) :
  same_trees w w' -> mirrored strict w -> mirrored strict w'.
Proof.
  intros [Es Er] (M1 & M2 & M3). unfold mirrored. rewrite Es, Er.
  split; [ | auto]. eapply Forall_impl; [ | exact M1].
  intros y. apply settled_same; assumption.
Qed.

(** Reconciling a replica that mirrors the source deletes nothing. *)
Lemma cleanup_replica_mirrored {H : Xxhash} (strict : bool) (w : world) :
  mirrored strict w ->
  exists w',
    Extended.cleanup_replica Source Replica w = (Ok tt, w')
    /\ src w' = src w
    /\ faults w' = faults w
    /\ trace w' = trace w
    /\ forall q, at_ (rep w') q = at_ (rep w) q.
Proof.
  intros (_ & M2 & M3).
  destruct (cleanup_replica_spec w M3) as (w' & Hrun & (Es & Ef & Et) & Hat & _).
  exists w'. split; [exact Hrun | ]. split; [exact Es | ]. split; [exact Ef | ].
  assert (Hstale : forall q, q <> [] -> at_ (rep w) q <> Absent ->
                             source_has (Some (src w)) q = true).
  { intros q Hq Hr. apply source_has_at. exact (M2 q Hq Hr). }
  split.
  - rewrite Et, (removal_events_none _ _ _ M3 Hstale). apply app_nil_r.
  - intros q. rewrite Hat, at_prune. destruct q as [ | b q]; [reflexivity | ].
    destruct (source_has (Some (src w)) (b :: q)) eqn:E; [reflexivity | ].
    destruct (at_ (rep w) (b :: q)) eqn:Er; try reflexivity;
      rewrite Hstale in E; try discriminate; rewrite Er; discriminate.
Qed.

(** *** The first pass as a whole *)

(** The events a pass from [w] to [w'] has added. *)
Definition since (w w' : world) : list event :=
  skipn (List.length (trace w)) (trace w').

Lemma existsb_false_In {A} (f : A -> bool) (l : list A) (x : A) :
  existsb f l = false -> In x l -> f x = false.
Proof.
  intros Hl Hx. destruct (f x) eqn:E; [ | reflexivity].
  rewrite <- Hl. symmetry. apply existsb_exists. exists x. auto.
Qed.

(** After a pass that returned and reported no failed copy, the replica
    mirrors the source, provided no directory of the replica stood where
    the source has a file. *)
Lemma first_pass_mirrors {H : Xxhash} (strict multi : bool) (procnum : Z)
    (w w1 : world) :
  wf (src w) = true ->
  wf (rep w) = true ->
  (forall q m d, at_ (src w) q = IsFile m d -> at_ (rep w) q <> IsDir) ->
  Extended.synchronization Source Replica multi procnum strict w = (Ok tt, w1) ->
  existsb copy_failed (since w w1) = false ->
  mirrored strict w1 /\ src w1 = src w
  /\ (multi = true -> pool_accepts (sys_platform w1) procnum = true).
Proof.
  intros Hws Hwr Hk Hrun Hnf.
  apply extended_synchronization_Ok in Hrun. destruct Hrun as (v & Hrun & ->).
  change (existsb copy_failed (since w v) = false) in Hnf.
  change (mirrored strict v /\ src v = src w
          /\ (multi = true -> pool_accepts (sys_platform v) procnum = true)).
  revert Hrun Hnf. generalize v. clear v. intros w1 Hrun Hnf.
  unfold extended_phases in Hrun.
  apply bind_Ok in Hrun. destruct Hrun as (tasks & wp & Hplan & Hrun).
  apply bind_Ok in Hrun. destruct Hrun as ([] & wc & Hcopy & Hclean).
  destruct (planned_sync_directory strict w Hws Hk tasks wp Hplan)
    as (P1 & P2 & P3 & P4 & P5 & P6).
  destruct (plans_only_sync_directory strict w) as (_ & _ & _ & (t0 & Et0 & _)).
  rewrite Hplan in Et0. cbn [snd] in Et0.
  assert (Hform : Forall (fun t => exists q m d,
                     t = task_of q /\ at_ (src wp) q = IsFile m d) tasks)
    by (rewrite P1; exact P6).
  assert (Hkp : forall q m d, at_ (src wp) q = IsFile m d ->
                              at_ (rep wp) q <> IsDir).
  { intros q m d Hs Hd. rewrite P1 in Hs. destruct (P3 q Hd) as [Hd0 | Hd0].
    - exact (Hk q m d Hs Hd0).
    - rewrite Hs in Hd0. discriminate. }
  destruct (copy_tasks_post strict wp tasks Hform Hkp multi procnum wc Hcopy)
    as (msgs & t & (C1 & C2 & C3 & C4 & C5) & Et & Hin & Hpos).
  destruct (cleanup_replica_spec wc (C2 (P4 Hwr)))
    as (w' & Hrun & (Es & _ & Etr) & Hat & Hwf).
  rewrite Hclean in Hrun. injection Hrun as <-.
  assert (Esrc : src w1 = src w) by congruence.
  assert (Hpool : multi = true -> pool_accepts (sys_platform w1) procnum = true).
  { intros Hm. specialize (Hpos Hm).
    destruct (same_host_copy_tasks multi procnum tasks wp) as [Pc _].
    rewrite Hcopy in Pc. cbn [snd] in Pc.
    destruct (same_host_extended_cleanup_replica Source Replica wc) as [Pr _].
    rewrite Hclean in Pr. cbn [snd] in Pr. rewrite Pr, Pc. exact Hpos. }
  split; [ | split; [exact Esrc | exact Hpool]].
  (* every message of the copy phase is a success *)
  assert (Hmsgs : Forall (fun msg => copy_failed (EvInfo msg) = false) msgs).
  { unfold since in Hnf. rewrite Etr, Et, Et0, <- !app_assoc in Hnf.
    rewrite skipn_length_app, !existsb_app in Hnf.
    apply orb_false_iff in Hnf. destruct Hnf as [_ Hnf].
    apply orb_false_iff in Hnf. destruct Hnf as [Hnf _].
    eapply Forall_impl; [ | exact Hin].
    intros msg Hmsg. exact (existsb_false_In _ _ _ Hnf Hmsg). }
  pose proof (C5 Hmsgs) as Hgood.
  (* reconciliation keeps what has a counterpart in the source *)
  assert (Hkeep : forall q, at_ (src w) q <> Absent ->
                            at_ (rep w1) q = at_ (rep wc) q).
  { intros q Hq. rewrite Hat, at_prune. destruct q as [ | b q]; [reflexivity | ].
    rewrite (proj2 (source_has_at _ _)); [reflexivity | ].
    rewrite C1, P1. exact Hq. }
  split; [ | split; [ | exact Hwf]].
  - rewrite Esrc. apply Forall_forall. intros y Hy.
    rewrite Forall_forall in P5. destruct (P5 y Hy) as [Hroot Hfiles].
    destruct (walk_topdown_sound _ [] y Hws Hy) as (rest & Ey & Hdir & Hsrc).
    cbn [app] in Ey. rewrite <- Ey in Hdir, Hsrc. split.
    + rewrite Hkeep by (rewrite Hdir; discriminate).
      rewrite C3; [exact Hroot | ].
      intros m d. rewrite P1, Hdir. discriminate.
    + apply Forall_forall. intros name Hname. left.
      rewrite Forall_forall in Hfiles.
      destruct (Hgood _ (Hfiles name Hname)) as (m & d & d' & G1 & G2 & G3 & G4).
      exists m, d, d'. rewrite Esrc, Hkeep.
      * rewrite C1, P1 in G1. auto.
      * rewrite C1, P1 in G1. rewrite G1. discriminate.
  - intros q Hq. rewrite Hat, at_prune. destruct q as [ | b q]; [contradiction | ].
    destruct (source_has _ _) eqn:E; [ | contradiction].
    intros _. apply source_has_at in E. rewrite Esrc, <- P1, <- C1. exact E.
Qed.

(** *** The second pass *)

Lemma copy_tasks_nil {H : Xxhash} (multi : bool) (procnum : Z) (w : world) :
  (multi = true -> pool_accepts (sys_platform w) procnum = true) ->
  Extended.copy_tasks multi procnum [] w
  = (Ok tt, if multi then set_trace (trace w ++ [EvPool procnum]) w else w).
Proof.
  intros Hpos. unfold Extended.copy_tasks.
  destruct multi; [ | reflexivity].
  unfold bind at 1. rewrite process_pool_spec, (Hpos eq_refl). reflexivity.
Qed.

(** A pass over a replica that mirrors the source queues nothing, copies
    nothing and deletes nothing. *)
Lemma synchronization_mirrored {H : Xxhash} (strict multi : bool)
    (procnum : Z) (w : world) :
  mirrored strict w ->
  (multi = true -> pool_accepts (sys_platform w) procnum = true) ->
  let replan := Extended.sync_directory Source Replica strict w in
  let second := Extended.synchronization Source Replica multi procnum strict w in
  (fst replan = Ok []
   \/ (strict = true /\ reads_ok w = false /\ fst replan = Raise OSError))
  /\ adds_b is_idle_event w (snd second)
  /\ src (snd second) = src w
  /\ (forall q, at_ (rep (snd second)) q = at_ (rep w) q)
  /\ (fst replan = Ok [] -> fst second = Ok tt).
Proof.
  intros HM Hpos replan second. subst replan second.
  destruct (idles_sync_directory strict w (proj1 HM)) as (T & E & _ & Hout).
  split; [exact Hout | ].
  rewrite extended_synchronization_phases. cbn [fst snd].
  set (hs := handlers w ++ [FileHandler; StreamHandler]).
  set (second := extended_phases Source Replica multi procnum strict w).
  change (adds_b is_idle_event w (snd second)
          /\ src (snd second) = src w
          /\ (forall q, at_ (rep (snd second)) q = at_ (rep w) q)
          /\ (fst (Extended.sync_directory Source Replica strict w) = Ok [] ->
              fst second = Ok tt)).
  subst second. clear hs. unfold extended_phases, bind.
  pose proof (same_host_extended_sync_directory Source Replica strict w)
    as [Hplat _].
  destruct (Extended.sync_directory Source Replica strict w)
    as [[tasks | e | ] wp]; cbn [fst snd] in *.
  - assert (tasks = []) as ->.
    { destruct Hout as [[= ->] | (_ & _ & Hx)]; [reflexivity | discriminate]. }
    rewrite <- Hplat in Hpos.
    rewrite (copy_tasks_nil multi procnum wp Hpos).
    set (wq := if multi then set_trace (trace wp ++ [EvPool procnum]) wp
               else wp).
    assert (Tq : same_trees wp wq) by (subst wq; destruct multi; split; reflexivity).
    assert (Eq : adds_b is_idle_event wp wq).
    { subst wq. destruct multi; [ | apply adds_b_refl].
      exists [EvPool procnum]. split; [reflexivity | ].
      constructor; [reflexivity | constructor]. }
    pose proof (same_trees_trans _ _ _ T Tq) as [Es Er].
    destruct (cleanup_replica_mirrored strict wq
                (mirrored_same strict w wq (conj Es Er) HM))
      as (w' & Hrun & Es' & _ & Et' & Hat').
    rewrite Hrun. cbn [fst snd].
    split.
    { apply (adds_b_trans _ _ _ _ E). apply (adds_b_trans _ _ _ _ Eq).
      exists []. rewrite Et', app_nil_r. split; [reflexivity | constructor]. }
    split; [congruence | ]. split; [ | reflexivity].
    intros q. rewrite Hat', Er. reflexivity.
  - destruct T as [Es Er]. split; [exact E | ]. split; [exact Es | ].
    split; [intros q; rewrite Er; reflexivity | ].
    destruct Hout as [Hx | (_ & _ & Hx)]; discriminate.
  - destruct T as [Es Er]. split; [exact E | ]. split; [exact Es | ].
    split; [intros q; rewrite Er; reflexivity | discriminate].
Qed.

(** C5, with the condition it needs.  Take a pass of the extended script
    that returns and reports no failed copy, on well-formed trees where no
    directory of the replica stands at the path of a source file.  A second
    pass right after it, on the source the first one read, queues no copy
    task (the planner, if it returns, returns the empty list), records no
    copy and no deletion (its events are digest reads and the opening of
    the pool at most) and leaves the replica as it is.  It returns, with
    the empty task list, unless it compares digests and a read fails. *)
Theorem second_pass_idle {H : Xxhash} (strict multi : bool) (procnum : Z)
    (w w1 : world) :
  wf (src w) = true ->
  wf (rep w) = true ->
  (forall q m d, at_ (src w) q = IsFile m d -> at_ (rep w) q <> IsDir) ->
  Extended.synchronization Source Replica multi procnum strict w = (Ok tt, w1) ->
  existsb copy_failed (since w w1) = false ->
  let replan := Extended.sync_directory Source Replica strict w1 in
  let second :=
    Extended.synchronization Source Replica multi procnum strict w1 in
  src w1 = src w
  /\ (forall tasks, fst replan = Ok tasks -> tasks = [])
  /\ (exists t, trace (snd second) = trace w1 ++ t
                /\ Forall (fun e => is_idle_event e = true) t)
  /\ (forall q, at_ (rep (snd second)) q = at_ (rep w1) q)
  /\ src (snd second) = src w1
  /\ (strict = false \/ reads_ok w1 = true ->
      fst replan = Ok [] /\ fst second = Ok tt).
Proof.
  intros Hws Hwr Hk Hrun Hnf replan second.
  destruct (first_pass_mirrors strict multi procnum w w1 Hws Hwr Hk Hrun Hnf)
    as (HM & Es & Hpos).
  destruct (synchronization_mirrored strict multi procnum w1 HM Hpos)
    as (Hout & E & Es2 & Hat & Hok).
  fold replan in Hout, Hok. fold second in E, Es2, Hat, Hok.
  split; [exact Es | ]. split.
  { intros tasks Ht. destruct Hout as [Hx | (_ & _ & Hx)]; congruence. }
  split; [exact E | ]. split; [exact Hat | ]. split; [exact Es2 | ].
  intros Hcase.
  assert (Hre : fst replan = Ok []).
  { destruct Hout as [Hx | (Hs & Hr & _)]; [exact Hx | ].
    destruct Hcase; congruence. }
  split; [exact Hre | exact (Hok Hre)].
Qed.

(** The walk of a tree comes by each of its directories. *)
Lemma walk_topdown_dirs (q : path) : forall (R : node) (root : path),
  at_ R q = IsDir ->
  In (root ++ q) (map (fun y : yielded => fst (fst y)) (walk_topdown root R)).
Proof.
  induction q as [ | b q IH]; intros R root Hq.
  - destruct R as [m d | es]; [discriminate | ].
    rewrite walk_topdown_dir, app_nil_r. left. reflexivity.
  - destruct R as [m d | es]; [discriminate | ].
    rewrite at_dir_cons in Hq.
    destruct (assoc b es) as [c | ] eqn:Ea; [ | discriminate].
    rewrite walk_topdown_dir. right. apply in_map_iff.
    specialize (IH c (root ++ [b]) Hq). apply in_map_iff in IH.
    destruct IH as (y & Ey & Hy). exists y.
    rewrite <- app_assoc in Ey. split; [exact Ey | ].
    apply in_flat_map. exists (b, c). split; [exact (assoc_In _ _ _ Ea) | exact Hy].
Qed.

(** No directory of [R] stands at the path of a file of [S]. *)
Definition no_dir_for_file (S R : node) : bool :=
  forallb (fun y : yielded =>
             match at_ S (fst (fst y)) with
             | IsFile _ _ => false
             | _ => true
             end) (walk_topdown [] R).

Lemma no_dir_for_file_spec (S R : node) :
  no_dir_for_file S R = true ->
  forall q m d, at_ S q = IsFile m d -> at_ R q <> IsDir.
Proof.
  unfold no_dir_for_file. rewrite forallb_forall. intros Hall q m d Hs Hr.
  pose proof (walk_topdown_dirs q R [] Hr) as Hin. apply in_map_iff in Hin.
  destruct Hin as (y & Ey & Hy). specialize (Hall y Hy).
  cbn [app] in Ey. rewrite Ey, Hs in Hall. discriminate.
Qed.

(** A plan under which the digests of the planner are read and the copy
    succeeds at its third attempt. *)
Definition late_success : list fault := [Fine; Fine; Fails; Corrupts [x00]].

Lemma second_pass_idle_witness :
  let H := sample_xxhash in
  let w := sample_world sample_source sample_replica late_success in
  let w1 := snd (Extended.synchronization Source Replica true 2 true w) in
  let replan := Extended.sync_directory Source Replica true w1 in
  let second := Extended.synchronization Source Replica true 2 true w1 in
  (wf (src w) = true /\ wf (rep w) = true
   /\ no_dir_for_file (src w) (rep w) = true
   /\ Extended.synchronization Source Replica true 2 true w = (Ok tt, w1)
   /\ existsb copy_failed (since w w1) = false)
  /\ src w1 = src w
  /\ (forall tasks, fst replan = Ok tasks -> tasks = [])
  /\ (exists t, trace (snd second) = trace w1 ++ t
                /\ Forall (fun e => is_idle_event e = true) t)
  /\ (forall q, at_ (rep (snd second)) q = at_ (rep w1) q)
  /\ src (snd second) = src w1
  /\ (true = false \/ reads_ok w1 = true ->
      fst replan = Ok [] /\ fst second = Ok tt).
Proof.
  intros H w w1 replan second.
  assert (Hsource : wf (src w) = true) by (vm_compute; reflexivity).
  assert (Hreplica : wf (rep w) = true) by (vm_compute; reflexivity).
  assert (Hkinds : no_dir_for_file (src w) (rep w) = true)
    by (vm_compute; reflexivity).
  assert (Hrun : Extended.synchronization Source Replica true 2 true w
                 = (Ok tt, w1)) by (vm_compute; reflexivity).
  assert (Hcopies : existsb copy_failed (since w w1) = false)
    by (vm_compute; reflexivity).
  split; [auto | ].
  exact (second_pass_idle true true 2 w w1 Hsource Hreplica
           (no_dir_for_file_spec _ _ Hkinds) Hrun Hcopies).
Defined.

(** A replica directory [A] with a stale file in it, where the source has a
    file [A]; [os.stat] reports the same size and modification time for the
    two. *)
Definition clash_source : node := Dir [("A"%string, File 50 [x61; x62; x63])].

Definition clash_replica : node :=
  Dir [("A"%string, Dir [("x"%string, File 1 [])])].

Definition clash_world : world :=
  mkWorld clash_source clash_replica
    (fun sd q => if fpath_eqb (sd, q) (Replica, ["A"%string])
                 then mkStat 3 50 else mkStat 4096 0)
    4096 1000 [] [] "win32" [].

(** C5 fails when a directory of the replica stands at the path of a source
    file and shows the size and modification time of that file.  The first
    pass queues nothing and reports no failure; reconciliation deletes the
    stale file inside the directory, which changes the modification time
    of the directory; the second pass then finds the metadata changed,
    queues the file, copies it into the directory four times in vain, and
    reconciliation deletes that copy. *)
Lemma second_pass_after_kind_clash :
  let H := sample_xxhash in
  let w := clash_world in
  let first := Extended.synchronization Source Replica false 1 false w in
  let w1 := snd first in
  let second := Extended.synchronization Source Replica false 1 false w1 in
  let a := ["A"%string] in
  (wf (src w) = true /\ wf (rep w) = true)
  /\ fst first = Ok tt
  /\ since w w1 = [EvRemove (Replica, ["A"; "x"]%string);
                   EvInfo (MsgFileRemoved (Replica, ["A"; "x"]%string))]
  /\ existsb copy_failed (since w w1) = false
  /\ src w1 = src w
  /\ fst (Extended.sync_directory Source Replica false w1)
     = Ok [((Source, a), (Replica, a))]
  /\ fst second = Ok tt
  /\ attempts_made (since w1 (snd second)) = 4%nat
  /\ deletions (since w1 (snd second)) = [["A"; "A"]%string].
Proof. vm_compute. repeat split; reflexivity. Qed.

(** * Further properties of the two scripts *)

(** ** The size of the pool *)

(** With multiprocessing on and a pool size of zero or less, a pass of the
    extended script never completes.  It sets up the logger, plans
    (creating the missing directories) and stops there: when the planner
    has returned, [ProcessPoolExecutor] raises [ValueError], and no file is
    copied and nothing is reconciled.  The world it leaves is the one the
    planner leaves, with the two handlers of this pass on the logger. *)
Theorem pool_size_rejected {H : Xxhash} (w : world) (strict : bool)
    (procnum : Z) :
  procnum <= 0 ->
  let plan := Extended.sync_directory Source Replica strict w in
  let pass := Extended.synchronization Source Replica true procnum strict w in
  snd pass
  = set_handlers (handlers w ++ [FileHandler; StreamHandler]) (snd plan)
  /\ (forall tasks, fst plan = Ok tasks -> fst pass = Raise ValueError)
  /\ fst pass <> Ok tt.
Proof.
  intros Hp plan pass. subst plan pass. apply Z.leb_le in Hp.
  rewrite extended_synchronization_phases. cbn [fst snd].
  unfold extended_phases, Extended.copy_tasks, Extended.process_pool, bind.
  rewrite Hp.
  destruct (Extended.sync_directory Source Replica strict w)
    as [[tasks | e | ] wp]; cbn [fst snd]; unfold raise; cbn [fst snd];
    (split; [reflexivity | split; [ | discriminate]]);
    intros tasks' Hx; try discriminate; reflexivity.
Qed.

Lemma pool_size_rejected_witness :
  let H := sample_xxhash in
  let w := sample_world sample_source sample_replica [] in
  let plan := Extended.sync_directory Source Replica false w in
  let pass := Extended.synchronization Source Replica true 0 false w in
  0 <= 0
  /\ snd pass
     = set_handlers (handlers w ++ [FileHandler; StreamHandler]) (snd plan)
  /\ (forall tasks, fst plan = Ok tasks -> fst pass = Raise ValueError)
  /\ fst pass <> Ok tt.
Proof.
  intros H w plan pass. split; [lia | ].
  apply (pool_size_rejected w false 0). lia.
Defined.

(** ** An empty source *)

Lemma at_sole_entry_absent (q : path) : q <> [] -> at_ (Dir []) q = Absent.
Proof. destruct q; [congruence | reflexivity]. Qed.

(** Reconciliation copies nothing. *)
Lemma cleanup_replica_no_copy {H : Xxhash} :
  steps (adds_b (fun e => negb (is_copy2 e)))
    (Extended.cleanup_replica Source Replica).
Proof.
  unfold Extended.cleanup_replica, Extended.cleanup_root,
    Extended.cleanup_file, Extended.cleanup_dir.
  walk_adds.
Qed.

Lemma attempts_made_none (t : list event) :
  Forall (fun e => negb (is_copy2 e) = true) t -> attempts_made t = 0%nat.
Proof.
  unfold attempts_made. induction 1 as [ | e t He _ IH]; [reflexivity | ].
  cbn [filter]. apply negb_true_iff in He. rewrite He. exact IH.
Qed.

(** When the source folder is empty, a pass empties the replica folder.
    The planner queues nothing and leaves the world as it is (the simple
    script's traversal likewise), no file is copied, and the events of the
    pass are the opening of the pool, if any, followed by the deletions of
    reconciliation with their records: every entry of the replica goes,
    whatever it is.  Both scripts return and leave the same replica. *)
Theorem empty_source_empties_replica {H : Xxhash} (w : world)
    (multi strict : bool) (procnum : Z) :
  src w = Dir [] ->
  wf (rep w) = true ->
  (multi = true -> pool_accepts (sys_platform w) procnum = true) ->
  let removals := removal_events (Some (Dir [])) [] (rep w) in
  exists w' v',
    Extended.sync_directory Source Replica strict w = (Ok [], w)
    /\ Simple.sync_directory Source Replica strict w = (Ok tt, w)
    /\ Extended.synchronization Source Replica multi procnum strict w
       = (Ok tt, w')
    /\ Simple.synchronization Source Replica strict w = (Ok tt, v')
    /\ since w w' = (if multi then [EvPool procnum] else []) ++ removals
    /\ since w v' = removals
    /\ attempts_made (since w w') = 0%nat
    /\ attempts_made (since w v') = 0%nat
    /\ (forall q, q <> [] -> at_ (rep w') q = Absent)
    /\ rep v' = rep w'
    /\ src w' = Dir []
    /\ src v' = Dir [].
Proof.
  intros Hs Hw Hpos removals.
  assert (Hplan : Extended.sync_directory Source Replica strict w = (Ok [], w)).
  { unfold Extended.sync_directory, bind, get. cbn [tree]. rewrite Hs.
    cbn [walk_topdown dir_names file_names filter map for_fold].
    unfold Extended.sync_root, bind. rewrite os_path_exists_spec.
    unfold node_at. cbn [fst snd tree lookup negb for_fold]. reflexivity. }
  assert (Hsimple : Simple.sync_directory Source Replica strict w = (Ok tt, w)).
  { unfold Simple.sync_directory, bind, get. cbn [tree]. rewrite Hs.
    cbn [walk_topdown dir_names file_names filter map for_each].
    unfold Simple.sync_root, bind. rewrite os_path_exists_spec.
    unfold node_at. cbn [fst snd tree lookup negb for_each]. reflexivity. }
  set (pool := if multi then [EvPool procnum] else []).
  set (wq := if multi then set_trace (trace w ++ [EvPool procnum]) w else w).
  assert (Hwq : src wq = src w /\ rep wq = rep w /\ trace wq = trace w ++ pool)
    by (subst wq pool; destruct multi; cbn [trace set_trace];
        rewrite ?app_nil_r; auto).
  destruct Hwq as (Esq & Erq & Etq).
  destruct (cleanup_replica_spec wq) as (w' & Hrun & (Es1 & _ & Et1) & Hat & _);
    [rewrite Erq; exact Hw | ].
  destruct (cleanup_replica_spec w Hw) as (w2 & Hrun2 & (Es2 & _ & Et2) & Hat2 & _).
  rewrite Esq, Erq, Hs in Et1. rewrite Hs in Et2. fold removals in Et1, Et2.
  set (hs := handlers w ++ [FileHandler; StreamHandler]).
  exists (set_handlers hs w'), (set_handlers hs w2).
  split; [exact Hplan | ]. split; [exact Hsimple | ].
  split.
  { rewrite extended_synchronization_phases.
    unfold extended_phases, bind. rewrite Hplan.
    rewrite (copy_tasks_nil multi procnum w Hpos). fold wq. rewrite Hrun.
    reflexivity. }
  split.
  { rewrite simple_synchronization_phases.
    unfold simple_phases, bind. rewrite Hsimple.
    rewrite simple_cleanup_replica, Hrun2. reflexivity. }
  assert (E1 : since w (set_handlers hs w') = pool ++ removals).
  { unfold since. cbn [trace set_handlers].
    rewrite Et1, Etq, <- app_assoc. apply skipn_length_app. }
  assert (E2 : since w (set_handlers hs w2) = removals).
  { unfold since. cbn [trace set_handlers]. rewrite Et2.
    apply skipn_length_app. }
  assert (Hnone : attempts_made removals = 0%nat).
  { destruct (cleanup_replica_no_copy w) as (t & Et & Hall).
    rewrite Hrun2 in Et. cbn [snd] in Et. rewrite Et2 in Et.
    apply app_inv_head in Et. subst t. exact (attempts_made_none _ Hall). }
  split; [exact E1 | ]. split; [exact E2 | ].
  split.
  { rewrite E1. unfold attempts_made in *. rewrite filter_app, length_app, Hnone.
    subst pool. destruct multi; reflexivity. }
  split; [rewrite E2; exact Hnone | ].
  assert (Hgone : forall q, q <> [] -> at_ (rep w') q = Absent).
  { intros q Hq. rewrite Hat, at_prune, Esq, Hs.
    destruct q as [ | b q]; [contradiction | ].
    unfold source_has. cbn [lookup assoc]. reflexivity. }
  split; [exact Hgone | ].
  split; [ | split; [cbn [src set_handlers]; congruence
                    | cbn [src set_handlers]; congruence]].
  cbn [rep set_handlers].
  (* both replicas are the emptied root *)
  assert (Hgone2 : forall q, q <> [] -> at_ (rep w2) q = Absent).
  { intros q Hq. rewrite Hat2, at_prune, Hs.
    destruct q as [ | b q]; [contradiction | ].
    unfold source_has. cbn [lookup assoc]. reflexivity. }
  assert (Hroot : forall v, (forall q, at_ (rep v) q = at_ (prune (Some (Dir [])) (rep w)) q) ->
                            (forall q, q <> [] -> at_ (rep v) q = Absent) ->
                            rep v = match rep w with
                                    | File m d => File m d
                                    | Dir _ => Dir []
                                    end).
  { intros v Hv Hnone'. specialize (Hv []). rewrite at_prune in Hv.
    unfold at_ in Hv. cbn [lookup shape_of] in Hv.
    destruct (rep w) as [m d | es], (rep v) as [m' d' | es'];
      try discriminate; [injection Hv as -> ->; reflexivity | ].
    destruct es' as [ | [name c] es']; [reflexivity | ].
    exfalso. specialize (Hnone' [name]). unfold at_ in Hnone'.
    cbn [lookup assoc] in Hnone'. rewrite String.eqb_refl in Hnone'.
    cbn [lookup] in Hnone'. assert (Hx : [name] <> []) by discriminate.
    specialize (Hnone' Hx). destruct c; discriminate. }
  rewrite (Hroot w2), (Hroot w'); try assumption; try reflexivity.
  - intros q. rewrite Hat, Esq, Hs, Erq. reflexivity.
  - intros q. rewrite Hat2, Hs. reflexivity.
Qed.

Lemma empty_source_empties_replica_witness :
  let H := sample_xxhash in
  let w := sample_world (Dir []) sample_replica [] in
  let removals := removal_events (Some (Dir [])) [] (rep w) in
  (src w = Dir [] /\ wf (rep w) = true
   /\ (true = true -> pool_accepts (sys_platform w) 2 = true))
  /\ exists w' v',
       Extended.sync_directory Source Replica true w = (Ok [], w)
       /\ Simple.sync_directory Source Replica true w = (Ok tt, w)
       /\ Extended.synchronization Source Replica true 2 true w = (Ok tt, w')
       /\ Simple.synchronization Source Replica true w = (Ok tt, v')
       /\ since w w' = [EvPool 2] ++ removals
       /\ since w v' = removals
       /\ attempts_made (since w w') = 0%nat
       /\ attempts_made (since w v') = 0%nat
       /\ (forall q, q <> [] -> at_ (rep w') q = Absent)
       /\ rep v' = rep w'
       /\ src w' = Dir []
       /\ src v' = Dir [].
Proof.
  intros H w removals.
  split; [split; [reflexivity | split; [reflexivity | reflexivity]] | ].
  apply (empty_source_empties_replica w true true 2);
    [reflexivity | reflexivity | reflexivity].
Defined.

(** ** Reading a file for its digest *)

Lemma read_chunks_nil (fuel n : nat) : read_chunks fuel n [] = [].
Proof. destruct fuel; reflexivity. Qed.

(** The chunks [f.read(chunk_size)] returns, one after the other, make up
    the file; none is empty, none is longer than [chunk_size], and all but
    the last are full. *)
Lemma read_chunks_spec (n : nat) : (0 < n)%nat ->
  forall (fuel : nat) (data : list byte),
    (List.length data <= fuel)%nat ->
    List.concat (read_chunks fuel n data) = data
    /\ Forall (fun c => (0 < List.length c <= n)%nat) (read_chunks fuel n data)
    /\ Forall (fun c => List.length c = n)
         (removelast (read_chunks fuel n data)).
Proof.
  intros Hn fuel. induction fuel as [ | fuel IH]; intros data Hlen.
  - destruct data; [ | cbn in Hlen; lia].
    cbn. repeat split; constructor.
  - destruct data as [ | a data]; [cbn; repeat split; constructor | ].
    cbn [read_chunks].
    assert (Hrest : (List.length (skipn n (a :: data)) <= fuel)%nat).
    { rewrite length_skipn. cbn [List.length] in *. lia. }
    destruct (IH _ Hrest) as (Hcat & Hall & Hfull).
    split; [cbn [List.concat]; rewrite Hcat; apply firstn_skipn | ].
    split.
    + constructor; [ | exact Hall]. rewrite length_firstn.
      cbn [List.length]. lia.
    + destruct (read_chunks fuel n (skipn n (a :: data))) as [ | c cs] eqn:E.
      * constructor.
      * change (removelast (firstn n (a :: data) :: c :: cs))
          with (firstn n (a :: data) :: removelast (c :: cs)).
        constructor; [ | exact Hfull].
        rewrite length_firstn. apply Nat.min_l.
        destruct (skipn n (a :: data)) as [ | b rest] eqn:Es.
        { rewrite read_chunks_nil in E. discriminate. }
        assert (Hl : List.length (skipn n (a :: data)) <> 0%nat)
          by (rewrite Es; discriminate).
        rewrite length_skipn in Hl. lia.
Qed.

(** [calculate_xxhash] feeds the hash object the whole file, in order, in
    chunks of at most 4096 bytes: the digest it returns is the one of a
    fresh [xxh64] object updated with the pieces of the file's content,
    each piece non-empty and at most 4096 bytes long, all but the last
    exactly 4096.  For an empty file the object is not updated at all. *)
Theorem calculate_xxhash_reads_whole_file {H : Xxhash} (w : world) (f : fpath)
    (m : Z) (data : list byte) :
  node_at w f = Some (File m data) ->
  forallb lets_read (firstn 1 (faults w)) = true ->
  exists chunks,
    fst (calculate_xxhash f w)
    = Ok (xxh_hexdigest (fold_left xxh_update chunks xxh64))
    /\ List.concat chunks = data
    /\ Forall (fun c => (0 < List.length c <= 4096)%nat) chunks
    /\ Forall (fun c => List.length c = 4096%nat) (removelast chunks)
    /\ (data = [] -> chunks = []).
Proof.
  intros Hf Hr. exists (read_chunks (List.length data) 4096 data).
  rewrite (calculate_xxhash_file w f m data Hf Hr). cbn [fst].
  split; [reflexivity | ].
  destruct (read_chunks_spec 4096 ltac:(lia) (List.length data) data (le_n _))
    as (Hcat & Hall & Hfull).
  repeat split; try assumption.
  intros ->. reflexivity.
Qed.

Lemma calculate_xxhash_reads_whole_file_witness :
  let H := sample_xxhash in
  let w := sample_world sample_source sample_replica [] in
  let f := (Source, ["docs"; "readme.txt"]%string) in
  (node_at w f = Some (File 5 [x61; x62])
   /\ forallb lets_read (firstn 1 (faults w)) = true)
  /\ exists chunks,
       fst (calculate_xxhash f w)
       = Ok (xxh_hexdigest (fold_left xxh_update chunks xxh64))
       /\ List.concat chunks = [x61; x62]
       /\ Forall (fun c => (0 < List.length c <= 4096)%nat) chunks
       /\ Forall (fun c => List.length c = 4096%nat) (removelast chunks)
       /\ ([x61; x62] = [] -> chunks = []).
Proof.
  intros H w f. split; [split; reflexivity | ].
  apply (calculate_xxhash_reads_whole_file w f 5 [x61; x62]); reflexivity.
Defined.

(** ** What a pass achieves *)

(** The walk of a tree yields each of its directories with its listing. *)
Lemma walk_topdown_listing (q : path) : forall (R : node) (root : path) es,
  lookup R q = Some (Dir es) ->
  In (root ++ q, dir_names es, file_names es) (walk_topdown root R).
Proof.
  induction q as [ | b q IH]; intros R root es Hq.
  - cbn in Hq. injection Hq as ->. rewrite walk_topdown_dir, app_nil_r.
    left. reflexivity.
  - destruct R as [m d | es0]; [discriminate | ]. cbn [lookup] in Hq.
    destruct (assoc b es0) as [c | ] eqn:Ea; [ | discriminate].
    rewrite walk_topdown_dir. right. apply in_flat_map.
    exists (b, c). split; [exact (assoc_In _ _ _ Ea) | ].
    cbn [fst snd]. specialize (IH c (root ++ [b]) es Hq).
    rewrite <- app_assoc in IH. exact IH.
Qed.

Lemma path_snoc (q : path) : q <> [] -> exists p name, q = p ++ [name].
Proof.
  intros Hq. destruct (exists_last Hq) as (p & name & E). eauto.
Qed.

(** A pass of the extended script brings the replica in line with the
    source.  On well-formed trees where no directory of the replica stands
    at the path of a source file, after a pass that returns and reports no
    failed copy: the source is as before; every file of the source is in
    the replica, with the same modification time and size (and, in strict
    mode, the same digest); every directory of the source has an entry at
    its path in the replica; and the replica holds nothing that the source
    does not have. *)
Theorem pass_converges {H : Xxhash} (strict multi : bool) (procnum : Z)
    (w w1 : world) :
  wf (src w) = true ->
  wf (rep w) = true ->
  (forall q m d, at_ (src w) q = IsFile m d -> at_ (rep w) q <> IsDir) ->
  Extended.synchronization Source Replica multi procnum strict w = (Ok tt, w1) ->
  existsb copy_failed (since w w1) = false ->
  src w1 = src w
  /\ (forall q m d,
        q <> [] -> at_ (src w) q = IsFile m d ->
        exists d', at_ (rep w1) q = IsFile m d'
                   /\ List.length d' = List.length d
                   /\ (strict = true ->
                       digest_of 4096 d' = digest_of 4096 d))
  /\ (forall q, at_ (src w) q = IsDir -> at_ (rep w1) q <> Absent)
  /\ (forall q, q <> [] -> at_ (rep w1) q <> Absent -> at_ (src w) q <> Absent)
  /\ wf (rep w1) = true.
Proof.
  intros Hws Hwr Hk Hrun Hnf.
  destruct (first_pass_mirrors strict multi procnum w w1 Hws Hwr Hk Hrun Hnf)
    as ((M1 & M2 & M3) & Es & _).
  rewrite Es in M1, M2. rewrite Forall_forall in M1.
  split; [exact Es | ]. split; [ | split; [ | split; [exact M2 | exact M3]]].
  - intros q m d Hq Hs. destruct (path_snoc q Hq) as (p & name & ->).
    apply at_IsFile in Hs. destruct (lookup_snoc _ _ _ _ Hs) as (es & Hp & Ha).
    destruct (M1 _ (walk_topdown_listing p _ [] es Hp)) as [_ Hfiles].
    cbn [fst snd app] in Hfiles. rewrite Forall_forall in Hfiles.
    pose proof (In_names_kind _ _ _ (assoc_In _ _ _ Ha)) as Hname.
    cbn [is_dir] in Hname.
    destruct (Hfiles name Hname) as [(m0 & d0 & d' & S1 & R1 & L1 & D1) | []].
    rewrite Es in S1. apply at_IsFile in S1. rewrite Hs in S1.
    injection S1 as <- <-. eauto.
  - intros q Hq. apply at_IsDir in Hq. destruct Hq as (es & Hq).
    destruct (M1 _ (walk_topdown_listing q _ [] es Hq)) as [Hroot _].
    exact Hroot.
Qed.

Lemma pass_converges_witness :
  let H := sample_xxhash in
  let w := sample_world sample_source sample_replica late_success in
  let w1 := snd (Extended.synchronization Source Replica true 2 true w) in
  (wf (src w) = true /\ wf (rep w) = true
   /\ no_dir_for_file (src w) (rep w) = true
   /\ Extended.synchronization Source Replica true 2 true w = (Ok tt, w1)
   /\ existsb copy_failed (since w w1) = false)
  /\ src w1 = src w
  /\ (forall q m d,
        q <> [] -> at_ (src w) q = IsFile m d ->
        exists d', at_ (rep w1) q = IsFile m d'
                   /\ List.length d' = List.length d
                   /\ (true = true ->
                       digest_of 4096 d' = digest_of 4096 d))
  /\ (forall q, at_ (src w) q = IsDir -> at_ (rep w1) q <> Absent)
  /\ (forall q, q <> [] -> at_ (rep w1) q <> Absent -> at_ (src w) q <> Absent)
  /\ wf (rep w1) = true.
Proof.
  intros H w w1.
  assert (Hsource : wf (src w) = true) by (vm_compute; reflexivity).
  assert (Hreplica : wf (rep w) = true) by (vm_compute; reflexivity).
  assert (Hkinds : no_dir_for_file (src w) (rep w) = true)
    by (vm_compute; reflexivity).
  assert (Hrun : Extended.synchronization Source Replica true 2 true w
                 = (Ok tt, w1)) by (vm_compute; reflexivity).
  assert (Hcopies : existsb copy_failed (since w w1) = false)
    by (vm_compute; reflexivity).
  split; [auto | ].
  exact (pass_converges true true 2 w w1 Hsource Hreplica
           (no_dir_for_file_spec _ _ Hkinds) Hrun Hcopies).
Defined.

(** ** What the planner queues *)

(** The files of a tree, in the order the walk comes by them. *)
Definition files_of (ys : list yielded) : list path :=
  flat_map (fun y : yielded => map (fun name => fst (fst y) ++ [name]) (snd y))
    ys.

Definition source_files (S : node) : list path :=
  files_of (walk_topdown [] S).

(** The decision of the planner for the source file at [q]: the replica has
    no file there, or size or modification time differ, or (in strict mode)
    the digests differ. *)
Definition queued {H : Xxhash} (strict : bool) (S R : node) (q : path)
  : bool :=
  match at_ S q, at_ R q with
  | IsFile m d, IsFile m' d' =>
      negb (List.length d =? List.length d')%nat
      || negb (m =? m')
      || (strict && negb (String.eqb (digest_of 4096 d) (digest_of 4096 d')))
  | _, _ => true
  end.

Lemma In_source_files (S : node) (q : path) :
  wf S = true ->
  In q (source_files S)
  <-> q <> [] /\ exists m d, at_ S q = IsFile m d.
Proof.
  intros Hw. unfold source_files, files_of. rewrite in_flat_map. split.
  - intros (y & Hy & Hq). apply in_map_iff in Hq.
    destruct Hq as (name & <- & Hname).
    destruct (walk_topdown_sound S [] y Hw Hy) as (rest & Ey & _ & Hfiles).
    cbn [app] in Ey. rewrite Ey. split; [ | exact (Hfiles name Hname)].
    destruct rest; discriminate.
  - intros (Hq & m & d & Hs). destruct (path_snoc q Hq) as (p & name & ->).
    apply at_IsFile in Hs. destruct (lookup_snoc _ _ _ _ Hs) as (es & Hp & Ha).
    exists (p, dir_names es, file_names es).
    split; [exact (walk_topdown_listing p S [] es Hp) | ].
    cbn [fst snd]. apply (in_map (fun name0 => p ++ [name0])).
    exact (In_names_kind _ _ _ (assoc_In _ _ _ Ha)).
Qed.

Lemma reads_ok_head (w : world) :
  reads_ok w = true -> forallb lets_read (firstn 1 (faults w)) = true.
Proof.
  unfold reads_ok. destruct (faults w) as [ | f fs]; cbn; [reflexivity | ].
  intros Hr. apply andb_prop in Hr. rewrite (proj1 Hr). reflexivity.
Qed.

Lemma reads_ok_tail (w : world) tr :
  reads_ok w = true ->
  reads_ok (set_faults (skipn 1 (faults w)) (set_trace tr w)) = true.
Proof.
  unfold reads_ok. cbn [faults set_faults set_trace].
  destruct (faults w) as [ | f fs]; cbn; [reflexivity | ].
  intros Hr. apply andb_prop in Hr. exact (proj2 Hr).
Qed.

Section PlannerExact.
Context {H : Xxhash}.
Variable strict : bool.

Lemma sync_file_exact (w : world) (q : path) m d tasks :
  at_ (src w) q = IsFile m d ->
  at_ (rep w) q <> IsDir ->
  (strict = true -> reads_ok w = true) ->
  exists w',
    Extended.sync_file strict (Source, q) (Replica, q) tasks w
    = (Ok (if queued strict (src w) (rep w) q then tasks ++ [task_of q]
           else tasks), w')
    /\ src w' = src w /\ rep w' = rep w
    /\ (strict = true -> reads_ok w' = true).
Proof.
  intros Hs Hnd Hreads.
  pose proof (modified_check_file w q m d Hs) as Hm.
  unfold queued. rewrite Hs. unfold at_ in Hnd |- *.
  destruct (lookup (rep w) q) as [[m' d' | es] | ] eqn:Hl; cbn [shape_of] in *.
  2:{ exfalso. apply Hnd. reflexivity. }
  2:{ exists w. unfold Extended.sync_file.
      destruct strict; unfold bind; rewrite Hm; cbn [negb];
        (split; [reflexivity | auto]). }
  cbn [entry_stat] in Hm. unfold unchanged_stat in Hm.
  cbn [st_size st_mtime] in Hm.
  assert (Hsize : (Z.of_nat (List.length d) =? Z.of_nat (List.length d'))
                  = (List.length d =? List.length d')%nat).
  { destruct (Nat.eqb_spec (List.length d) (List.length d')) as [E | E].
    - rewrite E. apply Z.eqb_refl.
    - apply Z.eqb_neq. lia. }
  rewrite Hsize in Hm.
  destruct (negb (List.length d =? List.length d')%nat || negb (m =? m')) eqn:Hmeta.
  { exists w. unfold Extended.sync_file.
    destruct strict; unfold bind; rewrite Hm; cbn [negb orb];
      (split; [reflexivity | auto]). }
  cbn [negb orb] in *. unfold Extended.sync_file.
  destruct strict eqn:Hst; unfold bind at 1; rewrite Hm; cbn [negb andb].
  2:{ exists w. split; [reflexivity | auto]. }
  specialize (Hreads eq_refl). apply at_IsFile in Hs.
  unfold bind.
  rewrite (calculate_xxhash_file w (Source, q) m d Hs (reads_ok_head _ Hreads)).
  set (w1 := set_faults _ _).
  assert (Hr1 : reads_ok w1 = true) by (apply reads_ok_tail; exact Hreads).
  rewrite (calculate_xxhash_file w1 (Replica, q) m' d' Hl (reads_ok_head _ Hr1)).
  set (w2 := set_faults _ _).
  assert (Hr2 : reads_ok w2 = true) by (apply reads_ok_tail; exact Hr1).
  exists w2.
  destruct (String.eqb (digest_of 4096 d) (digest_of 4096 d')); cbn [negb];
    (split; [reflexivity | auto]).
Qed.

Lemma queued_same S R R' (q : path) :
  (forall m d, at_ R' q = IsFile m d <-> at_ R q = IsFile m d) ->
  queued strict S R' q = queued strict S R q.
Proof.
  intros Hf. unfold queued. destruct (at_ S q) as [ | | m d]; try reflexivity.
  destruct (at_ R q) as [ | | m' d'], (at_ R' q) as [ | | m2 d2];
    try reflexivity;
    try (pose proof (proj1 (Hf m2 d2) eq_refl) as Hx; discriminate Hx);
    try (pose proof (proj2 (Hf m' d') eq_refl) as Hx; discriminate Hx).
  pose proof (proj2 (Hf m' d') eq_refl) as Hx. injection Hx as -> ->.
  reflexivity.
Qed.

(** The inner loop of the planner. *)
Lemma sync_files_exact (root : path) : forall files tasks (w : world),
  (forall name, In name files ->
     (exists m d, at_ (src w) (root ++ [name]) = IsFile m d)
     /\ at_ (rep w) (root ++ [name]) <> IsDir) ->
  (strict = true -> reads_ok w = true) ->
  exists w',
    for_fold files tasks
      (fun file_tasks file =>
         Extended.sync_file strict (os_path_join (Source, root) file)
           (os_path_join (Replica, root) file) file_tasks) w
    = (Ok (tasks
           ++ map task_of
                (filter (queued strict (src w) (rep w))
                   (map (fun name => root ++ [name]) files))), w')
    /\ src w' = src w /\ rep w' = rep w
    /\ (strict = true -> reads_ok w' = true).
Proof.
  induction files as [ | name files IH]; intros tasks w Hfiles Hreads.
  - exists w. cbn. rewrite app_nil_r. auto.
  - destruct (Hfiles name (or_introl eq_refl)) as [(m & d & Hs) Hnd].
    destruct (sync_file_exact w _ m d tasks Hs Hnd Hreads)
      as (w1 & Hone & Es & Er & Hr1).
    destruct (IH (if queued strict (src w) (rep w) (root ++ [name])
                  then tasks ++ [task_of (root ++ [name])] else tasks) w1)
      as (w' & Hrest & Es' & Er' & Hr'); [ | exact Hr1 | ].
    { intros name' Hn. rewrite Es, Er. apply Hfiles. right. exact Hn. }
    exists w'. cbn [for_fold map filter]. unfold bind.
    change (Extended.sync_file strict (Source, root ++ [name])
              (Replica, root ++ [name]) tasks w)
      with (Extended.sync_file strict (os_path_join (Source, root) name)
              (os_path_join (Replica, root) name) tasks w) in Hone.
    rewrite Hone, Hrest, Es, Er.
    split; [ | split; [congruence | split; [congruence | exact Hr']]].
    destruct (queued strict (src w) (rep w) (root ++ [name]));
      [rewrite <- app_assoc | ]; reflexivity.
Qed.

End PlannerExact.

Lemma mkdirs_succeeds (p : path) : forall (R : node),
  lookup R p = None ->
  (forall q, is_prefix q p = true -> forall m d, at_ R q <> IsFile m d) ->
  exists R', mkdirs p R = inr R'.
Proof.
  induction p as [ | name p IH]; intros R Hl Hpre; [discriminate | ].
  destruct R as [m d | es].
  - exfalso. exact (Hpre [] eq_refl m d eq_refl).
  - cbn [mkdirs]. cbn [lookup] in Hl.
    destruct (assoc name es) as [c | ] eqn:Ea; [ | eauto].
    destruct (IH c Hl) as (c' & Hc).
    + intros q Hq m d. specialize (Hpre (name :: q)). cbn [is_prefix] in Hpre.
      rewrite String.eqb_refl, at_dir_cons, Ea in Hpre. exact (Hpre Hq m d).
    + rewrite Hc. eauto.
Qed.

Lemma os_makedirs_Ok (w : world) (p : path) R' :
  mkdirs p (rep w) = inr R' -> fst (os_makedirs (Replica, p) w) = Ok tt.
Proof.
  intros HM. unfold os_makedirs. run_m. cbn [tree rep set_trace].
  rewrite HM. reflexivity.
Qed.

Lemma files_of_cons (y : yielded) (ys : list yielded) :
  files_of (y :: ys) = files_of [y] ++ files_of ys.
Proof. unfold files_of. cbn [flat_map]. rewrite app_nil_r. reflexivity. Qed.

Section PlannerWhole.
Context {H : Xxhash}.
Variable strict : bool.
Variable w0 : world.
Hypothesis wf_source : wf (src w0) = true.
Hypothesis no_dir_at_file :
  forall q m d, at_ (src w0) q = IsFile m d -> at_ (rep w0) q <> IsDir.
Hypothesis no_file_at_dir :
  forall p m d, at_ (src w0) p = IsDir -> at_ (rep w0) p <> IsFile m d.

(** One turn of the outer loop of the planner. *)
Lemma sync_root_exact tasks (v : world) (y : yielded) :
  In y (walk_topdown [] (src w0)) ->
  planned strict w0 [] [] v ->
  (strict = true -> reads_ok v = true) ->
  exists v',
    Extended.sync_root Source Replica strict tasks y v
    = (Ok (tasks
           ++ map task_of
                (filter (queued strict (src w0) (rep w0)) (files_of [y]))),
       v')
    /\ planned strict w0 [] [] v'
    /\ (strict = true -> reads_ok v' = true).
Proof.
  intros Hy HP Hreads.
  destruct (walk_topdown_sound _ [] y wf_source Hy) as (rest & Ey & Hroot & Hfiles).
  destruct y as [[root dirs] files]. cbn [fst snd app] in *. subst rest.
  (* the directory of the replica *)
  assert (Hdir : exists v1,
            (if negb match node_at v (Replica, root) with
                     | Some _ => true
                     | None => false
                     end
             then os_makedirs (Replica, root) else ret tt) v
            = (Ok tt, v1)
            /\ planned strict w0 [] [] v1
            /\ (strict = true -> reads_ok v1 = true)).
  { unfold node_at. cbn [fst snd tree].
    destruct (lookup (rep v) root) as [n | ] eqn:Hl; cbn [negb].
    - exists v. auto.
    - destruct HP as (P1 & P2 & P3 & P4 & P5 & P6).
      destruct (mkdirs_succeeds root (rep v) Hl) as (R' & HM).
      { intros q Hq m d Hf. apply (proj1 P2) in Hf.
        exact (no_file_at_dir q m d (at_prefix_of_dir _ _ _ Hq Hroot) Hf). }
      pose proof (os_makedirs_Ok v root R' HM) as Hok.
      destruct (os_makedirs_cases v root) as (_ & Ef & _).
      destruct (os_makedirs (Replica, root) v) as [o v1] eqn:Hmk.
      cbn [fst snd] in Hok, Ef. subst o. exists v1.
      split; [reflexivity | ].
      split; [ | unfold reads_ok in *; rewrite Ef; exact Hreads].
      apply (planned_makedirs strict w0 [] [] v v1 root Hroot); [ | exact Hmk].
      exact (conj P1 (conj P2 (conj P3 (conj P4 (conj P5 P6))))). }
  destruct Hdir as (v1 & Hmk & HP1 & Hr1).
  pose proof HP1 as (P1 & P2 & P3 & _).
  destruct (sync_files_exact strict root files tasks v1) as (v' & Hrun & Es & Er & Hr');
    [ | exact Hr1 | ].
  { intros name Hname. rewrite P1. split; [exact (Hfiles name Hname) | ].
    intros Hd. destruct (Hfiles name Hname) as (m & d & Hs).
    destruct (P3 _ Hd) as [Hd0 | Hd0].
    - exact (no_dir_at_file _ _ _ Hs Hd0).
    - rewrite Hs in Hd0. discriminate. }
  exists v'. unfold Extended.sync_root, bind.
  rewrite os_path_exists_spec, Hmk, Hrun. split; [ | split; [ | exact Hr']].
  - unfold files_of. cbn [flat_map fst snd]. rewrite app_nil_r, P1.
    do 4 f_equal. apply filter_ext_in. intros q _.
    apply queued_same. intros m d. apply (proj1 P2).
  - exact (planned_same strict w0 [] [] v1 v' Es Er HP1).
Qed.

Lemma sync_roots_exact : forall ys tasks (v : world),
  (forall y, In y ys -> In y (walk_topdown [] (src w0))) ->
  planned strict w0 [] [] v ->
  (strict = true -> reads_ok v = true) ->
  exists v',
    for_fold ys tasks (Extended.sync_root Source Replica strict) v
    = (Ok (tasks
           ++ map task_of
                (filter (queued strict (src w0) (rep w0)) (files_of ys))),
       v').
Proof.
  induction ys as [ | y ys IH]; intros tasks v Hys HP Hreads.
  - exists v. cbn. rewrite app_nil_r. reflexivity.
  - destruct (sync_root_exact tasks v y (Hys y (or_introl eq_refl)) HP Hreads)
      as (v1 & Hone & HP1 & Hr1).
    destruct (IH (tasks ++ map task_of
                    (filter (queued strict (src w0) (rep w0)) (files_of [y])))
                v1) as (v' & Hrest);
      [intros z Hz; apply Hys; right; exact Hz | exact HP1 | exact Hr1 | ].
    exists v'. cbn [for_fold]. unfold bind. rewrite Hone, Hrest.
    rewrite (files_of_cons y ys), filter_app, map_app, app_assoc.
    reflexivity.
Qed.

End PlannerWhole.

(** No file of [R] stands at the path of a directory of [S]. *)
Definition no_file_for_dir (S R : node) : bool :=
  forallb (fun y : yielded =>
             match at_ R (fst (fst y)) with
             | IsFile _ _ => false
             | _ => true
             end) (walk_topdown [] S).

Lemma no_file_for_dir_spec (S R : node) :
  no_file_for_dir S R = true ->
  forall p m d, at_ S p = IsDir -> at_ R p <> IsFile m d.
Proof.
  unfold no_file_for_dir. rewrite forallb_forall. intros Hall p m d Hs Hr.
  pose proof (walk_topdown_dirs p S [] Hs) as Hin. apply in_map_iff in Hin.
  destruct Hin as (y & Ey & Hy). specialize (Hall y Hy).
  cbn [app] in Ey. rewrite Ey, Hr in Hall. discriminate.
Qed.

(** The planner of the extended script queues exactly the source files
    that need a copy, each once, in the order of the walk.  Where neither
    tree has a file at the path of a directory of the other (and, in strict
    mode, no read fails), [sync_directory] returns the tasks for the files
    of the source whose path has no file in the replica, or a file of
    another size or modification time, or, in strict mode, a file of
    another digest; the destination of each is the same path in the
    replica. *)
Theorem planner_queues_exactly {H : Xxhash} (strict : bool) (w : world) :
  wf (src w) = true ->
  (forall q m d, at_ (src w) q = IsFile m d -> at_ (rep w) q <> IsDir) ->
  (forall p m d, at_ (src w) p = IsDir -> at_ (rep w) p <> IsFile m d) ->
  (strict = true -> reads_ok w = true) ->
  let tasks := filter (queued strict (src w) (rep w)) (source_files (src w)) in
  fst (Extended.sync_directory Source Replica strict w) = Ok (map task_of tasks)
  /\ forall q,
       In q tasks
       <-> q <> [] /\ (exists m d, at_ (src w) q = IsFile m d)
           /\ queued strict (src w) (rep w) q = true.
Proof.
  intros Hw Hk1 Hk2 Hreads tasks. split.
  - destruct (sync_roots_exact strict w Hw Hk1 Hk2 (walk_topdown [] (src w)) [] w
                (fun y Hy => Hy) (planned_start strict w) Hreads) as (v' & Hrun).
    unfold Extended.sync_directory, bind, get. cbn [tree].
    rewrite Hrun. reflexivity.
  - intros q. subst tasks. rewrite filter_In, (In_source_files _ _ Hw). tauto.
Qed.

Lemma planner_queues_exactly_witness :
  let H := sample_xxhash in
  let w := sample_world sample_source sample_replica [] in
  let tasks := filter (queued true (src w) (rep w)) (source_files (src w)) in
  (wf (src w) = true
   /\ no_dir_for_file (src w) (rep w) = true
   /\ no_file_for_dir (src w) (rep w) = true
   /\ (true = true -> reads_ok w = true))
  /\ fst (Extended.sync_directory Source Replica true w) = Ok (map task_of tasks)
  /\ forall q,
       In q tasks
       <-> q <> [] /\ (exists m d, at_ (src w) q = IsFile m d)
           /\ queued true (src w) (rep w) q = true.
Proof.
  intros H w tasks.
  assert (Hsource : wf (src w) = true) by (vm_compute; reflexivity).
  assert (Hk1 : no_dir_for_file (src w) (rep w) = true)
    by (vm_compute; reflexivity).
  assert (Hk2 : no_file_for_dir (src w) (rep w) = true)
    by (vm_compute; reflexivity).
  assert (Hreads : true = true -> reads_ok w = true)
    by (intros _; vm_compute; reflexivity).
  split; [auto | ].
  exact (planner_queues_exactly true w Hsource (no_dir_for_file_spec _ _ Hk1)
           (no_file_for_dir_spec _ _ Hk2) Hreads).
Defined.

(** ** What one copy task touches *)

(** Unless a directory stands at [q], a computation changes the replica at
    [q] at most, and leaves no directory there. *)
Definition touches_only (q : path) (w w' : world) : Prop :=
  at_ (rep w) q <> IsDir -> copy_post q w w'.

Lemma touches_only_refl q w : touches_only q w w.
Proof. intros Hq. apply copy_post_same; auto. Qed.

Lemma touches_only_trans q w1 w2 w3 :
  touches_only q w1 w2 -> touches_only q w2 w3 -> touches_only q w1 w3.
Proof.
  intros H1 H2 Hq. specialize (H1 Hq).
  exact (copy_post_trans _ _ _ _ H1 (H2 (proj1 (proj2 (proj2 H1))))).
Qed.

Lemma touches_only_same_trees q {A} (m : M A) :
  steps same_trees m -> steps (touches_only q) m.
Proof.
  intros Hm w Hq. destruct (Hm w) as [Es Er].
  apply copy_post_same; assumption.
Qed.

Lemma touches_only_shutil_copy2 o q :
  steps (touches_only q) (shutil_copy2 o (Replica, q)).
Proof.
  intros w Hq.
  pose proof (keeps_wf_shutil_copy2 o q w) as Hwf.
  destruct (shutil_copy2_cases w o q) as (Es & [[Er (e & E)] | Hc]).
  - split; [exact Es | ]. rewrite Er. auto.
  - destruct Hc as (dirp & name & es & mo & d & f & Ho & Ht & Hl & Hnd & HA & Hf).
    assert (Eq : q = dirp ++ [name]).
    { unfold copy_target in Ht. cbn [fst snd tree] in Ht.
      unfold at_ in Hq. destruct (lookup (rep w) q) as [[m0 d0 | es0] | ];
        try (injection Ht as <-; reflexivity).
      exfalso. apply Hq. reflexivity. }
    assert (exists m' d', f = File m' d') as (m' & d' & Ef).
    { destruct Hf as [(_ & d' & -> & _) | (_ & t & wr & ->)]; eauto. }
    subst f. pose proof (at_put_file _ _ _ _ _ _ _ Hl Hnd HA) as Hat.
    rewrite <- Eq in Hat.
    split; [exact Es | ]. split.
    + intros q' Hq'. rewrite Hat. destruct (path_eqb q' q) eqn:E;
        [ | reflexivity].
      apply path_eqb_eq in E. contradiction.
    + split; [ | exact Hwf]. rewrite Hat.
      rewrite (proj2 (path_eqb_eq q q) eq_refl). discriminate.
Qed.

(** The world a retry loop leaves does not depend on the messages it
    returns. *)
Lemma retry_model_world {H : Xxhash} (o r : fpath) (a b a' b' : message)
    (n : nat) : forall w,
  snd (retry_model o r a b n w) = snd (retry_model o r a' b' n w).
Proof.
  induction n as [ | n IH]; intros w; cbn [retry_model]; [reflexivity | ].
  destruct (attempt o r w) as [[[ | ] | e | ] w1]; cbn [fst snd];
    try reflexivity; apply IH.
Qed.



(** ** A directory as destination *)

Section IntoDirectory.
Context {H : Xxhash}.
Variables (o : fpath) (q : path).

Lemma snoc_not_self (p : path) (name : string) : p <> p ++ [name].
Proof.
  intros E. apply (f_equal (@List.length string)) in E.
  rewrite length_app in E. cbn in E. lia.
Qed.

(** [shutil.copy2] with a directory as destination writes inside it: the
    directory stays. *)
Lemma shutil_copy2_keeps_directory (w : world) :
  at_ (rep w) q = IsDir ->
  at_ (rep (snd (shutil_copy2 o (Replica, q) w))) q = IsDir
  /\ src (snd (shutil_copy2 o (Replica, q) w)) = src w.
Proof.
  intros Hq. destruct (shutil_copy2_cases w o q) as (Es & [[Er _] | Hc]).
  - rewrite Er. auto.
  - split; [ | exact Es].
    destruct Hc as (dirp & name & es & mo & d & f & _ & Ht & Hl & Hnd & HA & Hf).
    assert (exists m' d', f = File m' d') as (m' & d' & ->).
    { destruct Hf as [(_ & d' & -> & _) | (_ & t & wr & ->)]; eauto. }
    rewrite (at_put_file _ _ _ _ _ _ _ Hl Hnd HA).
    destruct (path_eqb q (dirp ++ [name])) eqn:E; [ | exact Hq].
    apply path_eqb_eq in E. exfalso.
    unfold copy_target in Ht. cbn [fst snd tree] in Ht.
    apply at_IsDir in Hq. destruct Hq as (es0 & Hq). rewrite Hq in Ht.
    unfold os_path_join in Ht. cbn [fst snd] in Ht. injection Ht as Ht.
    rewrite <- Ht in E. exact (snoc_not_self _ _ E).
Qed.

Lemma calculate_xxhash_directory (w : world) :
  at_ (rep w) q = IsDir ->
  fst (calculate_xxhash (Replica, q) w) = Raise IsADirectoryError.
Proof.
  intros Hq. apply at_IsDir in Hq. destruct Hq as (es & Hq).
  unfold calculate_xxhash. run_m. cbn [tree rep set_trace].
  rewrite Hq. reflexivity.
Qed.

(** With a directory at the destination no attempt verifies, and the
    directory is still there after it. *)
Lemma attempt_into_directory (w : world) :
  at_ (rep w) q = IsDir ->
  ~ verifies o (Replica, q) w
  /\ at_ (rep (after_attempt o (Replica, q) w)) q = IsDir
  /\ src (after_attempt o (Replica, q) w) = src w.
Proof.
  intros Hq. destruct (shutil_copy2_keeps_directory w Hq) as [Hd Hs].
  assert (Hcopy : forall res w1,
            copy_and_hash o (Replica, q) w = (res, w1) ->
            (forall hs, res <> Ok hs)
            /\ at_ (rep w1) q = IsDir /\ src w1 = src w).
  { unfold copy_and_hash, bind. intros res w1.
    destruct (shutil_copy2 o (Replica, q) w) as [[[] | e | ] v1];
      cbn [fst snd] in *;
      try (intros [= <- <-]; split; [discriminate | auto]).
    pose proof (same_trees_calculate_xxhash o v1) as [Es2 Er2].
    destruct (calculate_xxhash o v1) as [[sh | e | ] v2]; cbn [snd] in *;
      try (intros [= <- <-]; split; [discriminate | ];
           rewrite Es2, Er2; auto).
    assert (Hq2 : at_ (rep v2) q = IsDir) by (rewrite Er2; exact Hd).
    pose proof (calculate_xxhash_directory v2 Hq2) as Hraise.
    pose proof (same_trees_calculate_xxhash (Replica, q) v2) as [Es3 Er3].
    destruct (calculate_xxhash (Replica, q) v2) as [[rh | e | ] v3];
      cbn [fst snd] in *; try discriminate Hraise.
    intros [= <- <-]. split; [discriminate | ].
    rewrite Es3, Er3, Es2. auto. }
  split.
  - intros (h & w1 & Hv). destruct (Hcopy _ _ Hv) as [Hno _].
    exact (Hno (h, h) eq_refl).
  - unfold after_attempt, attempt, try_except, bind.
    destruct (copy_and_hash o (Replica, q) w) as [res w1] eqn:Hrun.
    destruct (Hcopy _ _ eq_refl) as (Hno & Hd1 & Hs1).
    destruct res as [hs | e | ]; [exfalso; exact (Hno hs eq_refl) | | ];
      cbn [fst snd]; [ | auto].
    destruct (is_Exception e); run_m; cbn [rep src set_trace]; auto.
Qed.

Lemma attempts_into_directory (k : nat) : forall (w : world),
  at_ (rep w) q = IsDir ->
  at_ (rep (Nat.iter k (after_attempt o (Replica, q)) w)) q = IsDir
  /\ src (Nat.iter k (after_attempt o (Replica, q)) w) = src w.
Proof.
  induction k as [ | k IH]; intros w Hq; [cbn; auto | ].
  rewrite iter_after_attempt_succ.
  destruct (attempt_into_directory w Hq) as (_ & Hd & Hs).
  destruct (IH _ Hd) as [Hd' Hs']. split; [exact Hd' | congruence].
Qed.

End IntoDirectory.

(** A copy task whose destination is a directory of the replica always
    fails.  Each of the four attempts either raises in [shutil.copy2] or
    copies the file into that directory and then fails to read the
    directory for its digest; [copy_validate] returns the failure message,
    the directory is still there and the source is as before.  Both
    scripts. *)
Theorem copy_validate_into_directory_fails {H : Xxhash} (w : world)
    (o : fpath) (q : path) (check : Z) :
  at_ (rep w) q = IsDir ->
  let res := Extended.copy_validate o (Replica, q) w in
  fst res = Ok (MsgFailed o max_retries)
  /\ fst (Simple.copy_validate o (Replica, q) check w)
     = Ok (MsgFailed o max_retries)
  /\ attempts_made (trace (snd res)) = (attempts_made (trace w) + 4)%nat
  /\ at_ (rep (snd res)) q = IsDir
  /\ src (snd res) = src w.
Proof.
  intros Hq res. subst res.
  assert (Hnone : forall k, (k < 4)%nat ->
            ~ verifies o (Replica, q)
                (Nat.iter k (after_attempt o (Replica, q)) w)).
  { intros k _. destruct (attempts_into_directory o q k w Hq) as [Hd _].
    exact (proj1 (attempt_into_directory o q _ Hd)). }
  rewrite extended_copy_validate_model, simple_copy_validate_model.
  rewrite !(retry_model_failed o (Replica, q) _ _ 4 w Hnone). cbn [fst snd].
  split; [reflexivity | ]. split; [reflexivity | ].
  split; [apply attempts_iter_after_attempt | ].
  exact (attempts_into_directory o q 4 w Hq).
Qed.

Lemma copy_validate_into_directory_fails_witness :
  let H := sample_xxhash in
  let w := sample_world kinds_source kinds_replica [] in
  let o := (Source, ["y"%string]) in
  let q := ["y"%string] in
  let res := Extended.copy_validate o (Replica, q) w in
  at_ (rep w) q = IsDir
  /\ fst res = Ok (MsgFailed o max_retries)
  /\ fst (Simple.copy_validate o (Replica, q) 1 w)
     = Ok (MsgFailed o max_retries)
  /\ attempts_made (trace (snd res)) = (attempts_made (trace w) + 4)%nat
  /\ at_ (rep (snd res)) q = IsDir
  /\ src (snd res) = src w.
Proof.
  intros H w o q res.
  assert (Hq : at_ (rep w) q = IsDir) by (vm_compute; reflexivity).
  split; [exact Hq | ].
  exact (copy_validate_into_directory_fails w o q 1 Hq).
Defined.

(** * The checks on the inputs

    [unit_conv], [check_paths] and [validate_inputs] of the two scripts.
    They decide whether the script goes on or ends with [sys.exit(0)]; what
    they print to the console is not part of the world. *)

(** The Python values these functions compare: strings and tuples. *)
Inductive pyval :=
| PyStr (s : string)
| PyTuple (items : list pyval).

(** [a == b]: a string equals a string of the same characters, a tuple a
    tuple of equal items; a string never equals a tuple. *)
Fixpoint py_eq (a b : pyval) : bool :=
  match a, b with
  | PyStr s, PyStr t => String.eqb s t
  | PyTuple xs, PyTuple ys =>
      (fix all2 (xs ys : list pyval) : bool :=
         match xs, ys with
         | [], [] => true
         | x :: xs', y :: ys' => py_eq x y && all2 xs' ys'
         | _, _ => false
         end) xs ys
  | _, _ => false
  end.

(** [x in (a, b, ...)]. *)
Definition py_in (x : pyval) (items : list pyval) : bool :=
  existsb (fun y => py_eq x y) items.

(** An argument that is a string (from the IDE or the GUI) or already a
    number (from [argparse] with [type=int]). *)
Inductive intarg :=
| Text (s : string)
| Number (z : Z).

Definition sys_exit {A} (code : Z) : M A := raise (SystemExit code).

Definition newline : string := String (Ascii.ascii_of_nat 10) EmptyString.

Section Host.
(** The host: [os.path.isdir], [os.path.dirname], and whether [int]
    accepts a string. *)
Variable isdir : string -> bool.
Variable dirname : string -> string.
Variable int_accepts : string -> bool.

(** [try: int(x)] with [except ValueError: ...; sys.exit(0)]. *)
Definition int_or_exit (x : intarg) : M unit :=
  match x with
  | Number _ => ret tt
  | Text s => if int_accepts s then ret tt else sys_exit 0
  end.

(** [check_paths] is the same in the two scripts. *)
Definition check_paths (source replica log : string) : M bool :=
  let message := EmptyString in
  let message :=
    if negb (isdir source)
    then (message ++ "Source Folder" ++ newline)%string else message in
  let message :=
    if negb (isdir replica)
    then (message ++ "Replica Folder" ++ newline)%string else message in
  let message :=
    if negb (isdir (dirname log))
    then (message ++ "Log" ++ newline)%string else message in
  if negb (String.eqb message EmptyString) then sys_exit 0
  else if String.eqb source replica then sys_exit 0
  else ret true.

End Host.

Module ExtendedInputs.

Definition unit_conv (unit : string) : M string :=
  if py_in (PyStr unit) [PyStr "minutes"; PyStr "m"] then ret "MINUTE"%string
  else if py_eq (PyStr unit) (PyTuple [PyStr "hours"; PyStr "h"])
  then ret "HOURLY"%string
  else if py_eq (PyStr unit) (PyTuple [PyStr "days"; PyStr "d"])
  then ret "DAILY"%string
  else if py_eq (PyStr unit) (PyTuple [PyStr "weeks"; PyStr "w"])
  then ret "WEEKLY"%string
  else if py_eq (PyStr unit) (PyTuple [PyStr "months"; PyStr "mo"])
  then ret "MONTHLY"%string
  else sys_exit 0.

Section Checks.
Variable isdir : string -> bool.
Variable dirname : string -> string.
Variable int_accepts : string -> bool.

Definition validate_inputs (source replica log : string) (interval : intarg)
    (unit : string) (procnum : intarg) (now : string)
  : M Datatypes.unit :=
  check_paths isdir dirname source replica log ;;
  int_or_exit int_accepts interval ;;
  unit_conv unit ;;
  int_or_exit int_accepts procnum ;;
  if negb (py_in (PyStr now) [PyStr "0"; PyStr "1"; PyStr "2"])
  then sys_exit 0
  else ret tt.

End Checks.
End ExtendedInputs.

Module SimpleInputs.

Definition unit_conv (unit : string) : M string :=
  if py_in (PyStr unit) [PyStr "minutes"; PyStr "m"] then ret "MINUTES"%string
  else if py_eq (PyStr unit) (PyTuple [PyStr "hours"; PyStr "h"])
  then ret "HOURS"%string
  else if py_eq (PyStr unit) (PyTuple [PyStr "days"; PyStr "d"])
  then ret "DAYS"%string
  else sys_exit 0.

Section Checks.
Variable isdir : string -> bool.
Variable dirname : string -> string.
Variable int_accepts : string -> bool.

Definition validate_inputs (source replica log : string) (interval : intarg)
    (unit : string) (now : string) : M Datatypes.unit :=
  check_paths isdir dirname source replica log ;;
  int_or_exit int_accepts interval ;;
  unit_conv unit ;;
  if negb (py_in (PyStr now) [PyStr "0"; PyStr "1"; PyStr "2"])
  then sys_exit 0
  else ret tt.

End Checks.
End SimpleInputs.

(** ** The unit of the interval *)

Definition is_minutes (unit : string) : bool :=
  String.eqb unit "minutes" || String.eqb unit "m".

Lemma extended_unit_conv_spec (unit : string) (w : world) :
  ExtendedInputs.unit_conv unit w
  = (if is_minutes unit then Ok "MINUTE"%string else Raise (SystemExit 0), w).
Proof.
  unfold ExtendedInputs.unit_conv, is_minutes, py_in.
  cbn [existsb py_eq]. rewrite orb_false_r.
  destruct (String.eqb unit "minutes" || String.eqb unit "m"); reflexivity.
Qed.

Lemma simple_unit_conv_spec (unit : string) (w : world) :
  SimpleInputs.unit_conv unit w
  = (if is_minutes unit then Ok "MINUTES"%string else Raise (SystemExit 0), w).
Proof.
  unfold SimpleInputs.unit_conv, is_minutes, py_in.
  cbn [existsb py_eq]. rewrite orb_false_r.
  destruct (String.eqb unit "minutes" || String.eqb unit "m"); reflexivity.
Qed.

(** [unit_conv] accepts minutes only.  The tests for the other units
    compare the string with a tuple, which is never equal: for ["minutes"]
    and ["m"] the function returns (["MINUTE"] in the extended script,
    ["MINUTES"] in the simple one); for every other string, ["hours"],
    ["h"], ["days"], ["d"], ["weeks"] and ["months"] among them, it leaves
    with [sys.exit(0)]. *)
Theorem unit_conv_accepts_minutes_only (unit : string) (w : world) :
  (unit = "minutes"%string \/ unit = "m"%string ->
   ExtendedInputs.unit_conv unit w = (Ok "MINUTE"%string, w)
   /\ SimpleInputs.unit_conv unit w = (Ok "MINUTES"%string, w))
  /\ (unit <> "minutes"%string -> unit <> "m"%string ->
      ExtendedInputs.unit_conv unit w = (Raise (SystemExit 0), w)
      /\ SimpleInputs.unit_conv unit w = (Raise (SystemExit 0), w))
  /\ (forall other,
        In other ["hours"; "h"; "days"; "d"; "weeks"; "w"; "months"; "mo"]%string ->
        ExtendedInputs.unit_conv other w = (Raise (SystemExit 0), w)
        /\ SimpleInputs.unit_conv other w = (Raise (SystemExit 0), w)).
Proof.
  rewrite extended_unit_conv_spec, simple_unit_conv_spec.
  split; [ | split].
  - intros [-> | ->]; split; reflexivity.
  - intros H1 H2. unfold is_minutes.
    apply String.eqb_neq in H1, H2. rewrite H1, H2. split; reflexivity.
  - intros other Hin. rewrite extended_unit_conv_spec, simple_unit_conv_spec.
    cbn [In] in Hin.
    repeat (destruct Hin as [<- | Hin]; [split; reflexivity | ]).
    contradiction.
Qed.

(** ** The checks as a whole *)

Definition accepts (int_accepts : string -> bool) (x : intarg) : bool :=
  match x with
  | Number _ => true
  | Text s => int_accepts s
  end.

Lemma check_paths_spec isdir dirname (source replica log : string) (w : world) :
  check_paths isdir dirname source replica log w
  = (if isdir source && isdir replica && isdir (dirname log)
        && negb (String.eqb source replica)
     then Ok true else Raise (SystemExit 0), w).
Proof.
  unfold check_paths.
  destruct (isdir source), (isdir replica), (isdir (dirname log));
    cbn [negb andb]; try reflexivity.
  destruct (String.eqb source replica); reflexivity.
Qed.

Lemma int_or_exit_spec int_accepts (x : intarg) (w : world) :
  int_or_exit int_accepts x w
  = (if accepts int_accepts x then Ok tt else Raise (SystemExit 0), w).
Proof.
  destruct x as [s | z]; cbn; [ | reflexivity].
  destruct (int_accepts s); reflexivity.
Qed.

(** [validate_inputs] lets the script go on exactly when: the source, the
    replica and the folder of the log file are directories, source and
    replica are not the same string, the interval (and, in the extended
    script, the number of processes) is a number or a string [int]
    accepts, the unit is ["minutes"] or ["m"], and [now] is ["0"], ["1"]
    or ["2"].  In every other case it leaves with [sys.exit(0)], exit
    status zero.  It changes nothing. *)
Theorem validate_inputs_contract (isdir : string -> bool)
    (dirname : string -> string) (int_accepts : string -> bool)
    (source replica log : string) (interval procnum : intarg)
    (unit now : string) (w : world) :
  let paths_ok :=
    isdir source && isdir replica && isdir (dirname log)
    && negb (String.eqb source replica) in
  let now_ok :=
    String.eqb now "0" || String.eqb now "1" || String.eqb now "2" in
  ExtendedInputs.validate_inputs isdir dirname int_accepts
    source replica log interval unit procnum now w
  = (if paths_ok && accepts int_accepts interval && is_minutes unit
        && accepts int_accepts procnum && now_ok
     then Ok tt else Raise (SystemExit 0), w)
  /\ SimpleInputs.validate_inputs isdir dirname int_accepts
       source replica log interval unit now w
     = (if paths_ok && accepts int_accepts interval && is_minutes unit
           && now_ok
        then Ok tt else Raise (SystemExit 0), w).
Proof.
  intros paths_ok now_ok. subst paths_ok now_ok.
  unfold ExtendedInputs.validate_inputs, SimpleInputs.validate_inputs, bind.
  rewrite check_paths_spec, !int_or_exit_spec.
  destruct (isdir source && isdir replica && isdir (dirname log)
            && negb (String.eqb source replica)); cbn [andb];
    [ | split; reflexivity].
  destruct (accepts int_accepts interval); cbn [andb]; [ | split; reflexivity].
  rewrite extended_unit_conv_spec, simple_unit_conv_spec.
  destruct (is_minutes unit); cbn [andb]; [ | split; reflexivity].
  rewrite int_or_exit_spec. unfold py_in. cbn [existsb py_eq].
  rewrite orb_false_r, orb_assoc.
  destruct (accepts int_accepts procnum); cbn [andb];
    destruct (String.eqb now "0" || String.eqb now "1" || String.eqb now "2");
    split; reflexivity.
Qed.

(** * The simple script: a pass and the pass after it *)

(** ** The traversal decides like the planner *)

(** The second component of what [Simple.modified_check] returns. *)
Definition existed (w : world) (replica_file : fpath) : Z :=
  match node_at w replica_file with Some _ => 1 | None => 0 end.

(** For each file the simple script takes the decision of the planner of
    the extended script, and copies on the spot when the planner would
    queue. *)
Lemma simple_sync_file_decides {H : Xxhash} (strict : bool) (s r : fpath)
    (w : world) :
  Simple.sync_file strict s r w
  = (tasks <- Extended.sync_file strict s r [] ;;
     match tasks with
     | [] => ret tt
     | _ :: _ =>
         result <- Simple.copy_validate s r (existed w r) ;;
         log_info result
     end) w.
Proof.
  unfold existed.
  destruct strict;
    unfold Simple.sync_file, Extended.sync_file, Simple.modified_check,
      Extended.modified_check, bind; cbv beta;
    rewrite !os_path_exists_spec;
    (destruct (node_at w r) as [n | ]; cbn [negb fst snd];
     [ | reflexivity]);
    (destruct (os_stat s w) as [[ss | e | ] w1]; [ | reflexivity ..]);
    (destruct (os_stat r w1) as [[rs | e | ] w2]; [ | reflexivity ..]);
    destruct (negb (st_size ss =? st_size rs)
              || negb (st_mtime ss =? st_mtime rs));
    unfold ret; cbn [fst snd negb app]; try reflexivity.
  destruct (calculate_xxhash s w2) as [[sh | e | ] w3]; try reflexivity.
  destruct (calculate_xxhash r w3) as [[rh | e | ] w4]; try reflexivity.
  destruct (negb (String.eqb sh rh)); reflexivity.
Qed.

(** ** The first pass *)

Lemma plan_event_no_failure (e : event) :
  is_plan_event e = true -> copy_failed e = false.
Proof. destruct e; cbn; congruence. Qed.

Lemma adds_no_failure (f : event -> bool) (v v' : world) :
  (forall e, f e = true -> copy_failed e = false) ->
  adds_b f v v' ->
  exists t, trace v' = trace v ++ t /\ existsb copy_failed t = false.
Proof.
  intros Hf (t & Et & Hall). exists t. split; [exact Et | ].
  apply existsb_false_all. rewrite Forall_forall in Hall.
  intros e He. apply Hf, Hall, He.
Qed.

Definition is_attempt_event (e : event) : bool :=
  match e with
  | EvCopy2 _ _ | EvXxhash _ | EvError _ => true
  | _ => false
  end.

Lemma simple_copy_validate_events {H : Xxhash} o r check :
  steps (adds_b is_attempt_event) (Simple.copy_validate o r check).
Proof.
  apply steps_simple_copy_validate;
    [apply adds_b_refl | apply adds_b_trans | | | ]; auto with steps_db.
Qed.

Lemma since_app (w0 v : world) t :
  trace v = trace w0 ++ t -> since w0 v = t.
Proof. intros E. unfold since. rewrite E. apply skipn_length_app. Qed.

Section SimpleFirstPass.
Context {H : Xxhash}.
Variable strict : bool.
Variable w0 : world.
Hypothesis wf_source : wf (src w0) = true.
Hypothesis kinds :
  forall q m d, at_ (src w0) q = IsFile m d -> at_ (rep w0) q <> IsDir.

(** The triple names a directory of the source and files of it. *)
Definition sound (y : yielded) : Prop :=
  at_ (src w0) (fst (fst y)) = IsDir
  /\ Forall (fun name =>
               exists m d, at_ (src w0) (fst (fst y) ++ [name]) = IsFile m d)
       (snd y).

(** What holds once the traversal has handled the triples [done]; the
    last of them may list only the files handled so far. *)
Definition traversed (done : list yielded) (v : world) : Prop :=
  src v = src w0
  /\ (forall q, at_ (rep v) q = IsDir ->
                at_ (rep w0) q = IsDir \/ at_ (src w0) q = IsDir)
  /\ (wf (rep w0) = true -> wf (rep v) = true)
  /\ Forall sound done
  /\ (exists t, trace v = trace w0 ++ t)
  /\ (existsb copy_failed (since w0 v) = false ->
      Forall (settled strict [] v) done).

Lemma traversed_start : traversed [] w0.
Proof.
  split; [reflexivity | ]. split; [auto | ]. split; [auto | ].
  split; [constructor | ]. split; [ | constructor].
  exists []. rewrite app_nil_r. reflexivity.
Qed.

Lemma traversed_same done (v v' : world) :
  traversed done v ->
  src v' = src v -> rep v' = rep v ->
  (exists t1, trace v' = trace v ++ t1) ->
  traversed done v'.
Proof.
  intros (T1 & T2 & T3 & T4 & (t & Et) & T6) Es Er (t1 & Et1).
  unfold traversed. rewrite Es, Er.
  split; [exact T1 | ]. split; [exact T2 | ]. split; [exact T3 | ].
  split; [exact T4 | ]. split.
  { exists (t ++ t1). rewrite Et1, Et, app_assoc. reflexivity. }
  intros Hnf. rewrite (since_app w0 v' (t ++ t1)) in Hnf
    by (rewrite Et1, Et, app_assoc; reflexivity).
  rewrite existsb_app in Hnf. apply orb_false_iff in Hnf.
  rewrite (since_app w0 v t Et) in T6.
  eapply Forall_impl; [ | exact (T6 (proj1 Hnf))].
  intros y. apply settled_same; assumption.
Qed.

Lemma traversed_makedirs done (v v' : world) (root : path) :
  at_ (src w0) root = IsDir ->
  traversed done v ->
  os_makedirs (Replica, root) v = (Ok tt, v') ->
  traversed done v' /\ at_ (rep v') root = IsDir.
Proof.
  intros Hroot (T1 & T2 & T3 & T4 & (t & Et) & T6) Hrun.
  destruct (os_makedirs_cases v root) as (Es & _ & Etr & [[_ (e & E & _)] | [_ HM]]);
    rewrite Hrun in *; cbn [fst snd] in *; [discriminate | ].
  pose proof (at_mkdirs _ _ _ HM) as Hat.
  pose proof (only_new_dirs_os_makedirs root v) as Hn.
  rewrite Hrun in Hn. cbn [snd] in Hn.
  split; [ | rewrite Hat, is_prefix_refl; reflexivity].
  split; [congruence | ]. split.
  { intros q Hq. rewrite Hat in Hq. destruct (is_prefix q root) eqn:Ep.
    - right. exact (at_prefix_of_dir _ _ _ Ep Hroot).
    - apply T2. exact Hq. }
  split; [intros Hw; exact (wf_mkdirs _ _ _ (T3 Hw) HM) | ].
  split; [exact T4 | ]. split.
  { exists (t ++ [EvMakedirs (Replica, root)]).
    rewrite Etr, Et, app_assoc. reflexivity. }
  intros Hnf.
  rewrite (since_app w0 v' (t ++ [EvMakedirs (Replica, root)])) in Hnf
    by (rewrite Etr, Et, app_assoc; reflexivity).
  rewrite existsb_app in Hnf. apply orb_false_iff in Hnf.
  rewrite (since_app w0 v t Et) in T6.
  eapply Forall_impl; [ | exact (T6 (proj1 Hnf))].
  intros y. apply settled_grown; assumption.
Qed.

(** One file copied on the spot, and its result logged. *)
Lemma traversed_copy done (v v1 : world) (q : path) m d check msg :
  traversed done v ->
  at_ (src w0) q = IsFile m d ->
  Simple.copy_validate (Source, q) (Replica, q) check v = (Ok msg, v1) ->
  let v' := set_trace (trace v1 ++ [EvInfo msg]) v1 in
  traversed done v'
  /\ (existsb copy_failed (since w0 v') = false -> in_sync strict v' q).
Proof.
  intros (T1 & T2 & T3 & T4 & (t & Et) & T6) Hs Hrun v'.
  assert (Hnd : at_ (rep v) q <> IsDir).
  { intros Hd. destruct (T2 q Hd) as [Hd0 | Hd0].
    - exact (kinds _ _ _ Hs Hd0).
    - rewrite Hs in Hd0. discriminate. }
  assert (Hsv : at_ (src v) q = IsFile m d) by (rewrite T1; exact Hs).
  destruct (simple_copy_validate_events (Source, q) (Replica, q) check v)
    as (ta & Eta & _).
  rewrite simple_copy_validate_model in Hrun.
  destruct (retry_model_post q (simple_success (Replica, q) check)
              (MsgFailed (Source, q) max_retries) 4 v m d Hnd Hsv)
    as [(Es & Ho & Hd & Hw) Hout].
  rewrite simple_copy_validate_model in Eta.
  destruct (retry_model _ _ _ _ _ _) as [msg0 v0]. cbn [fst snd] in *.
  injection Hrun as -> ->.
  assert (Etr : trace v' = trace w0 ++ (t ++ ta ++ [EvInfo msg])).
  { subst v'. cbn [trace set_trace]. rewrite Eta, Et, <- !app_assoc.
    reflexivity. }
  assert (Hgood : existsb copy_failed (since w0 v') = false ->
                  Forall (settled strict [] v) done /\ in_sync true v1 q).
  { intros Hnf. rewrite (since_app w0 v' _ Etr), !existsb_app in Hnf.
    apply orb_false_iff in Hnf. destruct Hnf as [Hn1 Hnf].
    apply orb_false_iff in Hnf. destruct Hnf as [_ Hn3].
    cbn [existsb] in Hn3. rewrite orb_false_r in Hn3.
    rewrite (since_app w0 v t Et) in T6. split; [exact (T6 Hn1) | ].
    destruct Hout as [-> | Hsync]; [ | exact Hsync].
    cbn in Hn3. discriminate. }
  assert (Hsync' : in_sync true v1 q -> in_sync strict v' q).
  { intros Hsync. apply in_sync_strict.
    exact (in_sync_same true v1 v' q eq_refl eq_refl Hsync). }
  split; [ | intros Hnf; exact (Hsync' (proj2 (Hgood Hnf)))].
  split; [exact (eq_trans Es T1) | ]. split.
  { intros q' Hq'. change (rep v') with (rep v1) in Hq'.
    destruct (list_eq_dec string_dec q' q) as [-> | Hne]; [contradiction | ].
    rewrite (Ho q' Hne) in Hq'. exact (T2 q' Hq'). }
  split; [auto | ]. split; [exact T4 | ]. split; [eauto | ].
  intros Hnf. destruct (Hgood Hnf) as [Hall Hsync].
  rewrite Forall_forall in Hall, T4. apply Forall_forall. intros y Hy.
  destruct (Hall y Hy) as [Hroot Hfiles]. destruct (T4 y Hy) as [Sroot Sfiles].
  split.
  - change (rep v') with (rep v1). rewrite Ho; [exact Hroot | ].
    intros E. rewrite E, Hs in Sroot. discriminate.
  - rewrite Forall_forall in Hfiles. apply Forall_forall. intros name Hname.
    left. destruct (list_eq_dec string_dec (fst (fst y) ++ [name]) q)
      as [E | Hne].
    + rewrite E. exact (Hsync' Hsync).
    + destruct (Hfiles name Hname) as [(m' & d' & d'' & B1 & B2 & B3 & B4) | []].
      exists m', d', d''. change (src v') with (src v1).
      change (rep v') with (rep v1). rewrite Es, (Ho _ Hne). auto.
Qed.

(** The last triple gains a file that is in the replica. *)
Lemma traversed_extend done (root : path) ds seen name (v : world) m d :
  traversed (done ++ [(root, ds, seen)]) v ->
  at_ (src w0) (root ++ [name]) = IsFile m d ->
  (existsb copy_failed (since w0 v) = false ->
   in_sync strict v (root ++ [name])) ->
  traversed (done ++ [(root, ds, seen ++ [name])]) v.
Proof.
  intros (T1 & T2 & T3 & T4 & T5 & T6) Hs Hsync.
  split; [exact T1 | ]. split; [exact T2 | ]. split; [exact T3 | ].
  apply Forall_app in T4. destruct T4 as [T4 T4'].
  inversion T4' as [ | ? ? [Sroot Sfiles] _]; subst.
  split.
  { apply Forall_app. split; [exact T4 | ].
    constructor; [ | constructor]. split; [exact Sroot | ].
    cbn [fst snd] in *. apply Forall_app. split; [exact Sfiles | ].
    constructor; [eauto | constructor]. }
  split; [exact T5 | ].
  intros Hnf. specialize (T6 Hnf). apply Forall_app in T6.
  destruct T6 as [T6 T6']. inversion T6' as [ | ? ? [Hroot Hfiles] _]; subst.
  apply Forall_app. split; [exact T6 | ].
  constructor; [ | constructor]. split; [exact Hroot | ].
  cbn [fst snd] in *. apply Forall_app. split; [exact Hfiles | ].
  constructor; [ | constructor]. left. exact (Hsync Hnf).
Qed.

Lemma traversed_sync_file done (root : path) ds seen name (v v' : world) m d :
  traversed (done ++ [(root, ds, seen)]) v ->
  at_ (src w0) (root ++ [name]) = IsFile m d ->
  Simple.sync_file strict (Source, root ++ [name]) (Replica, root ++ [name]) v
  = (Ok tt, v') ->
  traversed (done ++ [(root, ds, seen ++ [name])]) v'.
Proof.
  intros HT Hs Hrun. rewrite simple_sync_file_decides in Hrun.
  apply bind_Ok in Hrun. destruct Hrun as (tasks & v1 & Hplan & Hrun).
  assert (Hnd : at_ (rep v) (root ++ [name]) <> IsDir).
  { intros Hd. destruct HT as (_ & T2 & _). destruct (T2 _ Hd) as [Hd0 | Hd0].
    - exact (kinds _ _ _ Hs Hd0).
    - rewrite Hs in Hd0. discriminate. }
  assert (Hsv : at_ (src v) (root ++ [name]) = IsFile m d)
    by (rewrite (proj1 HT); exact Hs).
  destruct (sync_file_settles strict v _ m d [] tasks v1 Hsv Hnd Hplan)
    as (Es & Er & Hcase).
  destruct (plans_only_sync_file strict (Source, root ++ [name])
              (Replica, root ++ [name]) [] v) as (_ & _ & _ & (t1 & Et1 & _)).
  rewrite Hplan in Et1. cbn [snd] in Et1.
  pose proof (traversed_same _ v v1 HT Es Er (ex_intro _ t1 Et1)) as HT1.
  destruct Hcase as [[-> Hsync] | ->].
  - apply ret_Ok in Hrun. destruct Hrun as [_ ->].
    apply (traversed_extend _ _ _ _ _ _ m d HT1 Hs). intros _.
    exact (in_sync_same strict v v1 _ Es Er Hsync).
  - cbn [app] in Hrun. apply bind_Ok in Hrun.
    destruct Hrun as (msg & v2 & Hcopy & Hlog).
    unfold log_info, emit in Hlog. injection Hlog as <-.
    destruct (traversed_copy _ v1 v2 _ m d _ msg HT1 Hs Hcopy) as [HT2 Hsync].
    exact (traversed_extend _ _ _ _ _ _ m d HT2 Hs Hsync).
Qed.

Lemma traversed_sync_root done (v v' : world) (y : yielded) :
  In y (walk_topdown [] (src w0)) ->
  traversed done v ->
  Simple.sync_root Source Replica strict y v = (Ok tt, v') ->
  traversed (done ++ [y]) v'.
Proof.
  intros Hy HT Hrun.
  destruct (walk_topdown_sound _ [] y wf_source Hy) as (rest & Ey & Hroot & Hfiles).
  destruct y as [[root dirs] files]. cbn [fst snd app] in *. subst rest.
  unfold Simple.sync_root in Hrun.
  apply bind_Ok in Hrun. destruct Hrun as (e & w1 & He & Hrun).
  rewrite os_path_exists_spec in He. injection He as <- <-.
  apply bind_Ok in Hrun. destruct Hrun as ([] & v1 & Hmk & Hrun).
  assert (HT1 : traversed done v1 /\ at_ (rep v1) root <> Absent).
  { unfold node_at in Hmk. cbn [fst snd tree] in Hmk.
    destruct (lookup (rep v) root) as [n | ] eqn:Hl; cbn [negb] in Hmk.
    - apply ret_Ok in Hmk. destruct Hmk as [_ ->]. split; [exact HT | ].
      unfold at_. rewrite Hl. destruct n; discriminate.
    - destruct (traversed_makedirs _ _ _ _ Hroot HT Hmk) as [HT1 Hd].
      split; [exact HT1 | rewrite Hd; discriminate]. }
  clear Hmk HT. destruct HT1 as [(T1 & T2 & T3 & T4 & T5 & T6) Hpresent].
  assert (Hopen : traversed (done ++ [(root, dirs, [])]) v1).
  { split; [exact T1 | ]. split; [exact T2 | ]. split; [exact T3 | ].
    split.
    { apply Forall_app. split; [exact T4 | ].
      constructor; [ | constructor]. split; [exact Hroot | constructor]. }
    split; [exact T5 | ]. intros Hnf. apply Forall_app.
    split; [exact (T6 Hnf) | ].
    constructor; [ | constructor]. split; [exact Hpresent | constructor]. }
  pose (I := fun (seen : list string) (u : world) =>
               traversed (done ++ [(root, dirs, seen)]) u).
  refine (for_each_inv _ I files [] v1 v' _ Hopen Hrun).
  intros seen name u u' Hname HI Hone.
  destruct (Hfiles name Hname) as (m & d & Hs).
  unfold os_path_join in Hone. cbn [fst snd] in Hone.
  exact (traversed_sync_file _ _ _ _ _ _ _ m d HI Hs Hone).
Qed.

Lemma traversed_sync_directory (wt : world) :
  Simple.sync_directory Source Replica strict w0 = (Ok tt, wt) ->
  traversed (walk_topdown [] (src w0)) wt.
Proof.
  unfold Simple.sync_directory. intros Hrun.
  apply bind_Ok in Hrun. destruct Hrun as (v & w1 & Hg & Hrun).
  injection Hg as <- <-. cbn [tree] in Hrun.
  refine (for_each_inv _ traversed _ [] w0 wt _ traversed_start Hrun).
  intros done y v v' Hy. apply traversed_sync_root. exact Hy.
Qed.

End SimpleFirstPass.

(** Reconciliation after a traversal that has settled every file. *)
Lemma reconciled_mirrors {H : Xxhash} (strict : bool) (wc w1 : world) :
  wf (src wc) = true ->
  wf (rep wc) = true ->
  Forall (settled strict [] wc) (walk_topdown [] (src wc)) ->
  Extended.cleanup_replica Source Replica wc = (Ok tt, w1) ->
  mirrored strict w1 /\ src w1 = src wc
  /\ exists t, trace w1 = trace wc ++ t.
Proof.
  intros Hws Hwr Hall Hclean.
  destruct (cleanup_replica_spec wc Hwr) as (w' & Hrun & (Es & _ & Etr) & Hat & Hwf).
  rewrite Hclean in Hrun. injection Hrun as <-.
  assert (Hkeep : forall q, at_ (src wc) q <> Absent ->
                            at_ (rep w1) q = at_ (rep wc) q).
  { intros q Hq. rewrite Hat, at_prune. destruct q as [ | b q]; [reflexivity | ].
    rewrite (proj2 (source_has_at _ _)); [reflexivity | exact Hq]. }
  split; [ | split; [exact Es | eauto]].
  split; [ | split; [ | exact Hwf]].
  - rewrite Es. apply Forall_forall. intros y Hy.
    rewrite Forall_forall in Hall. destruct (Hall y Hy) as [Hroot Hfiles].
    destruct (walk_topdown_sound _ [] y Hws Hy) as (rest & Ey & Hdir & Hsrc).
    cbn [app] in Ey. rewrite <- Ey in Hdir, Hsrc. split.
    + rewrite Hkeep by (rewrite Hdir; discriminate). exact Hroot.
    + apply Forall_forall. intros name Hname. left.
      rewrite Forall_forall in Hfiles.
      destruct (Hfiles name Hname) as [(m & d & d' & G1 & G2 & G3 & G4) | []].
      exists m, d, d'. rewrite Es, Hkeep; [auto | ].
      rewrite G1. discriminate.
  - intros q Hq. rewrite Hat, at_prune. destruct q as [ | b q]; [contradiction | ].
    destruct (source_has _ _) eqn:E; [ | contradiction].
    intros _. apply source_has_at in E. rewrite Es. exact E.
Qed.

Lemma simple_first_pass_mirrors {H : Xxhash} (strict : bool) (w w1 : world) :
  wf (src w) = true ->
  wf (rep w) = true ->
  (forall q m d, at_ (src w) q = IsFile m d -> at_ (rep w) q <> IsDir) ->
  Simple.synchronization Source Replica strict w = (Ok tt, w1) ->
  existsb copy_failed (since w w1) = false ->
  mirrored strict w1 /\ src w1 = src w.
Proof.
  intros Hws Hwr Hk Hrun Hnf.
  apply simple_synchronization_Ok in Hrun. destruct Hrun as (v & Hrun & ->).
  change (existsb copy_failed (since w v) = false) in Hnf.
  change (mirrored strict v /\ src v = src w).
  revert Hrun Hnf. generalize v. clear v. intros w1 Hrun Hnf.
  unfold simple_phases in Hrun.
  apply bind_Ok in Hrun. destruct Hrun as ([] & wt & Hwalk & Hclean).
  rewrite simple_cleanup_replica in Hclean.
  destruct (traversed_sync_directory strict w Hws Hk wt Hwalk)
    as (T1 & T2 & T3 & T4 & (t & Et) & T6).
  assert (Hwst : wf (src wt) = true) by (rewrite T1; exact Hws).
  assert (Hall : Forall (settled strict [] wt) (walk_topdown [] (src wt))).
  { rewrite T1. apply T6. rewrite (since_app w wt t Et).
    destruct (cleanup_replica_spec wt (T3 Hwr)) as (w' & Hrun & (_ & _ & Etr) & _).
    rewrite Hclean in Hrun. injection Hrun as <-.
    rewrite (since_app w w1 (t ++ removal_events (Some (src wt)) [] (rep wt)))
      in Hnf by (rewrite Etr, Et, app_assoc; reflexivity).
    rewrite existsb_app in Hnf. apply orb_false_iff in Hnf. exact (proj1 Hnf). }
  destruct (reconciled_mirrors strict wt w1 Hwst (T3 Hwr) Hall Hclean)
    as (HM & Es & _).
  split; [exact HM | congruence].
Qed.

(** ** The second pass *)

Section SimpleIdle.
Context {H : Xxhash}.
Variable strict : bool.

Lemma idles_for_each {A} (body : A -> M unit) (P : world -> Prop) :
  (forall w w', P w -> same_trees w w' -> P w') ->
  forall xs w,
    P w ->
    (forall x w', In x xs -> P w' -> idles strict (body x) tt w') ->
    idles strict (for_each xs body) tt w.
Proof.
  intros HP xs. induction xs as [ | x xs IH]; intros w Hw Hbody;
    cbn [for_each].
  - apply idles_ret.
  - apply (idles_bind _ _ _ tt).
    + apply Hbody; [left; reflexivity | exact Hw].
    + intros w' Hrun. apply IH.
      * apply (HP w); [exact Hw | ].
        destruct (Hbody x w (or_introl eq_refl) Hw) as (T & _).
        rewrite Hrun in T. exact T.
      * intros y v Hy. apply Hbody. right. exact Hy.
Qed.

Lemma idles_ext {A} (m m' : M A) (a : A) (w : world) :
  m w = m' w -> idles strict m' a w -> idles strict m a w.
Proof. unfold idles. intros ->. auto. Qed.

Lemma idles_simple_sync_file (w : world) (q : path) :
  in_sync strict w q ->
  idles strict (Simple.sync_file strict (Source, q) (Replica, q)) tt w.
Proof.
  intros Hsync.
  apply (idles_ext _ _ _ _ (simple_sync_file_decides strict _ _ w)).
  apply (idles_bind _ _ _ []).
  - apply idles_sync_file. exact Hsync.
  - intros w' _. apply idles_ret.
Qed.

Lemma idles_simple_sync_root (w : world) (y : yielded) :
  settled strict [] w y ->
  idles strict (Simple.sync_root Source Replica strict y) tt w.
Proof.
  destruct y as [[root dirs] files]. intros [Hroot Hfiles].
  cbn [fst snd] in *. unfold Simple.sync_root.
  apply (idles_bind _ _ _ true).
  { unfold idles. rewrite os_path_exists_spec. unfold node_at.
    cbn [fst snd tree]. unfold at_ in Hroot.
    destruct (lookup (rep w) root); [ | contradiction].
    split; [apply same_trees_refl | ]. split; [apply adds_b_refl | ].
    split; [auto | left; reflexivity]. }
  intros w' Hex. rewrite os_path_exists_spec in Hex. injection Hex as _ <-.
  cbn [negb]. apply (idles_bind _ _ _ tt); [apply idles_ret | ].
  intros w' Hret. injection Hret as <-.
  apply (idles_for_each _
           (fun v => Forall (file_settled strict [] v root) files)).
  - intros v v' Hv [Es Er]. eapply Forall_impl; [ | exact Hv].
    intros name. apply file_settled_same; assumption.
  - exact Hfiles.
  - intros file v Hfile Hv. rewrite Forall_forall in Hv.
    destruct (Hv file Hfile) as [Hsync | []].
    unfold os_path_join. cbn [fst snd]. apply idles_simple_sync_file.
    exact Hsync.
Qed.

Lemma idles_simple_sync_directory (w : world) :
  Forall (settled strict [] w) (walk_topdown [] (src w)) ->
  idles strict (Simple.sync_directory Source Replica strict) tt w.
Proof.
  intros Hall. unfold Simple.sync_directory.
  apply (idles_bind _ _ _ w).
  { unfold idles, get. cbn [fst snd].
    split; [apply same_trees_refl | ]. split; [apply adds_b_refl | ].
    split; [auto | left; reflexivity]. }
  intros w' Hg. injection Hg as <-. cbn [tree].
  apply (idles_for_each _
           (fun v => Forall (settled strict [] v) (walk_topdown [] (src w)))).
  - intros v v' Hv T. eapply Forall_impl; [ | exact Hv].
    intros y. apply settled_nil_same. exact T.
  - exact Hall.
  - intros y v Hy Hv. rewrite Forall_forall in Hv.
    apply idles_simple_sync_root. exact (Hv y Hy).
Qed.

Lemma simple_synchronization_mirrored (w : world) :
  mirrored strict w ->
  let walk := Simple.sync_directory Source Replica strict w in
  let second := Simple.synchronization Source Replica strict w in
  (fst walk = Ok tt
   \/ (strict = true /\ reads_ok w = false /\ fst walk = Raise OSError))
  /\ adds_b is_idle_event w (snd second)
  /\ src (snd second) = src w
  /\ (forall q, at_ (rep (snd second)) q = at_ (rep w) q)
  /\ (fst walk = Ok tt -> fst second = Ok tt).
Proof.
  intros HM walk second. subst walk second.
  destruct (idles_simple_sync_directory w (proj1 HM)) as (T & E & _ & Hout).
  split; [exact Hout | ].
  rewrite simple_synchronization_phases. cbn [fst snd].
  set (hs := handlers w ++ [FileHandler; StreamHandler]).
  set (second := simple_phases Source Replica strict w).
  change (adds_b is_idle_event w (snd second)
          /\ src (snd second) = src w
          /\ (forall q, at_ (rep (snd second)) q = at_ (rep w) q)
          /\ (fst (Simple.sync_directory Source Replica strict w) = Ok tt ->
              fst second = Ok tt)).
  subst second. clear hs. unfold simple_phases, bind.
  destruct (Simple.sync_directory Source Replica strict w)
    as [[[] | e | ] wp]; cbn [fst snd] in *.
  - destruct (cleanup_replica_mirrored strict wp
                (mirrored_same strict w wp T HM))
      as (w' & Hrun & Es' & _ & Et' & Hat').
    rewrite simple_cleanup_replica, Hrun. cbn [fst snd].
    destruct T as [Es Er]. split.
    { apply (adds_b_trans _ _ _ _ E).
      exists []. rewrite Et', app_nil_r. split; [reflexivity | constructor]. }
    split; [congruence | ]. split; [ | reflexivity].
    intros q. rewrite Hat', Er. reflexivity.
  - destruct T as [Es Er]. split; [exact E | ]. split; [exact Es | ].
    split; [intros q; rewrite Er; reflexivity | ].
    destruct Hout as [Hx | (_ & _ & Hx)]; discriminate.
  - destruct T as [Es Er]. split; [exact E | ]. split; [exact Es | ].
    split; [intros q; rewrite Er; reflexivity | discriminate].
Qed.

End SimpleIdle.

(** A pass of the simple script brings the replica in line with the
    source.  On well-formed trees where no directory of the replica stands
    at the path of a source file, after a pass that returns and reports no
    failed copy: the source is as before; every file of the source is in
    the replica, with the same modification time and size (and, in strict
    mode, the same digest); every directory of the source has an entry at
    its path in the replica; and the replica holds nothing that the source
    does not have. *)
Theorem simple_pass_converges {H : Xxhash} (strict : bool) (w w1 : world) :
  wf (src w) = true ->
  wf (rep w) = true ->
  (forall q m d, at_ (src w) q = IsFile m d -> at_ (rep w) q <> IsDir) ->
  Simple.synchronization Source Replica strict w = (Ok tt, w1) ->
  existsb copy_failed (since w w1) = false ->
  src w1 = src w
  /\ (forall q m d,
        q <> [] -> at_ (src w) q = IsFile m d ->
        exists d', at_ (rep w1) q = IsFile m d'
                   /\ List.length d' = List.length d
                   /\ (strict = true ->
                       digest_of 4096 d' = digest_of 4096 d))
  /\ (forall q, at_ (src w) q = IsDir -> at_ (rep w1) q <> Absent)
  /\ (forall q, q <> [] -> at_ (rep w1) q <> Absent -> at_ (src w) q <> Absent)
  /\ wf (rep w1) = true.
Proof.
  intros Hws Hwr Hk Hrun Hnf.
  destruct (simple_first_pass_mirrors strict w w1 Hws Hwr Hk Hrun Hnf)
    as ((M1 & M2 & M3) & Es).
  rewrite Es in M1, M2. rewrite Forall_forall in M1.
  split; [exact Es | ]. split; [ | split; [ | split; [exact M2 | exact M3]]].
  - intros q m d Hq Hs. destruct (path_snoc q Hq) as (p & name & ->).
    apply at_IsFile in Hs. destruct (lookup_snoc _ _ _ _ Hs) as (es & Hp & Ha).
    destruct (M1 _ (walk_topdown_listing p _ [] es Hp)) as [_ Hfiles].
    cbn [fst snd app] in Hfiles. rewrite Forall_forall in Hfiles.
    pose proof (In_names_kind _ _ _ (assoc_In _ _ _ Ha)) as Hname.
    cbn [is_dir] in Hname.
    destruct (Hfiles name Hname) as [(m0 & d0 & d' & S1 & R1 & L1 & D1) | []].
    rewrite Es in S1. apply at_IsFile in S1. rewrite Hs in S1.
    injection S1 as <- <-. eauto.
  - intros q Hq. apply at_IsDir in Hq. destruct Hq as (es & Hq).
    destruct (M1 _ (walk_topdown_listing q _ [] es Hq)) as [Hroot _].
    exact Hroot.
Qed.

Lemma simple_pass_converges_witness :
  let H := sample_xxhash in
  let w := sample_world sample_source sample_replica late_success in
  let w1 := snd (Simple.synchronization Source Replica true w) in
  (wf (src w) = true /\ wf (rep w) = true
   /\ no_dir_for_file (src w) (rep w) = true
   /\ Simple.synchronization Source Replica true w = (Ok tt, w1)
   /\ existsb copy_failed (since w w1) = false)
  /\ src w1 = src w
  /\ (forall q m d,
        q <> [] -> at_ (src w) q = IsFile m d ->
        exists d', at_ (rep w1) q = IsFile m d'
                   /\ List.length d' = List.length d
                   /\ (true = true ->
                       digest_of 4096 d' = digest_of 4096 d))
  /\ (forall q, at_ (src w) q = IsDir -> at_ (rep w1) q <> Absent)
  /\ (forall q, q <> [] -> at_ (rep w1) q <> Absent -> at_ (src w) q <> Absent)
  /\ wf (rep w1) = true.
Proof.
  intros H w w1.
  assert (Hsource : wf (src w) = true) by (vm_compute; reflexivity).
  assert (Hreplica : wf (rep w) = true) by (vm_compute; reflexivity).
  assert (Hkinds : no_dir_for_file (src w) (rep w) = true)
    by (vm_compute; reflexivity).
  assert (Hrun : Simple.synchronization Source Replica true w = (Ok tt, w1))
    by (vm_compute; reflexivity).
  assert (Hcopies : existsb copy_failed (since w w1) = false)
    by (vm_compute; reflexivity).
  split; [auto | ].
  exact (simple_pass_converges true w w1 Hsource Hreplica
           (no_dir_for_file_spec _ _ Hkinds) Hrun Hcopies).
Defined.

(** Two passes of the simple script in a row.  After a pass that returns
    and reports no failed copy, on well-formed trees where no directory of
    the replica stands at the path of a source file, a second pass copies
    nothing and deletes nothing (in strict mode it reads digests, and that
    is all it records) and leaves the replica as it is.  It returns, unless
    it compares digests and a read fails. *)
Theorem simple_second_pass_idle {H : Xxhash} (strict : bool) (w w1 : world) :
  wf (src w) = true ->
  wf (rep w) = true ->
  (forall q m d, at_ (src w) q = IsFile m d -> at_ (rep w) q <> IsDir) ->
  Simple.synchronization Source Replica strict w = (Ok tt, w1) ->
  existsb copy_failed (since w w1) = false ->
  let second := Simple.synchronization Source Replica strict w1 in
  (exists t, trace (snd second) = trace w1 ++ t
             /\ Forall (fun e => is_idle_event e = true) t)
  /\ (forall q, at_ (rep (snd second)) q = at_ (rep w1) q)
  /\ src (snd second) = src w1
  /\ (strict = false \/ reads_ok w1 = true -> fst second = Ok tt).
Proof.
  intros Hws Hwr Hk Hrun Hnf second.
  destruct (simple_first_pass_mirrors strict w w1 Hws Hwr Hk Hrun Hnf)
    as (HM & _).
  destruct (simple_synchronization_mirrored strict w1 HM)
    as (Hout & E & Es2 & Hat & Hok).
  fold second in E, Es2, Hat, Hok.
  split; [exact E | ]. split; [exact Hat | ]. split; [exact Es2 | ].
  intros Hcase. apply Hok.
  destruct Hout as [Hx | (Hs & Hr & _)]; [exact Hx | ].
  destruct Hcase; congruence.
Qed.

Lemma simple_second_pass_idle_witness :
  let H := sample_xxhash in
  let w := sample_world sample_source sample_replica late_success in
  let w1 := snd (Simple.synchronization Source Replica true w) in
  let second := Simple.synchronization Source Replica true w1 in
  (wf (src w) = true /\ wf (rep w) = true
   /\ no_dir_for_file (src w) (rep w) = true
   /\ Simple.synchronization Source Replica true w = (Ok tt, w1)
   /\ existsb copy_failed (since w w1) = false)
  /\ (exists t, trace (snd second) = trace w1 ++ t
                /\ Forall (fun e => is_idle_event e = true) t)
  /\ (forall q, at_ (rep (snd second)) q = at_ (rep w1) q)
  /\ src (snd second) = src w1
  /\ (true = false \/ reads_ok w1 = true -> fst second = Ok tt).
Proof.
  intros H w w1 second.
  assert (Hsource : wf (src w) = true) by (vm_compute; reflexivity).
  assert (Hreplica : wf (rep w) = true) by (vm_compute; reflexivity).
  assert (Hkinds : no_dir_for_file (src w) (rep w) = true)
    by (vm_compute; reflexivity).
  assert (Hrun : Simple.synchronization Source Replica true w = (Ok tt, w1))
    by (vm_compute; reflexivity).
  assert (Hcopies : existsb copy_failed (since w w1) = false)
    by (vm_compute; reflexivity).
  split; [auto | ].
  exact (simple_second_pass_idle true w w1 Hsource Hreplica
           (no_dir_for_file_spec _ _ Hkinds) Hrun Hcopies).
Defined.

(** * Reconciliation and the copy phase, once more *)

(** ** Reconciling twice *)

(** Reconciliation is idempotent.  On a well-formed replica
    [cleanup_replica] returns, and a second [cleanup_replica] right after
    it returns too, deletes nothing, logs nothing and leaves the replica
    as the first one left it.  Both scripts. *)
Theorem cleanup_replica_twice {H : Xxhash} (w : world) :
  wf (rep w) = true ->
  exists w1 w2,
    Extended.cleanup_replica Source Replica w = (Ok tt, w1)
    /\ Extended.cleanup_replica Source Replica w1 = (Ok tt, w2)
    /\ Simple.cleanup_replica Source Replica w1 = (Ok tt, w2)
    /\ trace w2 = trace w1
    /\ (forall q, at_ (rep w2) q = at_ (rep w1) q)
    /\ src w2 = src w.
Proof.
  intros Hw.
  destruct (cleanup_replica_spec w Hw) as (w1 & Hrun1 & (Es1 & _ & _) & Hat1 & Hw1).
  destruct (cleanup_replica_spec w1 Hw1) as (w2 & Hrun2 & (Es2 & _ & Et2) & Hat2 & _).
  exists w1, w2. split; [exact Hrun1 | ]. split; [exact Hrun2 | ].
  split; [rewrite simple_cleanup_replica; exact Hrun2 | ].
  assert (Hstale : forall q, q <> [] -> at_ (rep w1) q <> Absent ->
                             source_has (Some (src w1)) q = true).
  { intros q Hq. rewrite Hat1, at_prune, Es1.
    destruct q as [ | b q]; [contradiction | ].
    destruct (source_has (Some (src w)) (b :: q)); [reflexivity | contradiction]. }
  split; [ | split; [ | congruence]].
  - rewrite Et2, (removal_events_none _ _ _ Hw1 Hstale). apply app_nil_r.
  - intros q. rewrite Hat2, at_prune. destruct q as [ | b q]; [reflexivity | ].
    destruct (source_has (Some (src w1)) (b :: q)) eqn:E; [reflexivity | ].
    destruct (at_ (rep w1) (b :: q)) eqn:Er; try reflexivity;
      rewrite Hstale in E; try discriminate; rewrite Er; discriminate.
Qed.

Lemma cleanup_replica_twice_witness :
  let H := sample_xxhash in
  let w := sample_world sample_source sample_replica [] in
  wf (rep w) = true
  /\ exists w1 w2,
       Extended.cleanup_replica Source Replica w = (Ok tt, w1)
       /\ Extended.cleanup_replica Source Replica w1 = (Ok tt, w2)
       /\ Simple.cleanup_replica Source Replica w1 = (Ok tt, w2)
       /\ trace w2 = trace w1
       /\ (forall q, at_ (rep w2) q = at_ (rep w1) q)
       /\ src w2 = src w.
Proof.
  intros H w.
  assert (Hw : wf (rep w) = true) by (vm_compute; reflexivity).
  split; [exact Hw | ]. exact (cleanup_replica_twice w Hw).
Defined.

(** ** The directories the planner creates *)

Section PlannerDirectories.
Context {H : Xxhash}.
Variable strict : bool.
Variable w0 : world.
Hypothesis wf_source : wf (src w0) = true.

Lemma planner_directories tasks (wp : world) :
  Extended.sync_directory Source Replica strict w0 = (Ok tasks, wp) ->
  planned strict w0 [] [] wp
  /\ Forall (fun y : yielded => at_ (rep wp) (fst (fst y)) <> Absent)
       (walk_topdown [] (src w0)).
Proof.
  unfold Extended.sync_directory. intros Hrun.
  apply bind_Ok in Hrun. destruct Hrun as (v & w1 & Hg & Hrun).
  injection Hg as <- <-. cbn [tree] in Hrun.
  pose (I := fun (done : list yielded) (_ : list (fpath * fpath)) (v : world) =>
               planned strict w0 [] [] v
               /\ Forall (fun y : yielded => at_ (rep v) (fst (fst y)) <> Absent)
                    done).
  refine (for_fold_inv _ I _ [] [] w0 tasks wp _ _ Hrun).
  2:{ split; [apply planned_start | constructor]. }
  intros done y ts v ts' v' Hy [HP Hdone] Hroot.
  destruct (walk_topdown_sound _ [] y wf_source Hy) as (rest & Ey & Hdir & _).
  destruct y as [[root dirs] files]. cbn [fst snd app] in *. subst rest.
  unfold Extended.sync_root in Hroot.
  apply bind_Ok in Hroot. destruct Hroot as (e & w1 & He & Hroot).
  rewrite os_path_exists_spec in He. injection He as <- <-.
  apply bind_Ok in Hroot. destruct Hroot as ([] & v1 & Hmk & Hroot).
  assert (H1 : planned strict w0 [] [] v1
               /\ only_new_dirs v v1
               /\ at_ (rep v1) root <> Absent).
  { unfold node_at in Hmk. cbn [fst snd tree] in Hmk.
    destruct (lookup (rep v) root) as [n | ] eqn:Hl; cbn [negb] in Hmk.
    - apply ret_Ok in Hmk. destruct Hmk as [_ ->]. split; [exact HP | ].
      split; [apply only_new_dirs_refl | ].
      unfold at_. rewrite Hl. destruct n; discriminate.
    - destruct (planned_makedirs strict w0 [] [] v v1 root Hdir HP Hmk)
        as [HP1 Hd].
      split; [exact HP1 | ]. split; [ | rewrite Hd; discriminate].
      pose proof (only_new_dirs_os_makedirs root v) as Hn.
      rewrite Hmk in Hn. exact Hn. }
  destruct H1 as (HP1 & Hn & Hpresent).
  assert (Hsame : same_trees v1 v').
  { assert (Hloop : steps same_trees
              (for_fold files ts
                 (fun file_tasks file =>
                    Extended.sync_file strict (os_path_join (Source, root) file)
                      (os_path_join (Replica, root) file) file_tasks))).
    { apply steps_for_fold;
        [exact same_trees_refl | exact same_trees_trans | ].
      intros acc file. apply same_trees_extended_sync_file. }
    specialize (Hloop v1). rewrite Hroot in Hloop. exact Hloop. }
  destruct Hsame as [Es Er]. split.
  - exact (planned_same strict w0 [] [] v1 v' Es Er HP1).
  - rewrite Er. apply Forall_app. split.
    + eapply Forall_impl; [ | exact Hdone]. intros y.
      apply present_grown. exact Hn.
    + constructor; [exact Hpresent | constructor].
Qed.

End PlannerDirectories.



(** ** One record for every task *)

Definition is_info (e : event) : bool :=
  match e with EvInfo _ => true | _ => false end.

(** What [copy_validate] may return for the task [t]. *)
Definition outcome_of (t : fpath * fpath) (msg : message) : Prop :=
  msg = MsgCopied (fst t) (snd t) \/ msg = MsgFailed (fst t) max_retries.

Lemma retry_model_message {H : Xxhash} (o r : fpath) (a b : message)
    (n : nat) : forall w,
  fst (retry_model o r a b n w) = a \/ fst (retry_model o r a b n w) = b.
Proof.
  induction n as [ | n IH]; intros w; cbn [retry_model]; [right; reflexivity | ].
  destruct (attempt o r w) as [[[ | ] | e | ] w1]; cbn [fst];
    try apply IH. left. reflexivity.
Qed.

Lemma extended_copy_validate_events {H : Xxhash} o r :
  steps (adds_b is_attempt_event) (Extended.copy_validate o r).
Proof.
  apply steps_extended_copy_validate;
    [apply adds_b_refl | apply adds_b_trans | | | ]; auto with steps_db.
Qed.

Lemma filter_info_attempts (t : list event) :
  Forall (fun e => is_attempt_event e = true) t -> filter is_info t = [].
Proof.
  induction 1 as [ | e t He _ IH]; [reflexivity | ].
  cbn [filter]. rewrite IH. destruct e; try discriminate He; reflexivity.
Qed.

Lemma filter_info_results (msgs : list message) :
  filter is_info (map EvInfo msgs) = map EvInfo msgs.
Proof.
  induction msgs as [ | msg msgs IH]; [reflexivity | ].
  cbn [map filter is_info]. rewrite IH. reflexivity.
Qed.

(** One task: it returns its message and adds events of its attempts. *)
Lemma copy_validate_runs {H : Xxhash} (t : fpath * fpath) (w : world) :
  exists msg w1 ta,
    Extended.copy_validate (fst t) (snd t) w = (Ok msg, w1)
    /\ outcome_of t msg
    /\ trace w1 = trace w ++ ta
    /\ filter is_info ta = [].
Proof.
  destruct (extended_copy_validate_events (fst t) (snd t) w) as (ta & Eta & Hall).
  rewrite extended_copy_validate_model in *.
  pose proof (retry_model_message (fst t) (snd t) (MsgCopied (fst t) (snd t))
                (MsgFailed (fst t) max_retries) 4 w) as Hmsg.
  destruct (retry_model _ _ _ _ _ _) as [msg w1]. cbn [fst snd] in *.
  exists msg, w1, ta. split; [reflexivity | ]. split; [exact Hmsg | ].
  split; [exact Eta | exact (filter_info_attempts _ Hall)].
Qed.

Lemma copy_tasks_sequential {H : Xxhash} (tasks : list (fpath * fpath)) :
  forall (w : world),
  exists msgs w' t,
    for_each tasks
      (fun '(s, d) => result <- Extended.copy_validate s d ;; log_info result) w
    = (Ok tt, w')
    /\ trace w' = trace w ++ t
    /\ filter is_info t = map EvInfo msgs
    /\ Forall2 outcome_of tasks msgs.
Proof.
  induction tasks as [ | [s d] tasks IH]; intros w.
  - exists [], w, []. cbn. rewrite app_nil_r. repeat split; constructor.
  - destruct (copy_validate_runs (s, d) w) as (msg & w1 & ta & Hrun & Hout & Eta & Hta).
    cbn [fst snd] in Hrun.
    destruct (IH (set_trace (trace w1 ++ [EvInfo msg]) w1))
      as (msgs & w' & t & Hrest & Et & Ht & Hall).
    exists (msg :: msgs), w', (ta ++ [EvInfo msg] ++ t).
    split.
    { cbn [for_each]. unfold bind. rewrite Hrun.
      unfold log_info, emit. exact Hrest. }
    split.
    { rewrite Et. cbn [trace set_trace]. rewrite Eta, <- !app_assoc.
      reflexivity. }
    split; [ | constructor; assumption].
    rewrite !filter_app, Hta, Ht. reflexivity.
Qed.

Lemma copy_tasks_pooled {H : Xxhash} (tasks : list (fpath * fpath)) :
  forall (w : world),
  exists msgs w' t,
    for_map tasks (fun '(s, d) => Extended.copy_validate s d) w = (Ok msgs, w')
    /\ trace w' = trace w ++ t
    /\ filter is_info t = []
    /\ Forall2 outcome_of tasks msgs.
Proof.
  induction tasks as [ | [s d] tasks IH]; intros w.
  - exists [], w, []. cbn. rewrite app_nil_r. repeat split; constructor.
  - destruct (copy_validate_runs (s, d) w) as (msg & w1 & ta & Hrun & Hout & Eta & Hta).
    cbn [fst snd] in Hrun.
    destruct (IH w1) as (msgs & w' & t & Hrest & Et & Ht & Hall).
    exists (msg :: msgs), w', (ta ++ t).
    split.
    { cbn [for_map]. unfold bind. rewrite Hrun, Hrest. reflexivity. }
    split; [rewrite Et, Eta, <- app_assoc; reflexivity | ].
    split; [ | constructor; assumption].
    rewrite filter_app, Hta, Ht. reflexivity.
Qed.

(** The copy phase of the extended script never stops half-way.  Once the
    pool is accepted (with multiprocessing: a size of one at least and, on
    Windows, of 61 at most), it returns normally whatever the faults,
    having run every task; a failed task does not keep the later ones from
    running.  [log.info] is called exactly once per task, in the order of
    the tasks, with the success message or the failure message of that
    task, and for nothing else.  The phase leaves the handlers of the
    logger as they are: each of these calls is written once by every
    handler the pass has set up or found. *)
Theorem copy_phase_reports_every_task {H : Xxhash} (multi : bool)
    (procnum : Z) (tasks : list (fpath * fpath)) (w : world) :
  (multi = true -> pool_accepts (sys_platform w) procnum = true) ->
  let res := Extended.copy_tasks multi procnum tasks w in
  exists msgs,
    fst res = Ok tt
    /\ filter is_info (since w (snd res)) = map EvInfo msgs
    /\ Forall2 outcome_of tasks msgs
    /\ handlers (snd res) = handlers w.
Proof.
  intros Hpos res. subst res.
  pose proof (proj2 (same_host_copy_tasks multi procnum tasks w)) as Hh.
  unfold Extended.copy_tasks in Hh |- *. destruct multi.
  - unfold bind in Hh |- *.
    rewrite process_pool_spec, (Hpos eq_refl) in Hh |- *.
    destruct (copy_tasks_pooled tasks (set_trace (trace w ++ [EvPool procnum]) w))
      as (msgs & w' & t & Hrun & Et & Ht & Hall).
    rewrite Hrun, for_each_log_info in Hh |- *. cbn [fst snd] in Hh |- *.
    exists msgs. split; [reflexivity | ]. split; [ | split; [exact Hall | exact Hh]].
    rewrite (since_app w _ ([EvPool procnum] ++ t ++ map EvInfo msgs)).
    + rewrite !filter_app, Ht, filter_info_results. reflexivity.
    + cbn [trace set_trace]. rewrite Et. cbn [trace set_trace].
      rewrite <- !app_assoc. reflexivity.
  - destruct (copy_tasks_sequential tasks w) as (msgs & w' & t & Hrun & Et & Ht & Hall).
    rewrite Hrun in Hh |- *. cbn [fst snd] in Hh |- *. exists msgs.
    split; [reflexivity | ]. split; [ | split; [exact Hall | exact Hh]].
    rewrite (since_app w w' t Et). exact Ht.
Qed.

Lemma copy_phase_reports_every_task_witness :
  let H := sample_xxhash in
  let w := sample_world sample_source sample_replica four_failures in
  let tasks := [((Source, a_txt), (Replica, a_txt));
                ((Source, ["docs"; "readme.txt"]%string),
                 (Replica, ["readme.txt"%string]))] in
  let res := Extended.copy_tasks true 2 tasks w in
  (true = true -> pool_accepts (sys_platform w) 2 = true)
  /\ exists msgs,
       fst res = Ok tt
       /\ filter is_info (since w (snd res)) = map EvInfo msgs
       /\ Forall2 outcome_of tasks msgs
       /\ handlers (snd res) = handlers w.
Proof.
  intros H w tasks res. split; [reflexivity | ].
  apply (copy_phase_reports_every_task true 2 tasks w). reflexivity.
Defined.

(** ** The handlers of the logger *)

